(* ===== verification/_CoqProject ===== *)
-Q . S2P
Prelude.v
Io.v
Event.v
Crypto.v
Buf.v
Stream.v
Session.v
EventLoop.v
SessionTasks.v
Join.v
FlowControl.v
Life.v
System.v
Delivery.v
Ws.v
Text.v
Tls.v
Handshake.v
Http.v
Conn.v
Socks5.v
Relay.v
Duplex.v
MuxRelay.v
Tunnel.v
Supervisor.v
Heartbeat.v
Serve.v
Forward.v
Net.v
Local.v
Server.v
Program.v
