(* ===== verification/Prelude.v ===== *)
(** * rsnova: a verification development

    rsnova is a proxy: local listeners take SOCKS5, HTTP and TLS clients, and
    relay each connection to its target, directly or over one stream of an
    encrypted session multiplexed on a TCP or WebSocket connection to a peer
    of the same program.  This library models the code that decides what
    bytes go where, and proves it correct, or states exactly where it is not.

    ** The parts and their files

    - Prelude: outcomes ([result]: value, error, panic), machine integers with
      their wrap-around (the program is built in release mode), slices,
      automation, the invariant rule.
    - Io (utils/io.rs): an asynchronous byte stream as a script of what its
      environment does; [BufCopy] and [read_until_separator] over it.
    - Event (rmux/event.rs, message.rs): the frame header, packed in 32 bits,
      and the constructors of events.
    - Crypto (rmux/crypto.rs): cipher contexts, [encrypt], [decrypt], and the
      reading of one event from a stream.
    - Buf (utils/buf.rs): [fill_read_buf] and the frame queue [VBuf].
    - Stream (rmux/stream.rs): the two ends of a stream over the cell that
      they share with their session.
    - Session (rmux/session.rs, first half): the table of sessions.
    - EventLoop (rmux/session.rs): [process_event], the task that owns the
      streams of a session.
    - SessionTasks (rmux/session.rs): the tasks that write to and read from the
      socket, and the start and end of a session.
    - Join (rmux/session.rs, [process_rmux_session]): these tasks side by side,
      step by step from one await to the next, over their bounded channels and
      the flag they share.
    - FlowControl: the reachable states of one direction of a stream between
      two ends, whose steps are the operations of Stream.
    - Life: the life of one stream as its two ends see it, an abstract machine;
      System: the event tasks of the two ends of a session, with their event
      channels and wires, as a step relation that implements it.
    - Delivery: the data of one stream across both ends, from the event task
      that sends it to the data channel that its reader reads.
    - Ws (utils/ws.rs): the WebSocket transport of a session.
    - Text: what the tunnels use of Rust strings.
    - Conn: the monad of dialogues with a client.
    - Tls, Http, Socks5 (tunnel/): the proxies up to their relay.
    - Handshake (channel/rmux.rs, tunnel/rmux.rs, tunnel/ws.rs): the opening
      exchange of a session.
    - Relay (tunnel/relay.rs, channel/, config/): the choice of a channel, the
      two joined copies, the clients and the ping of a tick.
    - Duplex (utils/io.rs): the copy between any two ends, which may share
      what is behind them; MuxRelay (tunnel/relay.rs over rmux/stream.rs): the
      relay whose remote end is a stream, its reader and its writer behind one
      cell, between turns of the event task; Tunnel: two of these relays at the
      two ends of a session, a tunnel from end to end.
    - Supervisor (channel/routine.rs): [routine_channels] as a machine, with
      the clients it starts, the rounds it sends and the sessions around it;
      Heartbeat: a round on each session, and its rounds over time.
    - Serve (rmux/session.rs, [handle_rmux_stream]): the task that serves a
      stream of the peer.
    - Forward (tunnel/relay.rs, [relay_connection]): the whole of a relay, from
      the rules through the bytes read ahead to the closing of both
      connections, over a direct connection as in Relay or over a stream as in
      MuxRelay.
    - Net (utils/net.rs, net2.rs): the adapters between the polling traits, the
      original destination, the tunnel through an HTTP proxy.
    - Local (tunnel/local.rs): what a listener does with a new connection,
      from the peeked bytes through a proxy to the relay.
    - Server (tunnel/local.rs, channel/rmux.rs): listening
      ([start_tunnel_server]) and dialling ([init_rmux_client]).
    - Program (bin/main.rs, lib.rs, config/): from the command line to the
      tunnel servers and the routine.

    A client's bytes pass Local, a proxy and Relay; on a multiplexed channel
    they become DATA events (Stream), are numbered and sealed by the event
    task (EventLoop, Crypto), batched and written (SessionTasks, Buf), and on
    the other side read, opened, handed to the event task and to the reader of
    the stream, which Serve relays to the target.  Program starts the
    listeners and the Supervisor, which keeps the sessions that all this runs
    over, and finds the dead ones.

    ** How the code is represented

    Shared objects are explicit: a [World] holds the session table, the states
    of the sessions and the cells of the streams, each under a number that
    stands for its [Arc]; a clone copies the number.  Handlers take and return
    the world and a list of effects (frames sent, wake-ups, spawned relays).
    A task is a function of the list of its turns, each turn with what its
    environment answers (time, whether a channel takes a message); tasks that
    run side by side are composed by the events they exchange, and the
    interleavings that matter are step relations: between the three
    tasks of a session that of Join; between the two ends of a
    stream that of FlowControl, where [poll_write] is two steps because the
    code does not hold a lock between its test and its waiting; between the two
    ends of a session that of System, whose wires deliver by
    [session_link_delivers], where the manager does not retire the session
    ([System.retired_stream_lost] says why) and the other tasks of an end may
    send any event but a SYN, and a FIN of the streams they hold.  A step of the
    Supervisor is what happens between two awaits of [routine_channels], or one
    thing that a client, a session or another sender does; a tick reads the
    table once.  An awaited
    read is [Io.read]: it answers the next bytes the environment delivers.

    Loops without a structural measure take fuel, and a theorem gives the fuel
    that is enough: [Io.copy_loop_total], [Io.read_until_loop_total],
    [Crypto.event_stream_reassembled], [Tls.scan_total],
    [Relay.relay_stream_delivers]; [None] is always "still running".

    Parameters, as classes with laws that state their documented behaviour:
    the ciphers of ring and skip32 (opening inverts sealing, lengths, skip32 a
    permutation), bincode (deserialising inverts serialising), httparse, the
    search of twoway, the allocation of [BytesMut], the upper case of
    non-ASCII text, regular expressions, URLs, the message sink of a WebSocket,
    the TCP connect and the TLS and WebSocket handshakes, the command line
    parser, the file system, the TOML parser and the logger.  Each file that uses
    one has a concrete instance for its examples.

    ** What is shown

    - Transport: what one event task sends is what the other side's receiving
      task hands on, in order and complete ([session_link_delivers]), from the
      round trip of [encrypt] and [decrypt] and their behaviour on partial
      input, the framing of a stream cut anywhere, the sender's queue, the
      freshness of nonces, and the handshake that mirrors the contexts; over a
      WebSocket, whose reader is a byte source ([ws_reader_is_source]), frames
      that travel as one message each arrive whole ([ws_session_reads]), and a
      write that had to wait is repeated ([ws_write_repeats]).
    - Streams: bytes are neither lost, duplicated nor reordered and the credit
      of the window never grows, and is conserved unless a report is lost
      ([flow_control_sound]); with reports that are
      sent and wake-ups that are not raced no state is stuck
      ([flow_never_stalls]); without these it can be ([unsent_report_stalls],
      [wakeup_lost]).  What one event task sends for a stream is what the other
      one puts into its data channel, in order, until its FIN
      ([data_crosses_session]).
    - Tasks: however they interleave, the event task of a session is
      [process_event] and the socket gets what it sends
      ([session_refines_process_event]); when one task ends they all do, in a
      bounded number of steps, and full channels never block them
      ([session_winds_down]).
    - Sessions: the table keeps every session, streams are opened on live ones
      and get fresh ids, FIN and SYN do what they say, the end of a session
      closes everything, a SHUTDOWN ends it, and exactly one input panics it.
      The two ends of a session implement the life of every stream
      ([ends_refine_lives]), so they agree on the open streams up to what is
      under way ([ends_agree]) and a SYN never meets a stream it does not open
      ([syn_finds_new]); a stream of the peer is relayed to its target and
      closed when the relay is over ([peer_stream_served]), but its FIN
      overtakes its unread data ([fin_discards_unread]).
    - Set-up: what a listener serves and what stops it ([tunnel_server_serves]),
      where a client connects and how ([client_dials]).
    - Proxies: a SOCKS5, TLS or CONNECT client is recognised and relayed to the
      target it names, the last two once three bytes can be peeked; HTTP requests
      are rewritten as intended, the end of a body is seen when it ends a segment
      ([http_body_end]) and not for the first one; the parser of ClientHello ends.
    - Relaying: the rules choose the channel, and over a direct connection
      each copy is faithful whatever the other does and everything is
      delivered and shut down in the end ([connection_forwarded]).
      Over a multiplexed stream each side gets a beginning of what it is due
      ([mux_relay_faithful]) and everything is shut down when the relay is over,
      but the end of the upload ends the download ([half_close_cuts]).  From
      one end of a session to the other a tunnel conveys a beginning of what
      its client says, and all of it if no FIN cuts it ([tunnel_conveys]).  The copy of Duplex is [BufCopy]
      ([duplex_is_buf_copy]).
    - Supervision: the routine goes on or waits for a session
      ([routine_goes_on]); a tick refills every channel ([pool_refilled]) and
      none gets too many ([pool_bounded]), unless clients take longer than a
      tick ([calls_pile_up]); a round treats every session by itself
      ([round_treats_each]), a peer that falls silent is found dead in 148
      seconds while the routine ticks ([silent_peer_found_dead]), one that never answered is not
      ([heartbeat_keeps]), and a session that takes no events stops it all
      ([stalled_session_stops_routine]).
    - Start: what [main] needs and what it leaves running
      ([program_starts]).

    Theorems whose name tells of a failure (a panic, a stall, a collision)
    state defects of the code, with the states that lead there.

    ** What is not modelled

    The texts of the log ([get_streams_stat_info]), the timers themselves (a
    tick, a connection and a limit on it come as steps or answers), and the
    types that no code uses ([HttpMessage]).  A log line of [handle_socks5]
    unwraps the addresses of the socket, which panics when the client has reset
    the connection; Socks5 ends before it.  Join takes the readings of the
    socket, the answers of the socket and of the readers of the streams as they
    come, without their bytes.  A TCP connection is a script; a multiplexed
    stream is the stream of MuxRelay, with what the event task does between two
    polls given by turns.  The Supervisor sees of the tasks of a session only the events
    they take, the times they note and their end.  Next to come is a session
    that is retired or closed under the common scheduler of System. *)
From stdpp Require Import prelude gmap list strings.
From Stdlib Require Import ZArith Lia.
From Stdlib Require Strings.Byte.
From Stdlib Require Export Init.Byte.

(** ** Notations, results and panics *)

Declare Scope rsnova_scope.
Delimit Scope rsnova_scope with rsnova.

(** The outcome of a Rust computation: a value, an error value the code
    returns, or a panic (slice index out of range, failed [assert!],
    [unwrap] of [None], [panic!]). *)
Inductive result (E A : Type) : Type :=
  | Ok (a : A)
  | Err (e : E)
  | Panic.
Arguments Ok {E A} a.
Arguments Err {E A} e.
Arguments Panic {E A}.

#[export] Instance result_ret {E} : MRet (result E) := fun A a => Ok a.
#[export] Instance result_bind {E} : MBind (result E) := fun A B f m =>
  match m with Ok a => f a | Err e => Err e | Panic => Panic end.
#[export] Instance result_fmap {E} : FMap (result E) := fun A B f m =>
  match m with Ok a => Ok (f a) | Err e => Err e | Panic => Panic end.

(** A panic outcome for the code that has no error value. *)
Abbreviation partial := (result False).

(** [Poll<T>] of [std::task]. *)
Inductive poll (A : Type) : Type :=
  | Ready (a : A)
  | Pending.
Arguments Ready {A} a.
Arguments Pending {A}.

#[export] Instance byte_eq_dec : EqDecision byte := Byte.byte_eq_dec.

(** ** Machine integers

    An unsigned [w]-bit integer is a [Z] in [0 .. 2^w - 1], a signed one a
    [Z] in [-2^(w-1) .. 2^(w-1) - 1].  The program is built with
    [cargo build --release] (ci/build.sh), where arithmetic wraps. *)

Definition wrap (w z : Z) : Z := z mod 2 ^ w.
Definition swrap (w z : Z) : Z := (z + 2 ^ (w - 1)) mod 2 ^ w - 2 ^ (w - 1).

Definition u8v (b : byte) : Z := Z.of_N (Byte.to_N b).
Definition byte_of (z : Z) : byte :=
  match Byte.of_N (Z.to_N (wrap 8 z)) with Some b => b | None => x00 end.

Definition is_u (w z : Z) : Prop := (0 <= z < 2 ^ w)%Z.

Local Open Scope Z_scope.

Lemma wrap_range w z : 0 <= w -> 0 <= wrap w z < 2 ^ w.
Proof. intros. apply Z.mod_pos_bound. lia. Qed.

Lemma wrap_small w z : 0 <= z < 2 ^ w -> wrap w z = z.
Proof. apply Z.mod_small. Qed.

Lemma wrap_wrap_add w a b : 0 <= w -> wrap w (wrap w a + b) = wrap w (a + b).
Proof. intros. unfold wrap. apply Zplus_mod_idemp_l. Qed.

Lemma swrap_small w z :
  0 < w -> - 2 ^ (w - 1) <= z < 2 ^ (w - 1) -> swrap w z = z.
Proof.
  intros Hw Hz. unfold swrap.
  assert (2 ^ w = 2 * 2 ^ (w - 1)) as E by (rewrite <- Z.pow_succ_r by lia; f_equal; lia).
  rewrite E, Z.mod_small; lia.
Qed.

Lemma u8v_range b : 0 <= u8v b < 256.
Proof. unfold u8v. pose proof (Byte.to_N_bounded b). lia. Qed.

Lemma u8v_byte_of z : u8v (byte_of z) = wrap 8 z.
Proof.
  unfold u8v, byte_of. pose proof (wrap_range 8 z ltac:(lia)) as H.
  destruct (Byte.of_N (Z.to_N (wrap 8 z))) as [b|] eqn:E.
  - apply Byte.to_of_N in E. rewrite E. lia.
  - apply Byte.of_N_None_iff in E. lia.
Qed.

Lemma u8v_inj b1 b2 : u8v b1 = u8v b2 -> b1 = b2.
Proof.
  unfold u8v. intros H%N2Z.inj.
  pose proof (Byte.of_to_N b1). pose proof (Byte.of_to_N b2). congruence.
Qed.

Lemma byte_of_u8v b : byte_of (u8v b) = b.
Proof. apply u8v_inj. rewrite u8v_byte_of. apply wrap_small, u8v_range. Qed.

(** ** Little-endian and big-endian integers
    ([to_le_bytes], [from_le_bytes], [put_u32_le] of the source). *)

Fixpoint to_le (n : nat) (z : Z) : list byte :=
  match n with
  | O => []
  | S n => byte_of z :: to_le n (z / 256)
  end.

Fixpoint from_le (l : list byte) : Z :=
  match l with
  | [] => 0
  | b :: l => u8v b + 256 * from_le l
  end.

Definition be16 (hi lo : byte) : Z := Z.lor (Z.shiftl (u8v hi) 8) (u8v lo).

Lemma length_to_le n z : length (to_le n z) = n.
Proof. revert z; induction n; intros; simpl; auto. Qed.

Lemma from_le_to_le n z : from_le (to_le n z) = wrap (8 * Z.of_nat n) z.
Proof.
  revert z; induction n as [|n IH]; intros z; cbn [to_le from_le].
  - unfold wrap. now rewrite Z.mod_1_r.
  - rewrite IH, u8v_byte_of. unfold wrap.
    replace (2 ^ (8 * Z.of_nat (S n))) with (256 * 2 ^ (8 * Z.of_nat n)).
    + rewrite Z.rem_mul_r by lia. change (2 ^ 8) with 256. lia.
    + replace (8 * Z.of_nat (S n)) with (8 + 8 * Z.of_nat n) by lia.
      rewrite Z.pow_add_r by lia. reflexivity.
Qed.

Lemma from_le_range l : 0 <= from_le l < 2 ^ (8 * Z.of_nat (length l)).
Proof.
  induction l as [|b l IH]; cbn [from_le length]; [simpl; lia|].
  replace (8 * Z.of_nat (S (length l))) with (8 + 8 * Z.of_nat (length l)) by lia.
  rewrite Z.pow_add_r by lia. change (2 ^ 8) with 256.
  pose proof (u8v_range b). lia.
Qed.

Lemma to_le_from_le l : to_le (length l) (from_le l) = l.
Proof.
  induction l as [|b l IH]; cbn [from_le length to_le]; [done|].
  pose proof (u8v_range b). f_equal.
  - apply u8v_inj. rewrite u8v_byte_of. unfold wrap. change (2 ^ 8) with 256.
    rewrite Z.mul_comm, Z.mod_add by lia. apply Z.mod_small; lia.
  - rewrite Z.mul_comm, Z.div_add, Z.div_small by lia. apply IH.
Qed.

Lemma from_le_to_le_small n z :
  0 <= z < 2 ^ (8 * Z.of_nat n) -> from_le (to_le n z) = z.
Proof. intros. rewrite from_le_to_le. now apply wrap_small. Qed.

(** [(l << 8) | f] is [256 l + f] when [f] is a byte. *)
Lemma lor_shift8 l f : 0 <= f < 256 -> Z.lor (Z.shiftl l 8) f = 256 * l + f.
Proof.
  intros Hf. pose proof (Z.add_lor_land (Z.shiftl l 8) f) as E.
  rewrite Z.shiftl_mul_pow2 in * by lia. change (2 ^ 8) with 256 in *.
  enough (Z.land (l * 256) f = 0) by lia.
  apply Z.bits_inj'. intros n Hn. rewrite Z.land_spec, Z.bits_0.
  destruct (Z.lt_ge_cases n 8) as [L|L].
  - change 256 with (2 ^ 8). now rewrite Z.mul_pow2_bits_low by lia.
  - destruct (Z.eq_dec f 0) as [->|Hnz]; [now rewrite Z.bits_0, andb_false_r|].
    rewrite (Z.bits_above_log2 f), andb_false_r; [done|lia|].
    apply Z.lt_le_trans with 8; [|lia]. apply Z.log2_lt_pow2; simpl; lia.
Qed.

Lemma be16_add hi lo : be16 hi lo = 256 * u8v hi + u8v lo.
Proof. apply lor_shift8, u8v_range. Qed.

Lemma be16_range hi lo : 0 <= be16 hi lo < 65536.
Proof. rewrite be16_add. pose proof (u8v_range hi). pose proof (u8v_range lo). lia. Qed.

Local Close Scope Z_scope.

(** ** Slices: indexing panics out of range *)

Section Slices.
Context {E A : Type}.

(** [v[i]] *)
Definition index (i : nat) (l : list A) : result E A :=
  match l !! i with Some a => Ok a | None => Panic end.

(** [&v[n..]] *)
Definition slice_from (n : nat) (l : list A) : result E (list A) :=
  if decide (n <= length l) then Ok (drop n l) else Panic.

(** [&v[..n]] *)
Definition slice_to (n : nat) (l : list A) : result E (list A) :=
  if decide (n <= length l) then Ok (take n l) else Panic.

Lemma index_lt i l : i < length l -> exists a, index i l = Ok a /\ l !! i = Some a.
Proof.
  intros H. destruct (lookup_lt_is_Some_2 l i H) as [a Ha].
  exists a. unfold index. now rewrite Ha.
Qed.

Lemma slice_from_le n l : n <= length l -> slice_from n l = Ok (drop n l).
Proof. intros. unfold slice_from. now rewrite decide_True. Qed.

Lemma slice_to_le n l : n <= length l -> slice_to n l = Ok (take n l).
Proof. intros. unfold slice_to. now rewrite decide_True. Qed.

Lemma slice_to_panic n l : length l < n -> slice_to n l = Panic.
Proof. intros. unfold slice_to. now rewrite decide_False by lia. Qed.

Lemma slice_from_panic n l : slice_from n l = Panic <-> length l < n.
Proof. unfold slice_from. case_decide; split; intros; first [done | lia]. Qed.
End Slices.

(** ** Automation *)

Create HintDb rsnova.
Create Rewrite HintDb rsnova.
#[export] Hint Rewrite @length_app @length_take @length_drop @length_replicate
  length_to_le : rsnova.
#[export] Hint Resolve u8v_range be16_range : rsnova.

(** Unfold the monad of the goal and the hypotheses one step. *)
Ltac unmonad :=
  unfold mbind, mret, fmap, result_bind, result_ret, result_fmap in *; cbn beta iota in *.

(** Case on the innermost [match] or [if] of the goal, keeping equations,
    and close the contradictory cases. *)
Ltac split_match :=
  repeat (case_match; simplify_eq/=; try done).

(** Settle the decided equations the context or computation settles. *)
Ltac settle :=
  first [ done | congruence
        | let X := fresh in intros X;
          match goal with E : _ = _ |- _ => rewrite E in X; discriminate X end ].
Ltac decide_eqs :=
  repeat match goal with
  | |- context [decide (?a = ?b)] =>
      first [ rewrite (decide_True (P := a = b)) by settle
            | rewrite (decide_False (P := a = b)) by settle ]
  | E : context [decide (?a = ?b)] |- _ =>
      first [ rewrite (decide_True (P := a = b)) in E by settle
            | rewrite (decide_False (P := a = b)) in E by settle ]
  end.

(** Arithmetic on list lengths. *)
Ltac len := simpl in *; autorewrite with rsnova in *; simpl in *; lia.

(** ** Reachability *)

Section Reach.
Context {S : Type} (step : S -> S -> Prop) (init : S -> Prop).

Definition reachable (s : S) : Prop := exists s0, init s0 /\ rtc step s0 s.

(** The invariant rule: holds initially, kept by every step. *)
Lemma invariant_rule (I : S -> Prop) :
  (forall s, init s -> I s) ->
  (forall s s', I s -> step s s' -> I s') ->
  forall s, reachable s -> I s.
Proof.
  intros H0 Hs s (s0 & Hi & Hr). apply H0 in Hi. induction Hr; eauto.
Qed.
End Reach.
