(* ===== verification/Io.v ===== *)
(** * Byte streams and utils/io.rs

    The two ends of an asynchronous byte stream as the code sees them: a
    [source] answers reads, a [sink] answers writes, each following a script
    of what the environment does (data of any chunking, not ready, an error,
    end of file).  On top of them the code of src/src/utils/io.rs:
    [read_until_separator] and the [BufCopy] future that relays one
    direction of a connection. *)
From stdpp Require Import prelude strings.
From Stdlib Require Import ZArith Lia.
From S2P Require Import Prelude.

(** An I/O error is its description. *)
Abbreviation io_result := (result string).

(** [make_error] and [make_io_error]: an error of kind [Other]. *)
Definition make_error (desc : string) : string := desc.
Definition make_io_error (desc : string) : string := desc.

(** ** Sources *)

(** What the environment does at one poll. *)
Inductive arrival :=
  | Bytes (l : list byte)
  | ReadErr (e : string)
  | NotReady.

(** The script to come; when it is over the peer has closed. *)
Abbreviation source := (list arrival).

(** [poll_read] with room for [n] bytes: end of file reads 0 bytes. *)
Definition poll_read (n : nat) (s : source) : poll (io_result (list byte)) * source :=
  match s with
  | [] => (Ready (Ok []), [])
  | NotReady :: s => (Pending, s)
  | ReadErr e :: s => (Ready (Err e), s)
  | Bytes l :: s =>
      (Ready (Ok (take n l)), if decide (length l <= n) then s else Bytes (drop n l) :: s)
  end.

(** [read(..).await]: suspended until the source is ready. *)
Fixpoint read (n : nat) (s : source) : io_result (list byte) * source :=
  match s with
  | [] => (Ok [], [])
  | NotReady :: s => read n s
  | ReadErr e :: s => (Err e, s)
  | Bytes l :: s =>
      (Ok (take n l), if decide (length l <= n) then s else Bytes (drop n l) :: s)
  end.

(** The bytes a source delivers. *)
Definition arrival_bytes (a : arrival) : list byte :=
  match a with Bytes l => l | _ => [] end.
Definition stream (s : source) : list byte := mjoin (arrival_bytes <$> s).
Arguments stream : simpl never.

(** A source without errors and without empty reads other than end of file. *)
Definition live (a : arrival) : Prop :=
  match a with Bytes l => l <> [] | ReadErr _ => False | NotReady => True end.
Definition healthy (s : source) : Prop := Forall live s.
#[export] Instance live_dec a : Decision (live a).
Proof. destruct a; simpl; apply _. Defined.

(** Bounds the reads a source can answer before it is over. *)
Fixpoint weight (s : source) : nat :=
  match s with [] => O | a :: s => S (length (arrival_bytes a) + weight s) end.

Lemma stream_cons a s : stream (a :: s) = arrival_bytes a ++ stream s.
Proof. done. Qed.

Lemma healthy_cons a s : healthy (a :: s) <-> live a /\ healthy s.
Proof. apply Forall_cons. Qed.

Lemma healthy_drop l n s :
  n < length l -> healthy (Bytes l :: s) -> healthy (Bytes (drop n l) :: s).
Proof.
  rewrite !healthy_cons. simpl. intros Hn [_ ?]; split; [|done].
  intros E%(f_equal length). rewrite length_drop in E. simpl in E. lia.
Qed.

(** What one awaited read of a healthy source does: it delivers a non-empty
    prefix of what is left, or end of file when nothing is left. *)
Lemma read_healthy n s r s' :
  0 < n -> healthy s -> read n s = (r, s') ->
  exists l, r = Ok l /\ length l <= n /\ stream s = l ++ stream s' /\ healthy s'
    /\ (l = [] -> stream s = []) /\ (l <> [] -> weight s' < weight s).
Proof.
  intros Hn. induction s as [|[l|e|] s IH]; simpl; intros Hs E.
  - simplify_eq. exists []; split_and!; try done; simpl; lia.
  - apply healthy_cons in Hs as Hs'; destruct Hs' as [Hl Hs']. simpl in Hl.
    exists (take n l). rewrite stream_cons. case_decide; simplify_eq.
    + rewrite take_ge by done. simpl. split_and!; auto; [done|lia].
    + split_and!; [done|len|..].
      * rewrite stream_cons; simpl. by rewrite app_assoc, take_drop.
      * apply healthy_drop; [lia|done].
      * destruct l, n; simpl; try done; lia.
      * intros _. simpl. rewrite length_drop. destruct l; [done|]. simpl; lia.
  - apply healthy_cons in Hs as [[] _].
  - apply healthy_cons in Hs as [_ Hs]. destruct (IH Hs E) as (x & ? & ? & ? & ? & ? & Hw).
    exists x; split_and!; auto. intros Hx; specialize (Hw Hx); lia.
Qed.

(** [read_exact(&mut [0; n]).await] of tokio: it fails when the stream ends
    before [n] bytes, and what it read by then is lost. *)
Fixpoint read_exact (n : nat) (s : source) : io_result (list byte) * source :=
  if decide (n = 0) then (Ok [], s)
  else
    match s with
    | [] => (Err "early eof"%string, [])
    | NotReady :: s => read_exact n s
    | ReadErr e :: s => (Err e, s)
    | Bytes [] :: s => (Err "early eof"%string, s)
    | Bytes l :: s =>
        if decide (n < length l) then (Ok (take n l), Bytes (drop n l) :: s)
        else let '(r, s) := read_exact (n - length l) s in
             (match r with Ok r => Ok (l ++ r) | r => r end, s)
    end.

Lemma read_exact_healthy n s :
  healthy s ->
  if decide (n <= length (stream s))
  then exists s', read_exact n s = (Ok (take n (stream s)), s') /\
         stream s' = drop n (stream s) /\ healthy s'
  else exists s', read_exact n s = (Err "early eof"%string, s').
Proof.
  revert n. induction s as [|[l|e|] s IH]; intros n Hs.
  - destruct n; simpl; [|by eexists]. by eexists.
  - apply healthy_cons in Hs as Hs'; destruct Hs' as [Hl Hs']. simpl in Hl.
    rewrite stream_cons. cbn [arrival_bytes]. cbn [read_exact].
    destruct (decide (n = 0)) as [->|Hn].
    { rewrite decide_True by lia. by eexists. }
    destruct l as [|b l]; [done|]. set (x := b :: l) in *.
    destruct (decide (n < length x)).
    + rewrite decide_True by (rewrite length_app; lia). eexists. split; [by rewrite take_app_le by lia|].
      rewrite stream_cons, drop_app_le by lia. split; [done|]. by apply healthy_drop.
    + specialize (IH (n - length x) Hs'). rewrite length_app. case_decide as Hc; case_decide as Hd; try lia.
      * destruct IH as (s' & -> & E & ?). exists s'. rewrite take_app_ge, drop_app_ge by lia. done.
      * destruct IH as (s' & ->). by eexists.
  - apply healthy_cons in Hs as [[] _].
  - apply healthy_cons in Hs as [_ Hs]. rewrite stream_cons. cbn [read_exact arrival_bytes app].
    destruct (decide (n = 0)) as [->|Hn].
    { rewrite decide_True by lia. eexists. split; [done|]. rewrite stream_cons. split; [done|]. by constructor. }
    by apply IH.
Qed.

Lemma read_exact_length n s :
  match read_exact n s with
  | (Ok l, _) => length l = n
  | (Err _, _) => True
  | (Panic, _) => False
  end.
Proof.
  revert n. induction s as [|[[|b l]|e|] s IH]; intros n; cbn [read_exact];
    (destruct (decide (n = 0)) as [->|Hn]; [done|]); try done; [|apply IH].
  destruct (decide (n < length (b :: l))).
  - rewrite length_take. simpl in *. lia.
  - specialize (IH (n - length (b :: l))). destruct (read_exact _ s) as [[r|e|] s']; try done.
    rewrite length_app. lia.
Qed.

(** ** Sinks *)

Inductive acceptance :=
  | Accept (n : nat)
  | WriteErr (e : string)
  | Full.

(** The script of the writes and of the flushes to come, and what was
    written; a script that is over accepts everything. *)
Record sink := { writes : list acceptance; flushes : list acceptance; written : list byte }.

Definition sink_put (w : sink) (ws : list acceptance) (l : list byte) : sink :=
  {| writes := ws; flushes := w.(flushes); written := w.(written) ++ l |}.

Definition poll_write (l : list byte) (w : sink) : poll (io_result nat) * sink :=
  match w.(writes) with
  | [] => (Ready (Ok (length l)), sink_put w [] l)
  | Accept n :: ws => (Ready (Ok (min n (length l))), sink_put w ws (take n l))
  | WriteErr e :: ws => (Ready (Err e), sink_put w ws [])
  | Full :: ws => (Pending, sink_put w ws [])
  end.

Definition poll_flush (w : sink) : poll (io_result unit) * sink :=
  let next fs := {| writes := w.(writes); flushes := fs; written := w.(written) |} in
  match w.(flushes) with
  | [] => (Ready (Ok tt), w)
  | Accept _ :: fs => (Ready (Ok tt), next fs)
  | WriteErr e :: fs => (Ready (Err e), next fs)
  | Full :: fs => (Pending, next fs)
  end.

Lemma poll_write_spec l w r w' :
  poll_write l w = (r, w') ->
  exists i, i <= length l /\ written w' = written w ++ take i l /\
    (forall n, r = Ready (Ok n) -> n = i) /\
    (r = Pending -> i = 0) /\ (forall e, r = Ready (Err e) -> i = 0) /\ r <> Ready Panic.
Proof.
  unfold poll_write. destruct w as [[|[n|e|] ws] fs wr]; simpl; intros; simplify_eq; simpl.
  - exists (length l). rewrite take_ge by done. naive_solver.
  - exists (min n (length l)). split_and!; try done; [lia| |naive_solver].
    f_equal. destruct (decide (n <= length l)).
    + by rewrite Nat.min_l by lia.
    + rewrite Nat.min_r by lia. by rewrite !take_ge by lia.
  - exists 0. rewrite take_0. naive_solver lia.
  - exists 0. rewrite take_0. naive_solver lia.
Qed.

(** ** The allocator of [BytesMut]: the capacity after [reserve(n)] on a
    buffer of length [len] leaves room for [n] more bytes. *)
Class BytesAlloc := { capacity : nat -> nat -> nat }.
Class BytesAllocLaws (A : BytesAlloc) :=
  capacity_reserve : forall len n, len + n <= capacity len n.

(** ** [twoway::find_bytes]: the first occurrence of a pattern. *)
Class TwoWay := { find_bytes : list byte -> list byte -> option nat }.

Definition occurs_at (sep buf : list byte) (p : nat) : Prop :=
  take (length sep) (drop p buf) = sep.
#[export] Instance occurs_at_dec sep buf p : Decision (occurs_at sep buf p).
Proof. unfold occurs_at. apply _. Defined.

Class TwoWayLaws (T : TwoWay) := {
  find_bytes_some : forall buf sep p, find_bytes buf sep = Some p ->
    occurs_at sep buf p /\ p + length sep <= length buf /\
    forall q, q < p -> ~ occurs_at sep buf q;
  find_bytes_none : forall buf sep, find_bytes buf sep = None ->
    forall q, ~ occurs_at sep buf q;
}.

(** ** [read_until_separator]

    The loop of the source, with fuel: [None] is "still looping".  A read of
    0 bytes is not an end: the code ignores how much [read_buf] read. *)
Section Separator.
Context {A : BytesAlloc} {T : TwoWay}.

Fixpoint read_until_loop (fuel : nat) (s : source) (buf separator : list byte)
    : option (io_result (list byte * list byte) * source) :=
  match fuel with
  | O => None
  | S fuel =>
      let room := capacity (length buf) 1024 - length buf in
      let '(r, s) := read room s in
      match r with
      | Err e => Some (Err e, s)
      | Panic => Some (Panic, s)
      | Ok l =>
          let buf := buf ++ l in
          match find_bytes buf separator with
          | Some pos =>
              let wsize := length separator in
              Some (Ok (take (pos + wsize) buf, drop (pos + wsize) buf), s)
          | None => read_until_loop fuel s buf separator
          end
      end
  end.

Definition read_until_separator (fuel : nat) (s : source) (separator : list byte) :=
  read_until_loop fuel s [] separator.

Context `{!BytesAllocLaws A} `{!TwoWayLaws T}.

Lemma room_pos len : 0 < capacity len 1024 - len.
Proof. pose proof (capacity_reserve len 1024). lia. Qed.

(** What a run that returns has done. *)
Lemma read_until_loop_ok fuel s buf sep head rest s' :
  healthy s -> read_until_loop fuel s buf sep = Some (Ok (head, rest), s') ->
  head ++ rest ++ stream s' = buf ++ stream s /\
  (exists p, length head = p + length sep /\ occurs_at sep (head ++ rest) p /\
             forall q, q < p -> ~ occurs_at sep (head ++ rest) q).
Proof.
  revert s buf. induction fuel as [|fuel IH]; intros s buf Hs; simpl; [done|].
  destruct (read _ s) as [r s1] eqn:R.
  apply read_healthy in R as (l & -> & _ & Hst & Hs1 & _); [|apply room_pos|done].
  destruct (find_bytes (buf ++ l) sep) as [p|] eqn:F; intros H.
  - apply find_bytes_some in F as (Ho & Hp & Hfirst). simplify_eq.
    rewrite app_assoc, take_drop, Hst, app_assoc. split; [done|].
    exists p. rewrite length_take. split_and!; [lia|done|done].
  - apply IH in H as [H1 H2]; [|done]. by rewrite H1, Hst, app_assoc.
Qed.

Lemma read_until_loop_mono f g s buf sep x :
  f <= g -> read_until_loop f s buf sep = Some x -> read_until_loop g s buf sep = Some x.
Proof.
  revert g s buf. induction f as [|f IH]; intros [|g] s buf Hfg; try done; [lia|].
  simpl. destruct (read _ s) as [[l|e|] s1]; try done.
  destruct (find_bytes _ _); [done|]. apply IH. lia.
Qed.

(** Without the separator the loop never returns: at end of file every
    further read yields nothing and the loop reads again. *)
Lemma read_until_loop_never fuel s buf sep :
  healthy s -> (forall q, ~ occurs_at sep (buf ++ stream s) q) ->
  sep <> [] -> read_until_loop fuel s buf sep = None.
Proof.
  revert s buf. induction fuel as [|fuel IH]; intros s buf Hs Hno Hsep; [done|]. simpl.
  destruct (read _ s) as [r s1] eqn:R.
  apply read_healthy in R as (l & -> & _ & Hst & Hs1 & _); [|apply room_pos|done].
  rewrite Hst, app_assoc in Hno.
  destruct (find_bytes (buf ++ l) sep) as [p|] eqn:F; [|by apply IH].
  apply find_bytes_some in F as (Ho & Hp & _). destruct (Hno p). revert Ho Hp.
  generalize (buf ++ l). intros b Ho Hp. unfold occurs_at.
  rewrite drop_app_le, take_app_le; [done|len|lia].
Qed.

(** Every iteration consumes input, so some fuel decides the run whenever
    the separator arrives. *)
Lemma read_until_loop_total s buf sep q :
  healthy s -> sep <> [] -> occurs_at sep (buf ++ stream s) q ->
  exists out, read_until_loop (S (weight s)) s buf sep = Some (Ok out.1, out.2).
Proof.
  remember (weight s) as w eqn:Hw. revert s buf Hw.
  induction (lt_wf w) as [w _ IH]. intros s buf -> Hs Hsep Hq.
  cbn [read_until_loop]. destruct (read _ s) as [r s1] eqn:R.
  apply read_healthy in R as (l & -> & _ & Hst & Hs1 & Hz & Hd); [|apply room_pos|done].
  destruct (find_bytes (buf ++ l) sep) as [p|] eqn:F; [by eexists (_, _)|].
  assert (l <> []) as Hl.
  { intros ->. apply find_bytes_none with (q := q) in F.
    rewrite app_nil_r in F. rewrite Hz, app_nil_r in Hq by done. done. }
  specialize (Hd Hl). rewrite Hst, app_assoc in Hq.
  destruct (IH _ Hd s1 (buf ++ l) eq_refl Hs1 Hsep Hq) as [out Hout].
  exists out. destruct (weight s) as [|w']; [lia|].
  revert Hout. apply read_until_loop_mono. lia.
Qed.
End Separator.

(** ** [BufCopy]

    The future that copies a reader to a writer through a fixed buffer. *)
Record BufCopy := {
  reader : source;
  read_done : bool;
  writer : sink;
  pos : nat;
  cap : nat;
  amt : Z;
  buf : list byte;
}.

Definition buf_copy (r : source) (w : sink) (b : list byte) : BufCopy :=
  {| reader := r; read_done := false; writer := w; pos := 0; cap := 0; amt := 0; buf := b |}.

(** [poll_read(cx, &mut me.buf)] lays the data at the start of the buffer. *)
Definition fill (l b : list byte) : list byte := l ++ drop (length l) b.

(** [&me.buf[me.pos..me.cap]] *)
Definition pending (c : BufCopy) : list byte := take (c.(cap) - c.(pos)) (drop c.(pos) c.(buf)).

(** The result of one poll of the copy, or that the loop goes on. *)
Definition copy_result : Type := poll (io_result Z).

(** [while self.pos < self.cap { .. }] *)
Fixpoint write_out (fuel : nat) (c : BufCopy) : option (BufCopy * option copy_result) :=
  match fuel with
  | O => None
  | S fuel =>
      if decide (c.(pos) < c.(cap)) then
        let '(r, w) := poll_write (pending c) c.(writer) in
        let upd i a := {| reader := c.(reader); read_done := c.(read_done); writer := w;
                          pos := c.(pos) + i; cap := c.(cap); amt := a; buf := c.(buf) |} in
        match r with
        | Pending => Some (upd 0 c.(amt), Some Pending)
        | Ready (Err e) => Some (upd 0 c.(amt), Some (Ready (Err e)))
        | Ready Panic => Some (upd 0 c.(amt), Some (Ready Panic))
        | Ready (Ok i) =>
            if decide (i = 0)
            then Some (upd 0 c.(amt), Some (Ready (Err "write zero byte into writer"%string)))
            else write_out fuel (upd i (wrap 64 (c.(amt) + Z.of_nat i)))
        end
      else Some (c, None)
  end.

(** The body of [loop { .. }] up to the write loop: reads when the buffer is
    empty. *)
Definition read_in (c : BufCopy) : BufCopy * option copy_result :=
  if decide (c.(pos) = c.(cap)) then
    if c.(read_done) then (c, None)
    else
      let '(r, s) := poll_read (length c.(buf)) c.(reader) in
      let upd d p q b := {| reader := s; read_done := d; writer := c.(writer);
                            pos := p; cap := q; amt := c.(amt); buf := b |} in
      match r with
      | Pending => (upd false c.(pos) c.(cap) c.(buf), Some Pending)
      | Ready (Err e) => (upd false c.(pos) c.(cap) c.(buf), Some (Ready (Err e)))
      | Ready Panic => (upd false c.(pos) c.(cap) c.(buf), Some (Ready Panic))
      | Ready (Ok l) =>
          if decide (length l = 0) then (upd true c.(pos) c.(cap) c.(buf), None)
          else (upd false 0 (length l) (fill l c.(buf)), None)
      end
  else (c, None).

(** The end of the loop body: all written and end of file seen. *)
Definition finish (c : BufCopy) : BufCopy * option copy_result :=
  if decide (c.(pos) = c.(cap)) then
    if c.(read_done) then
      let '(r, w) := poll_flush c.(writer) in
      let c := {| reader := c.(reader); read_done := c.(read_done); writer := w;
                  pos := c.(pos); cap := c.(cap); amt := c.(amt); buf := c.(buf) |} in
      match r with
      | Pending => (c, Some Pending)
      | Ready (Err e) => (c, Some (Ready (Err e)))
      | Ready Panic => (c, Some (Ready Panic))
      | Ready (Ok tt) => (c, Some (Ready (Ok c.(amt))))
      end
    else (c, None)
  else (c, None).

(** [poll]: the loop, with fuel. *)
Fixpoint copy_loop (fuel : nat) (c : BufCopy) : option (BufCopy * copy_result) :=
  match fuel with
  | O => None
  | S fuel =>
      match read_in c with
      | (c, Some r) => Some (c, r)
      | (c, None) =>
          match write_out (S (c.(cap) - c.(pos))) c with
          | None => None
          | Some (c, Some r) => Some (c, r)
          | Some (c, None) =>
              match finish c with
              | (c, Some r) => Some (c, r)
              | (c, None) => copy_loop fuel c
              end
          end
      end
  end.

(** One poll: enough fuel for every read the source can still answer. *)
Definition copy_poll (c : BufCopy) : option (BufCopy * copy_result) :=
  copy_loop (S (S (weight c.(reader)))) c.

(** *** Invariant: the written bytes, the buffered ones and the stream to
    come are always the whole stream, and the counter counts from the [base]
    bytes that were written before the copy. *)
Definition copy_ok (base : Z) (total : list byte) (c : BufCopy) : Prop :=
  c.(pos) <= c.(cap) <= length c.(buf) /\
  written c.(writer) ++ pending c ++ stream c.(reader) = total /\
  c.(amt) = wrap 64 (Z.of_nat (length (written c.(writer))) - base) /\
  (c.(read_done) = true -> c.(pos) = c.(cap) /\ stream c.(reader) = []).

Definition copy_inv (base : Z) (total : list byte) (c : BufCopy) : Prop :=
  copy_ok base total c /\ healthy c.(reader) /\ 0 < length c.(buf).

Lemma pending_done c : c.(pos) = c.(cap) -> pending c = [].
Proof. intros E. unfold pending. by rewrite E, Nat.sub_diag. Qed.

Lemma length_pending c :
  c.(pos) <= c.(cap) <= length c.(buf) -> length (pending c) = c.(cap) - c.(pos).
Proof. intros. unfold pending. rewrite length_take, length_drop. lia. Qed.

(** What one poll of a healthy source does. *)
Lemma poll_read_healthy n s r s' :
  0 < n -> healthy s -> poll_read n s = (r, s') ->
  (r = Pending /\ stream s = stream s' /\ healthy s' /\ weight s' < weight s) \/
  exists l, r = Ready (Ok l) /\ length l <= n /\ stream s = l ++ stream s' /\ healthy s'
    /\ (l = [] -> s = [] /\ s' = []) /\ (l <> [] -> weight s' < weight s).
Proof.
  intros Hn Hs. destruct s as [|[l|e|] s]; simpl; intros E; simplify_eq.
  - right. exists []. naive_solver lia.
  - right. destruct (read n (Bytes l :: s)) as [r' s''] eqn:R.
    pose proof R as R'. simpl in R'. simplify_eq.
    apply read_healthy in R as (x & ? & ? & ? & ? & ? & ?); [|done..].
    exists x. split_and!; auto; [congruence|].
    intros ->. apply healthy_cons in Hs as [Hl _]. simpl in Hl. destruct l, n; simplify_eq/=; lia.
  - apply healthy_cons in Hs as [[] _].
  - apply healthy_cons in Hs as [_ ?]. left. simpl. split_and!; auto.
Qed.

(** What the read step leaves to the write loop. *)
Definition progress (c c' : BufCopy) : Prop :=
  (pos c' < cap c' /\ weight (reader c') < weight (reader c)) \/
  (read_done c' = true /\ pos c' = cap c') \/
  (c' = c /\ pos c < cap c).

Ltac inv_split := unfold copy_inv, copy_ok in *; split_and!;
  cbn [reader read_done writer pos cap amt buf] in *; try first [done | lia].

Lemma read_in_inv base total c c' o :
  copy_inv base total c -> read_in c = (c', o) ->
  copy_inv base total c' /\ writer c' = writer c /\
  (forall r, o = Some r -> r = Pending) /\ (o = None -> progress c c').
Proof.
  intros I E. pose proof I as ((Hp & Ht & Ha & Hd) & Hh & Hb). unfold read_in in E.
  case_decide as Hpc.
  2: { simplify_eq. split_and!; try done. intros _. right; right. split; [done|lia]. }
  destruct (read_done c) eqn:Hrd.
  { simplify_eq. split_and!; try done. intros _. right; left. done. }
  destruct (poll_read _ _) as [r s] eqn:R.
  apply poll_read_healthy in R as [(-> & Hst & Hs & Hw)|(l & -> & Hl & Hst & Hs & Hz & Hw)];
    try done.
  - simplify_eq. inv_split; [by rewrite <- Hst|by intros ? [= <-]].
  - rewrite (pending_done c Hpc) in Ht. simpl in Ht.
    case_decide as Hl0; simplify_eq.
    + apply length_zero_iff_nil in Hl0 as ->. destruct (Hz eq_refl) as [Hs0 ->].
      inv_split; [|intros _; right; left; done].
      unfold pending; cbn. rewrite Hpc, Nat.sub_diag. by rewrite Hst.
    + assert (l <> []) as Hne by (by intros ->). specialize (Hw Hne).
      assert (length (fill l (buf c)) = length (buf c)) as Hfill by (unfold fill; len).
      destruct l as [|b l]; [done|].
      inv_split; [|intros _; left; simpl in *; lia].
      unfold pending; cbn [pos cap buf]. unfold fill.
      by rewrite drop_0, Nat.sub_0_r, take_app_length, <- Hst.
Qed.

(** The write loop ends within the length of the pending bytes. *)
Lemma write_out_inv base total fuel c :
  copy_inv base total c -> cap c - pos c < fuel ->
  exists c' o, write_out fuel c = Some (c', o) /\
  copy_inv base total c' /\ reader c' = reader c /\ read_done c' = read_done c /\
  (o = None -> pos c' = cap c') /\ (forall a, o <> Some (Ready (Ok a))).
Proof.
  revert c. induction fuel as [|fuel IH]; intros c I Hf; [lia|]. simpl.
  case_decide as Hpc.
  2: { exists c, None. pose proof I as ((Hp & _) & _). split_and!; try done. intros _; lia. }
  pose proof I as ((Hp & Ht & Ha & Hd) & Hh & Hb).
  destruct (poll_write (pending c) (writer c)) as [r w] eqn:W.
  apply poll_write_spec in W as (i & Hi & Hw & Hok & Hpe & Herr & Hpanic).
  rewrite length_pending in Hi by done.
  set (c1 a := {| reader := reader c; read_done := read_done c; writer := w;
                  pos := pos c + i; cap := cap c; amt := a; buf := buf c |}).
  assert (forall a, a = wrap 64 (amt c + Z.of_nat i) -> copy_inv base total (c1 a)) as I1.
  { intros a ->. subst c1. inv_split.
    - unfold pending in *; cbn [pos cap buf]. rewrite Hw, <- Ht, <- !app_assoc. f_equal.
      rewrite app_assoc. f_equal. rewrite Nat.sub_add_distr, <- drop_drop.
      by rewrite <- (skipn_firstn_comm i), take_drop.
    - rewrite Ha, wrap_wrap_add, Hw by lia. f_equal.
      rewrite length_app, length_take, length_pending by done. lia.
    - intros H. destruct (Hd H). lia. }
  assert (i = 0 -> copy_inv base total (c1 (amt c))) as I0.
  { intros ->. apply I1. rewrite Z.add_0_r, Ha. unfold wrap. by rewrite Z.mod_mod. }
  destruct r as [[n|e|]|].
  - assert (n = i) as -> by by apply Hok. case_decide as Hi0.
    + exists (c1 (amt c)), (Some (Ready (Err "write zero byte into writer"%string))).
      subst i. subst c1; cbn beta in *. split_and!; try done. by apply I0.
    + destruct (IH (c1 (wrap 64 (amt c + Z.of_nat i)%Z)) (I1 _ eq_refl)) as (c' & o & Hc).
      { cbn. lia. }
      exists c', o. exact Hc.
  - exists (c1 (amt c)), (Some (Ready (Err e))). assert (i = 0) as -> by eauto.
    subst c1; cbn beta in *. split_and!; try done. by apply I0.
  - done.
  - exists (c1 (amt c)), (Some Pending). assert (i = 0) as -> by eauto.
    subst c1; cbn beta in *. split_and!; try done. by apply I0.
Qed.

Lemma poll_flush_written w r w' : poll_flush w = (r, w') -> written w' = written w /\ r <> Ready Panic.
Proof. unfold poll_flush. destruct (flushes w) as [|[] ?]; intros; simplify_eq; done. Qed.

Lemma finish_inv base total c c' o :
  copy_inv base total c -> finish c = (c', o) ->
  copy_inv base total c' /\
  (forall a, o = Some (Ready (Ok a)) ->
     written (writer c') = total /\ a = wrap 64 (Z.of_nat (length total) - base)) /\
  (o = None -> c' = c /\ (read_done c = true -> pos c <> cap c)).
Proof.
  intros I E. unfold finish in E. case_decide as Hpc; [|by simplify_eq].
  destruct (read_done c) eqn:Hd; [|by simplify_eq].
  destruct (poll_flush (writer c)) as [r w] eqn:F. apply poll_flush_written in F as [Hw Hr].
  pose proof I as ((Hp & Ht & Ha & Hrd) & Hh & Hb).
  assert (copy_inv base total {| reader := reader c; read_done := true; writer := w;
    pos := pos c; cap := cap c; amt := amt c; buf := buf c |}) as I'.
  { inv_split; try (by rewrite Hw). intros _. by apply Hrd. }
  destruct (Hrd Hd) as [_ Hst]. rewrite (pending_done c Hpc), Hst, app_nil_r in Ht.
  destruct r as [[[]|e|]|]; simplify_eq; split_and!; try done.
  intros a [= <-]. cbn. by rewrite Hw, Ha.
Qed.

(** From any state, within the fuel [copy_poll] gives it, a poll returns; it
    keeps the invariant; and if it reports completion, everything the source
    delivered was written. *)
Lemma copy_loop_total base total fuel c :
  copy_inv base total c ->
  weight (reader c) + (if decide (pos c < cap c) then 1 else 0) < fuel ->
  exists c' r, copy_loop fuel c = Some (c', r) /\ copy_inv base total c' /\
  (forall a, r = Ready (Ok a) ->
     written (writer c') = total /\ a = wrap 64 (Z.of_nat (length total) - base)).
Proof.
  revert c. induction fuel as [|fuel IH]; intros c I Hf; [lia|]. cbn [copy_loop].
  destruct (read_in c) as [c1 o1] eqn:R.
  apply (read_in_inv _ _ _ _ _ I) in R as (I1 & _ & Ho1 & Hpr).
  destruct o1 as [r|]; [exists c1, r; split_and!; try done; by rewrite (Ho1 r eq_refl)|].
  specialize (Hpr eq_refl).
  destruct (write_out_inv base total (S (cap c1 - pos c1)) c1 I1) as (c2 & o2 & -> & I2 & Hr & Hd & Hpc & Hno);
    [lia|].
  destruct o2 as [r|]; [exists c2, r; split_and!; try done; intros a ->; by destruct (Hno a)|].
  specialize (Hpc eq_refl).
  destruct (finish c2) as [c3 o3] eqn:F.
  apply (finish_inv _ _ _ _ _ I2) in F as (I3 & Hfin & Hnone).
  destruct o3 as [r|]; [exists c3, r; split_and!; try done; intros a ->; by apply Hfin|].
  destruct (Hnone eq_refl) as [-> Hnd]. apply IH; [done|].
  rewrite Hr. rewrite (decide_False (P := pos c2 < cap c2)) by lia.
  destruct Hpr as [[? ?]|[[Hdone _]|[-> ?]]]; [case_decide; lia| |case_decide; lia].
  rewrite Hd in Hnd. by destruct (Hnd Hdone).
Qed.

Lemma copy_poll_total base total c :
  copy_inv base total c ->
  exists c' r, copy_poll c = Some (c', r) /\ copy_inv base total c' /\
  (forall a, r = Ready (Ok a) ->
     written (writer c') = total /\ a = wrap 64 (Z.of_nat (length total) - base)).
Proof. intros I. apply copy_loop_total; [done|]. case_decide; lia. Qed.

(** A new copy satisfies the invariant, with nothing written yet. *)
Lemma buf_copy_inv s w b :
  healthy s -> b <> [] -> copy_inv (Z.of_nat (length (written w))) (written w ++ stream s) (buf_copy s w b).
Proof.
  intros Hs Hb. inv_split; unfold buf_copy in *; cbn [reader read_done writer pos cap amt buf] in *;
    try first [done | lia].
  - by rewrite Z.sub_diag.
  - destruct b; [done|simpl; lia].
Qed.

(** Polling the copy any number of times. *)
Fixpoint copy_polls (n : nat) (c : BufCopy) : option (BufCopy * copy_result) :=
  match n with
  | O => Some (c, Pending)
  | S n => match copy_poll c with
           | Some (c, Pending) => copy_polls n c
           | o => o
           end
  end.

Lemma copy_polls_inv base total n c :
  copy_inv base total c ->
  exists c' r, copy_polls n c = Some (c', r) /\ copy_inv base total c' /\
  (forall a, r = Ready (Ok a) ->
     written (writer c') = total /\ a = wrap 64 (Z.of_nat (length total) - base)).
Proof.
  revert c. induction n as [|n IH]; intros c I; simpl; [by exists c, Pending|].
  destruct (copy_poll_total base total c I) as (c1 & r1 & -> & I1 & H1).
  destruct r1; [by eauto|]. by apply IH.
Qed.

(** ** Concrete collaborators for the witnesses: an allocator that reserves
    exactly, and a naive substring search. *)
Module Concrete.
Definition exact_alloc : BytesAlloc := {| capacity := fun len n => len + n |}.
#[export] Instance exact_alloc_laws : BytesAllocLaws exact_alloc.
Proof. intros len n. done. Qed.

Definition matches (sep buf : list byte) (p : nat) : bool :=
  bool_decide (occurs_at sep buf p /\ p + length sep <= length buf).
Definition naive_find (buf sep : list byte) : option nat :=
  list_find (fun p => matches sep buf p) (seq 0 (S (length buf))) ≫= fun x => Some x.2.
Definition naive_two_way : TwoWay := {| find_bytes := naive_find |}.

#[export] Instance naive_two_way_laws : TwoWayLaws naive_two_way.
Proof.
  split; intros buf sep; simpl; unfold naive_find; [intros p|].
  - destruct (list_find _ _) as [[i q]|] eqn:F; simpl; [|done]. intros [= ->].
    apply list_find_Some in F as (Hi & Hm & Hfirst).
    apply lookup_seq in Hi as [-> Hi]. rewrite Nat.add_0_l in *.
    unfold matches in Hm. apply bool_decide_unpack in Hm as [Ho Hl]. split_and!; try done.
    intros q Hq Hocc. apply (Hfirst q q); [by apply lookup_seq; lia|lia|].
    apply bool_decide_pack. split; [done|lia].
  - destruct (list_find _ _) as [[i q]|] eqn:F; simpl; [done|]. intros _ q Hocc.
    apply list_find_None in F. rewrite Forall_forall in F.
    destruct (decide (q <= length buf)) as [Hq|Hq].
    + apply (F q); [apply elem_of_seq; lia|]. apply bool_decide_pack. split; [done|].
      unfold occurs_at in Hocc. apply (f_equal length) in Hocc.
      rewrite length_take, length_drop in Hocc. lia.
    + unfold occurs_at in Hocc. rewrite drop_ge, take_nil in Hocc by lia. subst sep.
      apply (F 0); [apply elem_of_seq; lia|]. apply bool_decide_pack.
      split; [done|simpl; lia].
Qed.
End Concrete.
#[export] Existing Instances Concrete.exact_alloc_laws Concrete.naive_two_way_laws.

(** ** Properties *)

(** C33: relaying one direction of a connection is faithful.  For every
    chunking of the reads and of the writes and any number of polls,
    [BufCopy] always returns from a poll (its loop terminates), what has been
    written, what is buffered and what is still to be read make up exactly
    the source's bytes in order, and when the copy reports completion it
    wrote all of them and returns their count. *)
Theorem buf_copy_faithful s w b n :
  healthy s -> b <> [] -> written w = [] ->
  exists c r, copy_polls n (buf_copy s w b) = Some (c, r) /\
    written (writer c) ++ pending c ++ stream (reader c) = stream s /\
    (forall a, r = Ready (Ok a) ->
       written (writer c) = stream s /\ a = wrap 64 (Z.of_nat (length (stream s)))).
Proof.
  intros Hs Hb Hw.
  pose proof (buf_copy_inv s w b Hs Hb) as I. rewrite Hw in I.
  destruct (copy_polls_inv _ _ n _ I) as (c & r & ? & I' & Hr).
  exists c, r. split_and!; try done; [apply I'|]. intros a Ha. destruct (Hr a Ha) as [-> ->].
  by rewrite Z.sub_0_r.
Qed.

Lemma buf_copy_faithful_witness :
  let s := [Bytes [x61; x62; x63]; NotReady; Bytes [x64]] in
  let w := {| writes := [Accept 2; Full]; flushes := []; written := [] |} in
  healthy s /\
  exists c r, copy_polls 3 (buf_copy s w [x00; x00]) = Some (c, r) /\
    written (writer c) ++ pending c ++ stream (reader c) = stream s /\
    (forall a, r = Ready (Ok a) ->
       written (writer c) = stream s /\ a = wrap 64 (Z.of_nat (length (stream s)))).
Proof.
  intros s w. assert (healthy s) as Hs by (repeat constructor; done).
  split; [exact Hs|]. apply (buf_copy_faithful s w [x00; x00] 3 Hs); done.
Defined.

(** [read_until_separator] returns as soon as the separator is in the
    stream, and splits the stream right behind its first occurrence without
    losing a byte: head, rest and the unread stream are the whole stream. *)
Theorem read_until_separator_splits {A : BytesAlloc} {T : TwoWay} `{!BytesAllocLaws A} `{!TwoWayLaws T} s sep q :
  healthy s -> sep <> [] -> occurs_at sep (stream s) q ->
  exists head rest s',
    read_until_separator (S (weight s)) s sep = Some (Ok (head, rest), s') /\
    head ++ rest ++ stream s' = stream s /\
    exists p, length head = p + length sep /\ occurs_at sep (head ++ rest) p /\
              forall q, q < p -> ~ occurs_at sep (head ++ rest) q.
Proof.
  intros Hs Hsep Hq.
  destruct (read_until_loop_total s [] sep q Hs Hsep Hq) as [[[h r] s'] Hout].
  exists h, r, s'. split; [exact Hout|]. by eapply read_until_loop_ok in Hout.
Qed.

Lemma read_until_separator_splits_witness :
  let s := [Bytes [x61; x0d]; Bytes [x0a; x62]] in
  exists head rest s',
    @read_until_separator Concrete.exact_alloc Concrete.naive_two_way
      (S (weight s)) s [x0d; x0a] = Some (Ok (head, rest), s') /\
    head ++ rest ++ stream s' = stream s /\
    exists p, length head = p + 2 /\ occurs_at [x0d; x0a] (head ++ rest) p /\
              forall q, q < p -> ~ occurs_at [x0d; x0a] (head ++ rest) q.
Proof.
  intros s. apply (read_until_separator_splits s [x0d; x0a] 1).
  - repeat constructor; done.
  - done.
  - reflexivity.
Defined.

(** A connection closed before the separator arrives is never noticed:
    [read_until_separator] ignores a read of 0 bytes, so whatever the fuel
    its loop has not returned. *)
Theorem read_until_separator_spins {A : BytesAlloc} {T : TwoWay} `{!BytesAllocLaws A} `{!TwoWayLaws T} s sep fuel :
  healthy s -> sep <> [] -> (forall q, ~ occurs_at sep (stream s) q) ->
  read_until_separator fuel s sep = None.
Proof. intros. by apply read_until_loop_never. Qed.

Lemma read_until_separator_spins_witness :
  @read_until_separator Concrete.exact_alloc Concrete.naive_two_way
    1000 [Bytes [x61]] [x0d; x0a] = None.
Proof.
  apply (read_until_separator_spins [Bytes [x61]] [x0d; x0a] 1000).
  - repeat constructor; done.
  - done.
  - intros [|[|q]]; done.
Defined.
