(* ===== verification/Event.v ===== *)
(** * Frames of the multiplexing protocol (src/src/rmux/event.rs, message.rs)

    The header packs a 24-bit length and an 8-bit flag in one [u32]; an event
    is a header, a body and the side it comes from.  The messages that travel
    in event bodies are serialized by the third-party crate [bincode], which
    is the class [Bincode] here. *)
From stdpp Require Import prelude strings.
From Stdlib Require Import ZArith Lia.
From S2P Require Import Prelude.

Local Open Scope Z_scope.

(** ** message.rs *)

Record ConnectRequest := { proto : string; addr : string }.
Record AuthRequest := { req_method : string }.
Record AuthResponse := { success : bool; err : string; rand : Z; res_method : string }.

(** [bincode::serialize] and [bincode::deserialize] at a message type. *)
Class Bincode (T : Type) := {
  serialize : T -> option (list byte);
  deserialize : list byte -> option T;
}.

(** The documented contract of the crate: what was serialized is read back. *)
Class BincodeLaws (T : Type) `{Bincode T} :=
  deserialize_serialize : forall (m : T) d, serialize m = Some d -> deserialize d = Some m.

(** ** event.rs *)

Definition FLAG_SYN : Z := 1.
Definition FLAG_FIN : Z := 2.
Definition FLAG_DATA : Z := 3.
Definition FLAG_WIN_UPDATE : Z := 4.
Definition FLAG_PING : Z := 5.
Definition FLAG_AUTH : Z := 6.
Definition FLAG_SHUTDOWN : Z := 7.
Definition FLAG_PONG : Z := 8.
Definition FLAG_ROUTINE : Z := 9.

Definition EVENT_HEADER_LEN : nat := 8.

Definition get_event_type_str (flags : Z) : string :=
  if decide (flags = FLAG_SYN) then "FLAG_SYN"
  else if decide (flags = FLAG_FIN) then "FLAG_FIN"
  else if decide (flags = FLAG_DATA) then "FLAG_DATA"
  else if decide (flags = FLAG_WIN_UPDATE) then "FLAG_WIN_UPDATE"
  else if decide (flags = FLAG_PING) then "FLAG_PING"
  else if decide (flags = FLAG_AUTH) then "FLAG_AUTH"
  else if decide (flags = FLAG_SHUTDOWN) then "FLAG_SHUTDOWN"
  else if decide (flags = FLAG_PONG) then "FLAG_PONG"
  else "INVALID".

Record Header := { flag_len : Z; stream_id : Z }.

(** [(len << 8) | u32::from(flag)] on [u32]: the shift drops the high byte. *)
Definition get_flag_len (len flag : Z) : Z := Z.lor (wrap 32 (Z.shiftl len 8)) flag.

Definition set_flag_len (h : Header) (len flag : Z) : Header :=
  {| flag_len := Z.lor (wrap 32 (Z.shiftl len 8)) flag; stream_id := h.(stream_id) |}.
Definition flags (h : Header) : Z := Z.land h.(flag_len) 255.
Definition len (h : Header) : Z := Z.shiftr h.(flag_len) 8.
Definition set_len (h : Header) (v : Z) : Header := set_flag_len h v (flags h).
Definition set_flag (h : Header) (v : Z) : Header := set_flag_len h (len h) v.

Record Event := { header : Header; body : list byte; remote : bool }.

Definition is_empty (ev : Event) : bool := bool_decide (flags ev.(header) = 0).

Definition new_empty_event (remote : bool) : Event :=
  {| header := {| flag_len := get_flag_len 0 0; stream_id := 0 |};
     body := []; remote := remote |}.

Definition new_data_event (sid : Z) (buf : list byte) (remote : bool) : Event :=
  {| header := {| flag_len := get_flag_len (wrap 32 (Z.of_nat (length buf))) FLAG_DATA;
                  stream_id := sid |};
     body := buf; remote := remote |}.

Definition with_flag (ev : Event) (v : Z) : Event :=
  {| header := set_flag ev.(header) v; body := ev.(body); remote := ev.(remote) |}.

(** [bincode::serialize(msg).unwrap()] panics when the serializer fails. *)
Definition new_auth_event {T} `{Bincode T} (sid : Z) (msg : T) : partial Event :=
  match serialize msg with
  | Some data => Ok (with_flag (new_data_event sid data false) FLAG_AUTH)
  | None => Panic
  end.

Definition new_syn_event {T} `{Bincode T} (sid : Z) (msg : T) : partial Event :=
  match serialize msg with
  | Some data => Ok (with_flag (new_data_event sid data false) FLAG_SYN)
  | None => Panic
  end.

Definition new_fin_event (sid : Z) (remote : bool) : Event :=
  {| header := {| flag_len := get_flag_len 0 FLAG_FIN; stream_id := sid |};
     body := []; remote := remote |}.
Definition new_shutdown_event (sid : Z) (remote : bool) : Event :=
  {| header := {| flag_len := get_flag_len 0 FLAG_SHUTDOWN; stream_id := sid |};
     body := []; remote := remote |}.
Definition new_routine_event (sid : Z) : Event :=
  {| header := {| flag_len := get_flag_len 0 FLAG_ROUTINE; stream_id := sid |};
     body := []; remote := false |}.
Definition new_ping_event (sid : Z) (remote : bool) : Event :=
  {| header := {| flag_len := get_flag_len 0 FLAG_PING; stream_id := sid |};
     body := []; remote := remote |}.
Definition new_pong_event (sid : Z) (remote : bool) : Event :=
  {| header := {| flag_len := get_flag_len 0 FLAG_PONG; stream_id := sid |};
     body := []; remote := remote |}.
Definition new_window_update_event (sid len : Z) (remote : bool) : Event :=
  {| header := {| flag_len := get_flag_len len FLAG_WIN_UPDATE; stream_id := sid |};
     body := []; remote := remote |}.

#[export] Instance Header_eq_dec : EqDecision Header.
Proof. solve_decision. Defined.
#[export] Instance Event_eq_dec : EqDecision Event.
Proof. solve_decision. Defined.

(** ** The packing of length and flag *)

Lemma get_flag_len_eq l f :
  0 <= f < 256 -> get_flag_len l f = 256 * (l mod 2 ^ 24) + f.
Proof.
  intros Hf. unfold get_flag_len, wrap.
  rewrite Z.shiftl_mul_pow2 by lia.
  replace (2 ^ 32) with (2 ^ 24 * 2 ^ 8) by reflexivity.
  rewrite Z.mul_mod_distr_r by lia.
  rewrite <- Z.shiftl_mul_pow2 by lia. now apply lor_shift8.
Qed.

Lemma flags_eq h : flags h = flag_len h mod 256.
Proof. unfold flags. change 255 with (Z.ones 8). now rewrite Z.land_ones by lia. Qed.

Lemma len_eq h : len h = flag_len h / 256.
Proof. unfold len. now rewrite Z.shiftr_div_pow2 by lia. Qed.

Lemma flags_get l f s :
  0 <= f < 256 -> flags {| flag_len := get_flag_len l f; stream_id := s |} = f.
Proof.
  intros. rewrite flags_eq, get_flag_len_eq by done. simpl.
  rewrite Z.add_comm, Z.mul_comm, Z.mod_add by lia. apply Z.mod_small; lia.
Qed.

Lemma len_get l f s :
  0 <= f < 256 -> len {| flag_len := get_flag_len l f; stream_id := s |} = l mod 2 ^ 24.
Proof.
  intros. rewrite len_eq, get_flag_len_eq by done. simpl.
  rewrite Z.add_comm, Z.mul_comm, Z.div_add, Z.div_small; lia.
Qed.

Lemma get_flag_len_range l f : 0 <= f < 256 -> is_u 32 (get_flag_len l f).
Proof.
  intros. unfold is_u. rewrite get_flag_len_eq by done.
  pose proof (Z.mod_pos_bound l (2 ^ 24) ltac:(lia)). lia.
Qed.

Lemma flags_range h : 0 <= flags h < 256.
Proof. rewrite flags_eq. apply Z.mod_pos_bound. lia. Qed.

Lemma len_range h : is_u 32 (flag_len h) -> 0 <= len h < 2 ^ 24.
Proof.
  intros [Ha Hb]. rewrite len_eq. split; [apply Z.div_pos; lia|].
  apply Z.div_lt_upper_bound; [lia|]. exact Hb.
Qed.

(** A header is determined by its flag, its length and its stream. *)
Lemma header_ext h1 h2 :
  flags h1 = flags h2 -> len h1 = len h2 -> stream_id h1 = stream_id h2 -> h1 = h2.
Proof.
  rewrite !flags_eq, !len_eq. intros Hf Hl Hs. destruct h1 as [a ?], h2 as [b ?]; simpl in *.
  f_equal; [|done]. rewrite (Z.div_mod a 256), (Z.div_mod b 256) by lia. lia.
Qed.

Lemma set_flag_get h f :
  0 <= f < 256 -> set_flag h f =
  {| flag_len := get_flag_len (len h) f; stream_id := stream_id h |}.
Proof. done. Qed.

(** Rewriting the flag of a 32-bit header keeps its length and its stream,
    rewriting the length keeps its flag: the two fields do not interfere. *)
Lemma set_flag_fields h f :
  0 <= f < 256 -> is_u 32 (flag_len h) ->
  flags (set_flag h f) = f /\ len (set_flag h f) = len h
  /\ stream_id (set_flag h f) = stream_id h.
Proof.
  intros Hf Hh. pose proof (len_range h Hh). rewrite set_flag_get by done.
  rewrite flags_get, len_get by done. split_and!; [done| |done].
  apply Z.mod_small; lia.
Qed.

(** ** Well-formed events

    What the wire format can carry: 32-bit header fields, a window update or
    an empty length goes without a body, and any other event carries exactly
    as many bytes as its header says. *)

Definition bodyless (h : Header) : bool :=
  bool_decide (flags h = FLAG_WIN_UPDATE) || bool_decide (len h = 0).

Definition event_wf (ev : Event) : Prop :=
  is_u 32 (flag_len (header ev)) /\ is_u 32 (stream_id (header ev)) /\
  (if bodyless (header ev) then body ev = []
   else Z.of_nat (length (body ev)) = len (header ev)).

#[export] Instance event_wf_dec ev : Decision (event_wf ev).
Proof. unfold event_wf, is_u. destruct (bodyless _); apply _. Defined.

Lemma control_event_wf f sid r :
  0 <= f < 256 -> is_u 32 sid ->
  event_wf {| header := {| flag_len := get_flag_len 0 f; stream_id := sid |};
              body := []; remote := r |}.
Proof.
  intros Hf Hs. unfold event_wf, bodyless; cbn [header body].
  rewrite len_get by done. rewrite (bool_decide_eq_true_2 (_ mod _ = 0)) by done.
  rewrite orb_true_r. split_and!; [now apply get_flag_len_range|done|done].
Qed.

Lemma window_update_wf sid l r :
  is_u 32 sid -> event_wf (new_window_update_event sid l r).
Proof.
  intros Hs. unfold event_wf, bodyless, new_window_update_event; cbn [header body].
  rewrite flags_get by (unfold FLAG_WIN_UPDATE; lia).
  rewrite bool_decide_eq_true_2 by done.
  split_and!; [apply get_flag_len_range; unfold FLAG_WIN_UPDATE; lia|done|done].
Qed.

Lemma data_event_wf f sid buf r :
  0 <= f < 256 -> f <> FLAG_WIN_UPDATE -> is_u 32 sid ->
  Z.of_nat (length buf) < 2 ^ 24 ->
  event_wf {| header := {| flag_len := get_flag_len (wrap 32 (Z.of_nat (length buf))) f;
                           stream_id := sid |};
              body := buf; remote := r |}.
Proof.
  intros Hf Hw Hs Hb. unfold event_wf, bodyless; cbn [header body].
  rewrite (wrap_small 32) by lia.
  rewrite flags_get, len_get by done. rewrite Z.mod_small by lia.
  rewrite (bool_decide_eq_false_2 (f = _)) by done. simpl.
  case_bool_decide as H0.
  - split_and!; [now apply get_flag_len_range|done|]. apply length_zero_iff_nil. lia.
  - split_and!; [now apply get_flag_len_range|done|lia].
Qed.

Lemma with_flag_data sid buf r f :
  0 <= f < 256 ->
  with_flag (new_data_event sid buf r) f =
  {| header := {| flag_len := get_flag_len (Z.of_nat (length buf)) f; stream_id := sid |};
     body := buf; remote := r |}.
Proof.
  intros Hf. unfold with_flag. f_equal. rewrite set_flag_get by done. f_equal.
  unfold new_data_event; cbn [header body].
  rewrite len_get by (unfold FLAG_DATA; lia). rewrite !get_flag_len_eq by done.
  do 2 f_equal. rewrite Z.mod_mod by lia. unfold wrap.
  rewrite Z.mod_mod_divide; [done|]. by exists (2 ^ 8).
Qed.

Lemma with_flag_wf sid buf r f :
  0 <= f < 256 -> f <> FLAG_WIN_UPDATE -> is_u 32 sid -> Z.of_nat (length buf) < 2 ^ 24 ->
  event_wf (with_flag (new_data_event sid buf r) f).
Proof.
  intros Hf Hw Hs Hb. rewrite with_flag_data by done.
  pose proof (data_event_wf f sid buf r Hf Hw Hs Hb) as H.
  by rewrite (wrap_small 32) in H by lia.
Qed.

(** ** Properties *)

(** Length and flag are packed without interference.  A header built
    from a length and a flag reads back the flag and the length modulo 2^24,
    and rewriting one of the two fields keeps the other. *)
Theorem header_packing l f s g v :
  0 <= f < 256 -> 0 <= g < 256 ->
  let h := {| flag_len := get_flag_len l f; stream_id := s |} in
  is_u 32 (flag_len h) /\ flags h = f /\ len h = l mod 2 ^ 24 /\
  flags (set_flag h g) = g /\ len (set_flag h g) = len h /\
  flags (set_len h v) = f /\ len (set_len h v) = v mod 2 ^ 24.
Proof.
  intros Hf Hg h. pose proof (get_flag_len_range l f Hf) as Hr.
  destruct (set_flag_fields h g Hg Hr) as (H1 & H2 & _).
  assert (flags h = f) as Hfl by by apply flags_get.
  unfold set_len. rewrite Hfl. split_and!; try done.
  - by apply len_get.
  - by apply (flags_get v f).
  - by apply (len_get v f).
Qed.

Lemma header_packing_witness :
  let h := {| flag_len := get_flag_len 1000 FLAG_DATA; stream_id := 9 |} in
  is_u 32 (flag_len h) /\ flags h = FLAG_DATA /\ len h = 1000 mod 2 ^ 24 /\
  flags (set_flag h FLAG_SYN) = FLAG_SYN /\ len (set_flag h FLAG_SYN) = len h /\
  flags (set_len h 77) = FLAG_DATA /\ len (set_len h 77) = 77 mod 2 ^ 24.
Proof. apply (header_packing 1000 FLAG_DATA 9 FLAG_SYN 77); unfold FLAG_DATA, FLAG_SYN; lia. Defined.

(** C39: every constructor builds an event the wire format can carry, as long
    as its body is shorter than 16 MiB. *)
Theorem constructors_well_formed {T} `{Bincode T} sid l buf r (msg : T) ev :
  is_u 32 sid -> Z.of_nat (length buf) < 2 ^ 24 ->
  (forall d, serialize msg = Some d -> Z.of_nat (length d) < 2 ^ 24) ->
  event_wf (new_data_event sid buf r) /\ event_wf (new_fin_event sid r) /\
  event_wf (new_shutdown_event sid r) /\ event_wf (new_routine_event sid) /\
  event_wf (new_ping_event sid r) /\ event_wf (new_pong_event sid r) /\
  event_wf (new_window_update_event sid l r) /\ event_wf (new_empty_event r) /\
  (new_syn_event sid msg = Ok ev \/ new_auth_event sid msg = Ok ev -> event_wf ev).
Proof.
  intros Hs Hb Hm.
  assert (0 <= FLAG_DATA < 256 /\ FLAG_DATA <> FLAG_WIN_UPDATE) as [? ?] by done.
  split_and!; try (apply control_event_wf; done).
  - by apply data_event_wf.
  - by apply window_update_wf.
  - unfold new_syn_event, new_auth_event. destruct (serialize msg) as [d|]; [|by intros [?|?]].
    intros [E|E]; injection E as <-; apply with_flag_wf; try done; by apply Hm.
Qed.

(** A serializer for the witnesses: the characters of the method name. *)
Definition name_bincode : Bincode AuthRequest := {|
  serialize m := Some (String.list_byte_of_string m.(req_method));
  deserialize l := Some {| req_method := String.string_of_list_byte l |};
|}.
#[export] Instance name_bincode_laws : @BincodeLaws AuthRequest name_bincode.
Proof. intros [m] d [= <-]. simpl. by rewrite String.string_of_list_byte_of_string. Qed.

Lemma constructors_well_formed_witness :
  let msg := {| req_method := "none" |} in
  let ev := with_flag (new_data_event 3 (String.list_byte_of_string "none") false) FLAG_AUTH in
  event_wf (new_data_event 3 [x61] true) /\ event_wf (new_fin_event 3 true) /\
  event_wf (new_shutdown_event 3 true) /\ event_wf (new_routine_event 3) /\
  event_wf (new_ping_event 3 true) /\ event_wf (new_pong_event 3 true) /\
  event_wf (new_window_update_event 3 40000 true) /\ event_wf (new_empty_event true) /\
  (@new_syn_event _ name_bincode 3 msg = Ok ev \/
   @new_auth_event _ name_bincode 3 msg = Ok ev -> event_wf ev).
Proof.
  intros msg ev. apply (constructors_well_formed (H := name_bincode) 3 40000 [x61] true msg ev).
  - split; [discriminate|reflexivity].
  - reflexivity.
  - intros d [= <-]. reflexivity.
Defined.

(** Bodies of 16 MiB or more are framed wrongly: the 24-bit length field
    holds only the length modulo 2^24, so the header announces fewer bytes
    than the body has and the reader would take the rest for the next frame. *)
Theorem long_data_event_truncated sid buf r :
  2 ^ 24 <= Z.of_nat (length buf) < 2 ^ 32 ->
  len (header (new_data_event sid buf r)) = Z.of_nat (length buf) mod 2 ^ 24 /\
  len (header (new_data_event sid buf r)) < Z.of_nat (length (body (new_data_event sid buf r))) /\
  ~ event_wf (new_data_event sid buf r).
Proof.
  intros Hb. assert (0 <= FLAG_DATA < 256) as Hd by done.
  assert (len (header (new_data_event sid buf r)) = Z.of_nat (length buf) mod 2 ^ 24) as Hl.
  { unfold new_data_event; cbn [header]. rewrite len_get by done. by rewrite wrap_small by lia. }
  pose proof (Z.mod_pos_bound (Z.of_nat (length buf)) (2 ^ 24) ltac:(lia)).
  split_and!; [done|rewrite Hl; cbn [body new_data_event]; lia|].
  intros (_ & _ & Hw). destruct (bodyless _); cbn [body new_data_event] in Hw.
  - rewrite Hw in Hb. simpl in Hb. lia.
  - rewrite Hl in Hw. lia.
Qed.

Lemma long_data_event_truncated_witness :
  let buf := replicate (Z.to_nat 16777217) x00 in
  len (header (new_data_event 1 buf false)) = Z.of_nat (length buf) mod 2 ^ 24 /\
  len (header (new_data_event 1 buf false))
    < Z.of_nat (length (body (new_data_event 1 buf false))) /\
  ~ event_wf (new_data_event 1 buf false).
Proof.
  intros buf. apply (long_data_event_truncated 1 buf false).
  unfold buf. rewrite length_replicate. lia.
Defined.
