(* ===== verification/Crypto.v ===== *)
(** * Framing and encryption (src/src/rmux/crypto.rs)

    [CryptoContext] with [encrypt] and [decrypt], the nonce sequence of the
    AEAD keys, and the readers and writers of one framed event.  The crates
    [ring] (AEAD) and [skip32] (block cipher of the header words) are the
    class [Ciphers]; their documented contract is [CipherLaws]. *)
From stdpp Require Import prelude strings.
From Stdlib Require Import ZArith Lia.
From S2P Require Import Prelude Io Event.

Local Open Scope Z_scope.

(** ** The third-party ciphers *)

(** The two algorithms of [ring::aead] the code names. *)
Inductive Algorithm := CHACHA20_POLY1305 | AES_128_GCM.
#[export] Instance Algorithm_eq_dec : EqDecision Algorithm.
Proof. solve_decision. Defined.

Class Ciphers := {
  key_len : Algorithm -> nat;
  tag_len : Algorithm -> nat;
  (** [seal_in_place_append_tag] and [open_in_place]: whether the call
      succeeded, and what the buffer holds afterwards. *)
  seal_in_place : Algorithm -> list byte -> list byte -> list byte -> bool * list byte;
  open_in_place : Algorithm -> list byte -> list byte -> list byte -> bool * list byte;
  skip32_encode : list byte -> Z -> Z;
  skip32_decode : list byte -> Z -> Z;
}.

Class CipherLaws (C : Ciphers) := {
  key_len_chacha : key_len CHACHA20_POLY1305 = 32%nat;
  key_len_aes : key_len AES_128_GCM = 16%nat;
  tag_len_16 : forall a, tag_len a = 16%nat;
  seal_ok : forall a k n p, Z.of_nat (length p) < 2 ^ 24 ->
    exists c, seal_in_place a k n p = (true, c) /\ length c = (length p + tag_len a)%nat;
  open_seal : forall a k n p c, seal_in_place a k n p = (true, c) ->
    exists junk, open_in_place a k n c = (true, p ++ junk) /\ length junk = tag_len a;
  skip32_range : forall k x, is_u 32 x -> is_u 32 (skip32_encode k x);
  skip32_decode_encode : forall k x, is_u 32 x -> skip32_decode k (skip32_encode k x) = x;
}.

Definition NONCE_LEN : nat := 12.

(** ** The nonce sequence and the bound keys *)

Record CryptoNonceSequence := { seq_nonce : Z }.

(** [advance]: increments, then lays the counter out little-endian in the
    first 8 of the 12 nonce bytes. *)
Definition advance (s : CryptoNonceSequence) : CryptoNonceSequence * list byte :=
  let n := wrap 64 (s.(seq_nonce) + 1) in
  ({| seq_nonce := n |}, to_le 8 n ++ replicate (NONCE_LEN - 8) x00).

(** [SealingKey] and [OpeningKey]: an algorithm, the key bytes and the
    sequence that yields the next nonce. *)
Record BoundKey := { algorithm : Algorithm; key_bytes : list byte; nonces : CryptoNonceSequence }.

Record CryptoContext := {
  key : list byte;
  nonce : Z;
  sealing_key : option BoundKey;
  opening_key : option BoundKey;
}.

Definition METHOD_AES128_GCM : string := "aes128gcm".
Definition METHOD_CHACHA20_POLY1305 : string := "chacha20poly1305".
Definition METHOD_NONE : string := "none".

Definition set_sealing (ctx : CryptoContext) (k : BoundKey) (n : Z) : CryptoContext :=
  {| key := ctx.(key); nonce := n; sealing_key := Some k; opening_key := ctx.(opening_key) |}.
Definition set_opening (ctx : CryptoContext) (k : BoundKey) (n : Z) : CryptoContext :=
  {| key := ctx.(key); nonce := n; sealing_key := ctx.(sealing_key); opening_key := Some k |}.

Section Crypto.
Context {C : Ciphers}.

(** [UnboundKey::new(algorithm, key).unwrap()] panics on a key of the
    wrong length. *)
Definition make_key (a : Algorithm) (k : list byte) (n : Z) : partial BoundKey :=
  if decide (length k = key_len a)
  then Ok {| algorithm := a; key_bytes := k; nonces := {| seq_nonce := n |} |}
  else Panic.

(** [while key.len() < 32 { key.push('F') }] *)
Fixpoint pad_key (fuel : nat) (k : list byte) : list byte :=
  match fuel with
  | O => k
  | S fuel => if decide (length k < 32)%nat then pad_key fuel (k ++ [x46]) else k
  end.

(** [CryptoContext::new]; the key slices cannot be out of range once the
    key is padded, but they are slices and are written as such. *)
Definition new (method : string) (k : list byte) (n : Z) : partial CryptoContext :=
  let key := pad_key 32 k in
  if decide (method = METHOD_CHACHA20_POLY1305) then
    kb ← slice_to 32 key;
    sk ← make_key CHACHA20_POLY1305 kb n;
    ok ← make_key CHACHA20_POLY1305 kb n;
    mret {| key := key; nonce := n; sealing_key := Some sk; opening_key := Some ok |}
  else if decide (method = METHOD_NONE) then
    mret {| key := key; nonce := n; sealing_key := None; opening_key := None |}
  else if decide (method = METHOD_AES128_GCM) then
    kb ← slice_to 16 key;
    sk ← make_key AES_128_GCM kb n;
    ok ← make_key AES_128_GCM kb n;
    mret {| key := key; nonce := n; sealing_key := Some sk; opening_key := Some ok |}
  else Panic.

(** The first 10 key bytes, the last 8 of them OR-ed with the bytes of the
    context's nonce. *)
Definition skip32_key (ctx : CryptoContext) : partial (list byte) :=
  sk ← slice_to 10 ctx.(key);
  mret (take 2 sk ++
        zip_with (fun s d => byte_of (Z.lor (u8v s) (u8v d))) (drop 2 sk) (to_le 8 ctx.(nonce))).
Definition skip32_decrypt_key := skip32_key.
Definition skip32_encrypt_key := skip32_key.

(** The context after the call, the event (sealed in place) and [out]. *)
Definition encrypt (ctx : CryptoContext) (ev : Event) (out : list byte)
    : partial (CryptoContext * Event * list byte) :=
  match ctx.(sealing_key) with
  | None =>
      let out := out ++ to_le 4 ev.(header).(flag_len) in
      let out := out ++ to_le 4 ev.(header).(stream_id) in
      let out := match ev.(body) with [] => out | b => out ++ b end in
      mret (ctx, ev, out)
  | Some sealing =>
      sk ← skip32_encrypt_key ctx;
      let e1 := skip32_encode sk ev.(header).(flag_len) in
      let e2 := skip32_encode sk ev.(header).(stream_id) in
      let out := out ++ to_le 4 e1 in
      let out := out ++ to_le 4 e2 in
      let '(sealing, body') :=
        match ev.(body) with
        | [] => (sealing, [])
        | b => let '(seq, nc) := advance sealing.(nonces) in
               ({| algorithm := sealing.(algorithm); key_bytes := sealing.(key_bytes);
                   nonces := seq |},
                (seal_in_place sealing.(algorithm) sealing.(key_bytes) nc b).2)
        end in
      let ev := {| header := ev.(header); body := body'; remote := ev.(remote) |} in
      mret (set_sealing ctx sealing (wrap 64 (ctx.(nonce) + 1)), ev, out ++ body')
  end.

(** [Err((n, ""))] asks for [n] more bytes; a non-empty reason is fatal. *)
Definition DecryptError : Type := Z * string.
Definition u32_of (n : nat) : Z := wrap 32 (Z.of_nat n).

Definition read_u32_le (buf : list byte) (a : nat) : Z := from_le (take 4 (drop a buf)).

(** The context, the buffer left, and the event or the error. *)
Definition decrypt (ctx : CryptoContext) (buf : list byte)
    : partial (CryptoContext * list byte * (Event + DecryptError)) :=
  match ctx.(opening_key) with
  | None =>
      if decide (length buf < EVENT_HEADER_LEN)%nat
      then mret (ctx, buf, inr (wrap 32 (u32_of EVENT_HEADER_LEN - u32_of (length buf)), ""%string))
      else
        let h := {| flag_len := read_u32_le buf 0; stream_id := read_u32_le buf 4 |} in
        if bool_decide (FLAG_WIN_UPDATE = flags h) || bool_decide (0 = len h)
        then mret (ctx, drop EVENT_HEADER_LEN buf,
                   inl {| header := h; body := []; remote := true |})
        else if decide (length buf - EVENT_HEADER_LEN < Z.to_nat (len h))%nat
        then mret (ctx, buf,
                   inr (wrap 32 (len h + u32_of EVENT_HEADER_LEN - u32_of (length buf)), ""%string))
        else
          let buf := drop EVENT_HEADER_LEN buf in
          let dlen := Z.to_nat (len h) in
          out ← slice_to dlen buf;
          mret (ctx, drop dlen buf, inl {| header := h; body := out; remote := true |})
  | Some opening =>
      if decide (length buf < EVENT_HEADER_LEN)%nat
      then mret (ctx, buf, inr (wrap 32 (u32_of EVENT_HEADER_LEN - u32_of (length buf)), ""%string))
      else
        sk ← skip32_decrypt_key ctx;
        let h := {| flag_len := skip32_decode sk (read_u32_le buf 0);
                    stream_id := skip32_decode sk (read_u32_le buf 4) |} in
        if bool_decide (FLAG_WIN_UPDATE = flags h) || bool_decide (0 = len h)
        then mret (set_opening ctx opening (wrap 64 (ctx.(nonce) + 1)),
                   drop EVENT_HEADER_LEN buf,
                   inl {| header := h; body := []; remote := true |})
        else
          let dlen := Z.to_nat (len h) in
          let expected_len := (dlen + tag_len opening.(algorithm))%nat in
          if decide (length buf - EVENT_HEADER_LEN < expected_len)%nat
          then mret (ctx, buf,
                     inr (u32_of (expected_len + EVENT_HEADER_LEN - length buf), ""%string))
          else
            let buf := drop EVENT_HEADER_LEN buf in
            slice ← slice_to expected_len buf;
            let '(seq, nc) := advance opening.(nonces) in
            let opening := {| algorithm := opening.(algorithm);
                              key_bytes := opening.(key_bytes); nonces := seq |} in
            let '(ok, opened) :=
              open_in_place opening.(algorithm) opening.(key_bytes) nc slice in
            let buf := opened ++ drop expected_len buf in
            if ok then
              out ← slice_to dlen buf;
              mret (set_opening ctx opening (wrap 64 (ctx.(nonce) + 1)),
                    drop expected_len buf,
                    inl {| header := h; body := out; remote := true |})
            else
              mret (set_opening ctx opening ctx.(nonce), buf, inr (0, "Decrypt error"%string))
  end.

(** ** Reading and writing one framed event *)
Context {A : BytesAlloc}.

Inductive read_outcome :=
  | GotEvent (ev : Event) (ctx : CryptoContext) (s : source) (recv_buf : list byte)
  | EndOfStream
  | ReadError (e : string).

(** The loop of [read_encrypt_event], with fuel; [None] is "still looping".
    [next_read_n] is the number of bytes the last [decrypt] asked for. *)
Fixpoint read_event_loop (fuel : nat) (ctx : CryptoContext) (s : source)
    (recv_buf : list byte) (next_read_n : Z) : option (partial read_outcome) :=
  match fuel with
  | O => None
  | S fuel =>
      let next_read_n :=
        if bool_decide (0 < next_read_n) && bool_decide (next_read_n < 4096)
        then 4096 else next_read_n in
      let try_decrypt (s : source) (recv_buf : list byte) :=
        match decrypt ctx recv_buf with
        | Ok (ctx, recv_buf, inl ev) => Some (Ok (GotEvent ev ctx s recv_buf))
        | Ok (ctx, recv_buf, inr (n, reason)) =>
            if decide (reason = ""%string)
            then read_event_loop fuel ctx s recv_buf n
            else Some (Ok (ReadError reason))
        | Err e => match e with end
        | Panic => Some Panic
        end in
      if decide (0 < next_read_n) then
        let room := (capacity (length recv_buf) (Z.to_nat next_read_n)
                     - length recv_buf)%nat in
        let '(r, s) := read room s in
        match r with
        | Err e => Some (Ok (ReadError e))
        | Panic => Some Panic
        | Ok l => if decide (length l = 0%nat) then Some (Ok EndOfStream)
                  else try_decrypt s (recv_buf ++ l)
        end
      else try_decrypt s recv_buf
  end.

Definition read_encrypt_event (ctx : CryptoContext) (s : source) (recv_buf : list byte) :=
  read_event_loop (S (S (weight s))) ctx s recv_buf 0.

(** [write_encrypt_event]: the bytes handed to [write_all]. *)
Definition write_encrypt_event (ctx : CryptoContext) (ev : Event)
    : partial (CryptoContext * list byte) :=
  '(ctx, _, buf) ← encrypt ctx ev [];
  mret (ctx, buf).
End Crypto.

(** ** Keys *)

Lemma pad_key_eq fuel k :
  (32 - length k <= fuel)%nat -> pad_key fuel k = k ++ replicate (32 - length k) x46.
Proof.
  revert k; induction fuel as [|fuel IH]; intros k Hf; simpl.
  - replace (32 - length k)%nat with 0%nat by lia. by rewrite app_nil_r.
  - case_decide as Hk.
    + rewrite IH by len. rewrite <- app_assoc. f_equal.
      rewrite length_app; simpl. replace (32 - length k)%nat with (S (32 - (length k + 1))) by lia.
      done.
    + replace (32 - length k)%nat with 0%nat by lia. by rewrite app_nil_r.
Qed.

#[global] Arguments pad_key : simpl never.
Lemma length_pad_key k : length (pad_key 32 k) = max 32 (length k).
Proof. rewrite pad_key_eq, length_app, length_replicate by lia. lia. Qed.

Definition supported (method : string) : Prop :=
  method = METHOD_CHACHA20_POLY1305 \/ method = METHOD_NONE \/ method = METHOD_AES128_GCM.
#[export] Instance supported_dec m : Decision (supported m).
Proof. unfold supported. apply _. Defined.

(** ** Synchronised contexts

    The reader's context [r] mirrors the writer's context [w]. *)
Definition sync (w r : CryptoContext) : Prop :=
  key w = key r /\ nonce w = nonce r /\ sealing_key w = opening_key r.

Definition ctx_ok (ctx : CryptoContext) : Prop := (10 <= length (key ctx))%nat.

(** What the reader gets for an event: its header and body, from remote. *)
Definition received (ev : Event) : Event :=
  {| header := header ev; body := body ev; remote := true |}.

Lemma skip32_key_ok ctx : ctx_ok ctx -> exists sk, skip32_key ctx = Ok sk.
Proof.
  intros H. unfold skip32_key, ctx_ok in *. rewrite slice_to_le by done. unmonad. eauto.
Qed.

Lemma skip32_key_sync w r : sync w r -> skip32_key r = skip32_key w.
Proof. intros (Hk & Hn & _). unfold skip32_key. by rewrite Hk, Hn. Qed.

(** ** The header words *)

Lemma read_words e1 e2 buf rest :
  is_u 32 e1 -> is_u 32 e2 -> take 8 buf = to_le 4 e1 ++ to_le 4 e2 -> rest = drop 8 buf ->
  read_u32_le buf 0 = e1 /\ read_u32_le buf 4 = e2 /\ (8 <= length buf)%nat.
Proof.
  intros H1 H2 Hb ->. rewrite <- (take_drop 8 buf), Hb. unfold read_u32_le.
  rewrite drop_0, <- !app_assoc, take_app_le, take_ge by (rewrite length_to_le; lia).
  rewrite drop_app_ge, length_to_le, drop_0, take_app_le, take_ge by (rewrite length_to_le; lia).
  rewrite !from_le_to_le_small by done. split_and!; [done..|len].
Qed.

Lemma bodyless_test h :
  bool_decide (FLAG_WIN_UPDATE = flags h) || bool_decide (0 = len h) = bodyless h.
Proof. unfold bodyless. f_equal; apply bool_decide_ext; split; congruence. Qed.

(** A strict prefix of at least 8 bytes starts with the same header. *)
Lemma take_frame_prefix (hd payload p q : list byte) :
  length hd = 8%nat -> p ++ q = hd ++ payload -> (8 <= length p)%nat -> take 8 p = hd.
Proof.
  intros Hh E Hp. apply (f_equal (take 8)) in E.
  rewrite take_app_le, take_app_le, (take_ge hd) in E by lia. done.
Qed.

(** ** One event through the codec *)

(** The frame [f] of an event: what [encrypt] appends, and how a mirrored
    reader takes it back, whole or cut short. *)
Record codec {C : Ciphers} (w r : CryptoContext) (ev : Event)
    (w' r' : CryptoContext) (f : list byte) : Prop := {
  codec_encrypt : forall out, exists ev', encrypt w ev out = Ok (w', ev', out ++ f);
  codec_sync : sync w' r';
  codec_key : key w' = key w;
  codec_nonempty : (8 <= length f)%nat;
  codec_decrypt : forall rest, decrypt r (f ++ rest) = Ok (r', rest, inl (received ev));
  codec_partial : forall p q, q <> [] -> p ++ q = f ->
    decrypt r p = Ok (r, p, inr (Z.of_nat (if decide (length p < 8)%nat then 8 - length p
                                           else length q), ""%string));
}.

Section Codec.
Context {C : Ciphers} `{!CipherLaws C}.

Lemma wrap32_sub a b : (b <= a)%nat -> Z.of_nat a < 2 ^ 32 ->
  wrap 32 (u32_of a - u32_of b) = Z.of_nat (a - b).
Proof.
  intros. unfold u32_of.
  rewrite (wrap_small 32 (Z.of_nat a)), (wrap_small 32 (Z.of_nat b)), wrap_small; lia.
Qed.

Lemma codec_plain w r ev :
  event_wf ev -> sync w r -> sealing_key w = None ->
  codec w r ev w r (to_le 4 (flag_len (header ev)) ++ to_le 4 (stream_id (header ev)) ++ body ev).
Proof.
  intros (Hf & Hs & Hb) Hsync Hnone. pose proof Hsync as (_ & _ & Hopen). rewrite Hnone in Hopen.
  set (hd := to_le 4 (flag_len (header ev)) ++ to_le 4 (stream_id (header ev))).
  assert (length hd = 8%nat) as Hhd by (unfold hd; len).
  assert (forall b, take 8 b = hd ->
    {| flag_len := read_u32_le b 0; stream_id := read_u32_le b 4 |} = header ev) as Hread.
  { intros b Hb8. destruct (read_words _ _ b _ Hf Hs Hb8 eq_refl) as (-> & -> & _).
    by destruct (header ev). }
  pose proof (len_range _ Hf) as Hlen.
  rewrite app_assoc. fold hd. split; [|done|done|rewrite length_app; lia|..].
  - intros out. exists ev. unfold encrypt. rewrite Hnone. unmonad.
    do 2 f_equal. unfold hd. rewrite <- !app_assoc. destruct (body ev); by rewrite ?app_nil_r, <- ?app_assoc.
  - intros rest. rewrite <- app_assoc. unfold decrypt. rewrite <- Hopen.
    rewrite decide_False by (unfold EVENT_HEADER_LEN; rewrite !length_app; lia).
    rewrite Hread by (by rewrite take_app_le, take_ge by lia). rewrite bodyless_test.
    unfold EVENT_HEADER_LEN. rewrite drop_app_ge, Hhd, drop_0 by lia.
    destruct (bodyless (header ev)) eqn:Hbl.
    + rewrite Hb. unmonad. unfold received. by rewrite Hb.
    + rewrite decide_False by (rewrite !length_app; lia).
      rewrite slice_to_le by (rewrite !length_app; lia). unmonad.
      rewrite take_app_le, take_ge, drop_app_ge by lia.
      replace (_ - _)%nat with 0%nat by lia. done.
  - intros p q Hq E. unfold decrypt. rewrite <- Hopen. unfold EVENT_HEADER_LEN.
    destruct (decide (length p < 8)%nat) as [Hp|Hp].
    + rewrite wrap32_sub by lia. done.
    + assert (take 8 p = hd) as Hp8 by (eapply take_frame_prefix; [done..|lia]).
      rewrite Hread by done. rewrite bodyless_test.
      assert (length q <> 0%nat) by (by destruct q).
      apply (f_equal length) in E. rewrite !length_app, Hhd in E.
      destruct (bodyless (header ev)) eqn:Hbl; [rewrite Hb in E; simpl in E; lia|].
      rewrite decide_True by lia. unmonad. do 3 f_equal. unfold u32_of.
      rewrite (wrap_small 32 (Z.of_nat 8)), (wrap_small 32 (Z.of_nat (length p))), wrap_small by lia.
      f_equal. lia.
Qed.
End Codec.

Section CodecSealed.
Context {C : Ciphers} `{!CipherLaws C}.

(** The key and nonce of the next sealed body. *)
Definition next_key (k : BoundKey) : BoundKey :=
  {| algorithm := algorithm k; key_bytes := key_bytes k; nonces := (advance (nonces k)).1 |}.

(** The body as sealed: nothing for an empty body. *)
Definition sealed_body (k : BoundKey) (b : list byte) : list byte :=
  match b with
  | [] => []
  | _ => (seal_in_place (algorithm k) (key_bytes k) (advance (nonces k)).2 b).2
  end.
Definition sealed_key (k : BoundKey) (b : list byte) : BoundKey :=
  match b with [] => k | _ => next_key k end.

Lemma length_sealed_body k b :
  Z.of_nat (length b) < 2 ^ 24 ->
  length (sealed_body k b) = match b with [] => 0%nat | _ => (length b + 16)%nat end.
Proof.
  intros Hb. unfold sealed_body. destruct b as [|x b]; [done|].
  destruct (seal_ok (algorithm k) (key_bytes k) (advance (nonces k)).2 (x :: b) Hb)
    as (c & -> & Hc). by rewrite tag_len_16 in Hc.
Qed.

Lemma open_sealed_body k b :
  Z.of_nat (length b) < 2 ^ 24 -> b <> [] ->
  exists junk, length junk = 16%nat /\
  open_in_place (algorithm k) (key_bytes k) (advance (nonces k)).2 (sealed_body k b)
  = (true, b ++ junk).
Proof.
  intros Hb Hne. unfold sealed_body. destruct b as [|x b]; [done|].
  destruct (seal_ok (algorithm k) (key_bytes k) (advance (nonces k)).2 (x :: b) Hb)
    as (c & E & _). rewrite E. apply open_seal in E as (junk & Ho & Hj).
  exists junk. by rewrite tag_len_16 in Hj.
Qed.

Definition sealed_frame (sk : list byte) (k : BoundKey) (ev : Event) : list byte :=
  to_le 4 (skip32_encode sk (flag_len (header ev))) ++
  to_le 4 (skip32_encode sk (stream_id (header ev))) ++ sealed_body k (body ev).

Lemma encrypt_sealed w k sk ev out :
  sealing_key w = Some k -> skip32_key w = Ok sk ->
  exists ev', encrypt w ev out =
    Ok (set_sealing w (sealed_key k (body ev)) (wrap 64 (nonce w + 1)), ev',
        out ++ sealed_frame sk k ev).
Proof.
  intros Hk Hsk.
  exists {| header := header ev; body := sealed_body k (body ev); remote := remote ev |}.
  unfold encrypt. rewrite Hk. unfold skip32_encrypt_key. rewrite Hsk. unmonad.
  unfold sealed_frame, sealed_body, sealed_key, next_key.
  destruct (body ev) as [|x b]; [|destruct (advance (nonces k)) as [s n]];
    cbn; by rewrite <- !app_assoc.
Qed.

(** The sealed header words. *)
Definition sealed_header (sk : list byte) (h : Header) : list byte :=
  to_le 4 (skip32_encode sk (flag_len h)) ++ to_le 4 (skip32_encode sk (stream_id h)).

Lemma read_sealed_header sk h b :
  is_u 32 (flag_len h) -> is_u 32 (stream_id h) -> take 8 b = sealed_header sk h ->
  {| flag_len := skip32_decode sk (read_u32_le b 0);
     stream_id := skip32_decode sk (read_u32_le b 4) |} = h.
Proof.
  intros Hf Hs Hb8.
  destruct (read_words _ _ b _ (skip32_range sk _ Hf) (skip32_range sk _ Hs) Hb8 eq_refl)
    as (-> & -> & _).
  rewrite !skip32_decode_encode by done. by destruct h.
Qed.

Lemma sealed_frame_split sk k ev :
  sealed_frame sk k ev = sealed_header sk (header ev) ++ sealed_body k (body ev) /\
  length (sealed_header sk (header ev)) = 8%nat.
Proof. unfold sealed_frame, sealed_header. rewrite app_assoc. split; [done|len]. Qed.

(** Bounds on the body a well-formed event carries. *)
Lemma body_bounds ev :
  event_wf ev ->
  Z.of_nat (length (body ev)) < 2 ^ 24 /\ 0 <= len (header ev) < 2 ^ 24 /\
  if bodyless (header ev) then body ev = []
  else body ev <> [] /\ Z.of_nat (length (body ev)) = len (header ev).
Proof.
  intros (Hf & Hs & Hb). pose proof (len_range _ Hf) as Hlen.
  destruct (bodyless (header ev)) eqn:Hbl; [by rewrite Hb|]. split_and!; try lia.
  intros E. rewrite E in Hb. simpl in Hb.
  unfold bodyless in Hbl. by rewrite <- Hb, orb_true_r in Hbl.
Qed.

Lemma decrypt_sealed r k ev sk rest :
  event_wf ev -> skip32_key r = Ok sk -> opening_key r = Some k ->
  decrypt r (sealed_frame sk k ev ++ rest) =
    Ok (set_opening r (sealed_key k (body ev)) (wrap 64 (nonce r + 1)), rest, inl (received ev)).
Proof.
  intros Hwf Hsk Hopen. pose proof Hwf as (Hf & Hs & _).
  destruct (body_bounds ev Hwf) as (Hlb & Hlen & Hb). pose proof (length_sealed_body k _ Hlb) as Hsb.
  destruct (sealed_frame_split sk k ev) as [-> Hhd]. set (hd := sealed_header sk (header ev)) in *.
  rewrite <- app_assoc. unfold decrypt. rewrite Hopen.
  rewrite decide_False by (unfold EVENT_HEADER_LEN; rewrite !length_app; lia).
  unfold skip32_decrypt_key. rewrite Hsk. unmonad.
  rewrite (read_sealed_header sk (header ev)) by (done || by rewrite take_app_le, take_ge by lia).
  rewrite bodyless_test. unfold EVENT_HEADER_LEN. rewrite drop_app_ge, Hhd, drop_0 by lia.
  destruct (bodyless (header ev)) eqn:Hbl; [rewrite Hb; unfold received; by rewrite Hb|].
  destruct Hb as [Hne Hb]. rewrite tag_len_16.
  assert (length (sealed_body k (body ev)) = Z.to_nat (len (header ev)) + 16)%nat as HL.
  { rewrite Hsb. destruct (body ev); [done|]. lia. }
  rewrite decide_False by (rewrite !length_app; lia).
  rewrite slice_to_le by (rewrite !length_app; lia). rewrite take_app_le, take_ge by lia.
  destruct (open_sealed_body k _ Hlb Hne) as (junk & Hj & Ho).
  unfold next_key, sealed_key. destruct (advance (nonces k)) as [seq nc] eqn:Hadv. simpl in Ho.
  cbn [algorithm key_bytes nonces]. rewrite Ho. rewrite slice_to_le by (rewrite !length_app; lia).
  rewrite (drop_app_ge (sealed_body k (body ev))) by lia.
  replace (_ - length (sealed_body k (body ev)))%nat with 0%nat by lia.
  rewrite <- app_assoc, drop_0, take_app_le, take_ge by lia.
  rewrite app_assoc, drop_app_ge by (rewrite length_app; lia).
  replace (_ - _)%nat with 0%nat by (rewrite length_app; lia). rewrite drop_0.
  destruct (body ev) eqn:Eb; [done|]. unfold next_key. rewrite Hadv. unfold received. by rewrite Eb.
Qed.

Lemma decrypt_sealed_partial r k ev sk p q :
  event_wf ev -> skip32_key r = Ok sk -> opening_key r = Some k ->
  q <> [] -> p ++ q = sealed_frame sk k ev ->
  decrypt r p = Ok (r, p, inr (Z.of_nat (if decide (length p < 8)%nat then 8 - length p
                                         else length q), ""%string)).
Proof.
  intros Hwf Hsk Hopen Hq E. pose proof Hwf as (Hf & Hs & _).
  destruct (body_bounds ev Hwf) as (Hlb & Hlen & Hb). pose proof (length_sealed_body k _ Hlb) as Hsb.
  destruct (sealed_frame_split sk k ev) as [Hfr Hhd]. rewrite Hfr in E.
  unfold decrypt. rewrite Hopen. unfold EVENT_HEADER_LEN.
  destruct (decide (length p < 8)%nat) as [Hp|Hp]; [by rewrite wrap32_sub by lia|].
  assert (take 8 p = sealed_header sk (header ev)) as Hp8 by (eapply take_frame_prefix; [done..|lia]).
  unfold skip32_decrypt_key. rewrite Hsk. unmonad.
  rewrite (read_sealed_header sk (header ev)) by done. rewrite bodyless_test.
  assert (length q <> 0%nat) by (by destruct q).
  apply (f_equal length) in E. rewrite !length_app, Hhd, Hsb in E.
  destruct (bodyless (header ev)) eqn:Hbl; [rewrite Hb in E; simpl in E; lia|]. destruct Hb as [Hne Hb].
  rewrite tag_len_16. unfold u32_of. rewrite decide_True by (destruct (body ev); simpl in *; lia).
  do 3 f_equal. f_equal. rewrite wrap_small; destruct (body ev); simpl in *; lia.
Qed.

Lemma codec_sealed w r k ev sk :
  event_wf ev -> sync w r -> sealing_key w = Some k -> skip32_key w = Ok sk ->
  codec w r ev
    (set_sealing w (sealed_key k (body ev)) (wrap 64 (nonce w + 1)))
    (set_opening r (sealed_key k (body ev)) (wrap 64 (nonce r + 1)))
    (sealed_frame sk k ev).
Proof.
  intros Hwf Hsync Hk Hsk. pose proof Hsync as (Hkey & Hn & Hopen). rewrite Hk in Hopen.
  pose proof (skip32_key_sync _ _ Hsync) as Hskr. rewrite Hsk in Hskr. symmetry in Hopen.
  split; [intros out; by apply encrypt_sealed|by split_and!; simpl; congruence|done|..].
  - destruct (sealed_frame_split sk k ev) as [-> ?]. rewrite length_app. lia.
  - intros rest. by apply decrypt_sealed.
  - intros p q. by apply decrypt_sealed_partial.
Qed.

(** Any well-formed event goes through, in any mode. *)
Lemma codec_event w r ev :
  ctx_ok w -> event_wf ev -> sync w r -> exists w' r' f, codec w r ev w' r' f.
Proof.
  intros Hok Hev Hs. destruct (sealing_key w) as [k|] eqn:Hk.
  - destruct (skip32_key_ok w Hok) as [sk Hsk]. eauto using codec_sealed.
  - eauto using codec_plain.
Qed.
End CodecSealed.

(** ** Reassembly: the event comes out whatever the chunking of the stream. *)
Section Reassembly.
Context {C : Ciphers} {A : BytesAlloc} `{!BytesAllocLaws A}.
Context {w r : CryptoContext} {ev : Event} {w' r' : CryptoContext} {f rest : list byte}.
Hypothesis Hcodec : codec w r ev w' r' f.

(** The outcome the loop must reach. *)
Definition got (o : option (partial read_outcome)) : Prop :=
  exists s' buf', o = Some (Ok (GotEvent (received ev) r' s' buf')) /\
    buf' ++ stream s' = rest /\ healthy s'.

Lemma split_frame buf s :
  buf ++ stream s = f ++ rest ->
  (exists rest', buf = f ++ rest' /\ rest' ++ stream s = rest) \/
  (exists q, q <> [] /\ buf ++ q = f /\ stream s = q ++ rest).
Proof.
  intros E. destruct (decide (length f <= length buf)%nat) as [H|H].
  - left. exists (drop (length f) buf).
    assert (take (length f) buf = f) as Ht.
    { apply (f_equal (take (length f))) in E. by rewrite take_app_le, take_app_length in E by done. }
    assert (buf = f ++ drop (length f) buf) as Hb by (by rewrite <- Ht at 1; rewrite take_drop).
    split; [done|]. rewrite Hb, <- app_assoc in E. by apply app_inv_head in E.
  - right. exists (drop (length buf) f).
    assert (take (length buf) f = buf) as Ht.
    { apply (f_equal (take (length buf))) in E.
      by rewrite take_app_length, take_app_le in E by lia. }
    split_and!.
    + intros Hd%(f_equal length). rewrite length_drop in Hd. simpl in Hd. lia.
    + rewrite <- Ht at 1. apply take_drop.
    + rewrite <- (take_drop (length buf) f), Ht, <- app_assoc in E. by apply app_inv_head in E.
Qed.

Lemma read_room len n : 0 < n -> (0 < capacity len (Z.to_nat n) - len)%nat.
Proof. intros. pose proof (capacity_reserve len (Z.to_nat n)). lia. Qed.

Lemma read_event_loop_got fuel s buf n :
  healthy s -> buf ++ stream s = f ++ rest -> (length buf < length f)%nat ->
  0 < n -> (weight s < fuel)%nat -> got (read_event_loop fuel r s buf n).
Proof.
  revert s buf n. induction fuel as [|fuel IH]; intros s buf n Hs E Hbuf Hn Hfuel; [lia|].
  cbn [read_event_loop]. set (n' := if _ && _ then 4096 else n).
  assert (0 < n') as Hn' by (unfold n'; destruct (_ && _); lia). rewrite decide_True by done.
  destruct (read _ s) as [o s1] eqn:R.
  apply read_healthy in R as (l & -> & _ & Hst & Hs1 & Hz & Hw); [|by apply read_room|done].
  assert (l <> []) as Hl.
  { intros ->. rewrite (Hz eq_refl), app_nil_r in E. apply (f_equal length) in E.
    rewrite length_app in E. lia. }
  rewrite decide_False by (by destruct l). specialize (Hw Hl).
  rewrite Hst, app_assoc in E.
  destruct (split_frame _ _ E) as [(rest' & Hb & Hr)|(q & Hq & Hb & Hr)].
  - rewrite Hb, (codec_decrypt _ _ _ _ _ _ Hcodec). exists s1, rest'. done.
  - rewrite (codec_partial _ _ _ _ _ _ Hcodec _ q Hq Hb). rewrite decide_True by done.
    apply IH; [done|done| |..]; [|destruct q; [done|]; case_decide; simpl; lia|lia].
    rewrite <- Hb, !length_app. destruct q; [done|]. simpl; lia.
Qed.

(** The first iteration reads nothing. *)
Lemma read_event_first fuel s buf :
  read_event_loop (S fuel) r s buf 0 =
  match decrypt r buf with
  | Ok (ctx, buf, inl ev) => Some (Ok (GotEvent ev ctx s buf))
  | Ok (ctx, buf, inr (n, reason)) =>
      if decide (reason = ""%string) then read_event_loop fuel ctx s buf n
      else Some (Ok (ReadError reason))
  | Err e => match e with end
  | Panic => Some Panic
  end.
Proof. done. Qed.

Lemma read_encrypt_event_got s buf :
  healthy s -> buf ++ stream s = f ++ rest -> got (read_encrypt_event r s buf).
Proof.
  intros Hs E. unfold read_encrypt_event. rewrite read_event_first.
  destruct (split_frame _ _ E) as [(rest' & -> & Hr)|(q & Hq & Hb & Hr)].
  - rewrite (codec_decrypt _ _ _ _ _ _ Hcodec). exists s, rest'. done.
  - rewrite (codec_partial _ _ _ _ _ _ Hcodec _ q Hq Hb). rewrite decide_True by done.
    assert (length buf < length f)%nat.
    { rewrite <- Hb, length_app. destruct q; [done|]. simpl; lia. }
    apply read_event_loop_got; [done|done|done| |lia].
    destruct q; [done|]; case_decide; simpl; lia.
Qed.
End Reassembly.

(** ** Sequences of events *)
Section Sequences.
Context {C : Ciphers} {A : BytesAlloc}.

(** Writing events one after the other to one [BytesMut]. *)
Fixpoint encrypt_all (w : CryptoContext) (evs : list Event) (out : list byte)
    : partial (CryptoContext * list byte) :=
  match evs with
  | [] => mret (w, out)
  | ev :: evs => '(w, _, out) ← encrypt w ev out; encrypt_all w evs out
  end.

(** Reading [n] events from a source; [None] when a read does not return
    or does not give an event. *)
Fixpoint read_events (n : nat) (r : CryptoContext) (s : source) (buf : list byte)
    : option (list Event * CryptoContext * source * list byte) :=
  match n with
  | O => Some ([], r, s, buf)
  | S n => match read_encrypt_event r s buf with
           | Some (Ok (GotEvent ev r s buf)) =>
               '(evs, r, s, buf) ← read_events n r s buf;
               Some (ev :: evs, r, s, buf)
           | _ => None
           end
  end.

Context `{!CipherLaws C} `{!BytesAllocLaws A}.

Lemma sequence_codec evs w r out :
  ctx_ok w -> Forall event_wf evs -> sync w r ->
  exists w' fs, encrypt_all w evs out = Ok (w', out ++ fs) /\ ctx_ok w' /\
  forall rest s buf, healthy s -> buf ++ stream s = fs ++ rest ->
  exists r' s' buf', read_events (length evs) r s buf = Some (received <$> evs, r', s', buf') /\
    sync w' r' /\ buf' ++ stream s' = rest /\ healthy s'.
Proof.
  revert w r out. induction evs as [|ev evs IH]; intros w r out Hw Hevs Hs.
  - exists w, []. simpl. rewrite app_nil_r. split_and!; try done.
    intros rest s buf Hh E. exists r, s, buf. done.
  - apply Forall_cons in Hevs as [Hev Hevs].
    destruct (codec_event w r ev Hw Hev Hs) as (w1 & r1 & f & Hc).
    destruct (codec_encrypt _ _ _ _ _ _ Hc out) as [ev' Hen].
    assert (ctx_ok w1) as Hw1 by (unfold ctx_ok; rewrite (codec_key _ _ _ _ _ _ Hc); done).
    destruct (IH w1 r1 (out ++ f) Hw1 Hevs (codec_sync _ _ _ _ _ _ Hc))
      as (w' & fs & Hall & Hw' & Hread).
    exists w', (f ++ fs). split_and!; [|done|].
    + simpl. rewrite Hen. unmonad. by rewrite Hall, app_assoc.
    + intros rest s buf Hh E. rewrite <- app_assoc in E.
      destruct (read_encrypt_event_got Hc s buf Hh E) as (s1 & buf1 & Hr1 & E1 & Hh1).
      destruct (Hread rest s1 buf1 Hh1 E1) as (r' & s' & buf' & Hr & ?).
      exists r', s', buf'. simpl. rewrite Hr1. simpl. by rewrite Hr.
Qed.
End Sequences.

(** ** Fresh contexts and nonces *)
Section Fresh.
Context {C : Ciphers} `{!CipherLaws C}.

Lemma make_key_ok a k n :
  length k = key_len a ->
  make_key a k n = Ok {| algorithm := a; key_bytes := k; nonces := {| seq_nonce := n |} |}.
Proof. intros. unfold make_key. by rewrite decide_True. Qed.

(** The key of a method: the first bytes of the padded key. *)
Definition method_key (method : string) (k : list byte) (n : Z) : option BoundKey :=
  if decide (method = METHOD_CHACHA20_POLY1305)
  then Some {| algorithm := CHACHA20_POLY1305; key_bytes := take 32 (pad_key 32 k);
               nonces := {| seq_nonce := n |} |}
  else if decide (method = METHOD_AES128_GCM)
  then Some {| algorithm := AES_128_GCM; key_bytes := take 16 (pad_key 32 k);
               nonces := {| seq_nonce := n |} |}
  else None.

Lemma new_supported method k n :
  supported method ->
  new method k n = Ok {| key := pad_key 32 k; nonce := n;
                         sealing_key := method_key method k n;
                         opening_key := method_key method k n |}.
Proof.
  intros Hm. pose proof (length_pad_key k) as Hl. unfold new, method_key.
  destruct (decide (method = METHOD_CHACHA20_POLY1305)) as [->|H1].
  { rewrite slice_to_le by lia. unmonad.
    rewrite !make_key_ok; [done|rewrite key_len_chacha, length_take; lia]. }
  destruct (decide (method = METHOD_NONE)) as [->|H2]; [done|].
  destruct (decide (method = METHOD_AES128_GCM)) as [->|H3].
  { rewrite slice_to_le by lia. unmonad.
    rewrite !make_key_ok; [done|rewrite key_len_aes, length_take; lia]. }
  by destruct Hm as [?|[?|?]].
Qed.

Lemma new_unsupported method k n : ~ supported method -> new method k n = Panic.
Proof. unfold supported, new. intros H. by repeat (rewrite decide_False by tauto). Qed.

Lemma new_sync method k n c : new method k n = Ok c -> sync c c /\ ctx_ok c.
Proof.
  intros E. destruct (decide (supported method)) as [Hm|Hm].
  - rewrite new_supported in E by done. injection E as <-. split; [done|].
    unfold ctx_ok. cbn [key]. rewrite length_pad_key. lia.
  - by rewrite new_unsupported in E.
Qed.

(** How many of the events have a body to seal. *)
Definition sealed_count (evs : list Event) : nat :=
  length (filter (fun ev => body ev <> []) evs).

Lemma encrypt_all_nonces evs w k out w' out' :
  sealing_key w = Some k -> encrypt_all w evs out = Ok (w', out') ->
  exists k', sealing_key w' = Some k' /\
    wrap 64 (seq_nonce (nonces k')) = wrap 64 (seq_nonce (nonces k) + Z.of_nat (sealed_count evs)).
Proof.
  revert w k out. induction evs as [|ev evs IH]; intros w k out Hk E; simpl in E.
  - unmonad. simplify_eq. exists k. split; [done|]. by rewrite Z.add_0_r.
  - destruct (skip32_key w) as [sk|[]|] eqn:Hsk.
    2: { unfold encrypt, skip32_encrypt_key in E. rewrite Hk, Hsk in E. by unmonad. }
    destruct (encrypt_sealed w k sk ev out Hk Hsk) as [ev' Hen].
    rewrite Hen in E. unmonad.
    apply (IH _ (sealed_key k (body ev))) in E as (k' & Hk' & Hn); [|done].
    exists k'. split; [done|]. rewrite Hn. unfold sealed_count, sealed_key. rewrite filter_cons.
    destruct (body ev) as [|b l]; [rewrite decide_False by tauto; done|].
    rewrite decide_True by done. cbn [length nonces seq_nonce next_key advance fst].
    rewrite wrap_wrap_add by lia. f_equal. lia.
Qed.
End Fresh.

(** ** A concrete cipher suite for the witnesses: no secrecy, the right
    lengths and the right inverses. *)
Module Toy.
#[export] Instance toy : Ciphers := {|
  key_len a := match a with CHACHA20_POLY1305 => 32%nat | AES_128_GCM => 16%nat end;
  tag_len _ := 16%nat;
  seal_in_place _ _ _ p := (true, p ++ replicate 16 x00);
  open_in_place _ _ _ c := (true, c);
  skip32_encode _ x := wrap 32 (x + 1);
  skip32_decode _ x := wrap 32 (x - 1);
|}.
#[export] Instance toy_laws : CipherLaws toy.
Proof.
  split; simpl; try done.
  - intros _ _ _ p _. eexists; split; [done|]. len.
  - intros _ _ _ p c [= <-]. by exists (replicate 16 x00).
  - intros _ x _. apply wrap_range. lia.
  - intros _ x Hx. unfold wrap. rewrite Zminus_mod_idemp_l.
    rewrite Z.add_simpl_r. by apply Z.mod_small.
Qed.

(** A context of the default method. *)
Definition ctx : CryptoContext :=
  match new METHOD_CHACHA20_POLY1305 [x61; x62] 41 with
  | Ok c => c
  | _ => {| key := []; nonce := 0; sealing_key := None; opening_key := None |}
  end.
Definition hello : Event := new_data_event 7 [x68; x69] false.
Definition fin : Event := new_fin_event 7 false.

Lemma ctx_sync : sync ctx ctx /\ ctx_ok ctx.
Proof. apply (new_sync METHOD_CHACHA20_POLY1305 [x61; x62] 41). vm_compute. reflexivity. Qed.
Lemma events_wf : Forall event_wf [hello; fin; hello].
Proof. apply (bool_decide_eq_true_1 _). vm_compute. reflexivity. Qed.
Lemma hello_wf : event_wf hello.
Proof. pose proof events_wf as H. by apply Forall_cons in H as [H _]. Qed.
End Toy.
#[export] Existing Instance Toy.toy_laws.

(** ** Properties *)

(** C9: an encrypted event is decrypted to itself.  For every well-formed
    event and synchronised contexts, in plain and in AEAD mode, what
    [encrypt] appends is taken back by [decrypt] whatever bytes follow, only
    those bytes are left, and the two contexts are synchronised again. *)
Theorem encrypt_decrypt_roundtrip {C : Ciphers} `{!CipherLaws C} w r ev out rest :
  ctx_ok w -> sync w r -> event_wf ev ->
  exists w' ev' f r',
    encrypt w ev out = Ok (w', ev', out ++ f) /\
    decrypt r (f ++ rest) = Ok (r', rest, inl (received ev)) /\
    sync w' r' /\ ctx_ok w'.
Proof.
  intros Hw Hs Hev. destruct (codec_event w r ev Hw Hev Hs) as (w' & r' & f & Hc).
  destruct (codec_encrypt _ _ _ _ _ _ Hc out) as [ev' E].
  exists w', ev', f, r'. split_and!; [done|apply Hc|apply Hc|].
  unfold ctx_ok. by rewrite (codec_key _ _ _ _ _ _ Hc).
Qed.

Lemma encrypt_decrypt_roundtrip_witness :
  exists w' ev' f r',
    encrypt (C := Toy.toy) Toy.ctx Toy.hello [] = Ok (w', ev', [] ++ f) /\
    decrypt (C := Toy.toy) Toy.ctx (f ++ [x00; x01]) = Ok (r', [x00; x01], inl (received Toy.hello)) /\
    sync w' r' /\ ctx_ok w'.
Proof.
  apply (encrypt_decrypt_roundtrip (C := Toy.toy) Toy.ctx Toy.ctx Toy.hello [] [x00; x01]).
  - apply Toy.ctx_sync.
  - apply Toy.ctx_sync.
  - apply Toy.hello_wf.
Defined.

(** C8: a stream of events survives any transport.  Events encrypted one
    after the other and delivered in arbitrary non-empty chunks, with
    anything behind them, are read back by [read_encrypt_event] one by one,
    complete and in order; every read returns, the bytes behind the events
    stay unread, and the contexts stay synchronised. *)
Theorem event_stream_reassembled {C : Ciphers} {A : BytesAlloc}
    `{!CipherLaws C} `{!BytesAllocLaws A} w r evs :
  ctx_ok w -> sync w r -> Forall event_wf evs ->
  exists w' fs, encrypt_all w evs [] = Ok (w', fs) /\
  forall s rest, healthy s -> stream s = fs ++ rest ->
  exists r' s' buf,
    read_events (length evs) r s [] = Some (received <$> evs, r', s', buf) /\
    buf ++ stream s' = rest /\ sync w' r'.
Proof.
  intros Hw Hs Hevs.
  destruct (sequence_codec evs w r [] Hw Hevs Hs) as (w' & fs & Hall & _ & Hread).
  exists w', fs. split; [done|]. intros s rest Hh E.
  destruct (Hread rest s [] Hh E) as (r' & s' & buf & ? & ? & ? & _). by exists r', s', buf.
Qed.

Lemma event_stream_reassembled_witness :
  exists w' fs, encrypt_all (C := Toy.toy) Toy.ctx [Toy.hello; Toy.fin; Toy.hello] [] = Ok (w', fs) /\
  forall s rest, healthy s -> stream s = fs ++ rest ->
  exists r' s' buf,
    read_events (C := Toy.toy) (A := Io.Concrete.exact_alloc) 3 Toy.ctx s []
      = Some (received <$> [Toy.hello; Toy.fin; Toy.hello], r', s', buf) /\
    buf ++ stream s' = rest /\ sync w' r'.
Proof.
  apply (event_stream_reassembled (C := Toy.toy) (A := Io.Concrete.exact_alloc)
           Toy.ctx Toy.ctx [Toy.hello; Toy.fin; Toy.hello]).
  - apply Toy.ctx_sync.
  - apply Toy.ctx_sync.
  - apply Toy.events_wf.
Defined.

(** A cut frame is never misread.  On any strict prefix of a frame,
    [decrypt] changes neither the context nor the buffer and asks for more:
    for the rest of the header when the header is incomplete, otherwise for
    exactly the bytes the frame still misses. *)
Theorem decrypt_asks_for_the_rest {C : Ciphers} `{!CipherLaws C} w r ev w' ev' f p q :
  ctx_ok w -> sync w r -> event_wf ev -> encrypt w ev [] = Ok (w', ev', f) ->
  f = p ++ q -> q <> [] ->
  decrypt r p = Ok (r, p, inr (Z.of_nat (if decide (length p < 8)%nat then 8 - length p
                                         else length q), ""%string)).
Proof.
  intros Hw Hs Hev E -> Hq. destruct (codec_event w r ev Hw Hev Hs) as (w1 & r1 & f1 & Hc).
  destruct (codec_encrypt _ _ _ _ _ _ Hc []) as [ev1 E1]. rewrite E1 in E.
  injection E as -> _ E. simpl in E. by eapply codec_partial in Hc.
Qed.

Lemma decrypt_asks_for_the_rest_witness :
  exists p q : list byte, length p = 9%nat /\ length q = 17%nat /\
  decrypt (C := Toy.toy) Toy.ctx p = Ok (Toy.ctx, p, inr (17, ""%string)).
Proof.
  destruct (encrypt (C := Toy.toy) Toy.ctx Toy.hello []) as [[[w' ev'] f]|[]|] eqn:E.
  2: { vm_compute in E. discriminate. }
  assert (f = take 9 f ++ drop 9 f) as Hf by (by rewrite take_drop).
  assert (length (take 9 f) = 9%nat /\ length (drop 9 f) = 17%nat) as [H9 H17].
  { clear Hf. vm_compute in E. injection E as _ _ <-. split; reflexivity. }
  exists (take 9 f), (drop 9 f). split; [exact H9|]. split; [exact H17|].
  rewrite (decrypt_asks_for_the_rest (C := Toy.toy) Toy.ctx Toy.ctx Toy.hello w' ev' f
             (take 9 f) (drop 9 f)).
  - rewrite H9, H17. reflexivity.
  - apply Toy.ctx_sync.
  - apply Toy.ctx_sync.
  - apply Toy.hello_wf.
  - exact E.
  - exact Hf.
  - intros Hd. rewrite Hd in H17. discriminate.
Defined.

(** [CryptoContext::new] panics exactly on an unsupported method.  On a
    supported one the key is the user's padded with [F] to 32 bytes, the AEAD
    keys are its first 32 or 16 bytes, both nonce sequences start at the
    given nonce, and the context mirrors itself: the two ends can talk. *)
Theorem new_context_spec {C : Ciphers} `{!CipherLaws C} method k n :
  (new method k n = Panic <-> ~ supported method) /\
  forall c, new method k n = Ok c ->
    key c = k ++ replicate (32 - length k) x46 /\ nonce c = n /\
    sealing_key c = method_key method k n /\ sync c c /\ ctx_ok c.
Proof.
  destruct (decide (supported method)) as [Hm|Hm].
  - rewrite (new_supported method k n Hm). split; [by split|]. intros c Hc.
    assert (new method k n = Ok c) as Hs by (by rewrite new_supported).
    apply new_sync in Hs as [? ?]. injection Hc as <-. cbn [key nonce sealing_key].
    split_and!; try done. by rewrite pad_key_eq by lia.
  - rewrite (new_unsupported method k n Hm). split; [by split|]. done.
Qed.

Lemma new_context_spec_witness :
  (new (C := Toy.toy) "rot13" [] 0 = Panic <-> ~ supported "rot13") /\
  forall c, new (C := Toy.toy) "rot13" [] 0 = Ok c ->
    key c = [] ++ replicate 32 x46 /\ nonce c = 0 /\
    sealing_key c = method_key "rot13" [] 0 /\ sync c c /\ ctx_ok c.
Proof. exact (new_context_spec (C := Toy.toy) "rot13" [] 0). Defined.

(** C38: nonces are not reused by one context: after [encrypt_all] of events
    of which between 1 and 2^64 - 1 have a body, the nonce of the next sealed
    body differs from the one before. *)
Theorem nonces_fresh {C : Ciphers} `{!CipherLaws C} w k w' k' evs out out' :
  sealing_key w = Some k -> encrypt_all w evs out = Ok (w', out') -> sealing_key w' = Some k' ->
  0 < Z.of_nat (sealed_count evs) < 2 ^ 64 ->
  (advance (nonces k)).2 <> (advance (nonces k')).2.
Proof.
  intros Hk E Hk' Hc Heq. destruct (encrypt_all_nonces evs w k out w' out' Hk E) as (k2 & Hk2 & Hn).
  rewrite Hk' in Hk2. injection Hk2 as <-.
  unfold advance in Heq; cbn [fst snd] in Heq. apply app_inj_1 in Heq as [Heq _]; [|by rewrite !length_to_le].
  apply (f_equal from_le) in Heq. rewrite !from_le_to_le in Heq. change (8 * Z.of_nat 8) with 64 in Heq.
  unfold wrap in *. rewrite !Z.mod_mod in Heq by lia.
  rewrite (Z.add_mod (seq_nonce (nonces k'))), Hn, <- Z.add_mod in Heq by lia.
  rewrite (Z.mod_eq (_ + 1)), (Z.mod_eq (_ + _ + 1)) in Heq by lia. nia.
Qed.

Lemma nonces_fresh_witness :
  exists k w' k' out',
    encrypt_all (C := Toy.toy) Toy.ctx [Toy.hello; Toy.fin] [] = Ok (w', out') /\
    sealing_key w' = Some k' /\ (advance (nonces k)).2 <> (advance (nonces k')).2.
Proof.
  destruct (encrypt_all (C := Toy.toy) Toy.ctx [Toy.hello; Toy.fin] []) as [[w' out']|[]|] eqn:E.
  2: { vm_compute in E. discriminate. }
  destruct (sealing_key Toy.ctx) as [k|] eqn:Hk; [|vm_compute in Hk; discriminate].
  destruct (sealing_key w') as [k'|] eqn:Hk'.
  2: { vm_compute in E. injection E as <- _. discriminate. }
  exists k, w', k', out'. split; [reflexivity|]. split; [exact Hk'|].
  apply (nonces_fresh (C := Toy.toy) Toy.ctx k w' k' [Toy.hello; Toy.fin] [] out' Hk E Hk').
  vm_compute. split; reflexivity.
Defined.
