(* ===== verification/Buf.v ===== *)
(** * Buffers (src/src/utils/buf.rs)

    [fill_read_buf], which serves a reader from what was read ahead, and
    [VBuf], the queue of encrypted frames that the session's sender writes
    with vectored I/O.  [VBuf] implements a FIFO of bytes: the class
    [ByteQueue] is that contract, [VBuf_queue] its implementation. *)
From stdpp Require Import prelude.
From Stdlib Require Import ZArith Lia.
From S2P Require Import Prelude.

(** ** [fill_read_buf] *)

(** [src], then the destination slice; the result is [n], what is left of
    [src] and the slice after the copy. *)
Definition fill_read_buf (src dst : list byte) : partial (nat * list byte * list byte) :=
  match src with
  | [] => Ok (0, src, dst)
  | _ =>
      let n := length src in
      let n := if decide (length src < n) then length src else n in
      (* dst[0..n].copy_from_slice(&src[0..n]) *)
      dst_n ← slice_to n dst;
      src_n ← slice_to n src;
      if decide (length dst_n = length src_n)
      then Ok (n, drop n src, src_n ++ drop n dst)
      else Panic
  end.

Lemma fill_read_buf_eq src dst :
  fill_read_buf src dst =
  if decide (length src <= length dst)
  then Ok (length src, [], src ++ drop (length src) dst) else Panic.
Proof.
  destruct src as [|b src]; [done|]. unfold fill_read_buf. set (s := b :: src).
  rewrite (decide_False (P := length s < length s)) by lia.
  case_decide as Hd.
  - rewrite !slice_to_le by lia. unmonad. rewrite (take_ge s), length_take by lia.
    rewrite decide_True by lia. by rewrite drop_ge by lia.
  - by rewrite (slice_to_panic _ dst) by lia.
Qed.

(** ** [VBuf] *)

Definition MAX_VEC_BUF : nat := 64.

Record VBuf := { cur : nat; inner : list (list byte) }.

Definition vbuf_new : VBuf := {| cur := 0; inner := [] |}.
Definition vlen (v : VBuf) : nat := length v.(inner).

Definition push (v : VBuf) (data : list byte) : VBuf * bool :=
  if decide (MAX_VEC_BUF <= length v.(inner) \/ data = []) then (v, false)
  else ({| cur := v.(cur); inner := v.(inner) ++ [data] |}, true).

(** [remaining]: the [usize] subtraction. *)
Definition remaining (v : VBuf) : nat := sum_list_with length v.(inner) - v.(cur).

Definition bytes (v : VBuf) : partial (list byte) :=
  match v.(inner) with
  | [] => Ok []
  | first :: _ => slice_from v.(cur) first
  end.

(** [while !self.inner.is_empty() && cnt > 0 { .. }]: every iteration that
    goes on pops a chunk. *)
Fixpoint advance_loop (cur : nat) (inner : list (list byte)) (cnt : nat) : VBuf :=
  match inner with
  | [] => {| cur := cur; inner := [] |}
  | first :: rest =>
      if decide (0 < cnt) then
        if decide (length first <= cur + cnt)
        then advance_loop 0 rest (cnt - (length first - cur))
        else {| cur := cur + cnt; inner := inner |}
      else {| cur := cur; inner := inner |}
  end.
Definition advance (v : VBuf) (cnt : nat) : VBuf := advance_loop v.(cur) v.(inner) cnt.

(** The slices laid in a destination of [n] entries. *)
Definition bytes_vectored (v : VBuf) (n : nat) : partial (list (list byte)) :=
  let len := min (length v.(inner)) n in
  if decide (0 < len) then
    b ← bytes v;
    Ok (b :: take (len - 1) (drop 1 v.(inner)))
  else Ok [].

(** *** Invariant and contents *)

Definition vbuf_ok (v : VBuf) : Prop :=
  length (inner v) <= MAX_VEC_BUF /\ Forall (fun d => d <> []) (inner v) /\
  match inner v with [] => cur v = 0 | first :: _ => cur v < length first end.

Definition contents (v : VBuf) : list byte := drop (cur v) (mjoin (inner v)).

Lemma sum_lengths (l : list (list byte)) : sum_list_with length l = length (mjoin l).
Proof. induction l as [|x l IH]; simpl; [done|]. by rewrite length_app, IH. Qed.

Lemma remaining_contents v : remaining v = length (contents v).
Proof. unfold remaining, contents. by rewrite sum_lengths, length_drop. Qed.

Lemma contents_cons c first rest :
  c <= length first ->
  contents {| cur := c; inner := first :: rest |} = drop c first ++ mjoin rest.
Proof. intros. unfold contents. simpl. by rewrite drop_app_le. Qed.

Lemma push_spec v d :
  vbuf_ok v ->
  vbuf_ok (push v d).1 /\
  if (push v d).2 then contents (push v d).1 = contents v ++ d /\ d <> [] /\ vlen v < MAX_VEC_BUF
  else (push v d).1 = v /\ (d = [] \/ vlen v = MAX_VEC_BUF).
Proof.
  intros (Hl & Hne & Hc). unfold push, vlen. case_decide as Hd; simpl.
  - split; [done|]. split; [done|]. destruct Hd; [right; lia|by left].
  - assert (length (inner v) < MAX_VEC_BUF /\ d <> []) as [Hlt Hd'].
    { split; [destruct (decide (MAX_VEC_BUF <= length (inner v))); [tauto|lia]|tauto]. }
    destruct v as [c [|first rest]]; simpl in *; subst.
    + split.
      * split_and!; simpl; [unfold MAX_VEC_BUF; lia|by repeat constructor|].
        destruct d; [done|simpl; lia].
      * split_and!; [|done|lia]. unfold contents; simpl. by rewrite app_nil_r.
    + split.
      * split_and!; [len| |done]. apply Forall_cons in Hne as [? ?].
        apply Forall_cons; split; [done|]. apply Forall_app; auto.
      * split_and!; [|done|lia]. change (first :: rest ++ [d]) with ((first :: rest) ++ [d]).
        unfold contents. cbn [cur inner]. rewrite join_app. simpl. rewrite app_nil_r.
        rewrite drop_app_le; [done|]. len.
Qed.

Lemma advance_loop_spec c i cnt :
  vbuf_ok {| cur := c; inner := i |} ->
  vbuf_ok (advance_loop c i cnt) /\
  contents (advance_loop c i cnt) = drop cnt (contents {| cur := c; inner := i |}).
Proof.
  revert c cnt. induction i as [|first rest IH]; intros c cnt Hok; simpl.
  - split; [done|]. unfold contents; simpl. by rewrite !drop_nil.
  - pose proof Hok as (Hl & Hne & Hc); simpl in Hl, Hc. apply Forall_cons in Hne as [Hf Hne].
    rewrite contents_cons by lia.
    case_decide as Hcnt; [case_decide as Hge|].
    + destruct (IH 0 (cnt - (length first - c))) as [Ho Hd].
      { split_and!; simpl; [lia|done|]. destruct rest as [|x rest]; [done|].
        apply Forall_cons in Hne as [? _]. destruct x; [done|simpl; lia]. }
      split; [done|]. rewrite Hd, drop_app_ge by len.
      unfold contents; simpl. by rewrite length_drop.
    + split; [split_and!; simpl; [lia|by constructor|lia]|].
      rewrite contents_cons by lia. rewrite drop_app_le by len. by rewrite drop_drop.
    + replace cnt with 0 by lia. split; [done|]. by rewrite drop_0, contents_cons by lia.
Qed.

Lemma bytes_spec v :
  vbuf_ok v -> exists b, bytes v = Ok b /\ b `prefix_of` contents v /\ (b = [] -> contents v = []).
Proof.
  intros (Hl & Hne & Hc). destruct v as [c [|first rest]]; simpl in *; subst.
  - exists []. by split_and!.
  - unfold bytes; simpl. rewrite slice_from_le by lia. eexists; split; [done|].
    rewrite contents_cons by lia. split; [by eexists|].
    intros E%(f_equal length). rewrite length_drop in E. simpl in E. lia.
Qed.

Lemma bytes_vectored_spec v n :
  vbuf_ok v ->
  exists l, bytes_vectored v n = Ok l /\ length l = min (vlen v) n /\
    Forall (fun b => b <> []) l /\ mjoin l `prefix_of` contents v.
Proof.
  intros (Hl & Hne & Hc). unfold bytes_vectored, vlen. case_decide as Hn.
  - destruct v as [c [|first rest]]; simpl in *; [lia|].
    unfold bytes; simpl. rewrite slice_from_le by lia. unmonad. eexists; split; [done|].
    apply Forall_cons in Hne as [Hf Hne]. rewrite drop_0. split_and!.
    + destruct n; [lia|]. len.
    + constructor; [|by apply Forall_take].
      intros E%(f_equal length). rewrite length_drop in E. simpl in E. lia.
    + simpl. rewrite contents_cons by lia. apply prefix_app.
      rewrite <- (take_drop (min (S (length rest)) n - 1) rest) at 2. rewrite join_app.
      by eexists.
  - exists []. split_and!; try done; [simpl; lia|apply prefix_nil].
Qed.

(** ** The contract: a FIFO of bytes with slices at its front. *)
Class ByteQueue (Q : Type) := {
  q_ok : Q -> Prop;
  q_contents : Q -> list byte;
  q_new : Q;
  q_push : Q -> list byte -> Q * bool;
  q_remaining : Q -> nat;
  q_slices : Q -> nat -> partial (list (list byte));
  q_advance : Q -> nat -> Q;
  q_new_ok : q_ok q_new /\ q_contents q_new = [];
  q_push_ok : forall q d, q_ok q -> q_ok (q_push q d).1 /\
    q_contents (q_push q d).1 = q_contents q ++ (if (q_push q d).2 then d else []);
  q_remaining_ok : forall q, q_ok q -> q_remaining q = length (q_contents q);
  q_slices_ok : forall q n, q_ok q -> exists l, q_slices q n = Ok l /\
    Forall (fun b => b <> []) l /\ mjoin l `prefix_of` q_contents q /\
    (l = [] -> n = 0 \/ q_contents q = []);
  q_advance_ok : forall q n, q_ok q -> q_ok (q_advance q n) /\
    q_contents (q_advance q n) = drop n (q_contents q);
}.

#[export] Program Instance VBuf_queue : ByteQueue VBuf := {|
  q_ok := vbuf_ok; q_contents := contents; q_new := vbuf_new; q_push := push;
  q_remaining := remaining; q_slices := bytes_vectored; q_advance := advance;
|}.
Next Obligation. split; [|done]. split_and!; [unfold MAX_VEC_BUF; simpl; lia|constructor|done]. Qed.
Next Obligation.
  intros v d Hv. destruct (push_spec v d Hv) as [Hok H]. split; [done|].
  destruct (push v d).2; [by destruct H|]. destruct H as [-> _]. by rewrite app_nil_r.
Qed.
Next Obligation. intros. apply remaining_contents. Qed.
Next Obligation.
  intros v n Hv. destruct (bytes_vectored_spec v n Hv) as (l & E & Hl & Hf & Hp).
  exists l. split_and!; try done. intros ->. simpl in Hl. unfold vlen in Hl.
  destruct n; [by left|]. right. destruct v as [c [|x i]]; simpl in *; [|lia].
  unfold contents. simpl. by rewrite drop_nil.
Qed.
Next Obligation. intros [c i] n Hv. by apply advance_loop_spec. Qed.

(** A run of the queue beside its specification, a list of bytes. *)
Inductive vbuf_op := Push (d : list byte) | Advance (n : nat).
Definition run_op {Q} `{ByteQueue Q} (s : Q * list byte) (o : vbuf_op) : Q * list byte :=
  match o with
  | Push d => let r := q_push s.1 d in (r.1, s.2 ++ (if r.2 then d else []))
  | Advance n => (q_advance s.1 n, drop n s.2)
  end.

(** ** Properties *)

(** Serving a reader from the read-ahead buffer copies the whole buffer
    and empties it; it panics exactly when the buffer is longer than the
    reader's slice. *)
Theorem fill_read_buf_spec src dst :
  (length src <= length dst ->
   fill_read_buf src dst = Ok (length src, [], src ++ drop (length src) dst)) /\
  (fill_read_buf src dst = Panic <-> length dst < length src).
Proof.
  rewrite fill_read_buf_eq. case_decide; (split; [done|split; [done || lia|done || lia]]).
Qed.

Lemma fill_read_buf_spec_witness :
  (2 <= 3 -> fill_read_buf [x61; x62] [x00; x00; x00] = Ok (2, [], [x61; x62; x00])) /\
  (fill_read_buf [x61; x62] [x00] = Panic <-> 1 < 2).
Proof.
  split; [exact (proj1 (fill_read_buf_spec [x61; x62] [x00; x00; x00]))|].
  exact (proj2 (fill_read_buf_spec [x61; x62] [x00])).
Defined.

(** C36: [VBuf] is a FIFO of bytes.  Any sequence of pushes and advances
    starting from [new] keeps the invariant (no empty chunk, at most 64 of
    them, the cursor inside the first); its contents are what was accepted,
    less what was consumed, and at every moment [remaining] is the length of
    the contents and the I/O slices are non-empty and a prefix of them. *)
Theorem vbuf_refines_fifo ops :
  let '(v, spec) := foldl (run_op (Q := VBuf)) (vbuf_new, []) ops in
  vbuf_ok v /\ contents v = spec /\ remaining v = length spec /\
  forall n, exists l, bytes_vectored v n = Ok l /\ length l = min (vlen v) n /\
    Forall (fun b => b <> []) l /\ mjoin l `prefix_of` spec.
Proof.
  destruct (foldl _ _ _) as [v spec] eqn:E.
  assert (vbuf_ok v /\ contents v = spec) as [Hok Hc].
  { revert v spec E. induction ops as [|o ops IH] using rev_ind; intros v spec E.
    - injection E as <- <-. exact (@q_new_ok VBuf VBuf_queue).
    - rewrite foldl_snoc in E. destruct (foldl _ _ _) as [v0 s0]. destruct (IH _ _ eq_refl) as [H0 <-].
      destruct o as [d|n]; injection E as <- <-.
      + exact (@q_push_ok VBuf VBuf_queue v0 d H0).
      + exact (@q_advance_ok VBuf VBuf_queue v0 n H0). }
  subst spec. split_and!; [done|done|apply remaining_contents|].
  intros n. by apply bytes_vectored_spec.
Qed.
