(* ===== verification/Stream.v ===== *)
(** * Multiplexed streams (src/src/rmux/stream.rs)

    The state a stream shares between its reader, its writer and the session
    that owns it ([Cell]: the two [Arc]s of the source), the reader and the
    writer with their flow control, and the operations of [MuxStream].  What
    tokio's channels answer to a poll is an argument of the operation, what
    the operation sends or wakes is its list of effects. *)
From stdpp Require Import prelude strings.
From Stdlib Require Import ZArith Lia.
From S2P Require Import Prelude Io Event Buf.

Local Open Scope Z_scope.

(** ** State *)

Record MuxStreamState := {
  channel : string;
  session_id : Z;
  stream_id : Z;
  send_buf_window : Z;      (* AtomicI32 *)
  recv_buf_size : Z;        (* AtomicI32 *)
  closed : bool;
  total_recv_bytes : Z;     (* AtomicU32 *)
  total_send_bytes : Z;     (* AtomicU32 *)
  born_time : Z;
}.

(** A task waker, and the two ends of a data channel, by identity. *)
Abbreviation Waker := nat.
Abbreviation Sender := nat.
Abbreviation Receiver := nat.

Record SharedIOState := {
  waker : option Waker;
  io_data_tx : option Sender;
  io_data_rx : option Receiver;
}.

(** What [Arc<MuxStreamState>] and [Arc<Mutex<SharedIOState>>] point to. *)
Record Cell := { state : MuxStreamState; io_state : SharedIOState }.

(** What the code does to the outside. *)
Inductive effect :=
  | TrySendData (tx : Sender) (data : list byte)
  | SendData (tx : Sender) (data : list byte)
  | TrySendEvent (tx : nat) (ev : Event)
  | SendEvent (tx : nat) (ev : Event)
  | Wake (w : Waker)
  | CloseRx (rx : Receiver).

Definition set_window (s : MuxStreamState) (w : Z) : MuxStreamState :=
  {| channel := channel s; session_id := session_id s; stream_id := stream_id s;
     send_buf_window := w; recv_buf_size := recv_buf_size s; closed := closed s;
     total_recv_bytes := total_recv_bytes s; total_send_bytes := total_send_bytes s;
     born_time := born_time s |}.
Definition set_recv (s : MuxStreamState) (r t : Z) : MuxStreamState :=
  {| channel := channel s; session_id := session_id s; stream_id := stream_id s;
     send_buf_window := send_buf_window s; recv_buf_size := r; closed := closed s;
     total_recv_bytes := t; total_send_bytes := total_send_bytes s;
     born_time := born_time s |}.
Definition add_sent (s : MuxStreamState) (n : nat) : MuxStreamState :=
  {| channel := channel s; session_id := session_id s; stream_id := stream_id s;
     send_buf_window := swrap 32 (send_buf_window s - swrap 32 (Z.of_nat n));
     recv_buf_size := recv_buf_size s; closed := closed s;
     total_recv_bytes := total_recv_bytes s;
     total_send_bytes := wrap 32 (total_send_bytes s + Z.of_nat n);
     born_time := born_time s |}.

(** [MuxStreamState::close] *)
Definition close_state (s : MuxStreamState) : MuxStreamState :=
  {| channel := channel s; session_id := session_id s; stream_id := stream_id s;
     send_buf_window := send_buf_window s; recv_buf_size := recv_buf_size s; closed := true;
     total_recv_bytes := total_recv_bytes s; total_send_bytes := total_send_bytes s;
     born_time := born_time s |}.

Definition set_waker (io : SharedIOState) (w : option Waker) : SharedIOState :=
  {| waker := w; io_data_tx := io_data_tx io; io_data_rx := io_data_rx io |}.

(** ** Reading *)

(** What the session manager promises to the streams: told of a window, it
    answers whether the update is off the stream's hands. *)
Class WindowReporter (W : Type) :=
  report_update_window : string -> Z -> Z -> Z -> W -> bool * W.

Definition min_report_window : Z := 32 * 1024.

Section Reader.
Context {W : Type} `{WindowReporter W}.

Definition inc_recv_buf_window (s : MuxStreamState) (inc : nat) (w : W) : MuxStreamState * W :=
  let s := set_recv s (swrap 32 (recv_buf_size s + swrap 32 (Z.of_nat inc)))
                      (wrap 32 (total_recv_bytes s + Z.of_nat inc)) in
  let current_recv_buf_size := recv_buf_size s in
  if decide (min_report_window <= current_recv_buf_size) then
    let '(ok, w) := report_update_window (channel s) (session_id s) (stream_id s)
                      (wrap 32 current_recv_buf_size) w in
    if ok
    then (set_recv s (swrap 32 (recv_buf_size s - current_recv_buf_size)) (total_recv_bytes s), w)
    else (s, w)
  else (s, w).

Record MuxStreamReader := { rx : Receiver; recv_buf : list byte }.

(** [poll_read] into [buf]; [recv] is what [rx.poll_recv(cx)] answers if it
    is polled.  The result, the reader, the state, the manager, the slice
    after the read and the effects. *)
Definition poll_read (r : MuxStreamReader) (s : MuxStreamState) (w : W) (buf : list byte)
    (recv : poll (option (list byte)))
    : partial (poll (io_result nat) * MuxStreamReader * MuxStreamState * W * list byte * list effect) :=
  if closed s then mret (Ready (Err (make_io_error "closed")), r, s, w, buf, [CloseRx (rx r)])
  else if decide (recv_buf r <> []) then
    '(n, rest, buf) ← fill_read_buf (recv_buf r) buf;
    let '(s, w) := inc_recv_buf_window s n w in
    mret (Ready (Ok n), {| rx := rx r; recv_buf := rest |}, s, w, buf, [])
  else
    match recv with
    | Ready (Some b) =>
        let copy_n := length b in
        if decide (copy_n = 0%nat)
        then mret (Ready (Ok 0%nat), r, close_state s, w, buf, [CloseRx (rx r)])
        else
          let copy_n := if decide (length buf < copy_n)%nat then length buf else copy_n in
          let buf := take copy_n b ++ drop copy_n buf in
          let rest := if decide (copy_n < length b)%nat then drop copy_n b else [] in
          let '(s, w) := inc_recv_buf_window s copy_n w in
          mret (Ready (Ok copy_n), {| rx := rx r; recv_buf := rest |}, s, w, buf, [])
    | Ready None =>
        mret (Ready (Ok 0%nat), r, close_state s, w, buf, [CloseRx (rx r)])
    | Pending => mret (Pending, r, s, w, buf, [])
    end.
End Reader.

(** ** Writing *)

(** [poll_write] of [buf] by task [cx]; [ready] and [sent] are what
    [tx.poll_ready(cx)] and [tx.try_send(ev)] answer.  The result, the cell,
    and the event sent, if any. *)
Definition poll_write (c : Cell) (buf : list byte) (cx : Waker)
    (ready : poll (io_result unit)) (sent : io_result unit)
    : poll (io_result nat) * Cell * option Event :=
  if closed (state c) then (Ready (Err (make_io_error "closed")), c, None)
  else if decide (send_buf_window (state c) < 0) then
    (Pending, {| state := state c; io_state := set_waker (io_state c) (Some cx) |}, None)
  else
    let ev := new_data_event (stream_id (state c)) buf false in
    match ready with
    | Pending => (Pending, c, None)
    | Ready (Err e) => (Ready (Err (make_io_error e)), c, None)
    | Ready Panic => (Ready Panic, c, None)
    | Ready (Ok _) =>
        match sent with
        | Err e => (Ready (Err (make_io_error e)), c, None)
        | Panic => (Ready Panic, c, None)
        | Ok _ =>
            (Ready (Ok (length buf)),
             {| state := add_sent (state c) (length buf); io_state := io_state c |}, Some ev)
        end
    end.

Definition poll_flush : poll (io_result unit) := Ready (Ok tt).

Definition poll_shutdown (c : Cell) : poll (io_result unit) * Cell :=
  (Ready (Ok tt), {| state := close_state (state c); io_state := io_state c |}).

(** ** [MuxStream] *)

(** [cell] is the identity of the shared state, [event_tx] of the session's
    event channel. *)
Record MuxStream := {
  target : ConnectRequest;
  event_tx : nat;
  data_tx : option Sender;
  cell : nat;
}.

(** [MuxStream::new]: a fresh data channel and fresh shared state [c]; the
    channel is named after the cell that first holds both its ends. *)
Definition new (name : string) (id0 id1 : Z) (evtx : nat) (target : ConnectRequest)
    (c : nat) (now : Z) : MuxStream * Cell :=
  let state := {| channel := name; session_id := id0; stream_id := id1;
                  send_buf_window := 128 * 1024; recv_buf_size := 0; closed := false;
                  total_recv_bytes := 0; total_send_bytes := 0; born_time := now |} in
  let io_state := {| waker := None; io_data_tx := Some c; io_data_rx := Some c |} in
  ({| target := target; event_tx := evtx; data_tx := None; cell := c |},
   {| state := state; io_state := io_state |}).

Definition id (c : Cell) : Z := stream_id (state c).

Definition check_data_tx (m : MuxStream) (c : Cell) : MuxStream * Cell :=
  match data_tx m with
  | Some _ => (m, c)
  | None =>
      match io_data_tx (io_state c) with
      | Some tx =>
          ({| target := target m; event_tx := event_tx m; data_tx := Some tx; cell := cell m |},
           {| state := state c;
              io_state := {| waker := waker (io_state c); io_data_tx := None;
                             io_data_rx := io_data_rx (io_state c) |} |})
      | None => (m, c)
      end
  end.

Definition update_send_window (c : Cell) (inc : Z) : Cell * list effect :=
  let s := set_window (state c) (swrap 32 (send_buf_window (state c) + swrap 32 inc)) in
  if decide (0 < send_buf_window s) then
    match waker (io_state c) with
    | Some w => ({| state := s; io_state := set_waker (io_state c) None |}, [Wake w])
    | None => ({| state := s; io_state := io_state c |}, [])
    end
  else ({| state := s; io_state := io_state c |}, []).

Definition offer_data (m : MuxStream) (c : Cell) (data : list byte)
    : partial (MuxStream * Cell * list effect) :=
  let '(m, c) := check_data_tx m c in
  (* assert!(!data.is_empty()) *)
  match data with
  | [] => Panic
  | _ => mret (m, c, match data_tx m with Some tx => [SendData tx data] | None => [] end)
  end.

(** [clone] shares the cell. *)
Definition clone (m : MuxStream) : MuxStream :=
  {| target := target m; event_tx := event_tx m; data_tx := data_tx m; cell := cell m |}.

(** [split]: the reader takes the receiver, which is there only once. *)
Definition split (m : MuxStream) (c : Cell) : partial (MuxStreamReader * Cell) :=
  match io_data_rx (io_state c) with
  | Some rx => mret ({| rx := rx; recv_buf := [] |},
                     {| state := state c;
                        io_state := {| waker := waker (io_state c);
                                       io_data_tx := io_data_tx (io_state c);
                                       io_data_rx := None |} |})
  | None => Panic
  end.

Definition close (m : MuxStream) (c : Cell) : Cell * list effect :=
  let s := close_state (state c) in
  let effs := match data_tx m with Some tx => [TrySendData tx []] | None => [] end in
  let effs := effs ++ match io_data_tx (io_state c) with
                      | Some tx => [TrySendData tx []] | None => [] end in
  let '(io, effs) := match waker (io_state c) with
                     | Some w => (set_waker (io_state c) None, effs ++ [Wake w])
                     | None => (io_state c, effs)
                     end in
  let fin := new_fin_event (stream_id s) false in
  ({| state := s; io_state := io |}, effs ++ [TrySendEvent (event_tx m) fin]).

(** ** The reader against a queue of chunks *)

Section ReaderLemmas.
Context {W : Type} `{WindowReporter W}.

(** Whatever the manager answers, the counting of received bytes neither
    closes nor opens the stream. *)
Lemma inc_recv_closed s n (w : W) : closed (inc_recv_buf_window s n w).1 = closed s.
Proof.
  unfold inc_recv_buf_window. case_decide; [|done].
  by destruct (report_update_window _ _ _ _ w) as [[] w'].
Qed.

Lemma poll_read_buffered r s (w : W) buf recv :
  closed s = false -> recv_buf r <> [] ->
  poll_read r s w buf recv =
  if decide (length (recv_buf r) <= length buf)%nat then
    let '(s', w') := inc_recv_buf_window s (length (recv_buf r)) w in
    Ok (Ready (Ok (length (recv_buf r))), {| rx := rx r; recv_buf := [] |}, s', w',
        recv_buf r ++ drop (length (recv_buf r)) buf, [])
  else Panic.
Proof.
  intros Hc Hr. unfold poll_read. rewrite Hc, decide_True by done. rewrite fill_read_buf_eq.
  case_decide; unmonad; [|done]. by destruct (inc_recv_buf_window s _ w).
Qed.

Lemma poll_read_chunk r s (w : W) buf b :
  closed s = false -> recv_buf r = [] -> b <> [] ->
  let n := min (length b) (length buf) in
  poll_read r s w buf (Ready (Some b)) =
    let '(s', w') := inc_recv_buf_window s n w in
    Ok (Ready (Ok n), {| rx := rx r; recv_buf := drop n b |}, s', w',
        take n b ++ drop n buf, []).
Proof.
  intros Hc Hr Hb n. unfold poll_read. rewrite Hc, Hr. rewrite decide_False by tauto.
  rewrite decide_False by (by destruct b).
  assert ((if decide (length buf < length b)%nat then length buf else length b) = n) as ->
    by (unfold n; case_decide; lia).
  destruct (inc_recv_buf_window s n w) as [s' w']. unmonad. do 6 f_equal.
  case_decide; [done|]. rewrite drop_ge; [done|lia].
Qed.

(** Reads one after the other, each into a slice of [size] bytes; the data
    channel holds [queue], whose sender stays.  The bytes read so far, or a
    panic; an end of stream or an error ends the reads. *)
Fixpoint poll_reads (k : nat) (size : nat) (r : MuxStreamReader) (s : MuxStreamState) (w : W)
    (queue : list (list byte))
    : partial (list byte * MuxStreamReader * MuxStreamState * W * list (list byte)) :=
  match k with
  | O => Ok ([], r, s, w, queue)
  | S k =>
      let recv := match queue with b :: _ => Ready (Some b) | [] => Pending end in
      let queue' := if decide (recv_buf r <> []) then queue else drop 1 queue in
      '(res, r', s', w', buf, _) ← poll_read r s w (replicate size x00) recv;
      match res with
      | Ready (Ok n) =>
          if decide (n = 0%nat) then Ok ([], r', s', w', queue')
          else '(l, r', s', w', queue') ← poll_reads k size r' s' w' queue';
               Ok (take n buf ++ l, r', s', w', queue')
      | Ready _ => Ok ([], r', s', w', queue)
      | Pending => poll_reads k size r' s' w' queue
      end
  end.

(** How many reads empty the reader and its queue. *)
Definition reads_needed (r : MuxStreamReader) (queue : list (list byte)) : nat :=
  (if decide (recv_buf r = []) then 0 else 1) + 2 * length queue.

Lemma poll_reads_spec k size r s (w : W) queue :
  closed s = false -> (0 < size)%nat -> (length (recv_buf r) <= size)%nat ->
  Forall (fun b => b <> [] /\ (length b <= 2 * size)%nat) queue ->
  exists l r' s' w' queue',
    poll_reads k size r s w queue = Ok (l, r', s', w', queue') /\
    l ++ recv_buf r' ++ mjoin queue' = recv_buf r ++ mjoin queue /\
    closed s' = false /\
    (reads_needed r' queue' <= reads_needed r queue - k)%nat.
Proof.
  revert r s w queue. induction k as [|k IH]; intros r s w queue Hc Hs Hr Hq.
  - exists [], r, s, w, queue. split_and!; try done. lia.
  - cbn [poll_reads]. destruct (decide (recv_buf r <> [])) as [Hne|He].
    + rewrite poll_read_buffered by done. rewrite length_replicate, decide_True by lia.
      pose proof (inc_recv_closed s (length (recv_buf r)) w) as Hc'.
      destruct (inc_recv_buf_window s _ w) as [s1 w1]. simpl in Hc'. unmonad.
      rewrite decide_False by (by destruct (recv_buf r)).
      destruct (IH {| rx := rx r; recv_buf := [] |} s1 w1 queue) as (l & r' & s' & w' & q' & -> & E & ? & ?);
        [by rewrite Hc'|done|simpl; lia|done|].
      exists (recv_buf r ++ l), r', s', w', q'. rewrite take_app_le, take_ge by lia.
      split_and!; [done|by rewrite <- app_assoc, E|done|].
      unfold reads_needed in *. simpl in *. rewrite (decide_False (P := recv_buf r = [])) by done. lia.
    + assert (recv_buf r = []) as Hr0 by (destruct (recv_buf r); [done|by destruct He]).
      destruct queue as [|b queue].
      * assert (poll_read r s w (replicate size x00) Pending
                = Ok (Pending, r, s, w, replicate size x00, [])) as ->.
        { unfold poll_read. by rewrite Hc, decide_False by done. }
        unmonad. destruct (IH r s w []) as (l & r' & s' & w' & q' & -> & ? & ? & ?); try done.
        exists l, r', s', w', q'. split_and!; try done.
        assert (reads_needed r [] = 0%nat) as Hz by (unfold reads_needed; by rewrite decide_True).
        lia.
      * apply Forall_cons in Hq as [[Hb Hb2] Hq].
        rewrite poll_read_chunk by done. rewrite length_replicate.
        set (n := min (length b) size).
        assert (n <> 0%nat) as Hn by (unfold n; destruct b; [done|cbn [length]; lia]).
        pose proof (inc_recv_closed s n w) as Hc'.
        destruct (inc_recv_buf_window s n w) as [s1 w1]. simpl in Hc'. unmonad.
        rewrite decide_False by done. change (drop 1 (b :: queue)) with queue.
        destruct (IH {| rx := rx r; recv_buf := drop n b |} s1 w1 queue)
          as (l & r' & s' & w' & q' & -> & E & ? & Hneed);
          [by rewrite Hc'|done|simpl; rewrite length_drop; unfold n; lia|done|].
        exists (take n b ++ l), r', s', w', q'.
        rewrite take_app_le, take_take, Nat.min_id by (rewrite length_take; lia).
        split_and!; [done| |done|].
        -- rewrite <- app_assoc, E. simpl. rewrite Hr0. simpl. by rewrite app_assoc, take_drop.
        -- unfold reads_needed in *. simpl in *. rewrite (decide_True (P := recv_buf r = [])) by done.
           revert Hneed. case_decide; case_decide; lia.
Qed.
End ReaderLemmas.

(** ** Properties *)

(** A manager that takes every report, for the witnesses. *)
Definition accepting : WindowReporter (list Z) := fun _ _ _ win w => (true, w ++ [win]).

(** A stream's reader delivers the chunks in order.  Read with slices of
    [size] bytes from a channel of non-empty chunks of at most twice that
    size, whatever the manager answers to the window reports, no read panics,
    no byte is lost, duplicated or reordered, and two reads per chunk
    deliver everything. *)
Theorem reader_delivers {W} `{WindowReporter W} size r s (w : W) queue :
  closed s = false -> (0 < size)%nat -> recv_buf r = [] ->
  Forall (fun b => b <> [] /\ (length b <= 2 * size)%nat) queue ->
  (forall k, exists l r' s' w' queue',
     poll_reads k size r s w queue = Ok (l, r', s', w', queue') /\
     l ++ recv_buf r' ++ mjoin queue' = mjoin queue) /\
  exists r' s' w', poll_reads (2 * length queue) size r s w queue
                   = Ok (mjoin queue, r', s', w', []).
Proof.
  intros Hc Hs Hr Hq. assert (length (recv_buf r) <= size)%nat as Hl by (rewrite Hr; simpl; lia).
  split.
  - intros k. destruct (poll_reads_spec k size r s w queue Hc Hs Hl Hq)
      as (l & r' & s' & w' & q' & E & Hd & _). rewrite Hr in Hd. by exists l, r', s', w', q'.
  - destruct (poll_reads_spec (2 * length queue) size r s w queue Hc Hs Hl Hq)
      as (l & r' & s' & w' & q' & E & Hd & _ & Hn). rewrite Hr in Hd. simpl in Hd.
    unfold reads_needed in Hn. rewrite (decide_True (P := recv_buf r = [])) in Hn by done.
    destruct q' as [|x q']; [|simpl in Hn; case_decide; lia].
    destruct (decide (recv_buf r' = [])) as [Hr'|Hr']; [|simpl in Hn; lia].
    rewrite Hr', !app_nil_r in Hd. exists r', s', w'. by rewrite E, Hd.
Qed.

Lemma reader_delivers_witness :
  let s := state (new "rmux" 4 7 9 {| proto := "tcp"; addr := "a:1" |} 0 0).2 in
  let r := {| rx := 0%nat; recv_buf := [] |} in
  let queue := [[x61; x62; x63]; [x64]] in
  (forall k, exists l r' s' w' queue',
     poll_reads (H := accepting) k 2 r s [] queue = Ok (l, r', s', w', queue') /\
     l ++ recv_buf r' ++ mjoin queue' = mjoin queue) /\
  exists r' s' w', poll_reads (H := accepting) 4 2 r s [] queue
                   = Ok ([x61; x62; x63; x64], r', s', w', []).
Proof.
  intros s r queue. apply (reader_delivers (H := accepting) 2 r s [] queue).
  - reflexivity.
  - lia.
  - reflexivity.
  - apply (bool_decide_eq_true_1 _). vm_compute. reflexivity.
Defined.

(** A chunk of more than twice the reader's slice crashes it.  The first
    read delivers a full slice, the second one panics in [fill_read_buf],
    which never looks at the room in its destination. *)
Theorem oversized_chunk_panics {W} `{WindowReporter W} size r s (w : W) b queue :
  closed s = false -> (0 < size)%nat -> recv_buf r = [] -> (2 * size < length b)%nat ->
  (exists r' s' w', poll_reads 1 size r s w (b :: queue) = Ok (take size b, r', s', w', queue)) /\
  poll_reads 2 size r s w (b :: queue) = Panic.
Proof.
  intros Hc Hs Hr Hb. cbn [poll_reads]. rewrite Hr, (decide_False (P := [] <> [])) by tauto.
  rewrite poll_read_chunk by (done || (intros ->; simpl in Hb; lia)).
  rewrite length_replicate, Nat.min_r by lia.
  pose proof (inc_recv_closed s size w) as Hc'.
  destruct (inc_recv_buf_window s size w) as [s1 w1]. simpl in Hc'. unmonad.
  rewrite decide_False by lia.
  rewrite take_app_le, take_take, Nat.min_id by (rewrite length_take; lia). rewrite app_nil_r. change (drop 1 (b :: queue)) with queue.
  split; [by do 3 eexists|]. cbn [recv_buf].
  assert (drop size b <> []) as Hd by (intros E%(f_equal length); rewrite length_drop in E; simpl in E; lia).
  rewrite poll_read_buffered by (simpl; congruence || done). cbn [recv_buf].
  rewrite length_replicate, (decide_False (P := (length (drop size b) <= size)%nat))
    by (rewrite length_drop; lia). unmonad. by rewrite decide_False by lia.
Qed.

Lemma oversized_chunk_panics_witness :
  let s := state (new "rmux" 4 7 9 {| proto := "tcp"; addr := "a:1" |} 0 0).2 in
  let r := {| rx := 0%nat; recv_buf := [] |} in
  (exists r' s' w', poll_reads (H := accepting) 1 2 r s [] [[x61; x62; x63; x64; x65]]
                    = Ok ([x61; x62], r', s', w', [])) /\
  poll_reads (H := accepting) 2 2 r s [] [[x61; x62; x63; x64; x65]] = Panic.
Proof.
  intros s r.
  apply (oversized_chunk_panics (H := accepting) 2 r s [] [x61; x62; x63; x64; x65] []);
    [reflexivity|lia|reflexivity|simpl; lia].
Defined.
