(* ===== verification/Session.v ===== *)
(** * The session manager (src/src/rmux/session.rs, first half)

    The global [CHANNEL_SESSIONS] table with the operations the rest of the
    program performs on it: store and erase sessions, hand over the streams
    created on a session, pick a session for a new stream, report windows,
    and the periodic routine.  [MuxSessionState] is shared between the
    manager and the session's tasks, and the cells of the streams between
    their clones, so both live in the store [World]. *)
From stdpp Require Import prelude gmap strings.
From Stdlib Require Import ZArith Lia.
From S2P Require Import Prelude Io Event Stream.

Local Open Scope Z_scope.

Record MuxSessionState := {
  last_ping_send_time : Z;
  last_pong_recv_time : Z;
  s_born_time : Z;
  s_retired : bool;
  io_active_unix_secs : Z;
  s_closed : bool;
}.

Definition ping_pong_gap (s : MuxSessionState) : Z :=
  let t1 := last_ping_send_time s in
  let t2 := last_pong_recv_time s in
  if bool_decide (0 < t1) && bool_decide (0 < t2) then t2 - t1 else 0.

Definition is_retired (s : MuxSessionState) : bool := s_retired s.
Definition is_closed (s : MuxSessionState) : bool := s_closed s.

(** The [u32] subtraction wraps. *)
Definition get_io_idle_secs (s : MuxSessionState) (now_unix_secs : Z) : Z :=
  let secs := io_active_unix_secs s in
  if decide (secs = 0) then 0 else wrap 32 (now_unix_secs - secs).

Definition set_retired (s : MuxSessionState) : MuxSessionState :=
  {| last_ping_send_time := last_ping_send_time s; last_pong_recv_time := last_pong_recv_time s;
     s_born_time := s_born_time s; s_retired := true;
     io_active_unix_secs := io_active_unix_secs s; s_closed := s_closed s |}.
Definition set_closed (s : MuxSessionState) : MuxSessionState :=
  {| last_ping_send_time := last_ping_send_time s; last_pong_recv_time := last_pong_recv_time s;
     s_born_time := s_born_time s; s_retired := s_retired s;
     io_active_unix_secs := io_active_unix_secs s; s_closed := true |}.
Definition set_ping (s : MuxSessionState) (t : Z) : MuxSessionState :=
  {| last_ping_send_time := t; last_pong_recv_time := last_pong_recv_time s;
     s_born_time := s_born_time s; s_retired := s_retired s;
     io_active_unix_secs := io_active_unix_secs s; s_closed := s_closed s |}.
Definition set_pong (s : MuxSessionState) (t : Z) : MuxSessionState :=
  {| last_ping_send_time := last_ping_send_time s; last_pong_recv_time := t;
     s_born_time := s_born_time s; s_retired := s_retired s;
     io_active_unix_secs := io_active_unix_secs s; s_closed := s_closed s |}.

(** [state] is the identity of the shared [MuxSessionState]. *)
Record MuxSession := {
  s_id : Z;
  s_event_tx : nat;
  pendding_streams : list MuxStream;
  stream_id_seed : Z;
  s_state : nat;
  max_alive_secs : Z;
}.

Record ChannelMuxSession := { sessions : list (option MuxSession); cursor : Z }.

Record ChannelSessionManager := {
  channels : gmap string ChannelMuxSession;
  retired : list MuxSession;
}.

Definition manager_new : ChannelSessionManager := {| channels := ∅; retired := [] |}.

(** ** Storing and erasing *)

(** [for s in sessions.iter_mut() { if s.is_none() { *s = Some(session); return } }]
    then [push]. *)
Fixpoint store_slot (l : list (option MuxSession)) (session : MuxSession)
    : list (option MuxSession) :=
  match l with
  | [] => [Some session]
  | None :: l => Some session :: l
  | s :: l => s :: store_slot l session
  end.

Definition store_mux_session (channel : string) (session : MuxSession)
    (m : ChannelSessionManager) : ChannelSessionManager :=
  let cmap := match channels m !! channel with
              | None => <[channel := {| sessions := []; cursor := 0 |}]> (channels m)
              | Some _ => channels m
              end in
  match cmap !! channel with
  | Some cs =>
      {| channels := <[channel := {| sessions := store_slot (sessions cs) session;
                                     cursor := cursor cs |}]> cmap;
         retired := retired m |}
  | None => {| channels := cmap; retired := retired m |}
  end.

(** Empties the first slot holding session [sid], if there is one. *)
Fixpoint erase_slot (l : list (option MuxSession)) (sid : Z)
    : option (list (option MuxSession)) :=
  match l with
  | [] => None
  | Some ss :: l =>
      if decide (s_id ss = sid) then Some (None :: l) else cons (Some ss) <$> erase_slot l sid
  | None :: l => cons None <$> erase_slot l sid
  end.

(** [holder.retired.remove(i)] at the first session [sid]. *)
Fixpoint remove_retired (l : list MuxSession) (sid : Z) : list MuxSession :=
  match l with
  | [] => []
  | ss :: l => if decide (s_id ss = sid) then l else ss :: remove_retired l sid
  end.

Definition erase_mux_session (channel : string) (sid : Z)
    (m : ChannelSessionManager) : ChannelSessionManager :=
  match (cs ← channels m !! channel; l ← erase_slot (sessions cs) sid;
         Some {| sessions := l; cursor := cursor cs |}) with
  | Some cs => {| channels := <[channel := cs]> (channels m); retired := retired m |}
  | None => {| channels := channels m; retired := remove_retired (retired m) sid |}
  end.

(** ** Streams created on a session, not yet known to its event task *)

Definition clear_pendding (ss : MuxSession) : MuxSession :=
  {| s_id := s_id ss; s_event_tx := s_event_tx ss; pendding_streams := [];
     stream_id_seed := stream_id_seed ss; s_state := s_state ss;
     max_alive_secs := max_alive_secs ss |}.

(** [pop] takes from the end and [insert]s by stream id ([s.id()], read in
    the shared state by [stream_of]), so the first one is inserted last. *)
Fixpoint hand_over (stream_of : MuxStream -> Z) (l : list (option MuxSession)) (sid : Z)
    (streams : gmap Z MuxStream) : list (option MuxSession) * gmap Z MuxStream :=
  match l with
  | [] => ([], streams)
  | Some ss :: l =>
      if decide (s_id ss = sid)
      then (Some (clear_pendding ss) :: l,
            foldr (fun s m => <[stream_of s := s]> m) streams (pendding_streams ss))
      else let '(l, streams) := hand_over stream_of l sid streams in (Some ss :: l, streams)
  | None :: l => let '(l, streams) := hand_over stream_of l sid streams in (None :: l, streams)
  end.

Definition hanle_pendding_mux_streams (stream_of : MuxStream -> Z) (channel : string) (sid : Z)
    (m : ChannelSessionManager) (streams : gmap Z MuxStream)
    : ChannelSessionManager * gmap Z MuxStream :=
  match channels m !! channel with
  | Some cs =>
      let '(l, streams) := hand_over stream_of (sessions cs) sid streams in
      ({| channels := <[channel := {| sessions := l; cursor := cursor cs |}]> (channels m);
          retired := retired m |}, streams)
  | None => (m, streams)
  end.

Definition get_channel_session_size (channel : string) (m : ChannelSessionManager) : nat :=
  match channels m !! channel with
  | Some cs => length (filter is_Some (sessions cs))
  | None => 0%nat
  end.

(** ** The shared store *)

Record World := {
  manager : ChannelSessionManager;
  sstates : gmap nat MuxSessionState;
  cells : gmap nat Cell;
}.

Definition set_manager (w : World) (m : ChannelSessionManager) : World :=
  {| manager := m; sstates := sstates w; cells := cells w |}.

(** ** [create_stream] *)

(** The round robin: at most one turn over the slots, [idx] being the cursor
    before its increment, modulo the number of slots. *)
Fixpoint pick_session (n : nat) (l : list (option MuxSession)) (cursor : Z)
    : option (nat * MuxSession) * Z :=
  match n with
  | O => (None, cursor)
  | S n =>
      let idx := cursor in
      let cursor := wrap 32 (cursor + 1) in
      let idx := Z.to_nat (idx mod wrap 32 (Z.of_nat (length l))) in
      match l !! idx with
      | Some (Some session) => (Some (idx, session), cursor)
      | _ => pick_session n l cursor
      end
  end.

Definition add_pendding (ss : MuxSession) (s : MuxStream) : MuxSession :=
  {| s_id := s_id ss; s_event_tx := s_event_tx ss;
     pendding_streams := pendding_streams ss ++ [s];
     stream_id_seed := wrap 32 (stream_id_seed ss + 2); s_state := s_state ss;
     max_alive_secs := max_alive_secs ss |}.

Definition create_stream `{Bincode ConnectRequest} (channel proto addr : string) (now : Z)
    (w : World) : partial (io_result MuxStream * World * list effect) :=
  match channels (manager w) !! channel with
  | None => mret (Err (make_io_error "no channel found."), w, [])
  | Some cs =>
      match pick_session (length (sessions cs)) (sessions cs) (cursor cs) with
      | (None, cur) =>
          let cs := {| sessions := sessions cs; cursor := cur |} in
          mret (Err (make_io_error "no channel found."),
                set_manager w {| channels := <[channel := cs]> (channels (manager w));
                                 retired := retired (manager w) |}, [])
      | (Some (idx, session), cur) =>
          let creq := {| proto := proto; addr := addr |} in
          cev ← new_syn_event (stream_id_seed session) creq;
          let c := fresh (dom (cells w)) in
          let '(pendding_stream, st) :=
            Stream.new channel (s_id session) (Event.stream_id (header cev))
                       (s_event_tx session) creq c now in
          let session' := add_pendding session (clone pendding_stream) in
          let cs := {| sessions := <[idx := Some session']> (sessions cs); cursor := cur |} in
          mret (Ok pendding_stream,
                {| manager := {| channels := <[channel := cs]> (channels (manager w));
                                 retired := retired (manager w) |};
                   sstates := sstates w;
                   cells := <[c := st]> (cells w) |},
                [SendEvent (s_event_tx session) cev])
      end
  end.

(** ** [report_update_window] *)

(** The scan of the slots; [ready] and [sent] are what the event channel of a
    session answers to [poll_ready] and [try_send]. *)
Fixpoint report_scan (ready : nat -> poll (io_result unit)) (sent : nat -> bool)
    (l : list (option MuxSession)) (session_id : Z) (ev : Event) : bool * list effect :=
  match l with
  | [] => (true, [])
  | Some ss :: l =>
      if decide (s_id ss = session_id) then
        match ready (s_event_tx ss) with
        | Ready (Ok _) =>
            if sent (s_event_tx ss) then (true, [TrySendEvent (s_event_tx ss) ev])
            else report_scan ready sent l session_id ev
        | _ => (false, [])
        end
      else report_scan ready sent l session_id ev
  | None :: l => report_scan ready sent l session_id ev
  end.

Definition report_update_window (ready : nat -> poll (io_result unit)) (sent : nat -> bool)
    (channel : string) (session_id stream_id window : Z) (m : ChannelSessionManager)
    : bool * list effect :=
  match channels m !! channel with
  | Some cs =>
      report_scan ready sent (sessions cs) session_id
                  (new_window_update_event stream_id window false)
  | None => (true, [])
  end.

(** ** [routine_all_sessions] *)

Record routine_acc := {
  acc_slots : list (option MuxSession);
  acc_actions : list effect;
  acc_retired : list MuxSession;
  acc_states : gmap nat MuxSessionState;
}.

(** One live session: whether it is taken out of its slot, and the events it
    is sent.  [now] is the monotonic clock, [rand_inc] the random number
    drawn for the session. *)
Definition routine_session (channel : string) (now rand_inc : Z) (s : MuxSession)
    (st : MuxSessionState) : bool * list effect :=
  if decide (ping_pong_gap st < -60) then (true, [SendEvent (s_event_tx s) (new_shutdown_event 0 false)])
  else
    let ping := if decide (channel <> ""%string)
                then [SendEvent (s_event_tx s) (new_ping_event 0 false)] else [] in
    let acts := ping ++ [SendEvent (s_event_tx s) (new_routine_event 0)] in
    if bool_decide (0 < max_alive_secs s) && bool_decide (channel <> ""%string) then
      let cmp_secs := swrap 64 (swrap 64 (max_alive_secs s) + rand_inc) in
      (bool_decide (wrap 64 cmp_secs < now - s_born_time st), acts)
    else (false, acts).

Section Routine.
Context (now : Z) (rand_inc : nat -> Z).

Fixpoint routine_slots (channel : string) (l : list (option MuxSession))
    (states : gmap nat MuxSessionState) : routine_acc :=
  match l with
  | [] => {| acc_slots := []; acc_actions := []; acc_retired := []; acc_states := states |}
  | None :: l =>
      let r := routine_slots channel l states in
      {| acc_slots := None :: acc_slots r; acc_actions := acc_actions r;
         acc_retired := acc_retired r; acc_states := acc_states r |}
  | Some s :: l =>
      match states !! s_state s with
      | None =>
          let r := routine_slots channel l states in
          {| acc_slots := Some s :: acc_slots r; acc_actions := acc_actions r;
             acc_retired := acc_retired r; acc_states := acc_states r |}
      | Some st =>
          let '(taken, acts) := routine_session channel now (rand_inc (s_event_tx s)) s st in
          let states := if taken then <[s_state s := set_retired st]> states else states in
          let r := routine_slots channel l states in
          {| acc_slots := (if taken then None else Some s) :: acc_slots r;
             acc_actions := acts ++ acc_actions r;
             acc_retired := (if taken then [s] else []) ++ acc_retired r;
             acc_states := acc_states r |}
      end
  end.

(** The channels, in the order the hash map yields them. *)
Fixpoint routine_map (l : list (string * ChannelMuxSession)) (m : gmap string ChannelMuxSession)
    (states : gmap nat MuxSessionState)
    : gmap string ChannelMuxSession * list effect * list MuxSession * gmap nat MuxSessionState :=
  match l with
  | [] => (m, [], [], states)
  | (channel, cs) :: l =>
      let r := routine_slots channel (sessions cs) states in
      let m := <[channel := {| sessions := acc_slots r; cursor := cursor cs |}]> m in
      let '(m, acts, ret, states) := routine_map l m (acc_states r) in
      (m, acc_actions r ++ acts, acc_retired r ++ ret, states)
  end.

(** The manager's lock is held for the scan; the events are sent after. *)
Definition routine_all_sessions (w : World) : World * list effect :=
  let m := manager w in
  let '(ch, actions, newly, states) :=
    routine_map (map_to_list (channels m)) (channels m) (sstates w) in
  let actions := actions ++ ((fun s => SendEvent (s_event_tx s) (new_routine_event 0)) <$> retired m) in
  ({| manager := {| channels := ch; retired := retired m ++ newly |};
      sstates := states; cells := cells w |}, actions).
End Routine.

(** ** Slots *)

Lemma size_of m channel cs :
  channels m !! channel = Some cs ->
  get_channel_session_size channel m = length (filter is_Some (sessions cs)).
Proof. intros H. unfold get_channel_session_size. by rewrite H. Qed.

Lemma live_cons (o : option MuxSession) l :
  filter is_Some (o :: l) = match o with Some _ => o :: filter is_Some l | None => filter is_Some l end.
Proof. destruct o; [by apply filter_cons_True; eexists|by apply filter_cons_False; intros [? ?]]. Qed.

Lemma store_slot_live l s :
  length (filter is_Some (store_slot l s)) = S (length (filter is_Some l)) /\
  Some s ∈ store_slot l s.
Proof.
  induction l as [|[x|] l [IH1 IH2]]; cbn [store_slot].
  - split; [done|set_solver].
  - rewrite !live_cons. cbn [length]. rewrite IH1. split; [done|set_solver].
  - rewrite !live_cons. split; [done|set_solver].
Qed.

Lemma erase_slot_store l s :
  (forall x, Some x ∈ l -> s_id x <> s_id s) ->
  exists l', erase_slot (store_slot l s) (s_id s) = Some l' /\
             filter is_Some l' = filter is_Some l.
Proof.
  induction l as [|[x|] l IH]; cbn [store_slot erase_slot]; intros Hx.
  - rewrite decide_True by done. by eexists.
  - rewrite decide_False by (apply Hx; set_solver).
    destruct IH as (l' & -> & Hf); [intros; apply Hx; set_solver|].
    exists (Some x :: l'). by rewrite !live_cons, Hf.
  - rewrite decide_True by done. by eexists.
Qed.

Lemma store_lookup channel s m :
  channels (store_mux_session channel s m) !! channel =
  Some (match channels m !! channel with
        | Some cs => {| sessions := store_slot (sessions cs) s; cursor := cursor cs |}
        | None => {| sessions := [Some s]; cursor := 0 |}
        end) /\
  (forall c, c <> channel -> channels (store_mux_session channel s m) !! c = channels m !! c) /\
  retired (store_mux_session channel s m) = retired m.
Proof.
  unfold store_mux_session. destruct (channels m !! channel) as [cs|] eqn:E.
  - rewrite E. simpl. split_and!; [by rewrite lookup_insert_eq|intros; by rewrite lookup_insert_ne|done].
  - rewrite lookup_insert_eq. simpl.
    split_and!; [by rewrite lookup_insert_eq|intros; by rewrite !lookup_insert_ne|done].
Qed.

(** ** The round robin *)

Definition slot_of (l : list (option MuxSession)) (z : Z) : option (nat * MuxSession) :=
  let i := Z.to_nat (z mod wrap 32 (Z.of_nat (length l))) in
  match l !! i with Some (Some s) => Some (i, s) | _ => None end.

Lemma pick_session_first n l cur k :
  0 <= cur -> cur + Z.of_nat n <= 2 ^ 32 -> (k < n)%nat ->
  (forall j, (j < k)%nat -> slot_of l (cur + Z.of_nat j) = None) ->
  is_Some (slot_of l (cur + Z.of_nat k)) ->
  pick_session n l cur =
  (slot_of l (cur + Z.of_nat k), wrap 32 (cur + Z.of_nat k + 1)).
Proof.
  revert cur k. induction n as [|n IH]; intros cur k H0 Hn Hk Hbefore Hlive; [lia|].
  simpl. destruct k as [|k].
  - rewrite Z.add_0_r in *. unfold slot_of in *.
    destruct (l !! _) as [[s|]|]; [done|by destruct Hlive..].
  - assert (slot_of l cur = None) as Hc.
    { rewrite <- (Hbefore 0%nat) by lia. by rewrite Z.add_0_r. }
    unfold slot_of in Hc.
    assert (wrap 32 (cur + 1) = cur + 1) as Hw by (apply wrap_small; lia).
    replace (cur + Z.of_nat (S k)) with (cur + 1 + Z.of_nat k) in * by lia.
    destruct (l !! _) as [[s|]|]; [done| |]; rewrite Hw; apply IH; try lia; try done;
      intros j Hj; rewrite <- (Hbefore (S j)) by lia; f_equal; lia.
Qed.

(** The slots in the order of one turn from [cur]. *)
Lemma turn_reaches (l : list (option MuxSession)) cur j s :
  0 <= cur -> Z.of_nat (length l) < 2 ^ 32 -> l !! j = Some (Some s) ->
  exists k, (k < length l)%nat /\ is_Some (slot_of l (cur + Z.of_nat k)).
Proof.
  intros H0 Hl Hj. pose proof (lookup_lt_Some _ _ _ Hj) as Hlt.
  set (n := Z.of_nat (length l)) in *.
  exists (Z.to_nat ((Z.of_nat j - cur) mod n)).
  pose proof (Z.mod_pos_bound (Z.of_nat j - cur) n ltac:(lia)).
  split; [lia|]. unfold slot_of. fold n. rewrite (wrap_small 32 n) by lia.
  rewrite Z2Nat.id by lia. rewrite Zplus_mod_idemp_r.
  replace (cur + (Z.of_nat j - cur)) with (Z.of_nat j) by lia.
  rewrite Z.mod_small, Nat2Z.id, Hj by lia. by eexists.
Qed.

(** The first live slot of a turn. *)
Lemma first_live (l : list (option MuxSession)) cur k :
  is_Some (slot_of l (cur + Z.of_nat k)) ->
  exists k0, (k0 <= k)%nat /\ is_Some (slot_of l (cur + Z.of_nat k0)) /\
    forall j, (j < k0)%nat -> slot_of l (cur + Z.of_nat j) = None.
Proof.
  revert cur. induction k as [|k IH]; intros cur Hs.
  - exists 0%nat. split_and!; [lia|done|lia].
  - destruct (slot_of l (cur + Z.of_nat 0)) as [x|] eqn:E0.
    + exists 0%nat. rewrite E0. split_and!; [lia|done|lia].
    + destruct (IH (cur + 1)) as (k0 & Hk & Hl & Hb).
      { by replace (cur + 1 + Z.of_nat k) with (cur + Z.of_nat (S k)) by lia. }
      exists (S k0). replace (cur + Z.of_nat (S k0)) with (cur + 1 + Z.of_nat k0) by lia.
      split_and!; [lia|done|]. intros [|j] Hj; [done|].
      rewrite <- (Hb j) by lia. f_equal. lia.
Qed.

(** ** The routine *)

Lemma routine_slots_spec now rand channel l states :
  let r := routine_slots now rand channel l states in
  length (acc_slots r) = length l /\
  (forall i o, l !! i = Some o -> acc_slots r !! i = Some o \/
     exists s, o = Some s /\ acc_slots r !! i = Some None /\ s ∈ acc_retired r) /\
  (forall s, s ∈ acc_retired r -> Some s ∈ l).
Proof.
  revert states. induction l as [|[s|] l IH]; intros states; simpl.
  - split_and!; [done|by intros|set_solver].
  - destruct (states !! s_state s) as [st|]; simpl.
    + destruct (routine_session _ _ _ _ _) as [[|] acts]; simpl.
      * destruct (IH (<[s_state s:=set_retired st]> states)) as (H1 & H2 & H3).
        split_and!; [by f_equal| |set_solver].
        intros [|i] o Ho; simplify_eq/=; [right; exists s; set_solver|].
        destruct (H2 i o Ho) as [?|(x & -> & ? & ?)]; [by left|right; exists x; set_solver].
      * destruct (IH states) as (H1 & H2 & H3). split_and!; [by f_equal| |set_solver].
        intros [|i] o Ho; simplify_eq/=; [by left|by apply H2].
    + destruct (IH states) as (H1 & H2 & H3). split_and!; [by f_equal| |set_solver].
      intros [|i] o Ho; simplify_eq/=; [by left|by apply H2].
  - destruct (IH states) as (H1 & H2 & H3). split_and!; [by f_equal| |set_solver].
    intros [|i] o Ho; simplify_eq/=; [by left|by apply H2].
Qed.

Lemma routine_map_spec now rand l m states m' acts ret states' :
  NoDup l.*1 -> routine_map now rand l m states = (m', acts, ret, states') ->
  (forall k, k ∉ l.*1 -> m' !! k = m !! k) /\
  (forall k cs, (k, cs) ∈ l -> exists st,
     let r := routine_slots now rand k (sessions cs) st in
     m' !! k = Some {| sessions := acc_slots r; cursor := cursor cs |} /\
     forall s, s ∈ acc_retired r -> s ∈ ret) /\
  (forall s, s ∈ ret -> exists k cs, (k, cs) ∈ l /\ Some s ∈ sessions cs).
Proof.
  revert m states acts ret states'. induction l as [|[k0 cs0] l IH]; intros m states acts ret states' Hnd E.
  - simpl in E. simplify_eq. split_and!; [done|intros k cs H|intros s H]; by apply elem_of_nil in H.
  - simpl in E. apply NoDup_cons in Hnd as [Hk0 Hnd].
    destruct (routine_map _ _ _ _ _) as [[[m1 acts1] ret1] st1] eqn:R. simplify_eq.
    destruct (IH _ _ _ _ _ Hnd R) as (H1 & H2 & H3). clear IH R. split_and!.
    + intros k Hk. apply not_elem_of_cons in Hk as [Hne Hk]. rewrite H1 by done.
      by rewrite lookup_insert_ne by done.
    + intros k cs Hin. apply elem_of_cons in Hin as [[= -> ->]|Hin].
      * exists states. simpl. rewrite H1, lookup_insert_eq by done.
        split; [done|]. intros s Hs. apply elem_of_app; by left.
      * destruct (H2 k cs Hin) as (st & Hm & Hr). exists st. simpl. split; [done|].
        intros s Hs. apply elem_of_app; right; by apply Hr.
    + intros s Hs. apply elem_of_app in Hs as [Hs|Hs].
      * exists k0, cs0. split; [by apply elem_of_cons; left|].
        by apply (routine_slots_spec now rand k0 (sessions cs0) states).
      * destruct (H3 s Hs) as (k & cs & ? & ?). exists k, cs. split; [by apply elem_of_cons; right|done].
Qed.

(** ** Properties *)

(** C34: a stream is created whenever its channel has a live session.  As
    long as the 32-bit cursor does not wrap during the turn, [create_stream]
    takes the first live session at or after the cursor, sends it one SYN
    with the next stream id of the session, and leaves the new stream, open
    and with a full send window, on the session's pending list. *)
Theorem create_stream_finds_session `{Bincode ConnectRequest} channel proto addr now w cs j s0 :
  channels (manager w) !! channel = Some cs -> sessions cs !! j = Some (Some s0) ->
  Z.of_nat (length (sessions cs)) < 2 ^ 32 ->
  0 <= cursor cs -> cursor cs + Z.of_nat (length (sessions cs)) <= 2 ^ 32 ->
  serialize {| proto := proto; addr := addr |} <> None ->
  exists k s ev m,
    slot_of (sessions cs) (cursor cs + Z.of_nat k) = Some s /\
    (forall i, (i < k)%nat -> slot_of (sessions cs) (cursor cs + Z.of_nat i) = None) /\
    new_syn_event (stream_id_seed s.2) {| proto := proto; addr := addr |} = Ok ev /\
    Event.stream_id (header ev) = stream_id_seed s.2 /\
    create_stream channel proto addr now w =
      Ok (Ok m, {| manager := {| channels := <[channel :=
            {| sessions := <[s.1 := Some (add_pendding s.2 m)]> (sessions cs);
               cursor := wrap 32 (cursor cs + Z.of_nat k + 1) |}]> (channels (manager w));
            retired := retired (manager w) |};
          sstates := sstates w;
          cells := <[cell m := (Stream.new channel (s_id s.2) (stream_id_seed s.2)
                                 (s_event_tx s.2) (target m) (cell m) now).2]> (cells w) |},
          [SendEvent (s_event_tx s.2) ev]) /\
    cells w !! cell m = None.
Proof.
  intros Hcs Hj Hlen H0 Hwrap Hser.
  destruct (turn_reaches (sessions cs) (cursor cs) j s0) as (k1 & Hk1 & Hl1); [done..|].
  apply first_live in Hl1 as (k & Hk & Hl & Hb).
  pose proof (pick_session_first (length (sessions cs)) (sessions cs) (cursor cs) k H0 Hwrap
                ltac:(lia) Hb Hl) as Hpick.
  destruct Hl as [[idx s] Hs]. rewrite Hs in Hpick.
  destruct (serialize {| proto := proto; addr := addr |}) as [d|] eqn:Hd; [|done].
  exists k, (idx, s), (with_flag (new_data_event (stream_id_seed s) d false) FLAG_SYN),
    {| target := {| proto := proto; addr := addr |}; event_tx := s_event_tx s;
       data_tx := None; cell := fresh (dom (cells w)) |}.
  cbn [fst snd]. unfold create_stream. rewrite Hcs, Hpick.
  unfold new_syn_event. rewrite Hd.
  split_and!; [done|done|done|done|by unmonad|]. cbn [cell].
  apply not_elem_of_dom. apply is_fresh.
Qed.

(** A world with one live session on a channel of three slots, for the
    witnesses. *)
Module Demo.
Definition session (id seed : Z) (tx : nat) : MuxSession :=
  {| s_id := id; s_event_tx := tx; pendding_streams := []; stream_id_seed := seed;
     s_state := tx; max_alive_secs := 2400 |}.
Definition fresh_state : MuxSessionState :=
  {| last_ping_send_time := 0; last_pong_recv_time := 0; s_born_time := 0; s_retired := false;
     io_active_unix_secs := 0; s_closed := false |}.
Definition slots : list (option MuxSession) := [None; None; Some (session 4 1 9)].
Definition world (cur : Z) : World :=
  {| manager := {| channels := {["rmux"%string := {| sessions := slots; cursor := cur |}]};
                   retired := [] |};
     sstates := {[9%nat := fresh_state]}; cells := ∅ |}.
(** A serializer of TCP requests. *)
Definition req_bincode : Bincode ConnectRequest := {|
  serialize r := if decide (proto r = "tcp"%string)
                 then Some (String.list_byte_of_string (addr r)) else None;
  deserialize l := Some {| proto := "tcp"; addr := String.string_of_list_byte l |} |}.
Lemma req_bincode_laws : @BincodeLaws ConnectRequest req_bincode.
Proof.
  intros [p a] d E. simpl in *. case_decide; simplify_eq.
  by rewrite String.string_of_list_byte_of_string.
Qed.
End Demo.

Lemma create_stream_finds_session_witness :
  exists k s ev m,
    slot_of Demo.slots (0 + Z.of_nat k) = Some s /\
    (forall i, (i < k)%nat -> slot_of Demo.slots (0 + Z.of_nat i) = None) /\
    @new_syn_event _ Demo.req_bincode (stream_id_seed s.2) {| proto := "tcp"; addr := "a:1" |} = Ok ev /\
    Event.stream_id (header ev) = stream_id_seed s.2 /\
    @create_stream Demo.req_bincode "rmux" "tcp" "a:1" 0 (Demo.world 0) =
      Ok (Ok m, {| manager := {| channels := <["rmux"%string :=
            {| sessions := <[s.1 := Some (add_pendding s.2 m)]> Demo.slots;
               cursor := wrap 32 (0 + Z.of_nat k + 1) |}]> (channels (manager (Demo.world 0)));
            retired := [] |};
          sstates := sstates (Demo.world 0);
          cells := <[cell m := (Stream.new "rmux" (s_id s.2) (stream_id_seed s.2)
                                 (s_event_tx s.2) (target m) (cell m) 0).2]> ∅ |},
          [SendEvent (s_event_tx s.2) ev]) /\
    (∅ : gmap nat Cell) !! cell m = None.
Proof.
  apply (create_stream_finds_session (H := Demo.req_bincode) "rmux" "tcp" "a:1" 0 (Demo.world 0)
           {| sessions := Demo.slots; cursor := 0 |} 2 (Demo.session 4 1 9)).
  - reflexivity.
  - reflexivity.
  - simpl; lia.
  - simpl; lia.
  - simpl; lia.
  - discriminate.
Defined.

(** The exception to the round robin: when the cursor wraps inside a
    turn over three slots it visits slot 0 twice and misses slot 2, so a
    channel with a live session answers "no channel found". *)
Theorem create_stream_cursor_wrap `{Bincode ConnectRequest} channel proto addr now w s :
  channels (manager w) !! channel
    = Some {| sessions := [None; None; Some s]; cursor := 2 ^ 32 - 1 |} ->
  get_channel_session_size channel (manager w) = 1%nat /\
  exists w', create_stream channel proto addr now w = Ok (Err "no channel found."%string, w', []).
Proof.
  intros Hcs. split; [by rewrite (size_of _ _ _ Hcs)|].
  unfold create_stream. rewrite Hcs. by eexists.
Qed.

Lemma create_stream_cursor_wrap_witness :
  get_channel_session_size "rmux" (manager (Demo.world (2 ^ 32 - 1))) = 1%nat /\
  exists w', @create_stream Demo.req_bincode "rmux" "tcp" "a:1" 0 (Demo.world (2 ^ 32 - 1))
    = Ok (Err "no channel found."%string, w', []).
Proof.
  apply (create_stream_cursor_wrap (H := Demo.req_bincode) "rmux" "tcp" "a:1" 0
           (Demo.world (2 ^ 32 - 1)) (Demo.session 4 1 9)).
  reflexivity.
Defined.

(** Storing a session puts it on its channel, and the session's own erase
    at its end takes exactly it away: the channel is back to its live
    sessions, whatever slots were reused, as long as no other session of the
    channel has the same id. *)
Theorem store_erase_session channel s m :
  (forall cs x, channels m !! channel = Some cs -> Some x ∈ sessions cs -> s_id x <> s_id s) ->
  let m1 := store_mux_session channel s m in
  let m2 := erase_mux_session channel (s_id s) m1 in
  get_channel_session_size channel m1 = S (get_channel_session_size channel m) /\
  get_channel_session_size channel m2 = get_channel_session_size channel m /\
  (exists cs2, channels m2 !! channel = Some cs2 /\
     filter is_Some (sessions cs2) =
       filter is_Some (from_option sessions [] (channels m !! channel))) /\
  (forall c, c <> channel -> channels m2 !! c = channels m !! c) /\
  retired m2 = retired m.
Proof.
  intros Hids m1 m2. destruct (store_lookup channel s m) as (Hl & Hother & Hret). fold m1 in Hl, Hother, Hret.
  set (old := from_option sessions [] (channels m !! channel)).
  assert (exists c, channels m1 !! channel = Some {| sessions := store_slot old s; cursor := c |})
    as [c Hm1].
  { unfold old. rewrite Hl. destruct (channels m !! channel) as [cs|]; by eexists. }
  assert (get_channel_session_size channel m = length (filter is_Some old)) as Hsize.
  { unfold old, get_channel_session_size. by destruct (channels m !! channel). }
  destruct (erase_slot_store old s) as (l' & He & Hf).
  { intros x Hx. unfold old in Hx. destruct (channels m !! channel) as [cs|] eqn:E; [by eapply Hids|].
    by apply elem_of_nil in Hx. }
  assert (m2 = {| channels := <[channel := {| sessions := l'; cursor := c |}]> (channels m1);
                  retired := retired m1 |}) as Hm2.
  { unfold m2, erase_mux_session. rewrite Hm1. simpl. by rewrite He. }
  split_and!.
  - rewrite (size_of _ _ _ Hm1), Hsize. apply store_slot_live.
  - rewrite Hm2, Hsize. unfold get_channel_session_size. simpl. rewrite lookup_insert_eq. simpl. by rewrite Hf.
  - exists {| sessions := l'; cursor := c |}. by rewrite Hm2; simpl; rewrite lookup_insert_eq.
  - intros k Hk. rewrite Hm2; simpl. rewrite lookup_insert_ne by done. by apply Hother.
  - by rewrite Hm2.
Qed.

Lemma store_erase_session_witness :
  let m := manager (Demo.world 0) in
  let m1 := store_mux_session "rmux" (Demo.session 5 1 11) m in
  let m2 := erase_mux_session "rmux" 5 m1 in
  get_channel_session_size "rmux" m1 = 2%nat /\ get_channel_session_size "rmux" m2 = 1%nat /\
  (exists cs2, channels m2 !! "rmux"%string = Some cs2 /\
     filter is_Some (sessions cs2) = filter is_Some Demo.slots) /\
  (forall c, c <> "rmux"%string -> channels m2 !! c = channels m !! c) /\
  retired m2 = retired m.
Proof.
  intros m m1 m2. apply (store_erase_session "rmux" (Demo.session 5 1 11) m).
  intros cs x Hcs Hx. vm_compute in Hcs. injection Hcs as <-. cbn [sessions] in Hx.
  rewrite !elem_of_cons, elem_of_nil in Hx. destruct Hx as [Hx|[Hx|[Hx|[]]]]; [done..|].
  injection Hx as ->. discriminate.
Defined.

(** Two listeners of one server both number their connections from 0 and
    store their sessions under the empty channel name, so ids collide.  When
    both sessions are live, the end of the second one erases the first. *)
Theorem colliding_ids_erase_the_wrong_session s1 s2 m :
  s_id s1 = s_id s2 -> channels m !! ""%string = None ->
  let m2 := store_mux_session "" s2 (store_mux_session "" s1 m) in
  exists cs, channels (erase_mux_session "" (s_id s2) m2) !! ""%string = Some cs /\
    sessions cs = [None; Some s2].
Proof.
  intros Hid Hnone m2.
  destruct (store_lookup "" s1 m) as (H1 & _ & _). rewrite Hnone in H1.
  destruct (store_lookup "" s2 (store_mux_session "" s1 m)) as (H2 & _ & _). rewrite H1 in H2.
  fold m2 in H2. simpl in H2. unfold erase_mux_session. rewrite H2. simpl.
  rewrite decide_True by done. simpl. rewrite lookup_insert_eq. by eexists.
Qed.

Lemma colliding_ids_erase_the_wrong_session_witness :
  let s1 := Demo.session 0 2 1 in
  let s2 := Demo.session 0 2 2 in
  exists cs, channels (erase_mux_session "" 0
      (store_mux_session "" s2 (store_mux_session "" s1 manager_new))) !! ""%string = Some cs /\
    sessions cs = [None; Some s2].
Proof.
  intros s1 s2. apply (colliding_ids_erase_the_wrong_session s1 s2 manager_new); reflexivity.
Defined.

(** What becomes of a window report.  On a session in the table it is
    sent, and acknowledged, when the event channel takes it, and refused when
    that channel is not ready.  On a session that is in no slot, which is
    where retired sessions are, it is acknowledged without being sent. *)
Theorem report_update_window_outcomes ready sent channel sid stream win m :
  (forall cs, channels m !! channel = Some cs ->
     forall l1 ss l2, sessions cs = l1 ++ Some ss :: l2 ->
     (forall x, Some x ∈ l1 -> s_id x <> sid) -> s_id ss = sid ->
     (ready (s_event_tx ss) = Ready (Ok tt) -> sent (s_event_tx ss) = true ->
        report_update_window ready sent channel sid stream win m =
        (true, [TrySendEvent (s_event_tx ss) (new_window_update_event stream win false)])) /\
     (ready (s_event_tx ss) = Pending ->
        report_update_window ready sent channel sid stream win m = (false, []))) /\
  ((forall cs x, channels m !! channel = Some cs -> Some x ∈ sessions cs -> s_id x <> sid) ->
     report_update_window ready sent channel sid stream win m = (true, [])).
Proof.
  assert (forall l1 l2 ev, (forall x, Some x ∈ l1 -> s_id x <> sid) ->
    report_scan ready sent (l1 ++ l2) sid ev = report_scan ready sent l2 sid ev) as Hskip.
  { intros l1 l2 ev. induction l1 as [|[x|] l1 IH]; intros Hl1; simpl; [done| |].
    - rewrite decide_False by (apply Hl1; set_solver). apply IH. intros; apply Hl1; set_solver.
    - apply IH. intros; apply Hl1; set_solver. }
  split.
  - intros cs Hcs l1 ss l2 Hl Hl1 Hss. unfold report_update_window.
    rewrite Hcs, Hl, Hskip by done. simpl. rewrite decide_True by done.
    split; [intros -> ->; done|by intros ->].
  - intros Hno. unfold report_update_window. destruct (channels m !! channel) as [cs|] eqn:Hcs; [|done].
    rewrite <- (app_nil_r (sessions cs)), Hskip; [done|]. intros x Hx. by eapply Hno.
Qed.

Lemma report_update_window_outcomes_witness :
  let m := {| channels := channels (manager (Demo.world 0)); retired := [Demo.session 7 1 3] |} in
  let ready := fun _ : nat => Ready (Ok tt) in
  let sent := fun _ : nat => true in
  report_update_window ready sent "rmux" 4 1 40000 m =
    (true, [TrySendEvent 9 (new_window_update_event 1 40000 false)]) /\
  report_update_window (fun _ => Pending) sent "rmux" 4 1 40000 m = (false, []) /\
  report_update_window ready sent "rmux" 7 1 40000 m = (true, []).
Proof.
  intros m ready sent.
  assert (forall x, Some x ∈ [None; None : option MuxSession] -> s_id x <> 4) as Hl1.
  { intros x Hx. rewrite !elem_of_cons, elem_of_nil in Hx. destruct Hx as [Hx|[Hx|[]]]; discriminate. }
  split; [|split].
  - apply (report_update_window_outcomes ready sent "rmux" 4 1 40000 m) with
      (cs := {| sessions := Demo.slots; cursor := 0 |})
      (l1 := [None; None]) (l2 := []) (ss := Demo.session 4 1 9); done || exact Hl1.
  - apply (report_update_window_outcomes (fun _ => Pending) sent "rmux" 4 1 40000 m) with
      (cs := {| sessions := Demo.slots; cursor := 0 |})
      (l1 := [None; None]) (l2 := []) (ss := Demo.session 4 1 9); done || exact Hl1.
  - apply (report_update_window_outcomes ready sent "rmux" 7 1 40000 m).
    intros cs x Hcs Hx. vm_compute in Hcs. injection Hcs as <-. cbn [sessions] in Hx.
    rewrite !elem_of_cons, elem_of_nil in Hx. destruct Hx as [Hx|[Hx|[Hx|[]]]]; [discriminate..|].
    injection Hx as ->. discriminate.
Defined.

(** The periodic routine loses no session.  Every slot of every channel
    keeps its session or is emptied with the session moved to the retired
    list; cursors and slot counts stay; no channel appears; and every retired
    session was retired before or comes from a slot. *)
Theorem routine_keeps_sessions now rand w w' acts :
  routine_all_sessions now rand w = (w', acts) ->
  (forall c cs, channels (manager w) !! c = Some cs -> exists cs',
     channels (manager w') !! c = Some cs' /\ cursor cs' = cursor cs /\
     length (sessions cs') = length (sessions cs) /\
     forall i o, sessions cs !! i = Some o -> sessions cs' !! i = Some o \/
       exists s, o = Some s /\ sessions cs' !! i = Some None /\ s ∈ retired (manager w')) /\
  (forall c, channels (manager w) !! c = None -> channels (manager w') !! c = None) /\
  (forall s, s ∈ retired (manager w') -> s ∈ retired (manager w) \/
     exists c cs, channels (manager w) !! c = Some cs /\ Some s ∈ sessions cs) /\
  (forall s, s ∈ retired (manager w) -> s ∈ retired (manager w')).
Proof.
  unfold routine_all_sessions. destruct (routine_map _ _ _ _ _) as [[[ch ac] newly] st] eqn:R.
  intros E. injection E as <- _. cbn [manager channels retired].
  apply routine_map_spec in R as (H1 & H2 & H3); [|apply NoDup_fst_map_to_list].
  split_and!.
  - intros c cs Hc. destruct (H2 c cs) as (st0 & Hm & Hr); [by apply elem_of_map_to_list|].
    destruct (routine_slots_spec now rand c (sessions cs) st0) as (Hlen & Hslot & _).
    eexists. split; [exact Hm|]. split; [done|]. split; [done|].
    intros i o Ho. destruct (Hslot i o Ho) as [?|(s & -> & ? & Hs)]; [by left|right].
    exists s. split_and!; [done|done|]. apply elem_of_app; right. by apply Hr.
  - intros c Hc. rewrite H1; [done|]. intros Hin. apply list_elem_of_fmap in Hin as ([k cs] & -> & Hin).
    apply elem_of_map_to_list in Hin. simpl in Hc. congruence.
  - intros s Hs. apply elem_of_app in Hs as [?|Hs]; [by left|right].
    destruct (H3 s Hs) as (k & cs & Hin & ?). apply elem_of_map_to_list in Hin. eauto.
  - intros s Hs. apply elem_of_app; by left.
Qed.

Lemma routine_keeps_sessions_witness :
  let w := Demo.world 0 in
  exists w' acts, routine_all_sessions 3000 (fun _ => 0) w = (w', acts) /\
    (forall s, s ∈ retired (manager w') -> s ∈ retired (manager w) \/
       exists c cs, channels (manager w) !! c = Some cs /\ Some s ∈ sessions cs).
Proof.
  intros w. destruct (routine_all_sessions 3000 (fun _ => 0) w) as [w' acts] eqn:E.
  exists w', acts. split; [reflexivity|].
  apply (routine_keeps_sessions 3000 (fun _ => 0) w w' acts E).
Defined.

(** When the routine retires a client session.  With an age limit of a
    whole number of minutes and a random shift in [-60, 60), no arithmetic
    wraps: the session is taken exactly when the last ping was sent more than
    60 seconds after the last pong came, or when its age exceeds the shifted
    limit; in particular a session without any pong is never taken
    for its heartbeat, however long the peer has been silent. *)
Theorem routine_session_retires channel now rand s st mins :
  channel <> ""%string -> 0 < mins < 2 ^ 32 -> max_alive_secs s = mins * 60 -> -60 <= rand < 60 ->
  let taken := (routine_session channel now rand s st).1 in
  (taken = true <-> ping_pong_gap st < -60 \/ max_alive_secs s + rand < now - s_born_time st) /\
  (last_pong_recv_time st = 0 ->
     (taken = true <-> max_alive_secs s + rand < now - s_born_time st)) /\
  (ping_pong_gap st < -60 ->
     (routine_session channel now rand s st).2 = [SendEvent (s_event_tx s) (new_shutdown_event 0 false)]).
Proof.
  intros Hch Hm Hmax Hr taken.
  assert (taken = true <-> ping_pong_gap st < -60 \/ max_alive_secs s + rand < now - s_born_time st) as Ht.
  { unfold taken, routine_session. case_decide as Hg; [simpl; tauto|].
    rewrite !bool_decide_eq_true_2 by (lia || done). simpl.
    rewrite (swrap_small 64 (max_alive_secs s)), (swrap_small 64), (wrap_small 64) by lia.
    rewrite bool_decide_eq_true. tauto. }
  split_and!; [done| |].
  - intros H0. rewrite Ht. assert (ping_pong_gap st = 0) as ->.
    { unfold ping_pong_gap. rewrite H0. by rewrite andb_false_r. }
    split; [intros [?|?]; [lia|done]|by right].
  - intros Hg. unfold routine_session. by rewrite decide_True.
Qed.

Lemma routine_session_retires_witness :
  let st := {| last_ping_send_time := 5000; last_pong_recv_time := 0; s_born_time := 0;
               s_retired := false; io_active_unix_secs := 0; s_closed := false |} in
  let taken := (routine_session "rmux" 2000 17 (Demo.session 4 1 9) st).1 in
  (taken = true <-> ping_pong_gap st < -60 \/ 2400 + 17 < 2000 - 0) /\
  (0 = 0 -> (taken = true <-> 2400 + 17 < 2000 - 0)) /\
  (ping_pong_gap st < -60 ->
     (routine_session "rmux" 2000 17 (Demo.session 4 1 9) st).2
       = [SendEvent 9 (new_shutdown_event 0 false)]).
Proof.
  intros st taken.
  apply (routine_session_retires "rmux" 2000 17 (Demo.session 4 1 9) st 40);
    [discriminate|lia|reflexivity|lia].
Defined.
