(* ===== verification/EventLoop.v ===== *)
(** * The event task of a session (src/src/rmux/session.rs, second half)

    [process_event]: the task that owns the session's streams and its write
    context, and handles one event at a time, local ones (from the streams
    and the manager) and remote ones (from the peer).  Every handler takes
    what the environment decides (the clock, whether the sender task still
    accepts frames) as an argument, and yields its actions. *)
From stdpp Require Import prelude gmap strings.
From Stdlib Require Import ZArith Lia.
From S2P Require Import Prelude Io Event Crypto Stream Session.

Local Open Scope Z_scope.

(** ** State, environment, actions *)

Record Loop := { world : World; streams : gmap Z MuxStream; wctx : CryptoContext }.

(** [now]: [SystemTime::now()] in seconds; [send_ok]: whether the channel to
    the sender task takes a frame; [others]: what the other tasks (the
    streams' readers and writers, the manager, the two socket tasks) did to
    the shared state while this one waited for the event. *)
Record Env := { now : Z; send_ok : bool; others : World -> World }.

Inductive action :=
  | Do (e : effect)
  | SendFrame (data : list byte)
  | Spawn (m : MuxStream)
  | CloseEvents.

Inductive next := Continue | Break.

(** The state [process_rmux_session] creates a session with. *)
Definition session_state_new (born : Z) : MuxSessionState :=
  {| last_ping_send_time := 0; last_pong_recv_time := 0; s_born_time := born;
     s_retired := false; io_active_unix_secs := 0; s_closed := false |}.

Definition sstate (w : World) (sref : nat) : MuxSessionState :=
  default (session_state_new 0) (sstates w !! sref).
Definition set_sstate (w : World) (sref : nat) (st : MuxSessionState) : World :=
  {| manager := manager w; sstates := <[sref := st]> (sstates w); cells := cells w |}.
Definition set_cell (w : World) (c : nat) (x : Cell) : World :=
  {| manager := manager w; sstates := sstates w; cells := <[c := x]> (cells w) |}.
Definition with_world (l : Loop) (w : World) : Loop :=
  {| world := w; streams := streams l; wctx := wctx l |}.
Definition with_streams (l : Loop) (s : gmap Z MuxStream) : Loop :=
  {| world := world l; streams := s; wctx := wctx l |}.

(** [stream.close()] through the shared cell. *)
Definition close_stream (w : World) (m : MuxStream) : World * list action :=
  match cells w !! cell m with
  | Some c => let '(c, effs) := Stream.close m c in (set_cell w (cell m) c, map Do effs)
  | None => (w, [])
  end.

(** [s.id()] *)
Definition stream_of (w : World) (m : MuxStream) : Z :=
  match cells w !! cell m with Some c => Stream.id c | None => 0 end.

(** ** Handlers *)

Section Handlers.
Context {C : Ciphers} `{Bincode ConnectRequest}.
(** The session: its channel name, its id, its shared state, and the sender
    of its event channel. *)
Context (channel : string) (tunnel_id : Z) (sref : nat) (evtx : nat).

Definition handle_ping_event (is_remote : bool) (e : Env) (w : World) : World :=
  if negb is_remote
  then set_sstate w sref (set_ping (sstate w sref) (wrap 32 (now e)))
  else w.

(** [log_session_state] logs and returns the idle seconds. *)
Definition log_session_state (now_unix_secs : Z) (w : World) : Z :=
  get_io_idle_secs (sstate w sref) now_unix_secs.

Definition handle_routine_event (e : Env) (l : Loop) : Loop * bool :=
  let now_unix_secs := wrap 32 (now e) in
  let idle_io_secs := log_session_state now_unix_secs (world l) in
  let should_close :=
    (is_retired (sstate (world l) sref) && bool_decide (streams l = ∅))
    || bool_decide (300 <= idle_io_secs) in
  if should_close
  then (with_world l (set_sstate (world l) sref (set_closed (sstate (world l) sref))), true)
  else (l, false).

Definition handle_fin_event (sid : Z) (l : Loop) : Loop * list action * bool :=
  let '(l, acts) :=
    match streams l !! sid with
    | Some stream =>
        let '(w, acts) := close_stream (world l) stream in
        ({| world := w; streams := delete sid (streams l); wctx := wctx l |}, acts)
    | None => (l, [])
    end in
  if is_retired (sstate (world l) sref) && bool_decide (streams l = ∅)
  then (with_world l (set_sstate (world l) sref (set_closed (sstate (world l) sref))), acts, true)
  else (l, acts, false).

Definition send_local_event (ev : Event) (e : Env) (l : Loop) : partial (Loop * list action * bool) :=
  '(ctx, _, buf) ← encrypt (wctx l) ev [];
  Ok ({| world := world l; streams := streams l; wctx := ctx |},
      if send_ok e then [SendFrame buf] else [], send_ok e).

(** The [bool] is "go on". *)
Definition handle_local_event (ev : Event) (e : Env) (l : Loop) : partial (Loop * list action * bool) :=
  let f := flags (header ev) in
  if decide (FLAG_SHUTDOWN = f) then Ok (l, [], false)
  else
    let l :=
      if decide (FLAG_SYN = f) then
        let '(m, s) := hanle_pendding_mux_streams (stream_of (world l)) channel tunnel_id
                         (manager (world l)) (streams l) in
        {| world := set_manager (world l) m; streams := s; wctx := wctx l |}
      else l in
    let '(l, acts, done) :=
      if decide (FLAG_FIN = f) then handle_fin_event (Event.stream_id (header ev)) l
      else (l, [], false) in
    if done then Ok (l, acts, false)
    else if decide (FLAG_ROUTINE = f) then
      let '(l, stop) := handle_routine_event e l in Ok (l, acts, negb stop)
    else
      '(l, acts', ok) ← send_local_event ev e l;
      Ok (l, acts ++ acts', ok).

(** The new stream shares its cell with the spawned relay. *)
Definition handle_syn (ev : Event) (e : Env) (w : World) : World * list action * option MuxStream :=
  match deserialize (body ev) with
  | None => (w, [], None)
  | Some connect_req =>
      let sid := Event.stream_id (header ev) in
      let c := fresh (dom (cells w)) in
      let '(stream, x) := Stream.new channel tunnel_id sid evtx connect_req c (now e) in
      (set_cell w c x, [Spawn (Stream.clone stream)], Some stream)
  end.

(** The body of the loop of [process_event] for one event. *)
Definition handle_event (ev : Event) (e : Env) (l : Loop) : partial (Loop * list action * next) :=
  let f := flags (header ev) in
  let sid := Event.stream_id (header ev) in
  let l := if decide (FLAG_PING = f)
           then with_world l (handle_ping_event (remote ev) e (world l)) else l in
  if negb (remote ev) then
    '(l, acts, go_on) ← handle_local_event ev e l;
    Ok (l, acts, if (go_on : bool) then Continue else Break)
  else if decide (f = FLAG_SYN) then
    let '(w, acts, o) := handle_syn ev e (world l) in
    match o with
    | Some stream =>
        let k := stream_of w stream in
        let s := match streams l !! k with
                 | Some _ => streams l
                 | None => <[k := stream]> (streams l)
                 end in
        Ok ({| world := w; streams := s; wctx := wctx l |}, acts, Continue)
    | None => Ok (with_world l w, acts, Continue)
    end
  else if decide (f = FLAG_FIN) then
    let '(l, acts, done) := handle_fin_event sid l in
    Ok (l, acts, if done then Break else Continue)
  else if decide (f = FLAG_DATA) then
    match streams l !! sid with
    | Some stream =>
        match cells (world l) !! cell stream with
        | Some c =>
            '(stream, c, effs) ← Stream.offer_data stream c (body ev);
            Ok ({| world := set_cell (world l) (cell stream) c;
                     streams := <[sid := stream]> (streams l); wctx := wctx l |},
                  map Do effs, Continue)
        | None => Ok (l, [], Continue)
        end
    | None => Ok (l, [], Continue)
    end
  else if decide (f = FLAG_PING) then
    '(l, acts, ok) ← send_local_event (new_pong_event sid false) e l;
    Ok (l, acts, if (ok : bool) then Continue else Break)
  else if decide (f = FLAG_PONG) then
    Ok (with_world l (set_sstate (world l) sref (set_pong (sstate (world l) sref) (wrap 32 (now e)))),
          [], Continue)
  else if decide (f = FLAG_WIN_UPDATE) then
    match streams l !! sid with
    | Some stream =>
        match cells (world l) !! cell stream with
        | Some c =>
            let '(c, effs) := Stream.update_send_window c (len (header ev)) in
            Ok (with_world l (set_cell (world l) (cell stream) c), map Do effs, Continue)
        | None => Ok (l, [], Continue)
        end
    | None => Ok (l, [], Continue)
    end
  else Ok (l, [], Continue).

(** The loop of [process_event] over what [event_rx.recv()] returns, each with
    what the environment does by then.  The [bool] is whether the loop is
    over; when it is not, the task waits for the next event. *)
Fixpoint event_loop (inputs : list (option Event * Env)) (l : Loop)
    : partial (Loop * list action * bool) :=
  if is_closed (sstate (world l) sref) then Ok (l, [], true)
  else
    match inputs with
    | [] => Ok (l, [], false)
    | (None, e) :: _ => Ok (with_world l (others e (world l)), [], true)
    | (Some ev, e) :: inputs =>
        '(l, acts, nx) ← handle_event ev e (with_world l (others e (world l)));
        match nx with
        | Break => Ok (l, acts, true)
        | Continue =>
            '(l, acts', over) ← event_loop inputs l;
            Ok (l, acts ++ acts', over)
        end
    end.

(** [for (_, stream) in streams.iter_mut() { stream.close() }] *)
Fixpoint close_streams (ms : list (Z * MuxStream)) (w : World) : World * list action :=
  match ms with
  | [] => (w, [])
  | (_, m) :: ms =>
      let '(w, acts) := close_stream w m in
      let '(w, acts') := close_streams ms w in
      (w, acts ++ acts')
  end.

(** [process_event] up to the last of [inputs], and whether it has returned. *)
Definition process_event (inputs : list (option Event * Env)) (w : World) (ctx : CryptoContext)
    : partial (Loop * list action * bool) :=
  '(l, acts, over) ← event_loop inputs {| world := w; streams := ∅; wctx := ctx |};
  if (over : bool) then
    let w := set_sstate (world l) sref (set_closed (sstate (world l) sref)) in
    let '(w, acts') := close_streams (map_to_list (streams l)) w in
    Ok (with_world l w, acts ++ acts' ++ [CloseEvents; SendFrame []], true)
  else Ok (l, acts, false).
End Handlers.

(** ** The frames of a run *)

Definition frame_of (a : action) : option (list byte) :=
  match a with SendFrame d => Some d | _ => None end.
Definition frames (acts : list action) : list (list byte) := omap frame_of acts.

(** The event the peer is owed for an event of the loop. *)
Definition reply (ev : Event) : option Event :=
  let f := flags (header ev) in
  if remote ev
  then if decide (f = FLAG_PING)
       then Some (new_pong_event (Event.stream_id (header ev)) false) else None
  else if decide (f = FLAG_SHUTDOWN) then None
  else if decide (f = FLAG_ROUTINE) then None
  else Some ev.

Lemma frames_app a b : frames (a ++ b) = frames a ++ frames b.
Proof. apply omap_app. Qed.

Lemma frames_do effs : frames (map Do effs) = [].
Proof. by induction effs. Qed.

Lemma encrypt_all_app `{Ciphers} w a b out :
  encrypt_all w (a ++ b) out = ('(w, out) ← encrypt_all w a out; encrypt_all w b out).
Proof.
  revert w out. induction a as [|ev a IH]; intros w out; [done|]. simpl.
  destruct (encrypt w ev out) as [[[w1 ?] out1]|[]|]; [|done]. unmonad. apply IH.
Qed.

Lemma encrypt_frame `{C : Ciphers} ctx ev :
  ctx_ok ctx -> exists ctx' f,
    key ctx' = key ctx /\ forall out, exists ev', encrypt ctx ev out = Ok (ctx', ev', out ++ f).
Proof.
  intros Hok. destruct (sealing_key ctx) as [k|] eqn:Hk.
  - destruct (skip32_key_ok ctx Hok) as [sk Hsk].
    exists (set_sealing ctx (sealed_key k (body ev)) (wrap 64 (nonce ctx + 1))), (sealed_frame sk k ev).
    split; [done|]. intros out. by apply encrypt_sealed.
  - exists ctx, (to_le 4 (flag_len (header ev)) ++ to_le 4 (Event.stream_id (header ev)) ++ body ev).
    split; [done|]. intros out. exists ev. unfold encrypt. rewrite Hk. unmonad.
    do 2 f_equal. destruct (body ev); by rewrite ?app_nil_r, <- ?app_assoc.
Qed.

Lemma encrypt_all_out `{C : Ciphers} ctx evs :
  ctx_ok ctx -> exists ctx' fs,
    ctx_ok ctx' /\ forall out, encrypt_all ctx evs out = Ok (ctx', out ++ fs).
Proof.
  revert ctx. induction evs as [|ev evs IH]; intros ctx Hok.
  - exists ctx, []. split; [done|]. intros out. by rewrite app_nil_r.
  - destruct (encrypt_frame ctx ev Hok) as (c1 & f & Hk & Hf).
    destruct (IH c1) as (c2 & fs & Hok2 & Hfs); [by unfold ctx_ok in *; rewrite Hk|].
    exists c2, (f ++ fs). split; [done|]. intros out. simpl.
    destruct (Hf out) as [ev' ->]. unmonad. by rewrite Hfs, app_assoc.
Qed.

Section Frames.
Context {C : Ciphers} `{Bincode ConnectRequest}.
Context (channel : string) (tunnel_id : Z) (sref : nat) (evtx : nat).
Abbreviation handle_event := (handle_event channel tunnel_id sref evtx).
Abbreviation event_loop := (event_loop channel tunnel_id sref evtx).

Lemma send_local_event_spec ev e l :
  ctx_ok (wctx l) -> exists ctx' f,
    ctx_ok ctx' /\ (forall out, encrypt_all (wctx l) [ev] out = Ok (ctx', out ++ f)) /\
    send_local_event ev e l =
      Ok ({| world := world l; streams := streams l; wctx := ctx' |},
          if send_ok e then [SendFrame f] else [], send_ok e).
Proof.
  intros Hok. destruct (encrypt_frame (wctx l) ev Hok) as (ctx' & f & Hk & Hf).
  exists ctx', f. split_and!; [by unfold ctx_ok in *; rewrite Hk| |].
  - intros out. simpl. by destruct (Hf out) as [ev' ->].
  - unfold send_local_event. by destruct (Hf []) as [ev' ->].
Qed.

Lemma close_stream_frames w m : frames (close_stream w m).2 = [].
Proof.
  unfold close_stream. destruct (cells w !! cell m); [|done].
  destruct (Stream.close _ _). apply frames_do.
Qed.

Lemma handle_fin_frames sid l :
  frames (handle_fin_event sref sid l).1.2 = [] /\
  wctx (handle_fin_event sref sid l).1.1 = wctx l.
Proof.
  unfold handle_fin_event. destruct (streams l !! sid) as [m|].
  - pose proof (close_stream_frames (world l) m).
    destruct (close_stream (world l) m) as [w acts]; simpl in *. by case_match.
  - by case_match.
Qed.

Lemma handle_routine_wctx e l : wctx (handle_routine_event sref e l).1 = wctx l.
Proof. unfold handle_routine_event. by case_match. Qed.

(** Every event yields the encryption of its reply, or ends the loop without
    a frame. *)
Definition emits (w : CryptoContext) (ev : Event) (r : Loop * list action * next) : Prop :=
  let '(l', acts, nx) := r in
  ctx_ok (wctx l') /\
  (encrypt_all w (option_list (reply ev)) [] = Ok (wctx l', concat (frames acts)) \/
   nx = Break /\ frames acts = []).

Lemma emits_nothing w ev l acts nx :
  ctx_ok w -> wctx l = w -> frames acts = [] -> nx = Break \/ reply ev = None ->
  emits w ev (l, acts, nx).
Proof.
  intros Hok Hw Hf Hor. unfold emits. rewrite Hw, Hf. split; [done|].
  destruct Hor as [->| ->]; [by right|by left].
Qed.

Lemma emits_sent w ev ev' e l acts' l' acts ok :
  ctx_ok w -> wctx l = w -> frames acts' = [] -> reply ev = Some ev' ->
  send_local_event ev' e l = Ok (l', acts, ok) ->
  emits w ev (l', acts' ++ acts, if (ok : bool) then Continue else Break).
Proof.
  intros Hok <- Hf Hr E. destruct (send_local_event_spec ev' e l Hok) as (c & f & Hc & Hen & Hs).
  rewrite Hs in E. injection E as <- <- <-. unfold emits. cbn [wctx]. rewrite frames_app, Hf.
  split; [done|]. destruct (send_ok e); [left|by right].
  rewrite Hr. cbn [option_list]. rewrite Hen. simpl. by rewrite app_nil_r.
Qed.

Lemma handle_local_emits ev e l r :
  remote ev = false -> ctx_ok (wctx l) ->
  handle_local_event channel tunnel_id sref ev e l = Ok r ->
  emits (wctx l) ev (r.1, if r.2 then Continue else Break).
Proof.
  intros Hrem Hok. unfold handle_local_event. assert (reply ev =
    if decide (flags (header ev) = FLAG_SHUTDOWN) then None
    else if decide (flags (header ev) = FLAG_ROUTINE) then None else Some ev) as Hrep.
  { unfold reply. by rewrite Hrem. }
  destruct (decide (FLAG_SHUTDOWN = flags (header ev))) as [Hsd|Hsd]; [intros E; injection E as <-; by apply emits_nothing; auto|].
  rewrite decide_False in Hrep by congruence.
  match goal with |- context [if decide (FLAG_SYN = _) then ?a else ?b] =>
    set (l1 := if decide (FLAG_SYN = _) then a else b) end.
  assert (wctx l1 = wctx l) as Hl1.
  { unfold l1. destruct (decide (FLAG_SYN = _)); [|done]. by destruct (hanle_pendding_mux_streams _ _ _ _ _). }
  pose proof (handle_fin_frames (Event.stream_id (header ev)) l1) as [Hf1 Hw1].
  match goal with |- context [if decide (FLAG_FIN = _) then ?a else ?b] =>
    set (x := if decide (FLAG_FIN = _) then a else b) end.
  assert (frames x.1.2 = [] /\ wctx x.1.1 = wctx l) as [Hf2 Hw2].
  { unfold x. destruct (decide (FLAG_FIN = _)); [by rewrite Hf1, Hw1|done]. }
  destruct x as [[l2 acts] done]; simpl in Hf2, Hw2. clear l1 Hl1 Hf1 Hw1.
  destruct done; [intros [= <-]; apply emits_nothing; auto|].
  destruct (decide (FLAG_ROUTINE = flags (header ev))) as [Hr|Hr].
  - rewrite decide_True in Hrep by done.
    pose proof (handle_routine_wctx e l2) as Hw3.
    destruct (handle_routine_event sref e l2) as [l3 stop]. intros [= <-]. simpl in *.
    apply emits_nothing; try done; [congruence|by right].
  - rewrite decide_False in Hrep by congruence.
    destruct (send_local_event ev e l2) as [[[l3 acts3] ok]|[]|] eqn:E; [|done].
    unmonad. intros [= <-]. simpl. eapply emits_sent; eauto.
Qed.

Lemma reply_remote ev :
  remote ev = true -> flags (header ev) <> FLAG_PING -> reply ev = None.
Proof. intros Hr Hp. unfold reply. by rewrite Hr, decide_False. Qed.

Lemma handle_event_emits ev e l r :
  ctx_ok (wctx l) -> handle_event ev e l = Ok r -> emits (wctx l) ev r.
Proof.
  intros Hok E. unfold EventLoop.handle_event in E.
  match type of E with context [if decide (FLAG_PING = _) then with_world l ?a else ?b] =>
    set (l1 := if decide (FLAG_PING = _) then with_world l a else b) in * end.
  assert (wctx l1 = wctx l) as Hl1 by (unfold l1; by destruct (decide (FLAG_PING = _))).
  clearbody l1. rewrite <- Hl1 in *.
  destruct (remote ev) eqn:Hrem; cbn [negb] in E.
  2: { destruct (handle_local_event _ _ _ ev e l1) as [[[l2 acts] go]|[]|] eqn:El; [|done].
       injection E as <-. by apply (handle_local_emits ev e l1 (l2, acts, go)). }
  destruct (decide (flags (header ev) = FLAG_PING)) as [Hp|Hp].
  { rewrite Hp in E. cbn in E.
    destruct (send_local_event _ e l1) as [[[l2 acts] go]|[]|] eqn:El; [|done].
    injection E as <-. eapply (emits_sent _ _ _ _ l1 []); [done..| |done].
    unfold reply. by rewrite Hrem, decide_True. }
  pose proof (reply_remote ev Hrem Hp) as Hrep.
  pose proof (handle_fin_frames (Event.stream_id (header ev)) l1) as [Hff Hfw].
  destruct r as [[l2 acts] nx].
  assert (wctx l2 = wctx l1 /\ frames acts = []); [|by destruct_and!; apply emits_nothing; auto].
  destruct (decide (flags (header ev) = FLAG_SYN)).
  { destruct (handle_syn _ _ _ _ _ _) as [[w acts'] o] eqn:Es.
    assert (frames acts' = []) as Ha.
    { unfold handle_syn in Es. destruct (deserialize _); simplify_eq/=; done. }
    destruct o; injection E as <- <- _; done. }
  destruct (decide (flags (header ev) = FLAG_FIN)).
  { destruct (handle_fin_event _ _ _) as [[l3 acts3] d]; simplify_eq/=. done. }
  destruct (decide (flags (header ev) = FLAG_DATA)).
  { destruct (streams l1 !! _) as [m|]; [|by simplify_eq].
    destruct (cells _ !! _) as [c|]; [|by simplify_eq].
    destruct (Stream.offer_data m c (body ev)) as [[[m' c'] effs]|[]|]; [|done].
    unmonad. simplify_eq/=. by rewrite frames_do. }
  destruct (decide (flags (header ev) = FLAG_PONG)); [by simplify_eq|].
  destruct (decide (flags (header ev) = FLAG_WIN_UPDATE)); [|by simplify_eq].
  destruct (streams l1 !! _) as [m|]; [|by simplify_eq].
  destruct (cells _ !! _) as [c|]; [|by simplify_eq].
  destruct (Stream.update_send_window c _) as [c' effs]. simplify_eq/=. by rewrite frames_do.
Qed.

(** The replies owed for a sequence of inputs. *)
Definition replies (inputs : list (option Event * Env)) : list Event :=
  omap (fun i => i.1 ≫= reply) inputs.

Lemma replies_cons o e inputs :
  replies ((o, e) :: inputs) = option_list (o ≫= reply) ++ replies inputs.
Proof. unfold replies. simpl. by destruct (o ≫= reply). Qed.

Lemma event_loop_frames inputs l l' acts over :
  ctx_ok (wctx l) -> event_loop inputs l = Ok (l', acts, over) ->
  exists evs ctx', evs `prefix_of` replies inputs /\
    encrypt_all (wctx l) evs [] = Ok (ctx', concat (frames acts)) /\
    (over = false -> evs = replies inputs /\ wctx l' = ctx').
Proof.
  revert l l' acts. induction inputs as [|[[ev|] e] inputs IH]; intros l l' acts Hok E; simpl in E.
  - destruct (is_closed _); injection E as <- <- <-; exists [], (wctx l); done.
  - destruct (is_closed _).
    { injection E as <- <- <-. exists [], (wctx l). split_and!; [apply prefix_nil|done|done]. }
    destruct (handle_event ev e _) as [[[l1 acts1] nx]|[]|] eqn:Eh; [|done]. unmonad.
    apply handle_event_emits in Eh as [Hok1 Hem]; [|done]. cbn [wctx with_world] in Hem.
    rewrite replies_cons. cbn [mbind option_bind].
    destruct nx; last first.
    { injection E as <- <- <-. destruct Hem as [Hen|[_ Hf]].
      - exists (option_list (reply ev)), (wctx l1). split_and!; [by apply prefix_app_r|done|done].
      - exists [], (wctx l). rewrite Hf. split_and!; [apply prefix_nil|done|done]. }
    destruct Hem as [Hen|[? _]]; [|done].
    destruct (event_loop inputs l1) as [[[l2 acts2] over2]|[]|] eqn:El; [|done].
    injection E as <- <- <-. apply IH in El as (evs & ctx' & Hp & Hen2 & Hover); [|done].
    exists (option_list (reply ev) ++ evs), ctx'. split_and!.
    + by apply prefix_app.
    + rewrite encrypt_all_app, Hen. unmonad.
      destruct (encrypt_all_out (wctx l1) evs Hok1) as (c2 & fs & _ & Hfs).
      rewrite Hfs in Hen2. injection Hen2 as -> ->. by rewrite Hfs, frames_app, concat_app.
    + intros H0. by destruct (Hover H0) as [-> ->].
  - destruct (is_closed _); injection E as <- <- <-; exists [], (wctx l);
      (split_and!; [apply prefix_nil|done|done]).
Qed.
End Frames.

(** ** The streams the task owns *)

(** Every stream of the table has its shared cell, whose id is its key. *)
Definition streams_ok (w : World) (s : gmap Z MuxStream) : Prop :=
  map_Forall (fun k m => exists c, cells w !! cell m = Some c /\ Stream.id c = k) s.

(** Every stream waiting on a session's pending list has its shared cell. *)
Definition pending_ok (w : World) : Prop :=
  forall ch cs ss m, channels (manager w) !! ch = Some cs -> Some ss ∈ sessions cs ->
    m ∈ pendding_streams ss -> is_Some (cells w !! cell m).

(** No cell goes away or changes its stream. *)
Definition cells_grow (w w' : World) : Prop :=
  forall n c, cells w !! n = Some c ->
    exists c', cells w' !! n = Some c' /\ Stream.id c' = Stream.id c.

#[export] Instance cells_grow_preorder : PreOrder cells_grow.
Proof.
  split; [by intros w n c Hc; eauto|]. intros w1 w2 w3 H12 H23 n c Hc.
  destruct (H12 n c Hc) as (c2 & Hc2 & E2). destruct (H23 n c2 Hc2) as (c3 & Hc3 & E3).
  exists c3. by rewrite E3.
Qed.

(** What the task relies on: the other tasks keep both. *)
Definition env_ok (e : Env) : Prop :=
  forall w, pending_ok w -> pending_ok (others e w) /\ cells_grow w (others e w).

Definition loop_inv (l : Loop) : Prop :=
  streams_ok (world l) (streams l) /\ pending_ok (world l).

Lemma streams_ok_grow w w' s : cells_grow w w' -> streams_ok w s -> streams_ok w' s.
Proof.
  intros Hg Hs k m Hm. destruct (Hs k m Hm) as (c & Hc & E).
  destruct (Hg _ _ Hc) as (c' & Hc' & E'). exists c'. by rewrite E'.
Qed.

Lemma pending_ok_grow w w' :
  manager w' = manager w -> cells_grow w w' -> pending_ok w -> pending_ok w'.
Proof.
  intros Hm Hg Hp ch cs ss m Hch Hss Hin. rewrite Hm in Hch.
  destruct (Hp ch cs ss m Hch Hss Hin) as [c Hc]. destruct (Hg _ _ Hc) as (c' & ? & _). eauto.
Qed.

Lemma loop_inv_world l w' s :
  manager w' = manager (world l) -> cells_grow (world l) w' -> loop_inv l ->
  s ⊆ streams l -> forall ctx, loop_inv {| world := w'; streams := s; wctx := ctx |}.
Proof.
  intros Hm Hg [Hs Hp] Hsub ctx. split; simpl; [|by eapply pending_ok_grow].
  intros k m Hk. by eapply streams_ok_grow, lookup_weaken.
Qed.

Lemma set_cell_grow w n c :
  (forall c0, cells w !! n = Some c0 -> Stream.id c = Stream.id c0) -> cells_grow w (set_cell w n c).
Proof.
  intros Hid k c0 Hc0. unfold set_cell; simpl. destruct (decide (k = n)) as [->|Hne].
  - exists c. rewrite lookup_insert_eq. eauto.
  - exists c0. by rewrite lookup_insert_ne.
Qed.

Lemma close_id m c : Stream.id (Stream.close m c).1 = Stream.id c.
Proof. unfold Stream.close. by destruct (waker (io_state c)). Qed.

Lemma offer_data_keeps m c data m' c' effs :
  Stream.offer_data m c data = Ok (m', c', effs) -> Stream.id c' = Stream.id c /\ cell m' = cell m.
Proof.
  unfold Stream.offer_data. destruct (check_data_tx m c) as [m1 c1] eqn:E.
  destruct data; [done|]. intros [= -> -> _]. unfold check_data_tx in E.
  by repeat case_match; simplify_eq/=.
Qed.

Lemma update_send_window_id c inc : Stream.id (Stream.update_send_window c inc).1 = Stream.id c.
Proof. unfold Stream.update_send_window. by repeat case_match. Qed.

Lemma close_stream_keeps w m :
  let w' := (close_stream w m).1 in
  manager w' = manager w /\ sstates w' = sstates w /\ cells_grow w w' /\
  (forall c, cells w !! cell m = Some c ->
     exists c', cells w' !! cell m = Some c' /\ closed (state c') = true).
Proof.
  unfold close_stream. destruct (cells w !! cell m) as [c|] eqn:Hc; [|done].
  pose proof (close_id m c) as Hid. destruct (Stream.close m c) as [c' effs] eqn:E; simpl in *.
  split_and!; [done|done|apply set_cell_grow; congruence|].
  intros _ _. exists c'. rewrite lookup_insert_eq. split; [done|].
  unfold Stream.close in E. by destruct (waker (io_state c)); simplify_eq/=.
Qed.

Lemma insert_all_lookup (f : MuxStream -> Z) ms (s : gmap Z MuxStream) k m :
  foldr (fun x t => <[f x := x]> t) s ms !! k = Some m ->
  s !! k = Some m \/ (m ∈ ms /\ k = f m).
Proof.
  induction ms as [|x ms IH]; simpl; [by left|]. destruct (decide (f x = k)) as [<-|Hne].
  - rewrite lookup_insert_eq. intros [= ->]. right. split; [by apply elem_of_cons; left|done].
  - rewrite lookup_insert_ne by done. intros [?|[? ->]]%IH; [by left|right].
    split; [by apply elem_of_cons; right|done].
Qed.

Lemma hand_over_spec f l sid s l' s' :
  hand_over f l sid s = (l', s') ->
  (forall ss', Some ss' ∈ l' -> exists ss, Some ss ∈ l /\
     forall m, m ∈ pendding_streams ss' -> m ∈ pendding_streams ss) /\
  (forall k m, s' !! k = Some m ->
     s !! k = Some m \/ exists ss, Some ss ∈ l /\ m ∈ pendding_streams ss /\ k = f m).
Proof.
  revert l' s'. induction l as [|[ss|] l IH]; intros l' s' E; simpl in E.
  - simplify_eq. split; [|by left]. intros ss' H. by apply elem_of_nil in H.
  - destruct (decide (s_id ss = sid)).
    + simplify_eq. split.
      * intros ss' [[= ->]|H]%elem_of_cons; [exists ss; split; [by constructor|]|].
        -- intros m Hm. by apply elem_of_nil in Hm.
        -- exists ss'. split; [by constructor|done].
      * intros k m [?|[? ->]]%insert_all_lookup; [by left|right].
        exists ss. split_and!; [by constructor|done|done].
    + destruct (hand_over f l sid s) as [l1 s1]. simplify_eq.
      destruct (IH _ _ eq_refl) as [H1 H2]. split.
      * intros ss' [[= ->]|H]%elem_of_cons; [exists ss; split; [by constructor|done]|].
        destruct (H1 ss' H) as (x & ? & ?). exists x. split; [by constructor|done].
      * intros k m Hk. destruct (H2 k m Hk) as [?|(x & ? & ?)]; [by left|right].
        exists x. split; [by constructor|done].
  - destruct (hand_over f l sid s) as [l1 s1]. simplify_eq.
    destruct (IH _ _ eq_refl) as [H1 H2]. split.
    + intros ss' [[=]|H]%elem_of_cons. destruct (H1 ss' H) as (x & ? & ?).
      exists x. split; [by constructor|done].
    + intros k m Hk. destruct (H2 k m Hk) as [?|(x & ? & ?)]; [by left|right].
      exists x. split; [by constructor|done].
Qed.

Lemma hand_over_inv channel tunnel_id l m' s' ctx :
  hanle_pendding_mux_streams (stream_of (world l)) channel tunnel_id (manager (world l)) (streams l)
    = (m', s') ->
  loop_inv l -> loop_inv {| world := set_manager (world l) m'; streams := s'; wctx := ctx |}.
Proof.
  unfold hanle_pendding_mux_streams. intros E [Hs Hp].
  destruct (channels (manager (world l)) !! channel) as [cs|] eqn:Hcs; [|by simplify_eq].
  destruct (hand_over _ _ _ _) as [l1 s1] eqn:Eh. simplify_eq.
  apply hand_over_spec in Eh as [H1 H2]. split; simpl.
  - intros k m Hk. destruct (H2 k m Hk) as [?|(ss & Hss & Hm & ->)]; [by apply Hs|].
    destruct (Hp channel cs ss m Hcs Hss Hm) as [c Hc]. exists c. unfold stream_of. by rewrite Hc.
  - intros ch cs' ss' m Hch Hss Hm. simpl in Hch. destruct (decide (ch = channel)) as [->|Hne].
    + rewrite lookup_insert_eq in Hch. simplify_eq. simpl in Hss.
      destruct (H1 ss' Hss) as (ss & Hss0 & Hsub). apply (Hp channel cs ss m Hcs Hss0). by apply Hsub.
    + rewrite lookup_insert_ne in Hch by done. by apply (Hp ch cs' ss' m).
Qed.

Section Invariant.
Context {C : Ciphers} `{Bincode ConnectRequest}.
Context (channel : string) (tunnel_id : Z) (sref : nat) (evtx : nat).
Abbreviation handle_event := (handle_event channel tunnel_id sref evtx).
Abbreviation event_loop := (event_loop channel tunnel_id sref evtx).
Abbreviation process_event := (process_event channel tunnel_id sref evtx).

Lemma loop_inv_sstate l n st : loop_inv l -> loop_inv (with_world l (set_sstate (world l) n st)).
Proof. intros [Hs Hp]. by split. Qed.

Lemma loop_inv_ctx l ctx :
  loop_inv l -> loop_inv {| world := world l; streams := streams l; wctx := ctx |}.
Proof. intros [Hs Hp]. by split. Qed.

Lemma handle_fin_inv sid l : loop_inv l -> loop_inv (handle_fin_event sref sid l).1.1.
Proof.
  intros Hl. unfold handle_fin_event. destruct (streams l !! sid) as [m|] eqn:Hm.
  - destruct (close_stream_keeps (world l) m) as (Hmg & _ & Hg & _).
    destruct (close_stream (world l) m) as [w acts]; simpl in *.
    pose proof (loop_inv_world l w (delete sid (streams l)) Hmg Hg Hl (delete_subseteq _ _) (wctx l)).
    destruct (_ && _); simpl; [by apply loop_inv_sstate|done].
  - destruct (_ && _); simpl; [by apply loop_inv_sstate|done].
Qed.

Lemma send_local_inv ev e l r :
  send_local_event ev e l = Ok r -> loop_inv l -> loop_inv r.1.1.
Proof.
  unfold send_local_event. destruct (encrypt _ _ _) as [[[c ?] ?]|[]|]; [|done].
  intros [= <-]. apply loop_inv_ctx.
Qed.

Lemma handle_local_inv ev e l r :
  handle_local_event channel tunnel_id sref ev e l = Ok r -> loop_inv l -> loop_inv r.1.1.
Proof.
  unfold handle_local_event. intros E Hl.
  destruct (decide (FLAG_SHUTDOWN = _)); [by injection E as <-|].
  match type of E with context [if decide (FLAG_SYN = _) then ?a else ?b] =>
    set (l1 := if decide (FLAG_SYN = _) then a else b) in * end.
  assert (loop_inv l1) as Hl1.
  { unfold l1. destruct (decide (FLAG_SYN = _)); [|done].
    destruct (hanle_pendding_mux_streams _ _ _ _ _) eqn:Eh. by eapply hand_over_inv. }
  match type of E with context [if decide (FLAG_FIN = _) then ?a else ?b] =>
    set (x := if decide (FLAG_FIN = _) then a else b) in * end.
  assert (loop_inv x.1.1) as Hx.
  { unfold x. destruct (decide (FLAG_FIN = _)); [by apply handle_fin_inv|done]. }
  destruct x as [[l2 acts] done]; simpl in Hx. destruct done; [by injection E as <-|].
  destruct (decide (FLAG_ROUTINE = _)).
  - unfold handle_routine_event in E. destruct (_ || _); injection E as <-; [by apply loop_inv_sstate|done].
  - destruct (send_local_event ev e l2) as [[[l3 acts3] ok]|[]|] eqn:Es; [|done].
    injection E as <-. by apply (send_local_inv _ _ _ _ Es).
Qed.

Lemma handle_syn_inv ev e l :
  loop_inv l ->
  let '(w, acts, o) := handle_syn channel tunnel_id evtx ev e (world l) in
  manager w = manager (world l) /\ cells_grow (world l) w /\
  (forall m, o = Some m -> is_Some (cells w !! cell m)).
Proof.
  intros Hl. unfold handle_syn. destruct (deserialize (body ev)) as [creq|]; [|done].
  simpl. split_and!; [done| |].
  - apply set_cell_grow. intros c0 Hc0. exfalso.
    apply (is_fresh (dom (cells (world l)))). by apply elem_of_dom; eexists.
  - intros m [= <-]. simpl. rewrite lookup_insert_eq. by eexists.
Qed.

Lemma loop_inv_insert l w k m ctx :
  manager w = manager (world l) -> cells_grow (world l) w -> loop_inv l ->
  (exists c, cells w !! cell m = Some c /\ Stream.id c = k) ->
  loop_inv {| world := w; streams := <[k := m]> (streams l); wctx := ctx |}.
Proof.
  intros Hm Hg Hl Hc. pose proof (loop_inv_world l w (streams l) Hm Hg Hl ltac:(done) ctx) as [Hs Hp].
  split; [|done]. by apply map_Forall_insert_2.
Qed.

(** One event keeps the invariant. *)
Lemma handle_event_inv ev e l r :
  handle_event ev e l = Ok r -> loop_inv l -> loop_inv r.1.1.
Proof.
  unfold EventLoop.handle_event. intros E Hl.
  match type of E with context [if decide (FLAG_PING = _) then with_world l ?a else ?b] =>
    set (l1 := if decide (FLAG_PING = _) then with_world l a else b) in * end.
  assert (loop_inv l1) as Hl1.
  { unfold l1. destruct (decide (FLAG_PING = _)); [|done]. unfold handle_ping_event.
    destruct (negb _); [by apply loop_inv_sstate|done]. }
  clearbody l1. clear Hl.
  destruct (negb (remote ev)).
  { destruct (handle_local_event _ _ _ ev e l1) as [[[l2 acts] go]|[]|] eqn:El; [|done].
    injection E as <-. by apply handle_local_inv in El. }
  destruct (decide (flags (header ev) = FLAG_SYN)).
  { pose proof (handle_syn_inv ev e l1 Hl1) as Hsyn.
    destruct (handle_syn _ _ _ _ _ _) as [[w acts'] o]. destruct Hsyn as (Hm & Hg & Ho).
    destruct o as [m|]; injection E as <-; [|by apply (loop_inv_world l1 w (streams l1))].
    destruct (Ho m eq_refl) as [c Hc]. cbn [fst].
    destruct (streams l1 !! _); [by apply (loop_inv_world l1)|].
    apply loop_inv_insert; try done. exists c. unfold stream_of. by rewrite Hc. }
  destruct (decide (flags (header ev) = FLAG_FIN)).
  { pose proof (handle_fin_inv (Event.stream_id (header ev)) l1 Hl1).
    destruct (handle_fin_event _ _ _) as [[l3 acts3] d]. by injection E as <-. }
  destruct (decide (flags (header ev) = FLAG_DATA)).
  { destruct (streams l1 !! _) as [m|] eqn:Hm; [|by injection E as <-].
    destruct (cells _ !! _) as [c|] eqn:Hc; [|by injection E as <-].
    destruct (Stream.offer_data m c (body ev)) as [[[m' c'] effs]|[]|] eqn:Eo; [|done].
    apply offer_data_keeps in Eo as [Hid Hcell]. injection E as <-. cbn [fst].
    apply loop_inv_insert; [done|apply set_cell_grow; congruence|done|].
    exists c'. rewrite Hcell. simpl. rewrite lookup_insert_eq. split; [done|].
    destruct Hl1 as [Hs _]. destruct (Hs _ _ Hm) as (c0 & Hc0 & <-). rewrite Hid. congruence. }
  destruct (decide (flags (header ev) = FLAG_PING)).
  { destruct (send_local_event _ e l1) as [[[l2 acts] go]|[]|] eqn:El; [|done].
    injection E as <-. by apply send_local_inv in El. }
  destruct (decide (flags (header ev) = FLAG_PONG)); [by injection E as <-; apply (loop_inv_sstate l1)|].
  destruct (decide (flags (header ev) = FLAG_WIN_UPDATE)); [|by injection E as <-].
  destruct (streams l1 !! _) as [m|]; [|by injection E as <-].
  destruct (cells _ !! _) as [c|] eqn:Hc; [|by injection E as <-].
  pose proof (update_send_window_id c (len (header ev))) as Hid.
  destruct (Stream.update_send_window c _) as [c' effs]. injection E as <-.
  apply (loop_inv_world l1); [done|apply set_cell_grow; simpl in Hid; congruence|done|done].
Qed.

Lemma env_inv e l : env_ok e -> loop_inv l -> loop_inv (with_world l (others e (world l))).
Proof.
  intros He [Hs Hp]. destruct (He _ Hp) as [Hp' Hg]. split; [|done]. by eapply streams_ok_grow.
Qed.

Lemma event_loop_inv inputs l l' acts over :
  Forall (fun i : option Event * Env => env_ok i.2) inputs -> loop_inv l -> event_loop inputs l = Ok (l', acts, over) ->
  loop_inv l'.
Proof.
  revert l acts. induction inputs as [|[[ev|] e] inputs IH]; intros l acts Hi Hl E; simpl in E.
  - by destruct (is_closed _); injection E as <- <- <-.
  - apply Forall_cons in Hi as [He Hi]. destruct (is_closed _); [by injection E as <- <- <-|].
    destruct (handle_event ev e _) as [[[l1 acts1] nx]|[]|] eqn:Eh; [|done]. unmonad.
    apply handle_event_inv in Eh; [|by apply env_inv]. simpl in Eh.
    destruct nx; [|by injection E as <- <- <-].
    destruct (event_loop inputs l1) as [[[l2 acts2] over2]|[]|] eqn:El; [|done].
    injection E as <- <- <-. by eapply IH.
  - apply Forall_cons in Hi as [He Hi].
    destruct (is_closed _); injection E as <- <- <-; [done|by apply env_inv].
Qed.

(** The epilogue closes the cell of every stream. *)
Lemma close_streams_spec ms w :
  let w' := (close_streams ms w).1 in
  manager w' = manager w /\ sstates w' = sstates w /\ cells_grow w w' /\
  (forall n c, cells w !! n = Some c -> closed (state c) = true ->
     exists c', cells w' !! n = Some c' /\ closed (state c') = true) /\
  (forall k m c, (k, m) ∈ ms -> cells w !! cell m = Some c ->
     exists c', cells w' !! cell m = Some c' /\ closed (state c') = true).
Proof.
  revert w. induction ms as [|[k0 m0] ms IH]; intros w; simpl.
  - split_and!; try done; [by eauto|]. intros k m c Hin. by apply elem_of_nil in Hin.
  - destruct (close_stream_keeps w m0) as (Hm & Hst & Hg & Hc).
    assert (forall n c, cells w !! n = Some c -> closed (state c) = true ->
      exists c', cells (close_stream w m0).1 !! n = Some c' /\ closed (state c') = true) as Hk.
    { intros n c Hn Hcl. destruct (decide (n = cell m0)) as [->|Hne]; [by eapply Hc|].
      exists c. split; [|done]. unfold close_stream. destruct (cells w !! cell m0); [|done].
      destruct (Stream.close _ _). simpl. by rewrite lookup_insert_ne. }
    destruct (close_stream w m0) as [w1 acts1]; simpl in *.
    destruct (IH w1) as (Hm2 & Hst2 & Hg2 & Hk2 & Hc2).
    destruct (close_streams ms w1) as [w2 acts2]; simpl in *.
    split_and!; [congruence|congruence|by etrans| |].
    + intros n c Hn Hcl. destruct (Hk n c Hn Hcl) as (c1 & ? & ?). by eapply Hk2.
    + intros k m c Hin Hcm. apply elem_of_cons in Hin as [[= -> ->]|Hin].
      * destruct (Hc c Hcm) as (c1 & ? & ?). by eapply Hk2.
      * destruct (Hg _ _ Hcm) as (c1 & Hc1 & _). by eapply Hc2.
Qed.

Lemma handle_local_total ev e l :
  ctx_ok (wctx l) -> exists r, handle_local_event channel tunnel_id sref ev e l = Ok r.
Proof.
  intros Hok. unfold handle_local_event.
  destruct (decide (FLAG_SHUTDOWN = _)); [by eexists|].
  match goal with |- context [if decide (FLAG_SYN = _) then ?a else ?b] =>
    set (l1 := if decide (FLAG_SYN = _) then a else b) end.
  assert (wctx l1 = wctx l) as Hl1.
  { unfold l1. destruct (decide (FLAG_SYN = _)); [|done].
    by destruct (hanle_pendding_mux_streams _ _ _ _ _). }
  pose proof (handle_fin_frames sref (Event.stream_id (header ev)) l1) as [_ Hw1].
  match goal with |- context [if decide (FLAG_FIN = _) then ?a else ?b] =>
    set (x := if decide (FLAG_FIN = _) then a else b) end.
  assert (wctx x.1.1 = wctx l) as Hx.
  { unfold x. destruct (decide (FLAG_FIN = _)); [by rewrite Hw1|done]. }
  destruct x as [[l2 acts] done]; simpl in Hx. destruct done; [by eexists|].
  destruct (decide (FLAG_ROUTINE = _)); [destruct (handle_routine_event sref e l2); by eexists|].
  destruct (send_local_event_spec ev e l2) as (c & f & _ & _ & ->); [by rewrite Hx|]. by eexists.
Qed.

(** A remote DATA event without a body, for a stream of the table. *)
Definition fatal (ev : Event) (l : Loop) : Prop :=
  remote ev = true /\ flags (header ev) = FLAG_DATA /\ body ev = [] /\
  is_Some (streams l !! Event.stream_id (header ev)).

Lemma handle_event_panic ev e l :
  loop_inv l -> ctx_ok (wctx l) -> (handle_event ev e l = Panic <-> fatal ev l).
Proof.
  intros Hl Hok. unfold EventLoop.handle_event, fatal.
  match goal with |- context [if decide (FLAG_PING = _) then with_world l ?a else ?b] =>
    set (l1 := if decide (FLAG_PING = _) then with_world l a else b) end.
  assert (streams l1 = streams l /\ wctx l1 = wctx l /\ loop_inv l1) as (Es & Ew & Hl1).
  { unfold l1, handle_ping_event. destruct (decide (FLAG_PING = _)); [|done].
    destruct (negb _); [|by destruct l]. split_and!; [done..|by apply loop_inv_sstate]. }
  rewrite <- Es. clearbody l1. clear Hl Es.
  destruct (remote ev); cbn [negb]; last first.
  { destruct (handle_local_total ev e l1) as [[[l2 acts] go] ->]; [by rewrite Ew|].
    split; [done|by intros [? _]]. }
  destruct (decide (flags (header ev) = FLAG_SYN)) as [->|].
  { destruct (handle_syn _ _ _ _ _ _) as [[w acts'] [m|]]; split; (done || by intros (_ & [=] & _)). }
  destruct (decide (flags (header ev) = FLAG_FIN)) as [->|].
  { destruct (handle_fin_event _ _ _) as [[l3 acts3] d]. split; (done || by intros (_ & [=] & _)). }
  destruct (decide (flags (header ev) = FLAG_DATA)) as [->|Hd].
  { destruct (streams l1 !! _) as [m|] eqn:Hm.
    2: { split; [done|]. by intros (_ & _ & _ & [? ?]). }
    destruct Hl1 as [Hs _]. destruct (Hs _ _ Hm) as (c & Hc & _). rewrite Hc.
    unfold Stream.offer_data. destruct (check_data_tx m c) as [m' c'].
    destruct (body ev); unmonad; [by split; eauto|]. split; [done|]. by intros (_ & _ & [=] & _). }
  destruct (decide (flags (header ev) = FLAG_PING)).
  { destruct (send_local_event_spec (new_pong_event (Event.stream_id (header ev)) false) e l1)
      as (c & f & _ & _ & ->); [by rewrite Ew|]. unmonad. split; [done|]. by intros (_ & ? & _). }
  enough (forall r, r <> Panic -> r = @Panic False (Loop * list action * next) <->
            true = true /\ flags (header ev) = FLAG_DATA /\ body ev = [] /\
            is_Some (streams l1 !! Event.stream_id (header ev))) as Hr.
  { apply Hr. destruct (decide (flags (header ev) = FLAG_PONG)); [done|].
    destruct (decide (flags (header ev) = FLAG_WIN_UPDATE)); [|done].
    destruct (streams l1 !! _); [|done]. destruct (cells _ !! _); [|done].
    by destruct (Stream.update_send_window _ _). }
  intros r Hr. split; [done|]. by intros (_ & ? & _).
Qed.

(** No remote DATA event of the inputs is empty. *)
Definition harmless (ev : Event) : Prop :=
  ~ (remote ev = true /\ flags (header ev) = FLAG_DATA /\ body ev = []).

Lemma event_loop_total inputs l :
  Forall (fun i : option Event * Env => env_ok i.2 /\ from_option harmless True i.1) inputs ->
  loop_inv l -> ctx_ok (wctx l) ->
  exists l' acts over, event_loop inputs l = Ok (l', acts, over) /\ loop_inv l' /\
    (over = true \/ ctx_ok (wctx l')).
Proof.
  revert l. induction inputs as [|[[ev|] e] inputs IH]; intros l Hi Hl Hok; simpl.
  - destruct (is_closed _); do 3 eexists; (split; [done|]); eauto.
  - apply Forall_cons in Hi as [[He Hh] Hi]. destruct (is_closed _); [do 3 eexists; (split; [done|]); eauto|].
    pose proof (env_inv e l He Hl) as Hl0. set (l0 := with_world l _) in *.
    destruct (handle_event ev e l0) as [[[l1 acts1] nx]|[]|] eqn:Eh.
    2: { apply handle_event_panic in Eh as (? & ? & ? & _); [|done..]. by destruct Hh. }
    pose proof (handle_event_inv _ _ _ _ Eh Hl0) as Hl1.
    pose proof (handle_event_emits _ _ _ _ ev e l0 _ Hok Eh) as [Hok1 _]. unmonad.
    destruct nx; [|do 3 eexists; (split; [done|]); eauto].
    destruct (IH l1 Hi Hl1 Hok1) as (l' & acts & over & -> & ?). unmonad.
    do 3 eexists; (split; [done|]); eauto.
  - apply Forall_cons in Hi as [[He _] Hi].
    destruct (is_closed _); do 3 eexists; (split; [done|]); split; eauto using env_inv.
Qed.

(** The loop over a prefix of the inputs, then over the rest. *)
Lemma event_loop_app xs ys l l' acts over :
  event_loop xs l = Ok (l', acts, over) ->
  event_loop (xs ++ ys) l =
    if over then Ok (l', acts, true)
    else '(l'', acts', over') ← event_loop ys l'; Ok (l'', acts ++ acts', over').
Proof.
  revert l acts. induction xs as [|[[ev|] e] xs IH]; intros l acts E; simpl in *.
  - destruct (is_closed (sstate (world l) sref)) eqn:Hc; injection E as <- <- <-.
    + destruct ys as [|[[]]]; simpl; by rewrite Hc.
    + destruct (event_loop ys l) as [[[? ?] ?]|[]|]; done.
  - destruct (is_closed _); [by injection E as <- <- <-|].
    destruct (handle_event ev e _) as [[[l1 acts1] nx]|[]|]; [|done]. unmonad.
    destruct nx; [|by injection E as <- <- <-].
    destruct (event_loop xs l1) as [[[l2 acts2] over2]|[]|] eqn:El; [|done].
    injection E as <- <- <-. rewrite (IH _ _ El). destruct over2; [done|]. unmonad.
    destruct (event_loop ys l2) as [[[? ?] ?]|[]|]; [|done..]. by rewrite app_assoc.
  - destruct (is_closed _); by injection E as <- <- <-.
Qed.
End Invariant.

(** ** Stop conditions *)

(** Whether the session has no more use: retired, and [s] is empty. *)
Definition drained (st : MuxSessionState) (s : gmap Z MuxStream) : bool :=
  is_retired st && bool_decide (s = ∅).

(** When the loop ends at an event. *)
Definition stops (sref : nat) (ev : Event) (e : Env) (l : Loop) : bool :=
  let f := flags (header ev) in
  let st := sstate (world l) sref in
  let rest := delete (Event.stream_id (header ev)) (streams l) in
  if remote ev then
    if decide (f = FLAG_FIN) then drained st rest
    else if decide (f = FLAG_PING) then negb (send_ok e) else false
  else if decide (f = FLAG_SHUTDOWN) then true
  else if decide (f = FLAG_FIN) then drained st rest || negb (send_ok e)
  else if decide (f = FLAG_ROUTINE) then
    drained st (streams l) || bool_decide (300 <= get_io_idle_secs st (wrap 32 (now e)))
  else negb (send_ok e).

Lemma handle_fin_spec sref sid l :
  let '(l', acts, stop) := handle_fin_event sref sid l in
  streams l' = delete sid (streams l) /\
  stop = drained (sstate (world l) sref) (delete sid (streams l)) /\
  sstate (world l') sref =
    (if stop then set_closed (sstate (world l) sref) else sstate (world l) sref) /\
  acts = match streams l !! sid with Some m => (close_stream (world l) m).2 | None => [] end.
Proof.
  unfold handle_fin_event, drained. destruct (streams l !! sid) as [m|] eqn:Hm.
  - destruct (close_stream_keeps (world l) m) as (_ & Hst & _ & _).
    destruct (close_stream (world l) m) as [w acts]; simpl in *. unfold sstate in *. rewrite Hst.
    destruct (_ && _) eqn:Ed; simpl; rewrite ?Ed; split_and!;
      first [done|by rewrite Hst|by rewrite lookup_insert_eq].
  - rewrite delete_id by done. unfold sstate. destruct (_ && _) eqn:Ed; simpl; rewrite ?Ed; split_and!;
      first [done|by rewrite lookup_insert_eq].
Qed.

Lemma send_local_ok `{C : Ciphers} ev e l l' acts ok :
  send_local_event ev e l = Ok (l', acts, ok) ->
  ok = send_ok e /\ world l' = world l /\ streams l' = streams l /\
  exists f, acts = if send_ok e then [SendFrame f] else [].
Proof.
  unfold send_local_event. destruct (encrypt _ _ _) as [[[c ?] f]|[]|]; [|done].
  intros [= <- <- <-]. eauto.
Qed.

Section Stops.
Context {C : Ciphers} `{Bincode ConnectRequest}.
Context (channel : string) (tunnel_id : Z) (sref : nat) (evtx : nat).
Abbreviation handle_event := (handle_event channel tunnel_id sref evtx).

Lemma handle_local_stops ev e l l' acts go :
  remote ev = false -> handle_local_event channel tunnel_id sref ev e l = Ok (l', acts, go) ->
  go = negb (stops sref ev e l).
Proof.
  unfold handle_local_event, stops. intros -> E.
  destruct (decide (flags (header ev) = FLAG_SHUTDOWN)) as [Hs|Hs];
    [decide_eqs; by injection E as <- <- <-|].
  destruct (decide (flags (header ev) = FLAG_FIN)) as [Hf|Hf].
  - decide_eqs. pose proof (handle_fin_spec sref (Event.stream_id (header ev)) l) as Hfin.
    destruct (handle_fin_event sref _ l) as [[l1 acts1] stop]. destruct Hfin as (_ & -> & _).
    destruct (drained _ _); [by injection E as <- <- <-|]. decide_eqs.
    destruct (send_local_event ev e l1) as [[[l2 acts2] ok]|[]|] eqn:Es; [|done].
    injection E as <- <- <-. apply send_local_ok in Es as [-> _]. by destruct (send_ok e).
  - destruct (decide (flags (header ev) = FLAG_ROUTINE)) as [Hr|Hr].
    + decide_eqs. unfold handle_routine_event, log_session_state in E.
      unfold drained. by destruct (_ || _); injection E as <- <- <-.
    + decide_eqs.
      destruct (send_local_event ev e _) as [[[l2 acts2] ok]|[]|] eqn:Es; [|done].
      injection E as <- <- <-. apply send_local_ok in Es as [-> _]. by destruct (send_ok e).
Qed.

Lemma stops_ping ev e l t :
  stops sref ev e (with_world l (set_sstate (world l) sref (set_ping (sstate (world l) sref) t)))
  = stops sref ev e l.
Proof. unfold stops, sstate. cbn. by rewrite lookup_insert_eq. Qed.

Lemma handle_event_stops ev e l l' acts nx :
  handle_event ev e l = Ok (l', acts, nx) -> nx = if stops sref ev e l then Break else Continue.
Proof.
  unfold EventLoop.handle_event. intros E.
  match type of E with context [if decide (FLAG_PING = _) then with_world l ?a else ?b] =>
    set (l1 := if decide (FLAG_PING = _) then with_world l a else b) in * end.
  assert (stops sref ev e l1 = stops sref ev e l) as <-.
  { unfold l1, handle_ping_event. destruct (decide (FLAG_PING = _)); [|done].
    destruct (negb _); [apply stops_ping|by destruct l]. }
  clearbody l1. destruct (remote ev) eqn:Hrem; cbn [negb] in E.
  2: { destruct (handle_local_event _ _ _ ev e l1) as [[[l2 acts2] go]|[]|] eqn:El; [|done].
       injection E as <- <- <-. apply handle_local_stops in El as ->; [|done]. by destruct (stops _ _ _ _). }
  unfold stops. rewrite Hrem.
  destruct (decide (flags (header ev) = FLAG_SYN)).
  { decide_eqs. destruct (handle_syn _ _ _ _ _ _) as [[w acts'] [m|]]; by injection E as <- <- <-. }
  destruct (decide (flags (header ev) = FLAG_FIN)).
  { decide_eqs. pose proof (handle_fin_spec sref (Event.stream_id (header ev)) l1) as Hfin.
    destruct (handle_fin_event _ _ _) as [[l3 acts3] d]. destruct Hfin as (_ & -> & _).
    by injection E as <- <- <-. }
  destruct (decide (flags (header ev) = FLAG_DATA)).
  { decide_eqs. destruct (streams l1 !! _) as [m|]; [|by injection E as <- <- <-].
    destruct (cells _ !! _) as [c|]; [|by injection E as <- <- <-].
    destruct (Stream.offer_data _ _ _) as [[[? ?] ?]|[]|]; [|done]. by injection E as <- <- <-. }
  destruct (decide (flags (header ev) = FLAG_PING)).
  { decide_eqs. destruct (send_local_event _ e l1) as [[[l2 acts2] ok]|[]|] eqn:Es; [|done].
    injection E as <- <- <-. apply send_local_ok in Es as [-> _]. by destruct (send_ok e). }
  destruct (decide (flags (header ev) = FLAG_PONG)); [by injection E as <- <- <-|].
  destruct (decide (flags (header ev) = FLAG_WIN_UPDATE)); [|by injection E as <- <- <-].
  destruct (streams l1 !! _) as [m|]; [|by injection E as <- <- <-].
  destruct (cells _ !! _) as [c|]; [|by injection E as <- <- <-].
  destruct (Stream.update_send_window _ _); by injection E as <- <- <-.
Qed.
End Stops.

(** ** The frames of the whole task *)

Section Task.
Context {C : Ciphers} `{Bincode ConnectRequest}.

Lemma close_streams_frames ms w : frames (close_streams ms w).2 = [].
Proof.
  revert w. induction ms as [|[k m] ms IH]; intros w; simpl; [done|].
  pose proof (close_stream_frames w m) as Hm. destruct (close_stream w m) as [w1 a1].
  specialize (IH w1). destruct (close_streams ms w1). simpl in *. by rewrite frames_app, Hm, IH.
Qed.

Lemma process_event_frames channel tunnel_id sref evtx inputs w ctx l acts over :
  ctx_ok ctx -> process_event channel tunnel_id sref evtx inputs w ctx = Ok (l, acts, over) ->
  exists evs ctx', evs `prefix_of` replies inputs /\ (over = false -> evs = replies inputs) /\
    encrypt_all ctx evs [] = Ok (ctx', concat (frames acts)).
Proof.
  intros Hok E. unfold process_event in E.
  destruct (event_loop _ _ _ _ _ _) as [[[l1 acts1] ov]|[]|] eqn:El; [|done]. unmonad.
  apply event_loop_frames in El as (evs & ctx' & Hp & Hen & Hov); [|done]. cbn [wctx] in Hen.
  exists evs, ctx'. split; [done|]. destruct ov.
  - pose proof (close_streams_frames (map_to_list (streams l1))
      (set_sstate (world l1) sref (set_closed (sstate (world l1) sref)))) as Hc.
    destruct (close_streams _ _) as [w2 acts2]. injection E as <- <- <-. simpl in Hc.
    split; [done|]. by rewrite !frames_app, Hc, concat_app, app_nil_r.
  - injection E as <- <- <-. split; [|done]. intros ?. by apply Hov.
Qed.
End Task.

(** ** A session for the witnesses: one stream, one quiet environment. *)
Module LoopDemo.
Definition env (t : Z) : Env := {| now := t; send_ok := true; others := fun w => w |}.
Definition one : MuxStream * Cell :=
  Stream.new "rmux" 4 7 9 {| proto := "tcp"; addr := "a:1" |} 0 0.
Definition start : World :=
  {| manager := manager_new; sstates := {[9%nat := Session.Demo.fresh_state]};
     cells := {[0%nat := one.2]} |}.
Definition loop : Loop := {| world := start; streams := {[7 := one.1]}; wctx := Toy.ctx |}.
Lemma loop_ok : loop_inv loop.
Proof.
  split.
  - apply map_Forall_singleton. exists one.2. split; reflexivity.
  - intros ch cs ss m Hch. discriminate Hch.
Qed.
Lemma env_quiet t : env_ok (env t).
Proof. intros w Hw. by split. Qed.
End LoopDemo.

(** ** Properties *)

(** What the task puts on the wire is what the peer is owed.  Whatever
    the events, the frames handed to the sender task are the encryptions, in
    order and under consecutive states of the write context, of a prefix of
    the replies the inputs call for (local events except SHUTDOWN and
    ROUTINE, and a PONG for each remote PING), of all of them while the task
    runs; a peer whose context mirrors the write context reads exactly these
    events, whatever the chunking. *)
Theorem process_event_wire {C : Ciphers} {A : BytesAlloc} `{!CipherLaws C} `{!BytesAllocLaws A}
    `{Bincode ConnectRequest} channel tunnel_id sref evtx inputs w ctx r l acts over :
  ctx_ok ctx -> sync ctx r -> Forall event_wf (replies inputs) ->
  process_event channel tunnel_id sref evtx inputs w ctx = Ok (l, acts, over) ->
  exists evs, evs `prefix_of` replies inputs /\ (over = false -> evs = replies inputs) /\
  forall s rest, healthy s -> stream s = concat (frames acts) ++ rest ->
  exists r' s' buf, read_events (length evs) r s [] = Some (received <$> evs, r', s', buf) /\
    buf ++ stream s' = rest.
Proof.
  intros Hok Hsync Hwf E.
  apply process_event_frames in E as (evs & ctx' & Hp & Hov & Hen); [|done].
  exists evs. split_and!; [done|done|]. intros s rest Hh Hs.
  assert (Forall event_wf evs) as Hevs.
  { destruct Hp as [k Hk]. rewrite Hk in Hwf. by apply Forall_app in Hwf as [? _]. }
  destruct (sequence_codec evs ctx r [] Hok Hevs Hsync) as (w' & fs & Hall & _ & Hread).
  rewrite Hall in Hen. injection Hen as _ Hen. simpl in Hen.
  destruct (Hread rest s [] Hh) as (r' & s' & buf & ? & ? & ? & _); [by rewrite Hen|].
  by exists r', s', buf.
Qed.

Lemma process_event_wire_witness :
  exists l acts,
    @process_event Toy.toy Session.Demo.req_bincode "rmux" 4 9 9
      [(Some Toy.hello, LoopDemo.env 1); (Some (new_ping_event 0 true), LoopDemo.env 2)]
      LoopDemo.start Toy.ctx = Ok (l, acts, false) /\
    exists evs, evs = [Toy.hello; new_pong_event 0 false] /\
    forall s rest, healthy s -> stream s = concat (frames acts) ++ rest ->
    exists r' s' buf,
      read_events (C := Toy.toy) (A := Io.Concrete.exact_alloc) (length evs) Toy.ctx s []
        = Some (received <$> evs, r', s', buf) /\ buf ++ stream s' = rest.
Proof.
  set (inputs := [(Some Toy.hello, LoopDemo.env 1); (Some (new_ping_event 0 true), LoopDemo.env 2)]).
  destruct (@process_event Toy.toy Session.Demo.req_bincode "rmux" 4 9 9 inputs
              LoopDemo.start Toy.ctx) as [[[l acts] over]|[]|] eqn:E.
  2: { vm_compute in E. discriminate. }
  assert (over = false) as Hov by (vm_compute in E; injection E as _ _ <-; reflexivity).
  rewrite Hov in E |- *. exists l, acts. split; [reflexivity|].
  destruct (process_event_wire (C := Toy.toy) (A := Io.Concrete.exact_alloc)
              (H := Session.Demo.req_bincode) "rmux" 4 9 9 inputs LoopDemo.start Toy.ctx Toy.ctx
              l acts false) as (evs & _ & Hall & Hread).
  - apply Toy.ctx_sync.
  - apply Toy.ctx_sync.
  - apply (bool_decide_eq_true_1 _). vm_compute. reflexivity.
  - exact E.
  - exists evs. split; [exact (Hall eq_refl)|exact Hread].
Defined.

(** C18: a session that ends cleans up.  When [process_event] returns, the
    session is marked closed, every stream it knew is marked closed under its
    own id in its shared cell, and its last actions close the event channel
    and tell the sender task to stop; provided the other tasks never drop a
    stream's shared state. *)
Theorem process_event_closes {C : Ciphers} `{Bincode ConnectRequest}
    channel tunnel_id sref evtx inputs w ctx l acts :
  Forall (fun i : option Event * Env => env_ok i.2) inputs -> pending_ok w ->
  process_event channel tunnel_id sref evtx inputs w ctx = Ok (l, acts, true) ->
  s_closed (sstate (world l) sref) = true /\
  (forall k m, streams l !! k = Some m ->
     exists c, cells (world l) !! cell m = Some c /\ Stream.id c = k /\ closed (state c) = true) /\
  exists acts', acts = acts' ++ [CloseEvents; SendFrame []].
Proof.
  intros Henv Hp E. unfold process_event in E.
  destruct (event_loop _ _ _ _ _ _) as [[[l1 acts1] ov]|[]|] eqn:El; [|done]. unmonad.
  apply event_loop_inv in El as [Hs _]; [|done|split; [apply map_Forall_empty|done]].
  destruct ov; [|done].
  set (w1 := set_sstate (world l1) sref _) in E.
  destruct (close_streams_spec (map_to_list (streams l1)) w1) as (_ & Hst & Hg & _ & Hc).
  destruct (close_streams _ w1) as [w2 acts2]; simpl in *. injection E as <- <-.
  cbn [world streams with_world]. split_and!.
  - unfold sstate. rewrite Hst. unfold w1. simpl. by rewrite lookup_insert_eq.
  - intros k m Hm. destruct (Hs k m Hm) as (c & Hcell & Hid).
    destruct (Hc k m c) as (c' & Hc' & Hcl); [by apply elem_of_map_to_list|done|].
    destruct (Hg _ c Hcell) as (c2 & Hc2 & Hid2). exists c'. rewrite Hc' in Hc2. simplify_eq. done.
  - exists (acts1 ++ acts2). by rewrite <- app_assoc.
Qed.

Lemma process_event_closes_witness :
  exists l acts,
    @process_event Toy.toy Session.Demo.req_bincode "rmux" 4 9 9
      [(Some (received Toy.hello), LoopDemo.env 1); (Some (new_shutdown_event 0 false), LoopDemo.env 2)]
      LoopDemo.start Toy.ctx = Ok (l, acts, true) /\ s_closed (sstate (world l) 9) = true /\
    exists acts', acts = acts' ++ [CloseEvents; SendFrame []].
Proof.
  set (inputs := [(Some (received Toy.hello), LoopDemo.env 1);
                  (Some (new_shutdown_event 0 false), LoopDemo.env 2)]).
  destruct (@process_event Toy.toy Session.Demo.req_bincode "rmux" 4 9 9 inputs
              LoopDemo.start Toy.ctx) as [[[l acts] over]|[]|] eqn:E.
  2: { vm_compute in E. discriminate. }
  assert (over = true) as Hov by (vm_compute in E; injection E as _ _ <-; reflexivity).
  rewrite Hov in E |- *. exists l, acts. split; [reflexivity|].
  destruct (process_event_closes (C := Toy.toy) (H := Session.Demo.req_bincode) "rmux" 4 9 9
              inputs LoopDemo.start Toy.ctx l acts) as (H1 & _ & H3).
  - repeat apply Forall_cons_2; [apply (LoopDemo.env_quiet 1)|apply (LoopDemo.env_quiet 2)|apply Forall_nil_2].
  - apply LoopDemo.loop_ok.
  - exact E.
  - split; [exact H1|exact H3].
Defined.

(** C19: a SHUTDOWN request ends the session's task.  Whatever came before, as
    long as the peer sent no empty DATA event, [process_event] does not panic
    and returns at the latest when it handles a local SHUTDOWN event. *)
Theorem shutdown_ends_session {C : Ciphers} `{Bincode ConnectRequest}
    channel tunnel_id sref evtx inputs e more w ctx :
  Forall (fun i : option Event * Env => env_ok i.2 /\ from_option harmless True i.1) inputs ->
  pending_ok w -> ctx_ok ctx ->
  exists l acts, process_event channel tunnel_id sref evtx
    (inputs ++ (Some (new_shutdown_event 0 false), e) :: more) w ctx = Ok (l, acts, true).
Proof.
  intros Hi Hp Hok. unfold process_event.
  destruct (event_loop_total channel tunnel_id sref evtx inputs
              {| world := w; streams := ∅; wctx := ctx |}) as (l1 & acts1 & ov & El & _); [done| |done|].
  { by split; [apply map_Forall_empty|]. }
  rewrite (event_loop_app _ _ _ _ _ _ _ _ _ _ El). destruct ov.
  - unmonad. destruct (close_streams _ _). by do 2 eexists.
  - simpl. destruct (is_closed _).
    + unmonad. destruct (close_streams _ _). by do 2 eexists.
    + unfold handle_event, handle_local_event. simpl. unmonad.
      destruct (close_streams _ _). by do 2 eexists.
Qed.

Lemma shutdown_ends_session_witness :
  exists l acts, @process_event Toy.toy Session.Demo.req_bincode "rmux" 4 9 9
    ([(Some (received Toy.hello), LoopDemo.env 1)] ++
     [(Some (new_shutdown_event 0 false), LoopDemo.env 2)]) LoopDemo.start Toy.ctx
    = Ok (l, acts, true).
Proof.
  apply (shutdown_ends_session (C := Toy.toy) (H := Session.Demo.req_bincode) "rmux" 4 9 9
           [(Some (received Toy.hello), LoopDemo.env 1)] (LoopDemo.env 2) []).
  - apply Forall_cons_2; [|apply Forall_nil_2].
    split; [apply (LoopDemo.env_quiet 1)|]. intros (_ & _ & Hb). discriminate Hb.
  - apply LoopDemo.loop_ok.
  - apply Toy.ctx_sync.
Defined.

(** The one event that crashes the session.  [handle_event] panics exactly
    on a remote DATA event with an empty body for a stream it knows
    ([offer_data] asserts that the data is not empty): a peer can end the
    session with an eight byte frame. *)
Theorem empty_data_panics {C : Ciphers} `{Bincode ConnectRequest}
    channel tunnel_id sref evtx ev e l :
  loop_inv l -> ctx_ok (wctx l) ->
  (handle_event channel tunnel_id sref evtx ev e l = Panic <->
   remote ev = true /\ flags (header ev) = FLAG_DATA /\ body ev = [] /\
   is_Some (streams l !! Event.stream_id (header ev))).
Proof. exact (handle_event_panic channel tunnel_id sref evtx ev e l). Qed.

Lemma empty_data_panics_witness :
  (@handle_event Toy.toy Session.Demo.req_bincode "rmux" 4 9 9 (new_data_event 7 [] true)
     (LoopDemo.env 1) LoopDemo.loop = Panic <->
   true = true /\ flags (header (new_data_event 7 [] true)) = FLAG_DATA /\
   body (new_data_event 7 [] true) = [] /\ is_Some (streams LoopDemo.loop !! 7)).
Proof.
  apply (empty_data_panics (C := Toy.toy) (H := Session.Demo.req_bincode) "rmux" 4 9 9
           (new_data_event 7 [] true) (LoopDemo.env 1) LoopDemo.loop).
  - apply LoopDemo.loop_ok.
  - apply Toy.ctx_sync.
Defined.

(** The events after which the task stops, and no others: a local
    SHUTDOWN; a FIN that leaves a retired session without streams; a ROUTINE
    on a retired session without streams or after 300 idle seconds; and a
    frame the sender task does not take. *)
Theorem event_stops_session {C : Ciphers} `{Bincode ConnectRequest}
    channel tunnel_id sref evtx ev e l :
  loop_inv l -> ctx_ok (wctx l) -> harmless ev ->
  exists l' acts, handle_event channel tunnel_id sref evtx ev e l
    = Ok (l', acts, if stops sref ev e l then Break else Continue).
Proof.
  intros Hl Hok Hh. destruct (handle_event _ _ _ _ ev e l) as [[[l' acts] nx]|[]|] eqn:E.
  - exists l', acts. by rewrite (handle_event_stops _ _ _ _ _ _ _ _ _ _ E).
  - apply handle_event_panic in E as (? & ? & ? & _); [|done..]. by destruct Hh.
Qed.

Lemma event_stops_session_witness :
  exists l' acts, @handle_event Toy.toy Session.Demo.req_bincode "rmux" 4 9 9
    (new_fin_event 7 true) (LoopDemo.env 1) LoopDemo.loop = Ok (l', acts, Continue).
Proof.
  apply (event_stops_session (C := Toy.toy) (H := Session.Demo.req_bincode) "rmux" 4 9 9
           (new_fin_event 7 true) (LoopDemo.env 1) LoopDemo.loop).
  - apply LoopDemo.loop_ok.
  - apply Toy.ctx_sync.
  - intros (_ & Hf & _). discriminate Hf.
Defined.

Section Exchanges.
Context {C : Ciphers} `{Bincode ConnectRequest}.


(** A SYN event that opens a stream. *)
Lemma syn_opens channel tunnel_id sref evtx ev e l creq :
  remote ev = true -> flags (header ev) = FLAG_SYN -> deserialize (body ev) = Some creq ->
  let sid := Event.stream_id (header ev) in
  exists m c w',
    handle_event channel tunnel_id sref evtx ev e l
      = Ok ({| world := w';
               streams := match streams l !! sid with
                          | Some _ => streams l | None => <[sid := m]> (streams l) end;
               wctx := wctx l |}, [Spawn m], Continue) /\
    cells (world l) !! cell m = None /\ cells w' = <[cell m := c]> (cells (world l)) /\
    manager w' = manager (world l) /\ sstates w' = sstates (world l) /\
    m = {| target := creq; event_tx := evtx; data_tx := None; cell := cell m |} /\
    state c = {| channel := channel; session_id := tunnel_id; stream_id := sid;
                 send_buf_window := 131072; recv_buf_size := 0; closed := false;
                 total_recv_bytes := 0; total_send_bytes := 0; born_time := now e |}.
Proof.
  intros Hrem Hf Hd sid. unfold handle_event. decide_eqs. rewrite Hrem. simpl.
  unfold handle_syn. rewrite Hd. simpl.
  set (c0 := fresh (dom (cells (world l)))). fold sid.
  eexists {| target := creq; event_tx := evtx; data_tx := None; cell := c0 |}, _, _.
  split.
  { unfold stream_of. simpl. rewrite lookup_insert_eq. simpl. unfold Stream.id. simpl. reflexivity. }
  cbn [cell]. split_and!; try done. apply not_elem_of_dom. apply is_fresh.
Qed.
End Exchanges.



(** A SYN opens the stream the peer asked for.  The SYN event a peer
    built for a connect request, as it comes off the wire, makes the session
    spawn one relay for a new stream with that target and a full window of
    128 KiB, on a fresh cell, under the peer's stream id; a stream that has the
    id already is kept. *)
Theorem syn_opens_stream {C : Ciphers} `{BincodeLaws ConnectRequest}
    channel tunnel_id sref evtx sid creq ev e l :
  new_syn_event sid creq = Ok ev ->
  exists m c w',
    handle_event channel tunnel_id sref evtx (received ev) e l
      = Ok ({| world := w';
               streams := match streams l !! sid with
                          | Some _ => streams l | None => <[sid := m]> (streams l) end;
               wctx := wctx l |}, [Spawn m], Continue) /\
    cells (world l) !! cell m = None /\ cells w' = <[cell m := c]> (cells (world l)) /\
    target m = creq /\ event_tx m = evtx /\
    closed (state c) = false /\ send_buf_window (state c) = 128 * 1024 /\ Stream.id c = sid.
Proof.
  unfold new_syn_event. destruct (serialize creq) as [d|] eqn:Hd; [|done]. intros [= <-].
  apply deserialize_serialize in Hd.
  destruct (syn_opens channel tunnel_id sref evtx
              (received (with_flag (new_data_event sid d false) FLAG_SYN)) e l creq)
    as (m & c & w' & E & Hfresh & Hcells & _ & _ & Hm & Hc); [done| |done|].
  { rewrite with_flag_data by done. simpl. by apply flags_get. }
  exists m, c, w'. simpl in E. rewrite E. unfold Stream.id. rewrite Hc, Hm. by split_and!.
Qed.

Lemma syn_opens_stream_witness :
  exists ev m c w',
    @new_syn_event _ Session.Demo.req_bincode 12 {| proto := "tcp"; addr := "b:2" |} = Ok ev /\
    @handle_event Toy.toy Session.Demo.req_bincode "rmux" 4 9 9 (received ev) (LoopDemo.env 1)
      LoopDemo.loop
      = Ok ({| world := w'; streams := <[12 := m]> (streams LoopDemo.loop); wctx := Toy.ctx |},
            [Spawn m], Continue) /\
    target m = {| proto := "tcp"; addr := "b:2" |} /\ send_buf_window (state c) = 128 * 1024.
Proof.
  set (creq := {| proto := "tcp"; addr := "b:2" |}).
  destruct (@new_syn_event _ Session.Demo.req_bincode 12 creq) as [ev|[]|] eqn:E; [|discriminate E].
  destruct (@syn_opens_stream Toy.toy Session.Demo.req_bincode Session.Demo.req_bincode_laws
              "rmux" 4 9 9 12 creq ev (LoopDemo.env 1) LoopDemo.loop E)
    as (m & c & w' & H1 & _ & _ & H4 & _ & _ & H7 & _).
  exists ev, m, c, w'. split; [reflexivity|]. split; [exact H1|]. split; [exact H4|exact H7].
Defined.
