(* ===== verification/SessionTasks.v ===== *)
(** * The socket tasks of a session and its life (src/src/rmux/session.rs)

    The other two tasks [process_rmux_session] joins to [process_event]:
    [handle_send], which batches the frames of the sender channel in a [VBuf]
    and writes them with vectored writes, and [handle_recv], which reads
    events off the socket and passes them on; the session that is registered
    for them; and a whole direction from one event task to the other side's. *)
From stdpp Require Import prelude gmap strings.
From Stdlib Require Import ZArith Lia.
From S2P Require Import Prelude Io Event Crypto Buf Stream Session EventLoop.

(** What the two tasks do to the rest of the session: the state they share
    ([io_active_unix_secs], [closed]), the event channel, the channel of the
    frames. *)
Inductive task_action :=
  | MarkActive (now_unix_secs : Z)
  | MarkClosed
  | HandEvent (ev : Event)
  | HandFrame (data : list byte)
  | CloseFrames
  | DropRecv.

(** ** [handle_send] *)

(** One iteration of the loop, as the environment decides it: whether the
    session is closed at its start, the frames that have arrived in the
    channel since, whether its senders are gone, and what [write_buf] answers:
    how many of the bytes offered were taken. *)
Record SendTurn := {
  t_closed : bool;
  t_arrivals : list (list byte);
  t_gone : bool;
  t_now : Z;
  t_write : io_result nat;
}.

Record Sender := { vbuf : VBuf; queue : list (list byte); wrote : list byte }.

Definition sender_new : Sender := {| vbuf := vbuf_new; queue := []; wrote := [] |}.

(** The [while vbuf.vlen() < 60] loop of [try_recv]; the [bool] is [exit]. *)
Fixpoint fill_vbuf (gone : bool) (v : VBuf) (q : list (list byte)) : VBuf * list (list byte) * bool :=
  if decide (vlen v < 60) then
    match q with
    | [] => (v, [], gone)
    | data :: q => if decide (data = []) then (v, q, true) else fill_vbuf gone (push v data).1 q
    end
  else (v, q, false).

(** [write_buf]: offers the slices of the queue, takes [n] bytes at most. *)
Definition write_buf (v : VBuf) (n : nat) : partial (VBuf * list byte * nat) :=
  l ← bytes_vectored v MAX_VEC_BUF;
  let n := min n (length (mjoin l)) in
  Ok (Buf.advance v n, take n (mjoin l), n).

(** The outcome of a turn: the loop goes on, waits for a frame, or ends. *)
Inductive turn_end := GoOn | WaitFrame | Stop.

Definition send_turn (t : SendTurn) (s : Sender)
    : partial (Sender * list task_action * turn_end) :=
  let s := {| vbuf := vbuf s; queue := queue s ++ t_arrivals t; wrote := wrote s |} in
  if t_closed t then Ok (s, [], Stop)
  else
    let '(s, over) :=
      if decide (vlen (vbuf s) = 0) then
        match queue s with
        | [] => (s, if t_gone t then Stop else WaitFrame)
        | data :: q =>
            if decide (data = [])
            then ({| vbuf := vbuf s; queue := q; wrote := wrote s |}, Stop)
            else ({| vbuf := (push (vbuf s) data).1; queue := q; wrote := wrote s |}, GoOn)
        end
      else (s, GoOn) in
    match over with
    | GoOn =>
        let '(v, q, exit) := fill_vbuf (t_gone t) (vbuf s) (queue s) in
        let s := {| vbuf := v; queue := q; wrote := wrote s |} in
        if (exit : bool) then Ok (s, [], Stop)
        else
          let acts := [MarkActive (wrap 32 (t_now t))] in
          match t_write t with
          | Ok n =>
              '(v, l, n) ← write_buf (vbuf s) n;
              Ok ({| vbuf := v; queue := queue s; wrote := wrote s ++ l |}, acts,
                  if decide (n = 0) then Stop else GoOn)
          | _ => Ok (s, acts, Stop)
          end
    | _ => Ok (s, [], over)
    end.

(** After the loop: [closed], [send_rx.close()], [close_tx], SHUTDOWN. *)
Definition send_end : list task_action :=
  [MarkClosed; CloseFrames; DropRecv; HandEvent (new_shutdown_event 0 false)].

(** The turns of the task; the [bool] is whether it is over. *)
Fixpoint handle_send (turns : list SendTurn) (s : Sender)
    : partial (Sender * list task_action * bool) :=
  match turns with
  | [] => Ok (s, [], false)
  | t :: turns =>
      '(s, acts, r) ← send_turn t s;
      match r with
      | Stop => Ok (s, acts ++ send_end, true)
      | _ => '(s, acts', over) ← handle_send turns s; Ok (s, acts ++ acts', over)
      end
  end.

(** ** [handle_recv] *)

(** One iteration: whether the session is closed, whether [handle_send] has
    dropped its end of [close_tx], the clock, and whether the event task takes
    the event. *)
Record RecvTurn := { r_closed : bool; r_drop : bool; r_now : Z; r_taken : bool }.

(** After the loop. *)
Definition recv_end : list task_action :=
  [MarkClosed; HandEvent (new_shutdown_event 0 false); HandFrame []].

Section Recv.
Context {C : Ciphers} {A : BytesAlloc}.

(** The turns of the task; the [bool] is whether it is over.  [None] stands
    for a read that does not return. *)
Fixpoint handle_recv (turns : list RecvTurn) (ctx : CryptoContext) (s : source)
    (recv_buf : list byte) : option (partial (list task_action * bool)) :=
  match turns with
  | [] => Some (Ok ([], false))
  | t :: turns =>
      if r_closed t then Some (Ok (recv_end, true))
      else if r_drop t then Some (Ok (MarkClosed :: recv_end, true))
      else
        match read_encrypt_event ctx s recv_buf with
        | Some (Ok (GotEvent ev ctx s recv_buf)) =>
            let ev := {| header := header ev; body := body ev; remote := true |} in
            let acts := [MarkActive (wrap 32 (r_now t)); HandEvent ev] in
            if r_taken t then
              match handle_recv turns ctx s recv_buf with
              | Some (Ok (acts', over)) => Some (Ok (acts ++ acts', over))
              | r => r
              end
            else Some (Ok ([MarkActive (wrap 32 (r_now t))] ++ recv_end, true))
        | Some (Ok EndOfStream) => Some (Ok (recv_end, true))
        | Some (Ok (ReadError _)) => Some (Ok (recv_end, true))
        | Some (Err e) => match e with end
        | Some Panic => Some Panic
        | None => None
        end
  end.
End Recv.

(** The events a task hands to the event task. *)
Definition handed (acts : list task_action) : list Event :=
  omap (fun a => match a with HandEvent ev => Some ev | _ => None end) acts.

(** ** The registered session *)

(** The session [process_rmux_session] stores: ids of streams start at 2 on
    the accepting side (channel name empty) and at 1 on the other. *)
Definition session_new (channel : string) (tunnel_id : Z) (evtx sref : nat)
    (max_alive_secs : Z) : MuxSession :=
  {| s_id := tunnel_id; s_event_tx := evtx; pendding_streams := [];
     stream_id_seed := (if decide (channel = ""%string) then 2 else 1)%Z;
     s_state := sref; max_alive_secs := max_alive_secs |}.

(** The parts of [process_rmux_session] around the three tasks. *)
Definition start_session (channel : string) (tunnel_id : Z) (evtx sref : nat)
    (max_alive_secs born : Z) (w : World) : World :=
  {| manager := store_mux_session channel
                  (session_new channel tunnel_id evtx sref max_alive_secs) (manager w);
     sstates := <[sref := session_state_new born]> (sstates w); cells := cells w |}.
Definition end_session (channel : string) (tunnel_id : Z) (w : World) : World :=
  set_manager w (erase_mux_session channel tunnel_id (manager w)).

(** ** The sender is a FIFO *)

Definition sender_ok (s : Sender) : Prop := vbuf_ok (vbuf s).

(** Bytes written, buffered and queued. *)
Definition through (s : Sender) : list byte := wrote s ++ contents (vbuf s) ++ mjoin (queue s).

Lemma push_accepts v d :
  vbuf_ok v -> vlen v < 60 -> d <> [] ->
  vbuf_ok (push v d).1 /\ contents (push v d).1 = contents v ++ d.
Proof.
  intros Hv Hl Hd. destruct (push_spec v d Hv) as [Hok H]. split; [done|].
  destruct (push v d).2; [by destruct H|]. destruct H as [_ [?|E]]; [done|].
  rewrite E in Hl. unfold MAX_VEC_BUF in Hl. lia.
Qed.

Lemma fill_vbuf_ok gone v q :
  vbuf_ok v ->
  let '(v', q', exit) := fill_vbuf gone v q in
  vbuf_ok v' /\ contents v' ++ mjoin q' = contents v ++ mjoin q.
Proof.
  revert v. induction q as [|d q IH]; intros v Hv; cbn [fill_vbuf]; case_decide; try done.
  case_decide as Hd; [by subst|].
  destruct (push_accepts v d) as [Hok Hc]; [done..|]. specialize (IH _ Hok).
  destruct (fill_vbuf gone (push v d).1 q) as [[v' q'] x]. destruct IH as [? E].
  split; [done|]. rewrite E, Hc. simpl. by rewrite <- app_assoc.
Qed.

Lemma write_buf_ok v n :
  vbuf_ok v -> exists v' l k, write_buf v n = Ok (v', l, k) /\ vbuf_ok v' /\
    contents v = l ++ contents v' /\ length l = k.
Proof.
  intros Hv. unfold write_buf.
  destruct (bytes_vectored_spec v MAX_VEC_BUF Hv) as (l & -> & _ & _ & rest & Hp). unmonad.
  set (k := min n (length (mjoin l))).
  destruct (@q_advance_ok VBuf VBuf_queue v k Hv) as [Hok Hc]. cbn in Hok, Hc.
  do 3 eexists. split; [done|]. split; [done|]. split; [|rewrite length_take; unfold k; lia].
  rewrite Hc, Hp. rewrite drop_app_le by (unfold k; lia).
  by rewrite app_assoc, take_drop.
Qed.

Lemma send_turn_ok t s :
  sender_ok s -> exists s' a r, send_turn t s = Ok (s', a, r) /\ sender_ok s' /\
    through s' = through s ++ mjoin (t_arrivals t).
Proof.
  intros Hs. unfold send_turn. cbn [vbuf queue wrote].
  set (s0 := {| vbuf := vbuf s; queue := queue s ++ t_arrivals t; wrote := wrote s |}).
  assert (through s0 = through s ++ mjoin (t_arrivals t)) as <-
    by (unfold through; simpl; by rewrite join_app, !app_assoc).
  assert (sender_ok s0) as Hs0 by done. change (vbuf s) with (vbuf s0).
  change (queue s ++ t_arrivals t) with (queue s0). change (wrote s) with (wrote s0). clearbody s0.
  destruct (t_closed t); [by do 3 eexists|].
  match goal with |- context [let '(_, _) := ?x in _] => set (first := x) end.
  assert (sender_ok first.1 /\ through first.1 = through s0) as [Hok Hth].
  { unfold first. case_decide as Hl; [|done]. destruct (queue s0) as [|d q] eqn:Hq; [done|].
    case_decide as Hd.
    - subst d. split; [done|]. unfold through; simpl. by rewrite Hq.
    - destruct (push_accepts (vbuf s0) d) as [Hp Hc]; [done|lia|done|]. split; [exact Hp|].
      unfold through; simpl. rewrite Hc, Hq. simpl. by rewrite <- !app_assoc. }
  destruct first as [s1 over]; cbn [fst] in Hok, Hth. rewrite <- Hth. clear Hth Hs0 s0.
  destruct over; [|by do 3 eexists|by do 3 eexists].
  pose proof (fill_vbuf_ok (t_gone t) (vbuf s1) (queue s1) Hok) as Hf.
  destruct (fill_vbuf _ _ _) as [[v q] exit]. destruct Hf as [Hv Hf].
  assert (through {| vbuf := v; queue := q; wrote := wrote s1 |} = through s1) as <-
    by (unfold through; simpl; by rewrite Hf).
  destruct exit; [by do 3 eexists|].
  destruct (t_write t) as [n|e|]; [|by do 3 eexists..].
  cbn [vbuf queue wrote]. destruct (write_buf_ok v n Hv) as (v' & l & k & -> & Hv' & Hl & _). unmonad.
  do 3 eexists. split; [done|]. split; [done|]. unfold through; simpl. rewrite Hl. by rewrite <- !app_assoc.
Qed.

Lemma handle_send_ok turns s :
  sender_ok s -> exists s' acts over n, handle_send turns s = Ok (s', acts, over) /\ sender_ok s' /\
    through s' = through s ++ mjoin (mjoin (t_arrivals <$> take n turns)) /\
    (over = false -> take n turns = turns).
Proof.
  revert s. induction turns as [|t turns IH]; intros s Hs; simpl.
  - exists s, [], false, 0. split_and!; try done. simpl. by rewrite app_nil_r.
  - destruct (send_turn_ok t s Hs) as (s1 & a & r & -> & Hs1 & Ht1). unmonad.
    destruct (IH s1 Hs1) as (s' & acts & over & n & E & Hs' & Ht & Hall).
    destruct r; cycle 2.
    { exists s1, (a ++ send_end), true, 1. split_and!; try done. rewrite Ht1. simpl. by rewrite app_nil_r. }
    all: exists s', (a ++ acts), over, (S n); split_and!; [by rewrite E|done| |];
      [rewrite Ht, Ht1; simpl; by rewrite join_app, <- !app_assoc|].
    all: intros Ho; simpl; by rewrite Hall.
Qed.

(** ** The receiver hands over what [read_events] reads *)

Definition quiet (t : RecvTurn) : Prop := r_closed t = false /\ r_drop t = false /\ r_taken t = true.
#[export] Instance quiet_dec t : Decision (quiet t).
Proof. unfold quiet. apply _. Defined.

Section RecvLemmas.
Context {C : Ciphers} {A : BytesAlloc}.

Lemma handle_recv_reads turns evs r s buf r' s' buf' :
  read_events (length evs) r s buf = Some (received <$> evs, r', s', buf') ->
  Forall quiet turns -> length turns <= length evs ->
  exists acts, handle_recv turns r s buf = Some (Ok (acts, false)) /\
    handed acts = take (length turns) (received <$> evs).
Proof.
  revert evs r s buf. induction turns as [|t turns IH]; intros evs r s buf E Hq Hl; [by eexists|].
  destruct evs as [|ev evs]; [simpl in Hl; lia|].
  apply Forall_cons in Hq as [(Hc & Hd & Ht) Hq]. cbn [handle_recv]. rewrite Hc, Hd, Ht.
  simpl in E. destruct (read_encrypt_event r s buf) as [[[ev1 r1 s1 b1| |]|[]|]|]; try done.
  simpl in E. destruct (read_events (length evs) r1 s1 b1) as [[[[evs2 r2] s2] b2]|] eqn:E2; [|done].
  simpl in E. injection E as -> -> <- <- <-.
  destruct (IH evs r1 s1 b1) as (acts & -> & Ha); [by rewrite E2|done|simpl in Hl; lia|].
  eexists. split; [done|]. simpl. by rewrite Ha.
Qed.
End RecvLemmas.

(** What one side's event task owes the other can be read from the transport. *)
Lemma link_reads {C : Ciphers} {A : BytesAlloc} `{!CipherLaws C} `{!BytesAllocLaws A}
    `{Bincode ConnectRequest} channel tunnel_id sref evtx inputs w ctx r l acts over turns snd sacts s :
  ctx_ok ctx -> sync ctx r -> Forall event_wf (replies inputs) ->
  process_event channel tunnel_id sref evtx inputs w ctx = Ok (l, acts, over) ->
  handle_send turns sender_new = Ok (snd, sacts, false) -> mjoin (t_arrivals <$> turns) = frames acts ->
  contents (vbuf snd) = [] -> queue snd = [] -> healthy s -> Io.stream s = wrote snd ->
  exists evs r' s' buf, evs `prefix_of` replies inputs /\ (over = false -> evs = replies inputs) /\
    read_events (length evs) r s [] = Some (received <$> evs, r', s', buf).
Proof.
  intros Hok Hsync Hwf E Esnd Harr Hc Hq Hh Hs.
  apply process_event_frames in E as (evs & ctx' & Hp & Hov & Hen); [|done].
  assert (Forall event_wf evs) as Hevs.
  { destruct Hp as [k Hk]. rewrite Hk in Hwf. by apply Forall_app in Hwf as [? _]. }
  destruct (sequence_codec evs ctx r [] Hok Hevs Hsync) as (w' & fs & Hall & _ & Hread).
  rewrite Hall in Hen. injection Hen as _ Hen. simpl in Hen.
  destruct (handle_send_ok turns sender_new) as (s1 & a1 & ov & n & E1 & _ & Ht & Hturns).
  { by split_and!; [unfold MAX_VEC_BUF; simpl; lia|constructor|]. }
  rewrite Esnd in E1. injection E1 as <- <- <-. unfold through in Ht.
  rewrite (Hturns eq_refl), Harr, Hc, Hq, !app_nil_r in Ht. simpl in Ht.
  destruct (Hread [] s [] Hh) as (r' & s' & buf & E' & _).
  { rewrite app_nil_r. cbn [app]. rewrite Hs, Ht, Hen. clear. by induction (frames acts); simpl; f_equal. }
  by exists evs, r', s', buf.
Qed.

(** ** Properties *)

(** The sender task is a FIFO.  Whatever arrives, however it is batched
    and however little each vectored write takes, the task does not panic,
    and at any moment the bytes written, then those in the [VBuf], then those
    still queued are the bytes of the frames received, in order. *)
Theorem sender_fifo turns :
  exists s acts over n, handle_send turns sender_new = Ok (s, acts, over) /\ vbuf_ok (vbuf s) /\
    wrote s ++ contents (vbuf s) ++ mjoin (queue s) = mjoin (mjoin (t_arrivals <$> take n turns)) /\
    (over = false -> take n turns = turns).
Proof.
  destruct (handle_send_ok turns sender_new) as (s & acts & over & n & E & Hok & Ht & Hall).
  { by split_and!; [unfold MAX_VEC_BUF; simpl; lia|constructor|]. }
  by exists s, acts, over, n.
Qed.

(** C2: one direction of a session, end to end.  The events one side's event
    task owes the other (its local events and its PONGs) are what the other
    side's receive task hands to its event task, in order and complete, once
    the sender task has written all its frames: whatever the interleaving of
    the tasks, the batching of the writes and the chunking of the transport. *)
Theorem session_link_delivers {C : Ciphers} {A : BytesAlloc} `{!CipherLaws C} `{!BytesAllocLaws A}
    `{Bincode ConnectRequest} channel tunnel_id sref evtx inputs w ctx r l acts over
    turns snd sacts s rturns :
  ctx_ok ctx -> sync ctx r -> Forall event_wf (replies inputs) ->
  process_event channel tunnel_id sref evtx inputs w ctx = Ok (l, acts, over) ->
  handle_send turns sender_new = Ok (snd, sacts, false) -> mjoin (t_arrivals <$> turns) = frames acts ->
  contents (vbuf snd) = [] -> queue snd = [] ->
  healthy s -> Io.stream s = wrote snd -> Forall quiet rturns ->
  exists evs, evs `prefix_of` replies inputs /\ (over = false -> evs = replies inputs) /\
    (length rturns <= length evs -> exists racts,
       handle_recv rturns r s [] = Some (Ok (racts, false)) /\
       handed racts = take (length rturns) (received <$> evs)).
Proof.
  intros Hok Hsync Hwf E Esnd Harr Hc Hq Hh Hs Hrt.
  destruct (link_reads _ _ _ _ _ _ _ _ _ _ _ _ _ _ _ Hok Hsync Hwf E Esnd Harr Hc Hq Hh Hs)
    as (evs & r' & s' & buf & Hp & Hov & Er).
  exists evs. split; [done|]. split; [done|]. intros Hlen. by eapply handle_recv_reads.
Qed.

Lemma session_link_delivers_witness :
  exists l acts snd evs,
    @process_event Toy.toy Session.Demo.req_bincode "rmux" 4 9 9
      [(Some Toy.hello, LoopDemo.env 1); (Some Toy.fin, LoopDemo.env 2)]
      LoopDemo.start Toy.ctx = Ok (l, acts, false) /\
    evs = [Toy.hello; Toy.fin] /\
    exists racts, handle_recv (C := Toy.toy) (A := Io.Concrete.exact_alloc)
      (replicate 2 {| r_closed := false; r_drop := false; r_now := 3; r_taken := true |})
      Toy.ctx [Bytes (take 9 (wrote snd)); Bytes (drop 9 (wrote snd))] []
      = Some (Ok (racts, false)) /\ handed racts = received <$> evs.
Proof.
  set (inputs := [(Some Toy.hello, LoopDemo.env 1); (Some Toy.fin, LoopDemo.env 2)]).
  destruct (@process_event Toy.toy Session.Demo.req_bincode "rmux" 4 9 9 inputs
              LoopDemo.start Toy.ctx) as [[[l acts] over]|[]|] eqn:E.
  2: { vm_compute in E. discriminate. }
  set (turns := [{| t_closed := false; t_arrivals := frames acts; t_gone := false; t_now := 3; t_write := Ok 20 |};
                 {| t_closed := false; t_arrivals := []; t_gone := false; t_now := 3; t_write := Ok 99 |}]).
  destruct (handle_send turns sender_new) as [[[snd sacts] ov]|[]|] eqn:Es.
  2: { vm_compute in E. injection E as _ <- _. vm_compute in Es. discriminate. }
  assert (over = false /\ ov = false /\ contents (vbuf snd) = [] /\ queue snd = [] /\
          length (wrote snd) = 34) as (Hov & Hov2 & Hc & Hq & Hlen).
  { vm_compute in E. injection E as _ Ha Ho. unfold turns in Es. rewrite <- Ha in Es.
    vm_compute in Es. injection Es as <- _ <-. rewrite <- Ho.
    split; [reflexivity|]. split; [reflexivity|]. split; [reflexivity|]. split; reflexivity. }
  subst over ov. exists l, acts, snd, (replies inputs). split; [reflexivity|]. split; [reflexivity|].
  destruct (session_link_delivers (C := Toy.toy) (A := Io.Concrete.exact_alloc)
              (H := Session.Demo.req_bincode) "rmux" 4 9 9 inputs LoopDemo.start Toy.ctx Toy.ctx
              l acts false turns snd sacts [Bytes (take 9 (wrote snd)); Bytes (drop 9 (wrote snd))]
              (replicate 2 {| r_closed := false; r_drop := false; r_now := 3; r_taken := true |}))
    as (evs & _ & Hall & Hrecv).
  - apply Toy.ctx_sync.
  - apply Toy.ctx_sync.
  - apply (bool_decide_eq_true_1 _). vm_compute. reflexivity.
  - exact E.
  - exact Es.
  - simpl. apply app_nil_r.
  - exact Hc.
  - exact Hq.
  - repeat apply Forall_cons_2; [..|apply Forall_nil_2]; intros Hd%(f_equal length);
      rewrite ?length_take, ?length_drop, Hlen in Hd; discriminate Hd.
  - unfold Io.stream. simpl. rewrite app_nil_r. apply take_drop.
  - apply (bool_decide_eq_true_1 _). vm_compute. reflexivity.
  - rewrite (Hall eq_refl) in Hrecv. apply Hrecv. vm_compute. lia.
Defined.

(** The session after streams were created on it. *)
Definition after_streams (s : MuxSession) (ms : list MuxStream) : MuxSession := foldl add_pendding s ms.

Lemma after_streams_seed s ms :
  is_u 32 (stream_id_seed s) ->
  stream_id_seed (after_streams s ms) = wrap 32 (stream_id_seed s + 2 * Z.of_nat (length ms)).
Proof.
  intros Hs. unfold after_streams. induction ms as [|m ms IH] using rev_ind.
  - simpl. rewrite Z.add_0_r. symmetry. by apply wrap_small.
  - rewrite foldl_snoc, length_app. simpl. rewrite IH, wrap_wrap_add by lia. f_equal. lia.
Qed.

(** Stream ids do not collide.  The ids the two ends of a session give
    to their streams differ in parity forever, and one end repeats an id only
    after 2^31 streams. *)
Theorem stream_ids_disjoint channel tunnel_id tunnel_id' evtx evtx' sref sref' alive alive' ms ms' ms'' :
  channel <> ""%string -> (length ms < length ms')%nat -> (Z.of_nat (length ms') < 2 ^ 31)%Z ->
  let client := session_new channel tunnel_id evtx sref alive in
  let server := session_new "" tunnel_id' evtx' sref' alive' in
  stream_id_seed (after_streams client ms) <> stream_id_seed (after_streams server ms'') /\
  stream_id_seed (after_streams client ms) <> stream_id_seed (after_streams client ms') /\
  stream_id_seed (after_streams server ms) <> stream_id_seed (after_streams server ms').
Proof.
  intros Hch Hlt Hlen client server.
  assert (stream_id_seed client = 1%Z /\ stream_id_seed server = 2%Z) as [Hc Hs].
  { unfold client, server, session_new; cbn [stream_id_seed]. by rewrite decide_False by done. }
  rewrite !after_streams_seed by (rewrite ?Hc, ?Hs; by split). rewrite Hc, Hs. unfold wrap.
  change (2 ^ 32)%Z with 4294967296%Z. change (2 ^ 31)%Z with 2147483648%Z in Hlen.
  split_and!; [intros E|intros E|intros E].
  - apply (f_equal (fun z => z mod 2)%Z) in E.
    rewrite !Z.mod_mod_divide in E by (by exists 2147483648%Z).
    rewrite !(Z.mul_comm 2), !Z.mod_add in E by lia. discriminate E.
  - rewrite !(Z.mod_small (1 + _)) in E by lia. lia.
  - rewrite (Z.mod_small (2 + 2 * Z.of_nat (length ms))) in E by lia.
    destruct (Z.lt_ge_cases (2 + 2 * Z.of_nat (length ms')) 4294967296);
      [rewrite Z.mod_small in E by lia; lia|].
    replace (2 + 2 * Z.of_nat (length ms'))%Z with 4294967296%Z in E by lia.
    rewrite Z.mod_same in E by lia. lia.
Qed.

Lemma stream_ids_disjoint_witness :
  let client := session_new "rmux" 4 9 9 2400 in
  let server := session_new "" 0 3 3 0 in
  stream_id_seed (after_streams client []) <> stream_id_seed (after_streams server [LoopDemo.one.1]) /\
  stream_id_seed (after_streams client []) <> stream_id_seed (after_streams client [LoopDemo.one.1]) /\
  stream_id_seed (after_streams server []) <> stream_id_seed (after_streams server [LoopDemo.one.1]).
Proof.
  apply (stream_ids_disjoint "rmux" 4 0 9 3 9 3 2400 0 [] [LoopDemo.one.1] [LoopDemo.one.1]);
    [discriminate|simpl; lia|simpl; lia].
Defined.
