(* ===== verification/Join.v ===== *)
(** * The three tasks of a session run together (src/src/rmux/session.rs, [process_rmux_session])

    [process_rmux_session] registers a session and joins its three tasks: the
    event task ([EventLoop]), the sender and the receiver ([SessionTasks]).
    They share the flag [closed], two bounded channels (events, frames) and a
    one-shot channel by which the sender stops the receiver.  Here a state is
    where each task waits, and a step takes one task from one [await] to the
    next; the tasks of the streams, the manager and the peer act in between. *)
From stdpp Require Import prelude gmap strings relations.
From Stdlib Require Import ZArith Lia.
From S2P Require Import Prelude Io Event Crypto Buf Stream Session EventLoop SessionTasks.

Local Open Scope Z_scope.

(** ** Data *)

Record MuxContext := {
  channel : string;
  tunnel_id : Z;
  rctx : CryptoContext;
  wctx : CryptoContext;
  max_alive_secs : Z;
  recv_buf : list byte;
}.

(** [mpsc::channel(16)], for events and for frames. *)
Definition capacity : nat := 16.

(** Where the event task waits: at the head of its loop, for an event, for
    room for a frame, for room in the data channel of a stream, for room for
    the empty frame that ends the sender; or it has returned. *)
Inductive EventPc := EHead | ERecv | ESend (f : list byte) | EOffer | EClose | EDone.

(** The sender: at the head of its loop, for a frame, for the socket, for room
    for its SHUTDOWN event. *)
Inductive SendPc := SHead | SRecv | SWrite | SShutdown | SDone.

(** The receiver: at the head of its loop, for the socket or the sender's
    one-shot, for room for an event, for its SHUTDOWN, for its empty frame. *)
Inductive RecvPc := RHead | RRead | RHand (ev : Event) | RShutdown | RFrame | RDone.

(** The frames of the channel are the [queue] of [sender].  [dropped]: the
    sender has fired [close_tx]. *)
Record Joined := {
  loop : Loop;
  ev_pc : EventPc;
  events : list Event;
  events_open : bool;
  sender : SessionTasks.Sender;
  send_pc : SendPc;
  frames_open : bool;
  recv_pc : RecvPc;
  dropped : bool;
  panicked : bool;
}.

(** What the outside answers: the clock, whether the stream has taken the data
    offered, what the write returned, what the read returned ([Some None]: end
    of the stream or an error); [None] while they are pending. *)
Record Answer := {
  a_now : Z;
  taken : bool;
  written : option (io_result nat);
  read : option (option Event);
}.

(** No answer but the clock. *)
Definition pending (t : Z) : Answer := {| a_now := t; taken := false; written := None; read := None |}.

Definition at_event (J : Joined) (pc : EventPc) (l : Loop) (q : list Event) (open : bool) : Joined :=
  {| loop := l; ev_pc := pc; events := q; events_open := open; sender := sender J;
     send_pc := send_pc J; frames_open := frames_open J; recv_pc := recv_pc J;
     dropped := dropped J; panicked := panicked J |}.
Definition at_send (J : Joined) (pc : SendPc) (s : SessionTasks.Sender) : Joined :=
  {| loop := loop J; ev_pc := ev_pc J; events := events J; events_open := events_open J; sender := s;
     send_pc := pc; frames_open := frames_open J; recv_pc := recv_pc J;
     dropped := dropped J; panicked := panicked J |}.
Definition at_recv (J : Joined) (pc : RecvPc) : Joined :=
  {| loop := loop J; ev_pc := ev_pc J; events := events J; events_open := events_open J;
     sender := sender J; send_pc := send_pc J; frames_open := frames_open J; recv_pc := pc;
     dropped := dropped J; panicked := panicked J |}.
Definition with_loop (J : Joined) (l : Loop) : Joined := at_event J (ev_pc J) l (events J) (events_open J).
Definition with_events (J : Joined) (q : list Event) : Joined := at_event J (ev_pc J) (loop J) q (events_open J).
Definition with_frames (J : Joined) (q : list (list byte)) : Joined :=
  at_send J (send_pc J) {| vbuf := vbuf (sender J); queue := q; wrote := wrote (sender J) |}.
(** A panic of one of the joined futures unwinds all of them. *)
Definition unwinds (J : Joined) : Joined :=
  {| loop := loop J; ev_pc := ev_pc J; events := events J; events_open := events_open J;
     sender := sender J; send_pc := send_pc J; frames_open := frames_open J; recv_pc := recv_pc J;
     dropped := dropped J; panicked := true |}.

(** [send(x).await] on a bounded channel: waits for room ([None]), or takes
    [x], or fails because the channel is closed. *)
Definition send_await {A} (open : bool) (q : list A) (x : A) : option (option (list A)) :=
  if open then if decide (length q < capacity)%nat then Some (Some (q ++ [x])) else None
  else Some None.

Definition push_event (J : Joined) (ev : Event) : option (Joined * bool) :=
  match send_await (events_open J) (events J) ev with
  | Some (Some q) => Some (with_events J q, true)
  | Some None => Some (J, false)
  | None => None
  end.
Definition push_frame (J : Joined) (f : list byte) : option (Joined * bool) :=
  match send_await (frames_open J) (queue (sender J)) f with
  | Some (Some q) => Some (with_frames J q, true)
  | Some None => Some (J, false)
  | None => None
  end.

(** ** Steps *)

Section Steps.
Context {C : Ciphers} `{Bincode ConnectRequest}.
Context (c : MuxContext) (sref evtx : nat).

Definition is_over (J : Joined) : bool := is_closed (sstate (world (loop J)) sref).

(** [closed.store(true)] *)
Definition mark_closed (l : Loop) : Loop :=
  with_world l (set_sstate (world l) sref (set_closed (sstate (world l) sref))).
(** [io_active_unix_secs.store(now)] *)
Definition mark_active (t : Z) (l : Loop) : Loop :=
  let st := sstate (world l) sref in
  with_world l (set_sstate (world l) sref
    {| last_ping_send_time := last_ping_send_time st; last_pong_recv_time := last_pong_recv_time st;
       s_born_time := s_born_time st; s_retired := s_retired st;
       io_active_unix_secs := wrap 32 t; s_closed := s_closed st |}).

(** The FIN events that closing a stream puts into the session's own event
    channel, when there is room. *)
Fixpoint try_sends (acts : list action) (q : list Event) : list Event :=
  match acts with
  | [] => q
  | Do (TrySendEvent tx ev) :: acts =>
      try_sends acts (if decide (tx = evtx /\ (length q < capacity)%nat) then q ++ [ev] else q)
  | _ :: acts => try_sends acts q
  end.

(** What the task waits for when it goes on after an event. *)
Fixpoint waits_for (acts : list action) : EventPc :=
  match acts with
  | [] => EHead
  | SendFrame f :: _ => ESend f
  | Do (SendData _ _) :: _ => EOffer
  | _ :: acts => waits_for acts
  end.

(** After the loop of [process_event], up to the last [await]. *)
Definition event_end (J : Joined) : Joined :=
  let l := mark_closed (loop J) in
  let '(w, acts) := close_streams (map_to_list (streams l)) (world l) in
  at_event J EClose (with_world l w) (try_sends acts (events J)) false.

(** [recv] never yields [None]: the registered session holds a sender. *)
Definition event_step (a : Answer) (J : Joined) : option Joined :=
  match ev_pc J with
  | EHead => Some (if is_over J then event_end J else at_event J ERecv (loop J) (events J) (events_open J))
  | ERecv =>
      match events J with
      | [] => None
      | ev :: q =>
          let e := {| now := a_now a; send_ok := true; others := fun w => w |} in
          match handle_event (channel c) (tunnel_id c) sref evtx ev e (loop J) with
          | Ok (l, acts, nx) =>
              let J := at_event J (waits_for acts) l (try_sends acts q) (events_open J) in
              Some (match nx with Continue => J | Break => event_end J end)
          | Err x => match x with end
          | Panic => Some (unwinds J)
          end
      end
  | ESend f =>
      '(J, ok) ← push_frame J f;
      Some (if (ok : bool) then at_event J EHead (loop J) (events J) (events_open J) else event_end J)
  | EOffer => if taken a then Some (at_event J EHead (loop J) (events J) (events_open J)) else None
  | EClose => '(J, _) ← push_frame J []; Some (at_event J EDone (loop J) (events J) (events_open J))
  | EDone => None
  end.

(** After the loop of [handle_send]. *)
Definition send_end (J : Joined) : Joined :=
  {| loop := mark_closed (loop J); ev_pc := ev_pc J; events := events J; events_open := events_open J;
     sender := sender J; send_pc := SShutdown; frames_open := false; recv_pc := recv_pc J;
     dropped := true; panicked := panicked J |}.

(** The [try_recv] loop, then the write. *)
Definition send_fill (a : Answer) (J : Joined) (v : VBuf) (q : list (list byte)) : Joined :=
  let '(v, q, exit) := fill_vbuf false v q in
  let J := at_send J SWrite {| vbuf := v; queue := q; wrote := wrote (sender J) |} in
  if (exit : bool) then send_end J else with_loop J (mark_active (a_now a) (loop J)).

Definition send_got (a : Answer) (J : Joined) (data : list byte) (q : list (list byte)) : Joined :=
  if decide (data = []) then send_end (with_frames J q)
  else send_fill a J (push (vbuf (sender J)) data).1 q.

Definition send_step (a : Answer) (J : Joined) : option Joined :=
  let s := sender J in
  match send_pc J with
  | SHead =>
      Some (if is_over J then send_end J
            else if decide (vlen (vbuf s) = 0)%nat then
              match queue s with
              | [] => at_send J SRecv s
              | data :: q => send_got a J data q
              end
            else send_fill a J (vbuf s) (queue s))
  | SRecv => match queue s with [] => None | data :: q => Some (send_got a J data q) end
  | SWrite =>
      match written a with
      | None => None
      | Some (Ok n) =>
          match write_buf (vbuf s) n with
          | Ok (v, l, n) =>
              let J := at_send J SHead {| vbuf := v; queue := queue s; wrote := wrote s ++ l |} in
              Some (if decide (n = 0)%nat then send_end J else J)
          | Err x => match x with end
          | Panic => Some (unwinds J)
          end
      | Some _ => Some (send_end J)
      end
  | SShutdown =>
      '(J, _) ← push_event J (new_shutdown_event 0 false); Some (at_send J SDone (sender J))
  | SDone => None
  end.

(** After the loop of [handle_recv], up to its first [await]. *)
Definition recv_end (J : Joined) : Joined := at_recv (with_loop J (mark_closed (loop J))) RShutdown.

(** [select!]: a read that is pending loses to [drop]; when both are ready
    either is taken. *)
Definition recv_step (a : Answer) (J : Joined) : option Joined :=
  match recv_pc J with
  | RHead => Some (if is_over J then recv_end J else at_recv J RRead)
  | RRead =>
      match read a with
      | Some (Some ev) =>
          let ev := {| header := header ev; body := body ev; remote := true |} in
          Some (at_recv (with_loop J (mark_active (a_now a) (loop J))) (RHand ev))
      | Some None => Some (recv_end J)
      | None => if dropped J then Some (recv_end J) else None
      end
  | RHand ev => '(J, ok) ← push_event J ev; Some (if (ok : bool) then at_recv J RHead else recv_end J)
  | RShutdown => '(J, _) ← push_event J (new_shutdown_event 0 false); Some (at_recv J RFrame)
  | RFrame => '(J, _) ← push_frame J []; Some (at_recv J RDone)
  | RDone => None
  end.

(** A step of one of the tasks. *)
Definition task_step (a : Answer) (J J' : Joined) : Prop :=
  panicked J = false /\
  (event_step a J = Some J' \/ send_step a J = Some J' \/ recv_step a J = Some J').

(** What the rest of the program does in between: it changes the shared state,
    but not the flag [closed], and puts events into the channel. *)
Definition outside_step (J J' : Joined) : Prop :=
  exists w evs,
    is_closed (sstate w sref) = is_over J /\
    (evs = [] \/ events_open J = true /\ (length (events J ++ evs) <= capacity)%nat) /\
    J' = at_event J (ev_pc J) (with_world (loop J) w) (events J ++ evs) (events_open J).

Definition join_step (J J' : Joined) : Prop := outside_step J J' \/ exists a, task_step a J J'.

(** [process_rmux_session] before it joins the tasks, ... *)
Definition session_starts (born : Z) (w : World) : Joined :=
  {| loop := {| world := start_session (channel c) (tunnel_id c) evtx sref (max_alive_secs c) born w;
                streams := ∅; EventLoop.wctx := wctx c |};
     ev_pc := EHead; events := []; events_open := true; sender := sender_new; send_pc := SHead;
     frames_open := true; recv_pc := RHead; dropped := false; panicked := false |}.

(** ... when they have all returned, ... *)
Definition all_done (J : Joined) : bool :=
  match ev_pc J, send_pc J, recv_pc J with EDone, SDone, RDone => true | _, _, _ => false end.

(** ... and what it leaves; [None] while it runs.  After a panic the session
    stays registered. *)
Definition process_rmux_session (J : Joined) : option (partial World) :=
  if panicked J then Some Panic
  else if all_done J then Some (Ok (end_session (channel c) (tunnel_id c) (world (loop J))))
  else None.

(** [handle_rmux_session] over a TCP connection: the world, and that the
    connection has been shut down in both directions. *)
Definition handle_rmux_session (J : Joined) : option (partial (World * bool)) :=
  match process_rmux_session J with
  | Some (Ok w) => Some (Ok (w, true))
  | Some (Err x) => match x with end
  | Some Panic => Some Panic
  | None => None
  end.

Definition running (J : Joined) : Prop :=
  reachable join_step (fun J => exists born w, J = session_starts born w) J.
End Steps.

(** ** Winding down *)

Definition ev_past (J : Joined) : bool := match ev_pc J with EClose | EDone => true | _ => false end.
Definition send_past (J : Joined) : bool := match send_pc J with SShutdown | SDone => true | _ => false end.
Definition recv_past (J : Joined) : bool :=
  match recv_pc J with RShutdown | RFrame | RDone => true | _ => false end.

(** How many more steps a task can make once the session is closed. *)
Definition event_rank (pc : EventPc) : nat :=
  match pc with ERecv => 4 | ESend _ | EOffer => 3 | EHead => 2 | EClose => 1 | EDone => 0 end.
Definition send_rank (pc : SendPc) : nat :=
  match pc with SRecv => 4 | SWrite => 3 | SHead => 2 | SShutdown => 1 | SDone => 0 end.
Definition recv_rank (pc : RecvPc) : nat :=
  match pc with RRead => 5 | RHand _ => 4 | RHead => 3 | RShutdown => 2 | RFrame => 1 | RDone => 0 end.
Definition rank (J : Joined) : nat :=
  if panicked J then 0
  else event_rank (ev_pc J) + send_rank (send_pc J) + recv_rank (recv_pc J).

(** A task that has left its loop has closed the session and its channel, and
    what it leaves in the other channels is there until the task that waits
    for it has taken it and left too. *)
Record join_inv (sref : nat) (J : Joined) : Prop := {
  inv_events : events_open J = negb (ev_past J);
  inv_frames : frames_open J = negb (send_past J);
  inv_dropped : dropped J = send_past J;
  inv_over : is_over sref J = ev_past J || send_past J || recv_past J;
  inv_empty : frames_open J = true -> ev_pc J = EDone \/ recv_pc J = RDone -> [] ∈ queue (sender J);
  inv_shutdown : events_open J = true -> send_pc J = SDone \/ recv_pc J = RFrame \/ recv_pc J = RDone ->
    new_shutdown_event 0 false ∈ events J;
}.

(** [n] steps of the tasks, with any steps of the rest in between. *)
Inductive runs {C : Ciphers} `{Bincode ConnectRequest} (c : MuxContext) (sref evtx : nat) :
    nat -> Joined -> Joined -> Prop :=
  | runs_refl J : runs c sref evtx 0 J J
  | runs_outside n J J1 J2 :
      outside_step sref J J1 -> runs c sref evtx n J1 J2 -> runs c sref evtx n J J2
  | runs_task n a J J1 J2 :
      task_step c sref evtx a J J1 -> runs c sref evtx n J1 J2 -> runs c sref evtx (S n) J J2.

Lemma is_over_set sref w st : is_closed (sstate (set_sstate w sref st) sref) = s_closed st.
Proof. unfold sstate, set_sstate. simpl. by rewrite lookup_insert_eq. Qed.

Lemma try_sends_prefix evtx acts q : q `prefix_of` try_sends evtx acts q.
Proof.
  revert q. induction acts as [|[[]| | |] acts IH]; intros q; simpl; try apply IH; [done|].
  case_decide; [|apply IH]. etrans; [by apply prefix_app_r|apply IH].
Qed.

Lemma push_event_spec J ev J' ok :
  push_event J ev = Some (J', ok) ->
  ok = events_open J /\ J' = with_events J (if ok then events J ++ [ev] else events J).
Proof.
  unfold push_event, send_await. destruct (events_open J) eqn:Ho; [|intros [= <- <-]].
  - case_decide; [|done]. by intros [= <- <-].
  - split; [done|]. unfold with_events, at_event. by destruct J.
Qed.

Lemma push_frame_spec J f J' ok :
  push_frame J f = Some (J', ok) ->
  ok = frames_open J /\ J' = with_frames J (if ok then queue (sender J) ++ [f] else queue (sender J)).
Proof.
  unfold push_frame, send_await. destruct (frames_open J) eqn:Ho; [|intros [= <- <-]].
  - case_decide; [|done]. by intros [= <- <-].
  - split; [done|]. unfold with_frames, at_send. destruct J as [???? []]; done.
Qed.

Lemma fill_vbuf_keeps v q v' q' :
  fill_vbuf false v q = (v', q', false) -> [] ∈ q -> [] ∈ q'.
Proof.
  revert v. induction q as [|d q IH]; intros v; simpl; case_decide; try (intros [= <- <-]; done).
  case_decide as Hd; [done|]. intros E Hin. apply (IH _ E).
  apply elem_of_cons in Hin as [?|?]; [congruence|done].
Qed.

Section Flag.
Context {C : Ciphers} `{Bincode ConnectRequest}.
Context (channel : string) (tunnel_id : Z) (sref evtx : nat).

Lemma handle_shutdown e l :
  handle_event channel tunnel_id sref evtx (new_shutdown_event 0 false) e l = Ok (l, [], Break).
Proof. unfold handle_event, handle_local_event. simpl. by destruct l. Qed.

Lemma handle_local_flag ev e l l' acts :
  handle_local_event channel tunnel_id sref ev e l = Ok (l', acts, true) ->
  is_closed (sstate (world l') sref) = is_closed (sstate (world l) sref).
Proof.
  unfold handle_local_event. destruct (decide (FLAG_SHUTDOWN = _)); [done|]. intros E.
  match type of E with context [if decide (FLAG_SYN = _) then ?a else ?b] =>
    set (l1 := if decide (FLAG_SYN = _) then a else b) in * end.
  assert (sstate (world l1) sref = sstate (world l) sref) as <-.
  { unfold l1. destruct (decide (FLAG_SYN = _)); [|done]. by destruct (hanle_pendding_mux_streams _ _ _ _ _). }
  destruct (decide (FLAG_FIN = _)) as [Hf|_].
  - pose proof (handle_fin_spec sref (Event.stream_id (header ev)) l1) as Hfin.
    destruct (handle_fin_event sref _ l1) as [[l2 acts2] stop]. destruct Hfin as (_ & Hs & Hst & _).
    destruct stop; [done|]. rewrite <- Hst. rewrite decide_False in E by (rewrite <- Hf; done).
    destruct (send_local_event ev e l2) as [[[l3 acts3] ok]|[]|] eqn:Es; [|done].
    apply send_local_ok in Es as (_ & Hw & _). injection E as <- _ _. by rewrite Hw.
  - destruct (decide (FLAG_ROUTINE = _)).
    + unfold handle_routine_event in E. by destruct (_ || _); injection E as <- _.
    + destruct (send_local_event ev e l1) as [[[l3 acts3] ok]|[]|] eqn:Es; [|done].
      apply send_local_ok in Es as (_ & Hw & _). injection E as <- _ _. by rewrite Hw.
Qed.

(** An event after which the task goes on leaves the flag [closed]. *)
Lemma handle_event_flag ev e l l' acts :
  handle_event channel tunnel_id sref evtx ev e l = Ok (l', acts, Continue) ->
  is_closed (sstate (world l') sref) = is_closed (sstate (world l) sref).
Proof.
  unfold handle_event. intros E.
  match type of E with context [if decide (FLAG_PING = _) then with_world l ?a else ?b] =>
    set (l1 := if decide (FLAG_PING = _) then with_world l a else b) in * end.
  assert (is_closed (sstate (world l1) sref) = is_closed (sstate (world l) sref)) as <-.
  { unfold l1, handle_ping_event. destruct (decide (FLAG_PING = _)); [|done].
    destruct (negb _); [|done]. etrans; [apply is_over_set|done]. }
  clearbody l1. destruct (negb (remote ev)).
  { destruct (handle_local_event _ _ _ ev e l1) as [[[l2 acts2] []]|[]|] eqn:El; [|done..].
    injection E as <- _. by eapply handle_local_flag. }
  destruct (decide (_ = FLAG_SYN)).
  { unfold handle_syn in E. destruct (deserialize _); simpl in E; by injection E as <- _. }
  destruct (decide (_ = FLAG_FIN)).
  { pose proof (handle_fin_spec sref (Event.stream_id (header ev)) l1) as Hfin.
    destruct (handle_fin_event _ _ _) as [[l3 acts3] d]. destruct Hfin as (_ & _ & Hst & _).
    destruct d; [done|]. rewrite <- Hst. by injection E as <- _. }
  destruct (decide (_ = FLAG_DATA)).
  { destruct (streams l1 !! _) as [m|]; [|by injection E as <- _].
    destruct (cells _ !! _) as [x|]; [|by injection E as <- _].
    destruct (Stream.offer_data _ _ _) as [[[? ?] ?]|[]|]; [|done]. by injection E as <- _. }
  destruct (decide (_ = FLAG_PING)).
  { destruct (send_local_event _ e l1) as [[[l2 acts2] ok]|[]|] eqn:Es; [|done].
    apply send_local_ok in Es as (_ & Hw & _). injection E as <- _ _. by rewrite Hw. }
  destruct (decide (_ = FLAG_PONG)); [injection E as <- _; etrans; [apply is_over_set|done]|].
  destruct (decide (_ = FLAG_WIN_UPDATE)); [|by injection E as <- _].
  destruct (streams l1 !! _) as [m|]; [|by injection E as <- _].
  destruct (cells _ !! _) as [x|]; [|by injection E as <- _].
  destruct (Stream.update_send_window _ _); by injection E as <- _.
Qed.
End Flag.

Section Winding.
Context {C : Ciphers} `{Bincode ConnectRequest}.
Context (c : MuxContext) (sref evtx : nat).
Abbreviation event_step := (event_step c sref evtx).
Abbreviation send_step := (send_step sref).
Abbreviation recv_step := (recv_step sref).
Abbreviation task_step := (task_step c sref evtx).
Abbreviation join_inv := (join_inv sref).
Abbreviation is_over := (is_over sref).

Lemma over_marked l : is_closed (sstate (world (mark_closed sref l)) sref) = true.
Proof. etrans; [apply is_over_set|done]. Qed.

Lemma over_active t l :
  is_closed (sstate (world (mark_active sref t l)) sref) = is_closed (sstate (world l) sref).
Proof. etrans; [apply is_over_set|done]. Qed.

Lemma event_end_spec J :
  exists l q, event_end sref evtx J = at_event J EClose l q false /\
              is_closed (sstate (world l) sref) = true.
Proof.
  unfold event_end.
  pose proof (close_streams_spec (map_to_list (streams (mark_closed sref (loop J))))
    (world (mark_closed sref (loop J)))) as (_ & Hs & _).
  destruct (close_streams _ _) as [w acts]. simpl in Hs. do 2 eexists. split; [done|].
  rewrite <- (over_marked (loop J)). unfold sstate. simpl. by rewrite Hs.
Qed.

Lemma event_end_inv J :
  frames_open J = negb (send_past J) -> dropped J = send_past J ->
  (frames_open J = true -> recv_pc J = RDone -> [] ∈ queue (sender J)) ->
  join_inv (event_end sref evtx J).
Proof.
  intros Hf Hd Hm. destruct (event_end_spec J) as (l & q & -> & Hl).
  constructor; simpl; try done. intros Hfo [?|?]; [done|by apply Hm].
Qed.

Lemma waits_for_past J acts l q open : ev_past (at_event J (waits_for acts) l q open) = false.
Proof.
  unfold ev_past. cbn [ev_pc at_event]. induction acts as [|[[]| | |] acts IH]; simpl; done.
Qed.

Lemma waits_for_rank acts : (event_rank (waits_for acts) < 4)%nat.
Proof. induction acts as [|[[]| | |] acts IH]; simpl; lia. Qed.

(** The event task. *)
Lemma event_step_inv a J J' :
  event_step a J = Some J' -> join_inv J -> panicked J' = true \/ join_inv J'.
Proof.
  intros E HJ. pose proof HJ as [He Hf Hd Ho Hm Hs]. unfold Join.event_step in E.
  assert (join_inv (event_end sref evtx J)) as Hend by (apply event_end_inv; auto).
  assert (forall pc, ev_pc J <> EDone -> ev_past J = false ->
    ev_past (at_event J pc (loop J) (events J) (events_open J)) = false ->
    join_inv (at_event J pc (loop J) (events J) (events_open J))) as Hgo.
  { intros pc _ Hp Hp'. rewrite Hp in He, Ho. constructor; simpl; rewrite ?Hp'; auto.
    intros Hfo [->|?]; [done|auto]. }
  unfold ev_past in Hgo at 1 2. destruct (ev_pc J) eqn:Hpc; simpl in *.
  - injection E as <-. right. destruct (is_over J); [done|by apply Hgo].
  - destruct (events J) as [|ev q] eqn:Hq; [done|].
    destruct (handle_event _ _ _ _ ev _ (loop J)) as [[[l acts] nx]|[]|] eqn:Eh; injection E as <-; [right|by left].
    destruct nx; last first.
    { apply event_end_inv; [done..|]. simpl. auto. }
    pose proof (waits_for_past J acts l (try_sends evtx acts q) (events_open J)) as Hp.
    apply handle_event_flag in Eh as Hl. unfold ev_past in He, Ho. rewrite Hpc in He, Ho.
    constructor; try done; rewrite ?Hp; [done|unfold Join.is_over in *; simpl in *; by rewrite Hl| |].
    + intros Hfo [Hdone|?]; [|by apply Hm; auto]. unfold ev_past in Hp. rewrite Hdone in Hp. done.
    + intros Hop Hor. specialize (Hs Hop Hor). apply elem_of_cons in Hs as [<-|Hin].
      * rewrite handle_shutdown in Eh. done.
      * cbn. destruct (try_sends_prefix evtx acts q) as [k ->]. apply elem_of_app. by left.
  - destruct (push_frame J f) as [[J1 ok]|] eqn:Ep; [|done]. apply push_frame_spec in Ep as [Hok ->].
    injection E as <-. right. unfold ev_past in He, Ho. rewrite Hpc in He, Ho. simpl in He, Ho.
    destruct ok.
    + constructor; try done. cbn. intros Hfo [?|?]; [done|]. apply elem_of_app. auto.
    + apply event_end_inv; try done. simpl. intros Hfo. congruence.
  - destruct (taken a); [|done]. injection E as <-. right. by apply Hgo.
  - destruct (push_frame J []) as [[J1 ok]|] eqn:Ep; [|done]. apply push_frame_spec in Ep as [Hok ->].
    injection E as <-. right. unfold ev_past in He, Ho. rewrite Hpc in He, Ho. simpl in He, Ho.
    constructor; try done. cbn. intros Hfo _. rewrite Hok, Hfo. apply elem_of_app. right. by apply list_elem_of_singleton.
  - done.
Qed.

Lemma event_step_rank a J J' :
  event_step a J = Some J' -> is_over J = true ->
  is_over J' = true /\
  (panicked J' = true \/ panicked J' = panicked J /\ send_pc J' = send_pc J /\ recv_pc J' = recv_pc J /\
     (event_rank (ev_pc J') < event_rank (ev_pc J))%nat).
Proof.
  intros E Hov.
  assert (forall K, is_over (event_end sref evtx K) = true /\ panicked (event_end sref evtx K) = panicked K /\
    send_pc (event_end sref evtx K) = send_pc K /\ recv_pc (event_end sref evtx K) = recv_pc K /\
    ev_pc (event_end sref evtx K) = EClose) as Hend.
  { intros K. destruct (event_end_spec K) as (l & q & -> & Hl). done. }
  unfold Join.event_step in E. destruct (ev_pc J) eqn:Hpc.
  - rewrite Hov in E. injection E as <-. destruct (Hend J) as (? & ? & ? & ? & ->). split; [done|].
    right. split_and!; try done. simpl. lia.
  - destruct (events J) as [|ev q]; [done|].
    destruct (handle_event _ _ _ _ ev _ (loop J)) as [[[l acts] nx]|[]|] eqn:Eh; injection E as <-;
      [|by split; [|left]].
    destruct nx.
    + apply handle_event_flag in Eh. split; [unfold Join.is_over in *; simpl; congruence|].
      right. split_and!; try done. apply waits_for_rank.
    + set (K := at_event J _ _ _ _). destruct (Hend K) as (? & ? & ? & ? & ->). split; [done|].
      right. split_and!; try done. simpl. lia.
  - destruct (push_frame J f) as [[J1 ok]|] eqn:Ep; [|done]. apply push_frame_spec in Ep as [Hok ->].
    injection E as <-. destruct ok.
    + split; [done|]. right. split_and!; try done. simpl. lia.
    + set (K := with_frames _ _). destruct (Hend K) as (? & ? & ? & ? & ->). split; [done|].
      right. split_and!; try done. simpl. lia.
  - destruct (taken a); [|done]. injection E as <-. split; [done|]. right. split_and!; try done. simpl. lia.
  - destruct (push_frame J []) as [[J1 ok]|] eqn:Ep; [|done]. apply push_frame_spec in Ep as [Hok ->].
    injection E as <-. split; [done|]. right. split_and!; try done. simpl. lia.
  - done.
Qed.

(** The sender. *)
Lemma send_end_inv J :
  events_open J = negb (ev_past J) ->
  (events_open J = true -> recv_pc J = RFrame \/ recv_pc J = RDone -> new_shutdown_event 0 false ∈ events J) ->
  join_inv (send_end sref J).
Proof.
  intros He Hs. constructor; try done.
  - etrans; [apply over_marked|]. unfold send_past. cbn. by destruct (ev_past _).
  - simpl. intros Hop [?|?]; [done|by apply Hs].
Qed.

(** What the sender takes from the channel of the frames, before it waits for
    the socket. *)
Lemma send_fill_inv a J v q :
  join_inv J -> send_past J = false -> ([] ∈ queue (sender J) -> [] ∈ q) ->
  join_inv (send_fill sref a J v q).
Proof.
  intros [He Hf Hd Ho Hm Hs] Hp Hq. unfold send_fill. rewrite Hp in *.
  destruct (fill_vbuf false v q) as [[v' q'] exit] eqn:Ef. destruct exit.
  - apply send_end_inv; [done|]. intros Hop Hor. apply Hs; [done|by right].
  - constructor; try done.
    + etrans; [apply over_active|]. exact Ho.
    + cbn. intros Hfo Hor. apply (fill_vbuf_keeps _ _ _ _ Ef), Hq, Hm; done.
    + cbn. intros Hop [?|Hor]; [done|]. apply Hs; [done|by right].
Qed.

Lemma send_got_inv a J data q :
  join_inv J -> send_past J = false -> queue (sender J) = data :: q -> join_inv (send_got sref a J data q).
Proof.
  intros HJ Hp Hq. unfold send_got. case_decide as Hd.
  - destruct HJ as [He Hf Hdr Ho Hm Hs]. apply send_end_inv; [done|].
    intros Hop Hor. apply Hs; [done|by right].
  - apply send_fill_inv; try done. rewrite Hq. intros Hin.
    apply elem_of_cons in Hin as [?|?]; [congruence|done].
Qed.

Lemma send_step_inv a J J' :
  send_step a J = Some J' -> join_inv J -> panicked J' = true \/ join_inv J'.
Proof.
  intros E HJ. pose proof HJ as [He Hf Hd Ho Hm Hs]. unfold Join.send_step in E.
  assert (join_inv (send_end sref J)) as Hend.
  { apply send_end_inv; [done|]. intros Hop Hor. apply Hs; [done|by right]. }
  destruct (send_pc J) eqn:Hpc.
  - assert (send_past J = false) as Hp by (unfold send_past; by rewrite Hpc).
    injection E as <-. right. destruct (is_over J) eqn:Hio; [done|]. case_decide; [|by apply send_fill_inv].
    destruct (queue (sender J)) as [|d q] eqn:Hq; [|by apply send_got_inv].
    rewrite Hp in *. constructor; try done; [by etrans; [exact Hio|exact Ho]|by cbn; rewrite Hq|].
    cbn. intros Hop [?|Hor]; [done|]. apply Hs; [done|by right].
  - destruct (queue (sender J)) as [|d q] eqn:Hq; [done|]. injection E as <-. right.
    apply send_got_inv; try done. unfold send_past. by rewrite Hpc.
  - assert (send_past J = false) as Hp by (unfold send_past; by rewrite Hpc).
    destruct (written a) as [[n|err|]|]; [|injection E as <-; by right..|done].
    destruct (write_buf _ n) as [[[v l] k]|[]|]; injection E as <-; [right|by left].
    rewrite Hp in *. case_decide.
    + apply send_end_inv; [done|]. cbn. intros Hop Hor. apply Hs; [done|by right].
    + constructor; try done. cbn. intros Hop [?|Hor]; [done|]. apply Hs; [done|by right].
  - destruct (push_event J _) as [[J1 ok]|] eqn:Ep; [|done]. apply push_event_spec in Ep as [Hok ->].
    injection E as <-. right. unfold send_past in Hf, Hd, Ho. rewrite Hpc in Hf, Hd, Ho.
    constructor; try done. cbn. intros Hop _. rewrite Hok, Hop. apply elem_of_app. right. by apply list_elem_of_singleton.
  - done.
Qed.

Lemma send_end_rank J :
  is_over (send_end sref J) = true /\ panicked (send_end sref J) = panicked J /\
  ev_pc (send_end sref J) = ev_pc J /\ recv_pc (send_end sref J) = recv_pc J.
Proof. split; [apply over_marked|done]. Qed.

Lemma send_fill_rank a J v q :
  is_over J = true ->
  let K := send_fill sref a J v q in
  is_over K = true /\ panicked K = panicked J /\ ev_pc K = ev_pc J /\ recv_pc K = recv_pc J /\
  (send_rank (send_pc K) < 4)%nat.
Proof.
  intros Hov. unfold send_fill. destruct (fill_vbuf false v q) as [[v' q'] []]; cbv zeta.
  - set (K := at_send _ _ _). destruct (send_end_rank K) as (? & ? & ? & ?). split_and!; try done. simpl. lia.
  - split_and!; try done; [|simpl; lia]. etrans; [apply over_active|exact Hov].
Qed.

Lemma send_step_rank a J J' :
  send_step a J = Some J' -> is_over J = true ->
  is_over J' = true /\
  (panicked J' = true \/ panicked J' = panicked J /\ ev_pc J' = ev_pc J /\ recv_pc J' = recv_pc J /\
     (send_rank (send_pc J') < send_rank (send_pc J))%nat).
Proof.
  intros E Hov. unfold Join.send_step in E. destruct (send_pc J) eqn:Hpc.
  - rewrite Hov in E. injection E as <-. destruct (send_end_rank J) as (? & ? & ? & ?).
    split; [done|]. right. split_and!; try done. simpl. lia.
  - destruct (queue (sender J)) as [|d q]; [done|]. injection E as <-. unfold send_got. case_decide.
    + set (K := with_frames J q). destruct (send_end_rank K) as (? & ? & ? & ?).
      split; [done|]. right. split_and!; try done. simpl. lia.
    + destruct (send_fill_rank a J (push (vbuf (sender J)) d).1 q Hov) as (? & ? & ? & ? & ?). auto 6.
  - destruct (written a) as [[n|err|]|]; [| | |done].
    2,3: injection E as <-; destruct (send_end_rank J) as (? & ? & ? & ?);
      split; [done|]; right; split_and!; try done; simpl; lia.
    destruct (write_buf _ n) as [[[v l] k]|[]|]; injection E as <-; [|by split; [|left]].
    case_decide; (split; [|right; split_and!; try done; simpl; lia]); [apply over_marked|done].
  - destruct (push_event J _) as [[J1 ok]|] eqn:Ep; [|done]. apply push_event_spec in Ep as [_ ->].
    injection E as <-. split; [done|]. right. split_and!; try done. simpl. lia.
  - done.
Qed.

(** The receiver. *)
Lemma recv_end_inv J :
  join_inv J -> recv_past J = false -> join_inv (recv_end sref J).
Proof.
  intros [He Hf Hd Ho Hm Hs] Hp. constructor; try done.
  - etrans; [apply over_marked|]. unfold recv_past. cbn. by rewrite orb_true_r.
  - cbn. intros Hfo [?|?]; [by apply Hm; auto|done].
  - cbn. intros Hop [?|[?|?]]; [by apply Hs; auto|done..].
Qed.

Lemma recv_goes_inv J pc :
  join_inv J -> recv_past J = recv_past (at_recv J pc) -> pc <> RFrame -> pc <> RDone ->
  join_inv (at_recv J pc).
Proof.
  intros [He Hf Hd Ho Hm Hs] Hp H1 H2. constructor; try done.
  - rewrite <- Hp. exact Ho.
  - cbn. intros Hfo [?|?]; [by apply Hm; auto|done].
  - cbn. intros Hop [?|[?|?]]; [by apply Hs; auto|done..].
Qed.

Lemma recv_step_inv a J J' :
  recv_step a J = Some J' -> join_inv J -> join_inv J'.
Proof.
  intros E HJ. unfold Join.recv_step in E.
  assert (recv_past J = false -> join_inv (recv_end sref J)) as Hend by by apply recv_end_inv.
  assert (forall K, join_inv K -> recv_past K = recv_past J -> forall pc, recv_past J = recv_past (at_recv J pc) ->
    pc <> RFrame -> pc <> RDone -> join_inv (at_recv K pc)) as Hgo.
  { intros K HK Hp pc Hp'. apply recv_goes_inv; [done|]. by rewrite Hp. }
  unfold recv_past in Hend, Hgo at 2 3. cbn [recv_pc at_recv] in Hgo.
  destruct (recv_pc J) as [| |ev| | |] eqn:Hpc.
  - injection E as <-. destruct (is_over J); [by apply Hend|by apply Hgo; unfold recv_past; rewrite ?Hpc].
  - destruct (read a) as [[ev|]|].
    + injection E as <-. apply Hgo; try done; [|unfold recv_past; cbn; by rewrite Hpc].
      destruct HJ as [He Hf Hd Ho Hm Hs]. constructor; try done. etrans; [apply over_active|exact Ho].
    + injection E as <-. by apply Hend.
    + destruct (dropped J); [|done]. injection E as <-. by apply Hend.
  - destruct (push_event J ev) as [[J1 ok]|] eqn:Ep; [|done]. apply push_event_spec in Ep as [Hok ->].
    injection E as <-. assert (join_inv (with_events J (if ok then events J ++ [ev] else events J))) as HK.
    { destruct HJ as [He Hf Hd Ho Hm Hs]. constructor; try done. cbn. intros Hop Hor. specialize (Hs Hop Hor).
      destruct ok; [apply elem_of_app; by left|done]. }
    assert (recv_past (with_events J (if ok then events J ++ [ev] else events J)) = false) as Hp
      by (unfold recv_past; cbn; by rewrite Hpc).
    destruct ok; [by apply recv_goes_inv; rewrite ?Hp|by apply recv_end_inv].
  - destruct (push_event J _) as [[J1 ok]|] eqn:Ep; [|done]. apply push_event_spec in Ep as [Hok ->].
    injection E as <-. destruct HJ as [He Hf Hd Ho Hm Hs]. unfold recv_past in Ho. rewrite Hpc in Ho.
    constructor; try done; cbn.
    + intros Hfo [?|?]; [by apply Hm; auto|done].
    + intros Hop _. rewrite Hok, Hop. apply elem_of_app. right. by apply list_elem_of_singleton.
  - destruct (push_frame J _) as [[J1 ok]|] eqn:Ep; [|done]. apply push_frame_spec in Ep as [Hok ->].
    injection E as <-. destruct HJ as [He Hf Hd Ho Hm Hs]. unfold recv_past in Ho. rewrite Hpc in Ho.
    constructor; try done; cbn.
    + intros Hfo _. rewrite Hok, Hfo. apply elem_of_app. right. by apply list_elem_of_singleton.
    + intros Hop Hor. apply Hs; [done|]. right; left. done.
  - done.
Qed.

Lemma recv_step_rank a J J' :
  recv_step a J = Some J' -> is_over J = true ->
  is_over J' = true /\ panicked J' = panicked J /\ ev_pc J' = ev_pc J /\ send_pc J' = send_pc J /\
  (recv_rank (recv_pc J') < recv_rank (recv_pc J))%nat.
Proof.
  intros E Hov. unfold Join.recv_step in E.
  assert (forall K, is_over (recv_end sref K) = true) as Hend by (intros K; apply over_marked).
  destruct (recv_pc J) as [| |ev| | |] eqn:Hpc.
  - rewrite Hov in E. injection E as <-. split_and!; try done; try apply Hend; simpl; lia.
  - destruct (read a) as [[ev|]|].
    + injection E as <-. split_and!; try done; try (by etrans; [apply over_active|exact Hov]); simpl; lia.
    + injection E as <-. split_and!; try done; try apply Hend; simpl; lia.
    + destruct (dropped J); [|done]. injection E as <-. split_and!; try done; try apply Hend; simpl; lia.
  - destruct (push_event J ev) as [[J1 ok]|] eqn:Ep; [|done]. apply push_event_spec in Ep as [Hok ->].
    injection E as <-. destruct ok; split_and!; try done; try apply Hend; simpl; lia.
  - destruct (push_event J _) as [[J1 ok]|] eqn:Ep; [|done]. apply push_event_spec in Ep as [Hok ->].
    injection E as <-. split_and!; try done. simpl. lia.
  - destruct (push_frame J _) as [[J1 ok]|] eqn:Ep; [|done]. apply push_frame_spec in Ep as [Hok ->].
    injection E as <-. split_and!; try done. simpl. lia.
  - done.
Qed.

(** ** All tasks *)

Lemma outside_step_inv J J' : outside_step sref J J' -> join_inv J -> join_inv J'.
Proof.
  intros (w & evs & Hw & _ & ->) [He Hf Hd Ho Hm Hs]. constructor; try done.
  - etrans; [exact Hw|exact Ho].
  - cbn. intros Hop Hor. apply elem_of_app. left. by apply Hs.
Qed.

Lemma task_step_inv a J J' : task_step a J J' -> join_inv J -> panicked J' = true \/ join_inv J'.
Proof.
  intros [_ [E|[E|E]]] HJ; [by eapply event_step_inv|by eapply send_step_inv|right; by eapply recv_step_inv].
Qed.

Lemma running_inv J : running c sref evtx J -> panicked J = true \/ join_inv J.
Proof.
  revert J. apply (invariant_rule _ _ (fun J => panicked J = true \/ join_inv J)).
  - intros ? (born & w & ->). right. constructor; try done.
    + unfold Join.is_over, sstate. cbn. by rewrite lookup_insert_eq.
    + by intros _ [?|?].
    + by intros _ [?|[?|?]].
  - intros J1 J2 Hor [Ho|(a & Ht)].
    + destruct Hor as [?|?]; [|right; by eapply outside_step_inv]. left. by destruct Ho as (? & ? & _ & _ & ->).
    + destruct Hor as [Hp|?]; [destruct Ht as [? _]; congruence|by eapply task_step_inv].
Qed.

Lemma task_step_rank a J J' :
  task_step a J J' -> is_over J = true -> is_over J' = true /\ (rank J' < rank J)%nat.
Proof.
  intros [Hp Hs] Hov. unfold rank. rewrite Hp.
  assert (forall J', panicked J' = true \/ panicked J' = panicked J /\
    (event_rank (ev_pc J') + send_rank (send_pc J') + recv_rank (recv_pc J')
      < event_rank (ev_pc J) + send_rank (send_pc J) + recv_rank (recv_pc J))%nat ->
    0 < event_rank (ev_pc J) + send_rank (send_pc J) + recv_rank (recv_pc J) ->
    (if panicked J' then 0 else event_rank (ev_pc J') + send_rank (send_pc J') + recv_rank (recv_pc J'))
      < event_rank (ev_pc J) + send_rank (send_pc J) + recv_rank (recv_pc J))%nat as Hrank.
  { intros K [->|[-> ?]] Hpos; [done|]. by rewrite Hp. }
  destruct Hs as [E|[E|E]].
  - destruct (event_step_rank _ _ _ E Hov) as [? Hor]. split; [done|]. apply Hrank.
    + destruct Hor as [?|(? & -> & -> & ?)]; [by left|right]. split; [done|lia].
    + unfold Join.event_step in E. destruct (ev_pc J); (done || simpl; lia).
  - destruct (send_step_rank _ _ _ E Hov) as [? Hor]. split; [done|]. apply Hrank.
    + destruct Hor as [?|(? & -> & -> & ?)]; [by left|right]. split; [done|lia].
    + unfold Join.send_step in E. destruct (send_pc J); (done || simpl; lia).
  - destruct (recv_step_rank _ _ _ E Hov) as (? & ? & He & Hs & ?). split; [done|].
    apply Hrank; [right; split; [done|]; rewrite He, Hs|]; lia.
Qed.

Lemma outside_step_rank J J' :
  outside_step sref J J' -> is_over J' = is_over J /\ rank J' = rank J.
Proof. intros (w & evs & Hw & _ & ->). split; [exact Hw|done]. Qed.

Lemma runs_over n J J' :
  runs c sref evtx n J J' -> is_over J = true -> panicked J = true \/ join_inv J ->
  is_over J' = true /\ (panicked J' = true \/ join_inv J') /\ (n + rank J' <= rank J)%nat.
Proof.
  induction 1 as [J|n J J1 J2 Ho _ IH|n a J J1 J2 Ht _ IH]; intros Hov HJ.
  - split; [done|]. split; [done|lia].
  - destruct (outside_step_rank _ _ Ho) as [Hov1 Hr]. rewrite Hov in Hov1.
    rewrite <- Hr. apply IH; [done|]. destruct HJ as [?|?]; [|right; by eapply outside_step_inv].
    left. by destruct Ho as (? & ? & _ & _ & ->).
  - destruct (task_step_rank _ _ _ Ht Hov) as [Hov1 Hr].
    destruct IH as (? & ? & ?); [done| |split; [done|split; [done|lia]]].
    destruct HJ as [Hp|?]; [destruct Ht as [? _]; congruence|by eapply task_step_inv].
Qed.

(** ** What a blocked task waits for *)

Definition full {A} (q : list A) : Prop := (capacity <= length q)%nat.

Lemma push_event_stuck J ev : push_event J ev = None -> events_open J = true /\ full (events J).
Proof.
  unfold push_event, send_await, full. destruct (events_open J); [|done]. case_decide; [done|].
  split; [done|lia].
Qed.

Lemma push_frame_stuck J f : push_frame J f = None -> frames_open J = true /\ full (queue (sender J)).
Proof.
  unfold push_frame, send_await, full. destruct (frames_open J); [|done]. case_decide; [done|].
  split; [done|lia].
Qed.

Lemma event_stuck J :
  event_step (pending 0) J = None ->
  ev_pc J = EDone \/ ev_pc J = EOffer \/ ev_pc J = ERecv /\ events J = [] \/
  ev_pc J <> EDone /\ frames_open J = true /\ full (queue (sender J)).
Proof.
  unfold Join.event_step. destruct (ev_pc J); auto; try done.
  - destruct (events J); [auto|]. by destruct (handle_event _ _ _ _ _ _ _) as [[[? ?] ?]|[]|].
  - destruct (push_frame J f) as [[? ?]|] eqn:E; [done|]. apply push_frame_stuck in E. auto 6.
  - destruct (push_frame J []) as [[? ?]|] eqn:E; [done|]. apply push_frame_stuck in E. auto 6.
Qed.

Lemma send_stuck J :
  send_step (pending 0) J = None ->
  send_pc J = SDone \/ send_pc J = SWrite \/ send_pc J = SRecv /\ queue (sender J) = [] \/
  send_pc J = SShutdown /\ events_open J = true /\ full (events J).
Proof.
  unfold Join.send_step. destruct (send_pc J); auto; try done.
  - destruct (queue (sender J)); [auto|done].
  - destruct (push_event J _) as [[? ?]|] eqn:E; [done|]. apply push_event_stuck in E. auto 6.
Qed.

Lemma recv_stuck J :
  recv_step (pending 0) J = None ->
  recv_pc J = RDone \/ recv_pc J = RRead /\ dropped J = false \/
  events_open J = true /\ full (events J) \/ frames_open J = true /\ full (queue (sender J)).
Proof.
  unfold Join.recv_step. destruct (recv_pc J); auto; try done; simpl.
  - destruct (dropped J); auto; done.
  - destruct (push_event J _) as [[? ?]|] eqn:E; [done|]. apply push_event_stuck in E. auto 6.
  - destruct (push_event J _) as [[? ?]|] eqn:E; [done|]. apply push_event_stuck in E. auto 6.
  - destruct (push_frame J _) as [[? ?]|] eqn:E; [done|]. apply push_frame_stuck in E. auto 6.
Qed.

Lemma no_progress J :
  join_inv J -> is_over J = true ->
  event_step (pending 0) J = None -> send_step (pending 0) J = None -> recv_step (pending 0) J = None ->
  ev_pc J <> EOffer -> send_pc J <> SWrite -> all_done J = true.
Proof.
  intros [He Hf Hd Ho Hm Hs] Hov E1%event_stuck E2%send_stuck E3%recv_stuck Hoff Hwr.
  rewrite Hov in Ho. unfold all_done, ev_past, send_past, recv_past, full in *.
  assert (forall A (x : A), x ∈ [] -> False) as Hnil by (intros A x Hx; by apply elem_of_nil in Hx).
  destruct E1 as [E1|[?|[[E1 Eq]|(E1 & Efo & Efull)]]]; [|done|..].
  - rewrite E1 in *. simpl in *. destruct E2 as [E2|[?|[[E2 Eq]|(E2 & ? & ?)]]]; [|done|..|congruence]; rewrite E2 in *; simpl in *.
    + destruct E3 as [->|[[? ?]|[[? ?]|[? ?]]]]; [done|congruence..].
    + exfalso. rewrite Eq in Hm. eapply Hnil, Hm; auto.
  - rewrite E1, Eq in *. simpl in *. exfalso. destruct E2 as [E2|[?|[[E2 Eq2]|(E2 & ? & Hl)]]]; [|done|..|simpl in Hl; unfold capacity in Hl; lia];
      rewrite E2 in *; [eapply Hnil, Hs; auto|].
    rewrite Eq2 in *. destruct E3 as [E3|[[E3 ?]|[[? Hl]|[? Hl]]]]; [eapply Hnil, Hm; auto| |simpl in Hl; unfold capacity in Hl; lia..].
    rewrite E3 in Ho. done.
  - exfalso. destruct E2 as [E2|[?|[[E2 Eq2]|(E2 & _ & _)]]]; [|done|..]; rewrite E2 in *; simpl in *; [congruence| |congruence].
    rewrite Eq2 in Efull. simpl in Efull. unfold capacity in Efull. lia.
Qed.
End Winding.

(** ** What the tasks write *)

Section Refused.
Context {C : Ciphers} `{Bincode ConnectRequest}.
Context (channel : string) (tunnel_id : Z) (sref evtx : nat).

Lemma waits_for_close w m acts : waits_for ((close_stream w m).2 ++ acts) = waits_for acts.
Proof.
  unfold close_stream. destruct (cells w !! cell m) as [x|]; [|done].
  unfold Stream.close. destruct (data_tx m), (io_data_tx _), (waker _); done.
Qed.

Lemma waits_for_fin sid l acts : waits_for ((handle_fin_event sref sid l).1.2 ++ acts) = waits_for acts.
Proof.
  pose proof (handle_fin_spec sref sid l) as Hfin. destruct (handle_fin_event sref sid l) as [[l1 acts1] stop].
  destruct Hfin as (_ & _ & _ & ->). simpl. destruct (streams l !! sid); [apply waits_for_close|done].
Qed.

(** The two ways an event can end that differ only in whether the channel of
    the frames has taken its frame: [r] when it has, [r'] when it is closed. *)
Definition refused (r r' : partial (Loop * list action * next)) : Prop :=
  match r with
  | Ok (l, acts, nx) =>
      frames acts = [] /\ r' = Ok (l, acts, nx) \/
      exists f acts', nx = Continue /\ waits_for acts = ESend f /\ frames acts = [f] /\
        frames acts' = [] /\ r' = Ok (l, acts', Break)
  | r => r' = r
  end.

Lemma refused_same r : (forall l acts nx, r = Ok (l, acts, nx) -> frames acts = []) -> refused r r.
Proof. destruct r as [[[l acts] nx]|[]|]; intros Hr; [|done]. left. split; [by eapply Hr|done]. Qed.

Lemma refused_sent ev t o l acts0 :
  frames acts0 = [] -> (forall acts, waits_for (acts0 ++ acts) = waits_for acts) ->
  let next_of := fun e => '(l, acts, ok) ← send_local_event ev e l;
                Ok (l, acts0 ++ acts, if (ok : bool) then Continue else Break) in
  refused (next_of {| now := t; send_ok := true; others := o |})
          (next_of {| now := t; send_ok := false; others := o |}).
Proof.
  intros Hf Hw. unfold send_local_event. destruct (encrypt _ _ _) as [[[x ?] f]|[]|]; [|done].
  unmonad. cbn [send_ok]. right. exists f, acts0.
  rewrite Hw, !frames_app, Hf, app_nil_r. done.
Qed.

Lemma refused_local ev t o l :
  let next_of := fun e => '(l, acts, go) ← handle_local_event channel tunnel_id sref ev e l;
                Ok (l, acts, if (go : bool) then Continue else Break) in
  refused (next_of {| now := t; send_ok := true; others := o |})
          (next_of {| now := t; send_ok := false; others := o |}).
Proof.
  cbv zeta. unfold handle_local_event.
  destruct (decide (FLAG_SHUTDOWN = _)); [apply refused_same; by intros ??? [= <- <- <-]|].
  match goal with |- context [if decide (FLAG_SYN = _) then ?a else ?b] =>
    set (l1 := if decide (FLAG_SYN = _) then a else b) end.
  assert (forall acts0 l, frames acts0 = [] -> (forall acts, waits_for (acts0 ++ acts) = waits_for acts) ->
    let next_of := fun e => '(l, acts, go) ← ('(l, acts', ok) ← send_local_event ev e l; Ok (l, acts0 ++ acts', ok));
                Ok (l, acts, if (go : bool) then Continue else Break) in
    refused (next_of {| now := t; send_ok := true; others := o |})
            (next_of {| now := t; send_ok := false; others := o |})) as Hsent.
  { intros acts0 l2 Hf Hw. pose proof (refused_sent ev t o l2 acts0 Hf Hw) as Hr. unmonad.
    by destruct (send_local_event ev _ l2) as [[[? ?] ?]|[]|],
      (send_local_event ev {| now := t; send_ok := false; others := o |} l2) as [[[? ?] ?]|[]|]. }
  destruct (decide (FLAG_FIN = _)) as [Hf|_].
  - pose proof (waits_for_fin (Event.stream_id (header ev)) l1) as Hw.
    pose proof (handle_fin_frames sref (Event.stream_id (header ev)) l1) as [Hfr _].
    destruct (handle_fin_event sref _ l1) as [[l2 acts2] stop]. simpl in Hw, Hfr.
    destruct stop; [apply refused_same; by intros ??? [= <- <- <-]|].
    rewrite !decide_False by (rewrite <- Hf; done). by apply Hsent.
  - destruct (decide (FLAG_ROUTINE = _)); [|by apply (Hsent [])].
    unfold handle_routine_event. cbn [now].
    destruct (_ || _); apply refused_same; by intros ??? [= <- <- <-].
Qed.

Lemma handle_event_refused ev t o l :
  refused (handle_event channel tunnel_id sref evtx ev {| now := t; send_ok := true; others := o |} l)
          (handle_event channel tunnel_id sref evtx ev {| now := t; send_ok := false; others := o |} l).
Proof.
  unfold handle_event.
  change (handle_ping_event sref (remote ev) {| now := t; send_ok := false; others := o |} (world l))
    with (handle_ping_event sref (remote ev) {| now := t; send_ok := true; others := o |} (world l)).
  match goal with |- context [if decide (FLAG_PING = _) then with_world l ?a else ?b] =>
    set (l1 := if decide (FLAG_PING = _) then with_world l a else b) end.
  clearbody l1. destruct (negb (remote ev)); [apply refused_local|].
  destruct (decide (_ = FLAG_SYN)).
  { unfold handle_syn. cbn [now]. apply refused_same.
    destruct (deserialize _); simpl; by intros ??? [= <- <- <-]. }
  destruct (decide (_ = FLAG_FIN)).
  { apply refused_same. pose proof (handle_fin_frames sref (Event.stream_id (header ev)) l1) as [Hf _].
    destruct (handle_fin_event _ _ _) as [[l2 acts2] d]. by intros ??? [= <- <- <-]. }
  destruct (decide (_ = FLAG_DATA)).
  { apply refused_same. destruct (streams l1 !! _) as [m|]; [|by intros ??? [= <- <- <-]].
    destruct (cells _ !! _) as [x|]; [|by intros ??? [= <- <- <-]].
    destruct (Stream.offer_data _ _ _) as [[[? ?] ?]|[]|]; [|done]. intros ??? [= <- <- <-]. apply frames_do. }
  destruct (decide (_ = FLAG_PING)); [by apply (refused_sent _ t o l1 [])|].
  apply refused_same. cbn [now].
  destruct (decide (_ = FLAG_PONG)); [by intros ??? [= <- <- <-]|].
  destruct (decide (_ = FLAG_WIN_UPDATE)); [|by intros ??? [= <- <- <-]].
  destruct (streams l1 !! _) as [m|]; [|by intros ??? [= <- <- <-]].
  destruct (cells _ !! _) as [x|]; [|by intros ??? [= <- <- <-]].
  destruct (Stream.update_send_window _ _). intros ??? [= <- <- <-]. apply frames_do.
Qed.
End Refused.

Section Wire.
Context {C : Ciphers} `{Bincode ConnectRequest}.
Context (c : MuxContext) (sref evtx : nat).

(** The loop of another world with the same streams and write context. *)
Definition follows (l l' : Loop) : Prop :=
  streams l = streams l' /\ EventLoop.wctx l = EventLoop.wctx l'.

Lemma fill_through v q v' q' x s :
  vbuf_ok v -> fill_vbuf false v q = (v', q', x) ->
  vbuf_ok v' /\ through {| vbuf := v'; queue := q'; wrote := wrote s |}
              = through {| vbuf := v; queue := q; wrote := wrote s |}.
Proof.
  intros Hv E. pose proof (fill_vbuf_ok false v q Hv) as Hf. rewrite E in Hf. destruct Hf as [Hv' Hf].
  split; [done|]. unfold through. cbn. by rewrite Hf.
Qed.

Lemma send_fill_through a J v q :
  vbuf_ok v ->
  let K := send_fill sref a J v q in
  ev_pc K = ev_pc J /\ follows (loop K) (loop J) /\ sender_ok (sender K) /\ send_pc K <> SRecv /\
  through (sender K) = through {| vbuf := v; queue := q; wrote := wrote (sender J) |}.
Proof.
  intros Hv. unfold send_fill. destruct (fill_vbuf false v q) as [[v' q'] x] eqn:E.
  destruct (fill_through v q v' q' x (sender J) Hv E) as [Hv' Ht]. by destruct x.
Qed.

Lemma send_got_through a J data q :
  sender_ok (sender J) -> (vlen (vbuf (sender J)) < 60)%nat -> queue (sender J) = data :: q ->
  let K := send_got sref a J data q in
  ev_pc K = ev_pc J /\ follows (loop K) (loop J) /\ sender_ok (sender K) /\ send_pc K <> SRecv /\
  through (sender K) = through (sender J).
Proof.
  intros Hv Hl Hq. unfold send_got. case_decide as Hd.
  - split_and!; try done. unfold through. cbn. by rewrite Hq, Hd.
  - destruct (push_accepts (vbuf (sender J)) data) as [Hv' Hc]; [done..|].
    destruct (send_fill_through a J _ q Hv') as (? & ? & ? & ? & ->). split_and!; try done.
    unfold through. cbn. rewrite Hc, Hq. cbn. by rewrite <- !app_assoc.
Qed.

(** What the steps of the other two tasks keep of the event task's view. *)
Definition keeps (J J' : Joined) : Prop :=
  ev_pc J' = ev_pc J /\ follows (loop J') (loop J) /\ through (sender J') = through (sender J) /\
  (is_over sref J = true -> is_over sref J' = true).

(** The sender waits for a frame only when it has nothing to write. *)
Definition send_ready (J : Joined) : Prop :=
  sender_ok (sender J) /\ (send_pc J = SRecv -> vlen (vbuf (sender J)) = 0%nat).

Lemma send_step_keeps a J J' :
  send_step sref a J = Some J' -> send_ready J -> send_ready J' /\ keeps J J'.
Proof.
  intros E [Hv Hl]. assert (is_over sref J = true -> is_over sref J' = true) as Hov
    by (intros Ho; by apply (send_step_rank sref a J J' E)).
  unfold send_ready, keeps.
  enough (ev_pc J' = ev_pc J /\ follows (loop J') (loop J) /\ sender_ok (sender J') /\
    through (sender J') = through (sender J) /\ (send_pc J' = SRecv -> vlen (vbuf (sender J')) = 0%nat))
    by (destruct_and!; auto 6).
  clear Hov. unfold Join.send_step in E. destruct (send_pc J) eqn:Hpc.
  - injection E as <-. destruct (is_over sref J); [done|]. case_decide as Hz.
    + destruct (queue (sender J)) as [|d q] eqn:Hq; [done|].
      destruct (send_got_through a J d q Hv) as (? & ? & ? & ? & ?); [lia|done|]. by split_and!.
    + destruct (send_fill_through a J _ (queue (sender J)) Hv) as (? & ? & ? & ? & Ht).
      split_and!; try done; rewrite Ht; by destruct (sender J).
  - destruct (queue (sender J)) as [|d q] eqn:Hq; [done|]. injection E as <-.
    destruct (send_got_through a J d q Hv) as (? & ? & ? & ? & ?); [rewrite Hl; [lia|done]|done|]. by split_and!.
  - destruct (written a) as [[n|err|]|]; [|injection E as <-; done..|done].
    destruct (write_buf_ok (vbuf (sender J)) n Hv) as (v' & l & k & Ew & Hv' & Hc & _). rewrite Ew in E.
    injection E as <-. assert (through {| vbuf := v'; queue := queue (sender J); wrote := wrote (sender J) ++ l |}
      = through (sender J)) as Ht by (unfold through; cbn; by rewrite Hc, <- !app_assoc).
    by case_decide.
  - destruct (push_event J _) as [[J1 ok]|] eqn:Ep; [|done]. apply push_event_spec in Ep as [_ ->].
    by injection E as <-.
  - done.
Qed.

Lemma through_push s q f :
  through {| vbuf := vbuf s; queue := q ++ [f]; wrote := wrote s |}
  = through {| vbuf := vbuf s; queue := q; wrote := wrote s |} ++ f.
Proof. unfold through. cbn. rewrite join_app. cbn. by rewrite app_nil_r, !app_assoc. Qed.

Lemma push_frame_through J f J' ok :
  push_frame J f = Some (J', ok) -> through (sender J') = through (sender J) ++ if ok then f else [].
Proof.
  intros E. apply push_frame_spec in E as [_ ->]. destruct ok; cbn [sender with_frames at_send].
  - rewrite through_push. by destruct (sender J).
  - rewrite app_nil_r. by destruct (sender J).
Qed.

Lemma recv_step_keeps a J J' :
  recv_step sref a J = Some J' -> send_ready J -> send_ready J' /\ keeps J J'.
Proof.
  intros E [Hv Hl]. assert (is_over sref J = true -> is_over sref J' = true) as Hov
    by (intros Ho; by apply (recv_step_rank sref a J J' E)).
  unfold send_ready, keeps.
  enough (ev_pc J' = ev_pc J /\ follows (loop J') (loop J) /\ sender_ok (sender J') /\
    through (sender J') = through (sender J) /\ (send_pc J' = SRecv -> vlen (vbuf (sender J')) = 0%nat))
    by (destruct_and!; auto 6).
  clear Hov. unfold Join.recv_step in E. destruct (recv_pc J) as [| |ev| | |].
  - injection E as <-. by destruct (is_over sref J).
  - destruct (read a) as [[ev|]|]; [by injection E as <-..|]. destruct (dropped J); [|done]. by injection E as <-.
  - destruct (push_event J _) as [[J1 ok]|] eqn:Ep; [|done]. apply push_event_spec in Ep as [_ ->].
    injection E as <-. by destruct ok.
  - destruct (push_event J _) as [[J1 ok]|] eqn:Ep; [|done]. apply push_event_spec in Ep as [_ ->].
    by injection E as <-.
  - destruct (push_frame J []) as [[J1 ok]|] eqn:Ep; [|done]. pose proof (push_frame_through _ _ _ _ Ep) as Ht.
    apply push_frame_spec in Ep as [_ ->]. injection E as <-. split_and!; try done.
    etrans; [exact Ht|]. by destruct ok; rewrite app_nil_r.
  - done.
Qed.

Lemma write_steps t (wr : io_result nat) J s acts r acts0 :
  send_pc J = SWrite ->
  match wr return partial (SessionTasks.Sender * list task_action * turn_end) with
  | Ok n => '(v, l, n) ← write_buf (vbuf (sender J)) n;
            Ok ({| vbuf := v; queue := queue (sender J); wrote := wrote (sender J) ++ l |}, acts0,
                if decide (n = 0)%nat then Stop else GoOn)
  | _ => Ok (sender J, acts0, Stop)
  end = Ok (s, acts, r) ->
  exists J', send_step sref {| a_now := t; taken := false; written := Some wr; read := None |} J = Some J' /\
    sender J' = s /\ send_pc J' = match r with GoOn => SHead | _ => SShutdown end.
Proof.
  intros Hpc. unfold Join.send_step. rewrite Hpc. cbn [written].
  destruct wr as [n|err|]; [|intros [= <- <- <-]; by eexists..].
  destruct (write_buf _ n) as [[[v l] k]|[]|]; [|done]. unmonad. intros [= <- <- <-].
  case_decide; by eexists.
Qed.

(** From the head of its loop the sender does what [send_turn] does, waiting
    for a frame or for the socket in between. *)
Lemma send_turn_steps a wr J s acts r :
  send_pc J = SHead ->
  send_turn {| t_closed := is_over sref J; t_arrivals := []; t_gone := false; t_now := a_now a; t_write := wr |}
    (sender J) = Ok (s, acts, r) ->
  exists J1, send_step sref a J = Some J1 /\
    (r = WaitFrame /\ send_pc J1 = SRecv /\ sender J1 = s \/
     r = Stop /\ send_pc J1 = SShutdown /\ sender J1 = s \/
     send_pc J1 = SWrite /\ exists J2,
       send_step sref {| a_now := a_now a; taken := false; written := Some wr; read := None |} J1 = Some J2 /\
       sender J2 = s /\ send_pc J2 = match r with GoOn => SHead | _ => SShutdown end).
Proof.
  intros Hpc. unfold send_turn, Join.send_step, send_got, send_fill. rewrite Hpc.
  cbn [t_closed t_arrivals t_gone t_now t_write vbuf queue wrote]. rewrite app_nil_r.
  destruct (is_over sref J); [intros [= <- <- <-]; eexists; split; [done|right; left; split_and!; [done..|cbn; by destruct (sender J)]]|].
  destruct (decide (vlen (vbuf (sender J)) = 0)%nat).
  - destruct (queue (sender J)) as [|d q] eqn:Hq.
    { intros [= <- <- <-]. eexists. split; [done|]. left. split_and!; [done..|]. rewrite <- Hq. by destruct (sender J). }
    destruct (decide (d = [])); [intros [= <- <- <-]; eexists; split; [done|by right; left]|].
    cbn [vbuf queue wrote]. destruct (fill_vbuf _ _ _) as [[v' q'] []];
      [intros [= <- <- <-]; eexists; split; [done|by right; left]|].
    intros E. eexists. split; [done|]. right; right. split; [done|]. by eapply write_steps.
  - destruct (fill_vbuf _ _ _) as [[v' q'] []];
      [intros [= <- <- <-]; eexists; split; [done|by right; left]|].
    intros E. eexists. split; [done|]. right; right. split; [done|]. by eapply write_steps.
Qed.

(** ** The event task of a run is [process_event] *)

Abbreviation event_loop := (event_loop (channel c) (tunnel_id c) sref evtx).
Abbreviation handle_event := (handle_event (channel c) (tunnel_id c) sref evtx).
Context (l0 : Loop).

Definition env_in (t : Z) (ok : bool) (w : World) : Env := {| now := t; send_ok := ok; others := fun _ => w |}.

(** The loop over some inputs has led where the event task is: between two
    events, or at the frame of an event whose sending is not decided. *)
Inductive traced (J : Joined) : Prop :=
  | traced_loop inputs l acts over :
      event_loop inputs l0 = Ok (l, acts, over) -> follows l (loop J) ->
      concat (frames acts) = through (sender J) ->
      match ev_pc J with
      | ERecv => over = false
      | EHead | EOffer => over = true -> is_over sref J = true
      | ESend _ => False
      | EClose | EDone => over = true
      end -> traced J
  | traced_send f inputs l acts ev t w l' acts' :
      ev_pc J = ESend f -> event_loop inputs l0 = Ok (l, acts, false) ->
      handle_event ev (env_in t true w) (with_world l w) = Ok (l', acts', Continue) ->
      waits_for acts' = ESend f -> frames acts' = [f] -> follows l' (loop J) ->
      concat (frames acts) = through (sender J) ->
      (is_closed (sstate (world l') sref) = true -> is_over sref J = true) -> traced J.

Lemma follows_trans a b d : follows a b -> follows b d -> follows a d.
Proof. intros [] []. split; congruence. Qed.

Lemma follows_sym a b : follows a b -> follows b a.
Proof. intros []. by split. Qed.

Lemma traced_keeps J J' : keeps J J' -> traced J -> traced J'.
Proof.
  intros (Hpc & Hf & Ht & Ho) [inputs l acts over E Hl Hc Hm|f inputs l acts ev t w l' acts' Hp E Eh Hw Hfr Hl Hc Hm].
  - eapply traced_loop; [exact E|by eapply follows_trans, follows_sym|congruence|].
    rewrite Hpc. destruct (ev_pc J); auto.
  - eapply traced_send; eauto; [congruence|by eapply follows_trans, follows_sym|congruence].
Qed.

Lemma event_loop_one inputs l acts i :
  event_loop inputs l0 = Ok (l, acts, false) ->
  event_loop (inputs ++ [i]) l0 = '(l', acts', over) ← event_loop [i] l; Ok (l', acts ++ acts', over).
Proof. intros E. by rewrite (event_loop_app _ _ _ _ _ _ _ _ _ _ E). Qed.

Lemma event_loop_open inputs l l' acts :
  event_loop inputs l = Ok (l', acts, false) -> is_closed (sstate (world l') sref) = false.
Proof.
  revert l acts. induction inputs as [|[[ev|] e] inputs IH]; intros l acts E; simpl in E;
    destruct (is_closed (sstate (world l) sref)) eqn:Hc; try done.
  - by injection E as <- <-.
  - destruct (EventLoop.handle_event _ _ _ _ ev e _) as [[[l1 a1] []]|[]|]; [|done..]. unmonad.
    destruct (event_loop inputs l1) as [[[l2 a2] o2]|[]|] eqn:El; [|done]. injection E as <- <- ->.
    by eapply IH.
Qed.

(** One more event, and how its handling ends. *)
Lemma event_loop_event inputs l acts ev e r :
  event_loop inputs l0 = Ok (l, acts, false) ->
  handle_event ev e (with_world l (others e (world l))) = Ok r ->
  event_loop (inputs ++ [(Some ev, e)]) l0 =
    Ok (r.1.1, acts ++ r.1.2, match r.2 with Continue => is_closed (sstate (world r.1.1) sref) | Break => true end).
Proof.
  intros E Eh. rewrite (event_loop_one _ _ _ _ E). cbn [EventLoop.event_loop].
  rewrite (event_loop_open _ _ _ _ E), Eh. destruct r as [[l' acts'] []]; [|done]. unmonad. cbn [fst snd].
  destruct (is_closed _); by rewrite app_nil_r.
Qed.

(** The epilogue follows when the loop is over, or is taken to be over
    because another task has closed the session. *)
Lemma traced_end J inputs l acts over :
  event_loop inputs l0 = Ok (l, acts, over) -> follows l (loop J) ->
  concat (frames acts) = through (sender J) -> traced (event_end sref evtx J).
Proof.
  intros E Hl Hc.
  assert (exists inputs l acts, event_loop inputs l0 = Ok (l, acts, true) /\ follows l (loop J) /\
    concat (frames acts) = through (sender J)) as (inputs' & l' & acts' & E' & Hl' & Hc').
  { destruct over; [by eauto 6|].
    exists (inputs ++ [(None, env_in 0 true (world l))]), (with_world l (world l)), acts. split; [|done].
    rewrite (event_loop_one _ _ _ _ E). cbn [EventLoop.event_loop]. rewrite (event_loop_open _ _ _ _ E).
    unmonad. by rewrite app_nil_r. }
  eapply traced_loop; [exact E'|..]; unfold event_end;
    destruct (close_streams _ _); cbn; [|done|done]. by destruct Hl'.
Qed.

Lemma follows_here l J : follows l (loop J) -> with_world l (world (loop J)) = loop J.
Proof. intros [Hs Hw]. unfold with_world. rewrite Hs, Hw. by destruct (loop J). Qed.

Lemma no_frames_no_send acts f : frames acts = [] -> waits_for acts <> ESend f.
Proof. induction acts as [|[[]| | |] acts IH]; simpl; (done || auto). Qed.

Lemma event_step_traced a J J' :
  event_step c sref evtx a J = Some J' -> panicked J' = false -> traced J -> traced J'.
Proof.
  intros E Hp [inputs l acts over El Hl Hc Hm|f inputs l acts ev t w l' acts' Hpc El Eh Hw Hfr Hl Hc Hm];
    unfold Join.event_step in E.
  - destruct (ev_pc J) eqn:Hpc; try done.
    + injection E as <-. destruct (is_over sref J) eqn:Ho; [by eapply traced_end|].
      eapply traced_loop; [exact El|exact Hl|exact Hc|]. cbn. destruct over; [by specialize (Hm eq_refl)|done].
    + destruct (events J) as [|ev q]; [done|]. subst over.
      assert (forall ok, handle_event ev {| now := a_now a; send_ok := ok; others := fun w => w |} (loop J)
        = handle_event ev (env_in (a_now a) ok (world (loop J)))
            (with_world l (world (loop J)))) as Henv by (intros ok; by rewrite follows_here).
      rewrite Henv in E.
      destruct (handle_event ev _ _) as [[[l1 acts1] nx]|[]|] eqn:Eh; injection E as <-; [|done].
      pose proof (handle_event_refused (channel c) (tunnel_id c) sref evtx ev (a_now a)
        (fun _ => world (loop J)) (with_world l (world (loop J)))) as Hr.
      fold (env_in (a_now a) true (world (loop J))) in Hr. rewrite Eh in Hr.
      destruct Hr as [[Hfr _]|(f & acts2 & -> & Hw & Hfr & _)].
      * pose proof (event_loop_event _ _ _ _ _ _ El Eh) as El1. cbn [fst snd] in El1.
        assert (concat (frames (acts ++ acts1)) = through (sender J)) as Hc1
          by (by rewrite frames_app, Hfr, app_nil_r).
        destruct nx; [|by eapply traced_end].
        eapply traced_loop; [exact El1|done|exact Hc1|]. pose proof (no_frames_no_send acts1) as Hno.
        pose proof (waits_for_past J acts1 l1 (try_sends evtx acts1 q) (events_open J)) as Hpast.
        unfold ev_past in Hpast. cbn in *. destruct (waits_for acts1) eqn:Hwf; try done; [|by eapply Hno].
        pose proof (waits_for_rank acts1) as Hr. rewrite Hwf in Hr. simpl in Hr. lia.
      * rewrite Hw. by eapply traced_send.
    + destruct (taken a); [|done]. injection E as <-. by eapply traced_loop.
    + destruct (push_frame J []) as [[J1 ok]|] eqn:Ep; [|done]. pose proof (push_frame_through _ _ _ _ Ep) as Ht.
      apply push_frame_spec in Ep as [_ ->]. injection E as <-. eapply traced_loop; [exact El|exact Hl| |exact Hm].
      rewrite Hc. etrans; [|symmetry; exact Ht]. by destruct ok; rewrite app_nil_r.
  - rewrite Hpc in E. destruct (push_frame J f) as [[J1 ok]|] eqn:Ep; [|done].
    pose proof (push_frame_through _ _ _ _ Ep) as Ht. apply push_frame_spec in Ep as [_ ->]. injection E as <-.
    destruct ok.
    + eapply traced_loop; [apply (event_loop_event _ _ _ _ _ _ El Eh)|exact Hl| |exact Hm].
      cbn [fst snd]. rewrite frames_app, concat_app, Hc, Hfr. cbn. rewrite app_nil_r. by symmetry.
    + pose proof (handle_event_refused (channel c) (tunnel_id c) sref evtx ev t (fun _ => w) (with_world l w)) as Hr.
      fold (env_in t true w) in Hr. rewrite Eh in Hr. destruct Hr as [[Hno _]|(f' & acts2 & _ & _ & _ & Hno & E2)];
        [congruence|].
      eapply traced_end; [apply (event_loop_event _ _ _ ev (env_in t false w) (l', acts2, Break) El E2)|exact Hl|].
      cbn [fst snd]. rewrite frames_app, Hno, app_nil_r, Hc. symmetry. etrans; [exact Ht|]. apply app_nil_r.
Qed.
End Wire.

(** What [process_event] starts from. *)
Definition started (c : MuxContext) (sref evtx : nat) (born : Z) (w : World) : World :=
  start_session (channel c) (tunnel_id c) evtx sref (max_alive_secs c) born w.

Lemma running_traced {C : Ciphers} `{Bincode ConnectRequest} c sref evtx J :
  running c sref evtx J ->
  panicked J = true \/ send_ready J /\
    exists born w, traced c sref evtx
      {| world := started c sref evtx born w; streams := ∅; EventLoop.wctx := wctx c |} J.
Proof.
  revert J. apply (invariant_rule _ _ (fun J => panicked J = true \/ send_ready J /\ exists born w,
    traced c sref evtx {| world := started c sref evtx born w; streams := ∅; EventLoop.wctx := wctx c |} J)).
  - intros ? (born & w & ->). right. split; [split; [apply (@q_new_ok VBuf VBuf_queue)|done]|]. exists born, w.
    apply (traced_loop _ _ _ _ _ [] {| world := started c sref evtx born w; streams := ∅; EventLoop.wctx := wctx c |}
             [] false); [|done..].
    cbn. unfold sstate. cbn. by rewrite lookup_insert_eq.
  - intros J1 J2 Hor Hs. destruct (panicked J2) eqn:Hp2; [by left|right].
    destruct Hs as [(w' & evs & Hw & _ & ->)|(a & Hp1 & Hs)].
    + destruct Hor as [Hp|(Hr & born & w & Ht)]; [simpl in Hp2; congruence|]. split; [done|].
      exists born, w. eapply traced_keeps; [|done]. split_and!; try done. intros Ho. etrans; [exact Hw|exact Ho].
    + destruct Hor as [?|(Hr & born & w & Ht)]; [congruence|]. destruct Hs as [E|[E|E]].
      * split; [|exists born, w; by eapply event_step_traced].
        assert (forall K, send_pc (event_end sref evtx K) = send_pc K /\ sender (event_end sref evtx K) = sender K) as Hend.
        { intros K. destruct (event_end_spec sref evtx K) as (l & q & -> & _). done. }
        assert (send_pc J2 = send_pc J1 /\ vbuf (sender J2) = vbuf (sender J1)) as [Hpc Hv].
        { unfold event_step in E. destruct (ev_pc J1).
          - injection E as <-. destruct (is_over sref J1); [by destruct (Hend J1) as [-> ->]|done].
          - destruct (events J1) as [|ev q]; [done|].
            destruct (handle_event _ _ _ _ ev _ _) as [[[l1 a1] []]|[]|]; injection E as <-; try done.
            set (K := at_event _ _ _ _ _). by destruct (Hend K) as [-> ->].
          - destruct (push_frame J1 f) as [[K ok]|] eqn:Ep; [|done]. apply push_frame_spec in Ep as [_ ->].
            injection E as <-. set (K := with_frames _ _). destruct ok; [done|]. by destruct (Hend K) as [-> ->].
          - destruct (taken a); [|done]. by injection E as <-.
          - destruct (push_frame J1 []) as [[K ok]|] eqn:Ep; [|done]. apply push_frame_spec in Ep as [_ ->].
            by injection E as <-.
          - done. }
        destruct Hr as [Hv1 Hl1]. unfold send_ready, sender_ok. by rewrite Hpc, Hv.
      * destruct (send_step_keeps sref a J1 J2 E Hr) as [Hr2 Hk]. split; [done|].
        exists born, w. by eapply traced_keeps.
      * destruct (recv_step_keeps sref a J1 J2 E Hr) as [Hr2 Hk]. split; [done|].
        exists born, w. by eapply traced_keeps.
Qed.

Lemma process_event_of_loop {C : Ciphers} `{Bincode ConnectRequest} channel tunnel_id sref evtx inputs w ctx l acts over :
  event_loop channel tunnel_id sref evtx inputs {| world := w; streams := ∅; EventLoop.wctx := ctx |} = Ok (l, acts, over) ->
  exists l' acts', process_event channel tunnel_id sref evtx inputs w ctx = Ok (l', acts', over) /\
    streams l' = streams l /\ concat (frames acts') = concat (frames acts).
Proof.
  intros E. unfold process_event. rewrite E. unmonad. destruct over; [|by do 2 eexists].
  pose proof (close_streams_frames (map_to_list (streams l))
    (set_sstate (world l) sref (set_closed (sstate (world l) sref)))) as Hf.
  destruct (close_streams _ _) as [w2 acts2]. simpl in Hf. do 2 eexists. split; [done|]. split; [done|].
  by rewrite !frames_app, Hf, concat_app, app_nil_r.
Qed.

(** What the session can only wait for: a stream whose reader does not take
    the data, or the socket. *)
Definition waits_outside (J : Joined) : Prop := ev_pc J = EOffer \/ send_pc J = SWrite.

(** ** Schedules for the witnesses *)

Module JoinDemo.
Inductive task := TEvent | TSend | TRecv.

Section Play.
Context {C : Ciphers} `{Bincode ConnectRequest} (c : MuxContext) (sref evtx : nat).

Definition step_of (t : task) (a : Answer) (J : Joined) : option Joined :=
  match t with
  | TEvent => event_step c sref evtx a J
  | TSend => send_step sref a J
  | TRecv => recv_step sref a J
  end.

Fixpoint play (l : list (task * Answer)) (J : Joined) : option Joined :=
  match l with
  | [] => Some J
  | (t, a) :: l => if panicked J then None else J ← step_of t a J; play l J
  end.

Lemma step_of_step t a J J' : panicked J = false -> step_of t a J = Some J' -> task_step c sref evtx a J J'.
Proof. intros Hp E. split; [done|]. destruct t; auto. Qed.

Lemma play_runs l J J' : play l J = Some J' -> runs c sref evtx (length l) J J'.
Proof.
  revert J. induction l as [|[t a] l IH]; intros J E; simpl in *; [injection E as <-; constructor|].
  destruct (panicked J) eqn:Hp; [done|]. destruct (step_of t a J) as [J1|] eqn:Es; [|done].
  eapply runs_task; [by eapply step_of_step|by apply IH].
Qed.

Lemma play_running l J J' : running c sref evtx J -> play l J = Some J' -> running c sref evtx J'.
Proof.
  revert J. induction l as [|[t a] l IH]; intros J Hr E; simpl in *; [congruence|].
  destruct (panicked J) eqn:Hp; [done|]. destruct (step_of t a J) as [J1|] eqn:Es; [|done].
  apply (IH J1); [|done]. destruct Hr as (J0 & H0 & Hr). exists J0. split; [done|].
  eapply rtc_r; [exact Hr|]. right. exists a. by eapply step_of_step.
Qed.
End Play.

Definition ctx : MuxContext :=
  {| channel := "rmux"; tunnel_id := 4; rctx := Toy.ctx; wctx := Toy.ctx; max_alive_secs := 0; recv_buf := [] |}.
Definition empty : World := {| manager := manager_new; sstates := ∅; cells := ∅ |}.
Definition begun : Joined := session_starts ctx 9 9 0 empty.
Definition quiet : Answer := pending 5.
(** The peer closes its side while the other tasks wait. *)
Definition eof : Answer := {| a_now := 5; taken := false; written := None; read := Some None |}.
Definition until_eof : list (task * Answer) :=
  [(TEvent, quiet); (TSend, quiet); (TRecv, quiet); (TRecv, eof)].
Definition the_end : list (task * Answer) :=
  [(TRecv, quiet); (TRecv, quiet); (TEvent, quiet); (TEvent, quiet); (TSend, quiet); (TSend, quiet)].
(** The peer sends a PING, the event task answers it, the sender writes. *)
Definition ping : Answer :=
  {| a_now := 5; taken := false; written := None; read := Some (Some (new_ping_event 0 false)) |}.
Definition room : Answer := {| a_now := 5; taken := false; written := Some (Ok 1000%nat); read := None |}.
Definition a_ping : list (task * Answer) :=
  [(TRecv, quiet); (TRecv, ping); (TRecv, quiet); (TEvent, quiet); (TEvent, quiet); (TEvent, quiet);
   (TSend, quiet); (TSend, room)].

Lemma begun_running {C : Ciphers} `{Bincode ConnectRequest} : running ctx 9 9 begun.
Proof. exists begun. split; [by exists 0, empty|done]. Qed.
End JoinDemo.

(** ** Properties *)

(** C7: the tasks of a session end together.  Once one of the three has left
    its loop the session is closed, and then, whatever events the rest of the
    program still puts into the channel and in whatever order the tasks run,
    they make at most 13 more steps; and at every point until all three have
    returned (or a panic has unwound them) one of them can go on by itself,
    unless the event task waits for the reader of a stream or the sender for
    the socket: full channels and the flag alone never block them. *)
Theorem session_winds_down {C : Ciphers} `{Bincode ConnectRequest} c sref evtx J n J' :
  running c sref evtx J -> panicked J = false -> ev_past J || send_past J || recv_past J = true ->
  runs c sref evtx n J J' ->
  is_over sref J' = true /\ (n <= 13)%nat /\
  (panicked J' = true \/ all_done J' = true \/
   (exists t J'', task_step c sref evtx (pending t) J' J'') \/ waits_outside J').
Proof.
  intros Hr Hp Hpast Hruns. destruct (running_inv _ _ _ _ Hr) as [?|HJ]; [congruence|].
  assert (is_over sref J = true) as Hov by (by rewrite (inv_over _ _ HJ)).
  destruct (runs_over _ _ _ _ _ _ Hruns Hov) as (Hov' & HJ' & Hn); [by right|].
  assert (rank J <= 13)%nat as Hrank.
  { unfold rank. rewrite Hp. unfold ev_past, send_past, recv_past in Hpast.
    destruct (ev_pc J), (send_pc J), (recv_pc J); simpl in *; (done || lia). }
  split; [done|]. split; [lia|].
  destruct (panicked J') eqn:Hp'; [by left|right]. destruct HJ' as [?|HJ']; [done|].
  assert (forall o1 : option Joined, o1 = None \/ exists K, o1 = Some K) as Hopt by (intros []; eauto).
  destruct (Hopt (event_step c sref evtx (pending 0) J')) as [E1|[K E1]];
    [|right; left; exists 0, K; split; auto].
  destruct (Hopt (send_step sref (pending 0) J')) as [E2|[K E2]];
    [|right; left; exists 0, K; split; auto].
  destruct (Hopt (recv_step sref (pending 0) J')) as [E3|[K E3]];
    [|right; left; exists 0, K; split; auto].
  unfold waits_outside. destruct (ev_pc J') eqn:Hpc; auto 6;
    destruct (send_pc J') eqn:Hps; auto 6; left; apply (no_progress c sref evtx J' HJ' Hov' E1 E2 E3); congruence.
Qed.

Lemma session_winds_down_witness :
  exists J J',
    JoinDemo.play (C := Toy.toy) (H := Session.Demo.req_bincode) JoinDemo.ctx 9 9 JoinDemo.until_eof
      JoinDemo.begun = Some J /\
    JoinDemo.play (C := Toy.toy) (H := Session.Demo.req_bincode) JoinDemo.ctx 9 9 JoinDemo.the_end J = Some J' /\
    is_over 9 J' = true /\
    option_map (fun r => match r with Ok w => get_channel_session_size "rmux" (manager w) | _ => 7%nat end)
      (process_rmux_session JoinDemo.ctx J') = Some 0%nat.
Proof.
  destruct (JoinDemo.play (C := Toy.toy) (H := Session.Demo.req_bincode) JoinDemo.ctx 9 9 JoinDemo.until_eof
              JoinDemo.begun) as [J|] eqn:E; [|vm_compute in E; discriminate E].
  destruct (JoinDemo.play (C := Toy.toy) (H := Session.Demo.req_bincode) JoinDemo.ctx 9 9 JoinDemo.the_end J)
    as [J'|] eqn:E'.
  2: { vm_compute in E. injection E as <-. vm_compute in E'. discriminate E'. }
  exists J, J'. split; [reflexivity|]. split; [exact E'|].
  pose proof (JoinDemo.play_running _ _ _ _ _ _ JoinDemo.begun_running E) as Hr.
  pose proof (JoinDemo.play_runs _ _ _ _ _ _ E') as Hruns.
  vm_compute in E. injection E as HJ. 
  split.
  - refine (proj1 (session_winds_down _ _ _ _ _ _ Hr _ _ Hruns)); subst J; reflexivity.
  - subst J. vm_compute in E'. injection E' as <-. vm_compute. reflexivity.
Defined.

(** C6: however the tasks of a session interleave, the event task is
    [process_event] and the socket gets what it sends.  For every state a
    session reaches there is a sequence of inputs on which [process_event]
    has the session's table of streams, has returned if the event task has
    left its loop, and has sent frames that are the bytes written so far
    followed by those still in the sender's buffer, its channel or waiting for
    room in it; and these are the encryptions, in order, of events that answer
    the inputs. *)
Theorem session_refines_process_event {C : Ciphers} `{Bincode ConnectRequest} c sref evtx J :
  running c sref evtx J -> panicked J = false -> ctx_ok (wctx c) ->
  exists born w inputs l acts over rest,
    process_event (channel c) (tunnel_id c) sref evtx inputs (started c sref evtx born w) (wctx c)
      = Ok (l, acts, over) /\
    streams l = streams (loop J) /\ (ev_past J = true -> over = true) /\
    concat (frames acts) = wrote (sender J) ++ rest /\
    exists evs ctx, evs `prefix_of` replies inputs /\
      encrypt_all (wctx c) evs [] = Ok (ctx, wrote (sender J) ++ rest).
Proof.
  intros Hr Hp Hok. destruct (running_traced _ _ _ _ Hr) as [?|(_ & born & w & Ht)]; [congruence|].
  assert (exists inputs l acts over rest,
    event_loop (channel c) (tunnel_id c) sref evtx inputs
      {| world := started c sref evtx born w; streams := ∅; EventLoop.wctx := wctx c |} = Ok (l, acts, over) /\
    streams l = streams (loop J) /\ (ev_past J = true -> over = true) /\
    concat (frames acts) = wrote (sender J) ++ rest) as (inputs & l & acts & over & rest & E & Hs & Ho & Hc).
  { destruct Ht as [inputs l acts over E [Hs _] Hc Hm|f inputs l acts ev t w' l' acts' Hpc E Eh _ Hfr [Hs _] Hc _].
    - exists inputs, l, acts, over. eexists. split_and!; [done..| |exact Hc].
      unfold ev_past. by destruct (ev_pc J).
    - eexists _, l', _, _, (contents (vbuf (sender J)) ++ mjoin (queue (sender J)) ++ f).
      split_and!; [apply (event_loop_event _ _ _ _ _ _ _ _ _ _ E Eh)|done|unfold ev_past; by rewrite Hpc|].
      cbn [fst snd]. rewrite frames_app, concat_app, Hc, Hfr. unfold through. cbn.
      by rewrite app_nil_r, <- !app_assoc. }
  destruct (process_event_of_loop _ _ _ _ _ _ _ _ _ _ E) as (l2 & acts2 & E2 & Hs2 & Hf2).
  exists born, w, inputs, l2, acts2, over, rest. split; [done|]. split; [congruence|]. split; [done|].
  split; [congruence|]. apply process_event_frames in E2 as (evs & ctx & Hpre & _ & Hen); [|done].
  exists evs, ctx. split; [done|]. congruence.
Qed.

Lemma session_refines_process_event_witness :
  exists J inputs w l acts over rest,
    JoinDemo.play (C := Toy.toy) (H := Session.Demo.req_bincode) JoinDemo.ctx 9 9 JoinDemo.a_ping
      JoinDemo.begun = Some J /\
    @process_event Toy.toy Session.Demo.req_bincode "rmux" 4 9 9 inputs w Toy.ctx = Ok (l, acts, over) /\
    concat (frames acts) = wrote (sender J) ++ rest /\ length (wrote (sender J)) = 8%nat.
Proof.
  destruct (JoinDemo.play (C := Toy.toy) (H := Session.Demo.req_bincode) JoinDemo.ctx 9 9 JoinDemo.a_ping
              JoinDemo.begun) as [J|] eqn:E; [|vm_compute in E; discriminate E].
  pose proof (JoinDemo.play_running _ _ _ _ _ _ JoinDemo.begun_running E) as Hr.
  assert (panicked J = false /\ length (wrote (sender J)) = 8%nat) as [Hp Hl].
  { vm_compute in E. injection E as <-. split; reflexivity. }
  destruct (session_refines_process_event JoinDemo.ctx 9 9 J Hr Hp (proj2 Toy.ctx_sync))
    as (born & w & inputs & l & acts & over & rest & E2 & _ & _ & Hc & _).
  exists J, inputs, (started JoinDemo.ctx 9 9 born w), l, acts, over, rest.
  split; [reflexivity|]. split; [exact E2|]. split; [exact Hc|exact Hl].
Defined.
