(* ===== verification/FlowControl.v ===== *)
(** * Flow control of one direction of a stream (src/src/rmux/stream.rs)

    The writer of one end, the reader of the other end and what travels
    between them: DATA bodies one way, window updates the other.  The steps
    are [poll_write], [poll_read] and [update_send_window] of [Stream]; the
    session tasks between the two ends deliver in order ([EventLoop],
    [Crypto]).  What becomes of a window report is a parameter of the step:
    the three outcomes of [Session.report_update_window].  The [try_send] of
    an update and the subtraction of the reported size are one step. *)
From stdpp Require Import prelude strings.
From Stdlib Require Import ZArith Lia.
From S2P Require Import Prelude Io Event Buf Stream.

Local Open Scope Z_scope.

(** A report is sent; acknowledged but not sent (the session has left the
    table); or refused (the event channel is full). *)
Inductive outcome := Sent | Lost | Refused.
#[export] Instance outcome_eq_dec : EqDecision outcome.
Proof. solve_decision. Defined.

(** The manager as the reader sees it: the outcome of its next report, and
    the update events it has queued. *)
#[export] Instance link_reporter : WindowReporter (outcome * list Event) :=
  fun _ _ sid win w =>
    match w.1 with
    | Sent => (true, (w.1, w.2 ++ [new_window_update_event sid win false]))
    | Lost => (true, w)
    | Refused => (false, w)
    end.

(** What the writing task does: it runs, it has seen an exhausted window and
    is about to leave its waker, or it waits to be woken. *)
Inductive task := Running | Observed | Waiting.

Record Link := {
  sender : Cell;
  writer : task;
  data : list (list byte);
  reader : MuxStreamReader;
  rstate : MuxStreamState;
  updates : list Event;
  (** ghosts: what was accepted from the writer and handed to the reader *)
  written : list byte;
  got : list byte;
}.

Definition window (l : Link) : Z := send_buf_window (state (sender l)).
Definition unreported (l : Link) : Z := recv_buf_size (rstate l).

(** A link between two new ends of stream [sid]. *)
Definition link_new (sid : Z) : Link :=
  let st := {| channel := ""; session_id := 0; stream_id := sid; send_buf_window := 128 * 1024;
               recv_buf_size := 0; closed := false; total_recv_bytes := 0;
               total_send_bytes := 0; born_time := 0 |} in
  {| sender := {| state := st; io_state := {| waker := None; io_data_tx := None; io_data_rx := None |} |};
     writer := Running; data := []; reader := {| rx := 0%nat; recv_buf := [] |}; rstate := st;
     updates := []; written := []; got := [] |}.

Section Steps.
(** Writes are of at most [chunk] bytes; reads take [size] bytes; [allowed]
    are the outcomes of reports that happen; [atomic]: nothing comes between
    the check of the window and the storing of the waker in [poll_write]. *)
Context (chunk size : nat) (allowed : outcome -> Prop) (atomic : Prop).

Definition woken (effs : list effect) (t : task) : task :=
  if decide (effs = []) then t else match t with Waiting => Running | _ => t end.

Inductive step : Link -> Link -> Prop :=
  | step_write l buf c ev :
      writer l = Running -> (0 < length buf <= chunk)%nat ->
      poll_write (sender l) buf 0%nat (Ready (Ok tt)) (Ok tt) = (Ready (Ok (length buf)), c, Some ev) ->
      step l {| sender := c; writer := Running; data := data l ++ [body ev]; reader := reader l;
                rstate := rstate l; updates := updates l; written := written l ++ buf; got := got l |}
  | step_block l buf c :
      writer l = Running -> atomic ->
      poll_write (sender l) buf 0%nat (Ready (Ok tt)) (Ok tt) = (Pending, c, None) ->
      step l {| sender := c; writer := Waiting; data := data l; reader := reader l;
                rstate := rstate l; updates := updates l; written := written l; got := got l |}
  | step_observe l buf c :
      writer l = Running -> ~ atomic ->
      poll_write (sender l) buf 0%nat (Ready (Ok tt)) (Ok tt) = (Pending, c, None) ->
      step l {| sender := sender l; writer := Observed; data := data l; reader := reader l;
                rstate := rstate l; updates := updates l; written := written l; got := got l |}
  | step_park l :
      writer l = Observed ->
      step l {| sender := {| state := state (sender l);
                             io_state := set_waker (io_state (sender l)) (Some 0%nat) |};
                writer := Waiting; data := data l; reader := reader l;
                rstate := rstate l; updates := updates l; written := written l; got := got l |}
  | step_read l o n r s ups buf effs :
      allowed o ->
      poll_read (reader l) (rstate l) (o, updates l) (replicate size x00)
        (match data l with b :: _ => Ready (Some b) | [] => Pending end)
        = Ok (Ready (Ok n), r, s, ups, buf, effs) ->
      step l {| sender := sender l; writer := writer l;
                data := if decide (recv_buf (reader l) <> []) then data l else drop 1 (data l);
                reader := r; rstate := s; updates := ups.2; written := written l;
                got := got l ++ take n buf |}
  | step_update l u us c effs :
      updates l = u :: us ->
      update_send_window (sender l) (len (header u)) = (c, effs) ->
      step l {| sender := c; writer := woken effs (writer l); data := data l; reader := reader l;
                rstate := rstate l; updates := us; written := written l; got := got l |}.

Definition link_reachable (sid : Z) : Link -> Prop := reachable step (eq (link_new sid)).

(** Nothing travels, and the reader holds nothing back. *)
Definition quiescent (l : Link) : Prop :=
  data l = [] /\ recv_buf (reader l) = [] /\ updates l = [].
End Steps.

(** ** Credit *)

Definition total (l : list (list byte)) : Z := Z.of_nat (length (mjoin l)).
Definition credits (us : list Event) : Z := foldr (fun u z => len (header u) + z) 0 us.

(** The credit of the link: what the writer may send, what travels, what
    the reader holds back or has not reported, and what updates give back. *)
Definition credit (l : Link) : Z :=
  window l + total (data l) + Z.of_nat (length (recv_buf (reader l))) + unreported l
  + credits (updates l).

Lemma total_app a b : total (a ++ b) = total a + total b.
Proof. unfold total. rewrite join_app, length_app. lia. Qed.

Lemma total_cons x l : total (x :: l) = Z.of_nat (length x) + total l.
Proof. unfold total. simpl. rewrite length_app. lia. Qed.

Lemma credits_app a b : credits (a ++ b) = credits a + credits b.
Proof. induction a; simpl; lia. Qed.

Lemma credits_cons u us : credits (u :: us) = len (header u) + credits us.
Proof. done. Qed.

(** ** What the steps do *)

Lemma poll_write_sent c buf n c' ev :
  poll_write c buf 0%nat (Ready (Ok tt)) (Ok tt) = (Ready (Ok n), c', Some ev) ->
  closed (state c) = false /\ 0 <= send_buf_window (state c) /\ n = length buf /\
  c' = {| state := add_sent (state c) n; io_state := io_state c |} /\ body ev = buf.
Proof.
  unfold poll_write. destruct (closed (state c)); [done|]. case_decide; [done|].
  intros [= <- <- <-]. split_and!; [done|lia|done|done|done].
Qed.

Lemma poll_write_pending c buf c' :
  poll_write c buf 0%nat (Ready (Ok tt)) (Ok tt) = (Pending, c', None) ->
  closed (state c) = false /\ send_buf_window (state c) < 0 /\
  c' = {| state := state c; io_state := set_waker (io_state c) (Some 0%nat) |}.
Proof.
  unfold poll_write. destruct (closed (state c)); [done|]. case_decide; [|done].
  by intros [= <-].
Qed.

(** The three outcomes of a report, on a count that does not wrap. *)
Lemma inc_recv_link s n o us :
  0 <= recv_buf_size s -> recv_buf_size s + Z.of_nat n < 2 ^ 24 ->
  let '(s', ups) := inc_recv_buf_window s n ((o, us) : outcome * list Event) in
  closed s' = closed s /\ stream_id s' = stream_id s /\ 0 <= recv_buf_size s' /\
  (o <> Refused -> recv_buf_size s' < 32768) /\
  (ups.2 = us \/ exists u, ups.2 = us ++ [u] /\ 0 <= len (header u)) /\
  recv_buf_size s' + credits ups.2 <= recv_buf_size s + Z.of_nat n + credits us /\
  (o <> Lost -> recv_buf_size s' + credits ups.2 = recv_buf_size s + Z.of_nat n + credits us).
Proof.
  intros H0 Hn. assert (0 <= FLAG_WIN_UPDATE < 256) as Hf by done.
  set (t := recv_buf_size s + Z.of_nat n) in *.
  assert (forall sid r, len (header (new_window_update_event sid (wrap 32 t) r)) = t) as Hlen.
  { intros sid r. unfold new_window_update_event; cbn [header].
    rewrite len_get, (wrap_small 32), Z.mod_small by (done || lia). done. }
  unfold inc_recv_buf_window. cbn [recv_buf_size set_recv].
  rewrite (swrap_small 32 (Z.of_nat n)), (swrap_small 32 (_ + _)) by lia. fold t.
  unfold min_report_window. case_decide as Ht; [|simpl; split_and!; try done; (by left) || lia].
  unfold report_update_window, link_reporter. cbn [fst snd].
  destruct o; cbn [recv_buf_size set_recv total_recv_bytes closed stream_id fst snd].
  - rewrite swrap_small by lia. split_and!; try done; [lia|lia| | |].
    + right. exists (new_window_update_event (stream_id s) (wrap 32 t) false). split; [done|].
      rewrite Hlen. lia.
    + rewrite credits_app. cbn [credits foldr]. rewrite Hlen. lia.
    + intros _. rewrite credits_app. cbn [credits foldr]. rewrite Hlen. lia.
  - rewrite swrap_small by lia. split_and!; try done; [lia|lia|by left|lia].
  - split_and!; try done; [lia|by left].
Qed.

Lemma update_link c u c' effs :
  closed (state c) = false -> 0 <= u ->
  - 2 ^ 31 <= send_buf_window (state c) -> send_buf_window (state c) + u < 2 ^ 31 -> u < 2 ^ 31 ->
  update_send_window c u = (c', effs) ->
  closed (state c') = false /\ send_buf_window (state c') = send_buf_window (state c) + u /\
  stream_id (state c') = stream_id (state c) /\
  ((0 < send_buf_window (state c') /\ waker (io_state c) <> None /\ effs <> []) \/
   (effs = [] /\ io_state c' = io_state c /\
    (0 < send_buf_window (state c') -> waker (io_state c) = None))).
Proof.
  intros Hc Hu Hlo Hhi Hu31 E. unfold update_send_window in E.
  cbn [send_buf_window set_window] in E. rewrite (swrap_small 32 u), swrap_small in E by lia.
  case_decide; [destruct (waker (io_state c)) eqn:Ew|]; injection E as <- <-; simpl;
    split_and!; try done; [left|right|right]; split_and!; done || lia || congruence.
Qed.

(** One read: from the reader's buffer, or the next chunk of the channel. *)
Lemma read_link size l o n r s ups buf effs :
  closed (rstate l) = false -> Forall (fun b => b <> []) (data l) ->
  poll_read (reader l) (rstate l) (o, updates l) (replicate size x00)
    (match data l with b :: _ => Ready (Some b) | [] => Pending end)
    = Ok (Ready (Ok n), r, s, ups, buf, effs) ->
  exists b rest,
    recv_buf (reader l) ++ mjoin (data l) = b ++ rest /\ n = length b /\ take n buf = b /\
    (s, ups) = inc_recv_buf_window (rstate l) n (o, updates l) /\
    rest = recv_buf r ++ mjoin (if decide (recv_buf (reader l) <> []) then data l else drop 1 (data l)) /\
    (recv_buf (reader l) <> [] -> recv_buf r = []) /\
    (recv_buf (reader l) = [] -> exists c q, data l = c :: q /\ recv_buf r = drop size c).
Proof.
  intros Hc Hne E. destruct (decide (recv_buf (reader l) <> [])) as [Hb|Hb].
  - rewrite poll_read_buffered in E by done. rewrite length_replicate in E.
    case_decide; [|done]. destruct (inc_recv_buf_window _ _ _) as [s1 w1] eqn:Ei.
    injection E as <- <- <- <- <- _. exists (recv_buf (reader l)), (mjoin (data l)).
    split_and!; try done. all: by rewrite ?take_app_length.
  - assert (recv_buf (reader l) = []) as Hr by (destruct (recv_buf (reader l)); [done|by destruct Hb]).
    destruct (data l) as [|c q].
    { unfold poll_read in E. rewrite Hc, decide_False in E by done. done. }
    apply Forall_cons in Hne as [Hc0 _].
    rewrite poll_read_chunk in E by done.
    rewrite length_replicate in E. set (k := min (length c) size) in *.
    destruct (inc_recv_buf_window _ _ _) as [s1 w1] eqn:Ei. injection E as <- <- <- <- <- _.
    assert (length (take k c) = k) as Hk by (rewrite length_take; unfold k; lia).
    exists (take k c), (drop k c ++ mjoin q). rewrite Hr. simpl. rewrite drop_0.
    split_and!; try done.
    + by rewrite app_assoc, take_drop.
    + rewrite <- Hk at 1. by rewrite take_app_length.
    + intros _. exists c, q. split; [done|]. unfold k.
      destruct (decide (length c <= size)%nat); [rewrite !drop_ge by lia; done|].
      by rewrite Nat.min_r by lia.
Qed.

(** ** The invariant *)

Section Invariant.
Context (chunk size : nat) (allowed : outcome -> Prop) (atomic : Prop).
(** Chunks fit the reader twice ([Stream.reader_delivers]) and stay far from
    the width of the counters. *)
Hypothesis Hchunk : (chunk <= 2 * size)%nat.
Hypothesis Hwidth : Z.of_nat chunk <= 2 ^ 23.
Abbreviation step := (step chunk size allowed atomic).

Record inv (l : Link) : Prop := {
  inv_open : closed (state (sender l)) = false /\ closed (rstate l) = false;
  inv_window : - Z.of_nat chunk <= window l;
  inv_unreported : 0 <= unreported l /\ (~ allowed Refused -> unreported l < 32768);
  inv_updates : Forall (fun u => 0 <= len (header u)) (updates l);
  inv_data : Forall (fun b => b <> [] /\ (length b <= chunk)%nat) (data l);
  inv_buf : (length (recv_buf (reader l)) <= size)%nat;
  inv_credit : credit l <= 131072 /\ (~ allowed Lost -> credit l = 131072);
  inv_bytes : written l = got l ++ recv_buf (reader l) ++ mjoin (data l);
  inv_wait : atomic -> writer l <> Observed /\
    (writer l = Waiting -> window l <= 0 /\ waker (io_state (sender l)) <> None);
}.

Lemma inv_new sid : inv (link_new sid).
Proof. split; unfold credit, window, unreported, total; simpl; try done; try lia; split; done || lia. Qed.

Lemma credits_nonneg us : Forall (fun u => 0 <= len (header u)) us -> 0 <= credits us.
Proof. induction 1; simpl; lia. Qed.

Lemma credits_in us u : Forall (fun u => 0 <= len (header u)) us -> u ∈ us -> len (header u) <= credits us.
Proof.
  induction 1 as [|x us Hx Hus IH]; intros Hu; [by apply elem_of_nil in Hu|].
  pose proof (credits_nonneg us Hus). apply elem_of_cons in Hu as [->|Hu]; simpl; [lia|].
  specialize (IH Hu). lia.
Qed.

(** All parts of the credit but the window are nonnegative. *)
Lemma inv_bounds l : inv l ->
  window l <= 131072 /\ total (data l) + Z.of_nat (length (recv_buf (reader l))) + unreported l
    + credits (updates l) <= 131072 + Z.of_nat chunk /\
  0 <= total (data l) /\ 0 <= credits (updates l).
Proof.
  intros Hi. pose proof (credits_nonneg _ (inv_updates l Hi)).
  destruct (inv_credit l Hi) as [Hc _]. destruct (inv_unreported l Hi) as [Hu _].
  pose proof (inv_window l Hi). assert (0 <= total (data l)) by (unfold total; lia).
  unfold credit in Hc. lia.
Qed.

Lemma inv_write l buf c ev :
  inv l -> writer l = Running -> (0 < length buf <= chunk)%nat ->
  poll_write (sender l) buf 0%nat (Ready (Ok tt)) (Ok tt) = (Ready (Ok (length buf)), c, Some ev) ->
  inv {| sender := c; writer := Running; data := data l ++ [body ev]; reader := reader l;
         rstate := rstate l; updates := updates l; written := written l ++ buf; got := got l |}.
Proof.
  intros Hi Hrun Hn E. apply poll_write_sent in E as (Hc & Hw & _ & -> & Hb).
  pose proof (inv_bounds l Hi) as (Hw1 & _). fold (window l) in Hw.
  assert (send_buf_window (add_sent (state (sender l)) (length buf)) = window l - Z.of_nat (length buf)) as Hwin.
  { unfold add_sent; cbn [send_buf_window]. fold (window l).
    rewrite (swrap_small 32 (Z.of_nat _)), swrap_small by lia. done. }
  destruct Hi. split; unfold credit, window, unreported in *; cbn [sender state writer data reader rstate updates written got io_state] in *;
    rewrite ?Hwin; try done.
  - lia.
  - apply Forall_app. split; [done|]. repeat constructor; rewrite Hb; [|lia].
    intros ->. simpl in Hn. lia.
  - rewrite total_app, total_cons, Hb. unfold total. simpl. unfold total in *.
    destruct inv_credit0 as [H1 H2]. split; [|intros Ha; specialize (H2 Ha)]; lia.
  - rewrite inv_bytes0, join_app, Hb. simpl. by rewrite app_nil_r, <- !app_assoc.
Qed.

Lemma inv_read l o n r s ups buf effs :
  inv l -> allowed o ->
  poll_read (reader l) (rstate l) (o, updates l) (replicate size x00)
    (match data l with b :: _ => Ready (Some b) | [] => Pending end)
    = Ok (Ready (Ok n), r, s, ups, buf, effs) ->
  inv {| sender := sender l; writer := writer l;
         data := if decide (recv_buf (reader l) <> []) then data l else drop 1 (data l);
         reader := r; rstate := s; updates := ups.2; written := written l;
         got := got l ++ take n buf |}.
Proof.
  intros Hi Ho E. pose proof (inv_bounds l Hi) as (_ & Hb & Ht & Hcr).
  apply read_link in E as (b & rest & Hsplit & -> & -> & Hinc & Hrest & Hbuf & Hchk);
    [|apply Hi|eapply Forall_impl; [apply Hi|by intros ? []]].
  set (data' := if decide _ then _ else _) in *.
  assert (Z.of_nat (length b) + Z.of_nat (length (recv_buf r)) + total data' =
          Z.of_nat (length (recv_buf (reader l))) + total (data l)) as Hsum.
  { apply (f_equal length) in Hsplit. rewrite Hrest, !length_app in Hsplit. unfold total. lia. }
  assert (0 <= total data') as Ht' by (unfold total; lia).
  destruct (inv_unreported l Hi) as [Hu _]. unfold unreported in *.
  pose proof (inc_recv_link (rstate l) (length b) o (updates l) Hu ltac:(lia)) as Hs.
  rewrite <- Hinc in Hs. destruct Hs as (Hcl & _ & Hpos & Href & Hups & Hle & Heq).
  destruct Hi. split; unfold credit, window, unreported in *;
    cbn [sender state writer data reader rstate updates written got io_state] in *; try done.
  - by rewrite Hcl.
  - split; [done|]. intros Hnr. apply Href. by intros ->.
  - destruct Hups as [->|(u & -> & Hlen)]; [done|]. apply Forall_app; split; [done|by constructor].
  - unfold data'. case_decide; [done|by apply Forall_drop].
  - destruct (decide (recv_buf (reader l) = [])) as [He|Hne].
    + destruct (Hchk He) as (c & q & Hq & ->). rewrite Hq in inv_data0.
      apply Forall_cons in inv_data0 as [[_ ?] _]. rewrite length_drop. lia.
    + rewrite Hbuf by done. simpl. lia.
  - destruct inv_credit0 as [H1 H2]. split; [lia|]. intros Hnl. specialize (H2 Hnl).
    assert (o <> Lost) as Hol by (by intros ->). specialize (Heq Hol). lia.
  - rewrite inv_bytes0, Hsplit, Hrest. by rewrite <- !app_assoc.
Qed.

Lemma inv_update l u us c effs :
  inv l -> updates l = u :: us -> update_send_window (sender l) (len (header u)) = (c, effs) ->
  inv {| sender := c; writer := woken effs (writer l); data := data l; reader := reader l;
         rstate := rstate l; updates := us; written := written l; got := got l |}.
Proof.
  intros Hi Hu E. pose proof (inv_bounds l Hi) as (Hw & Hb & Ht & Hcr).
  pose proof (inv_window l Hi) as Hwin. pose proof (inv_updates l Hi) as Hups.
  rewrite Hu in Hups, Hcr, Hb. rewrite credits_cons in Hcr, Hb.
  apply Forall_cons in Hups as [Hu0 Hups].
  pose proof (credits_nonneg us Hups) as Hc0. destruct (inv_unreported l Hi) as [Hun _].
  unfold window in Hw, Hwin.
  apply update_link in E as (Hc & Hw' & _ & Hwake); [|apply Hi|lia..].
  destruct Hi. rewrite Hu in *. split; unfold credit, window, unreported in *;
    cbn [sender state writer data reader rstate updates written got io_state] in *; try done.
  - by destruct inv_open0.
  - lia.
  - rewrite Hw', Hu, credits_cons in *. destruct inv_credit0 as [H1 H2].
    split; [|intros Ha; specialize (H2 Ha)]; lia.
  - intros Hat. destruct (inv_wait0 Hat) as [Hno Hwt]. unfold woken.
    destruct Hwake as [(Hpos & Hwk & Hne)|(-> & Hio & Himp)].
    + rewrite decide_False by done. by destruct (writer l).
    + rewrite decide_True by done. split; [done|]. intros Hwr. destruct (Hwt Hwr) as [Hle Hwk].
      rewrite Hio. split; [|done]. destruct (Z.lt_ge_cases 0 (send_buf_window (state c))); [|done].
      by destruct Hwk; apply Himp.
Qed.

Lemma inv_step l l' : inv l -> step l l' -> inv l'.
Proof.
  intros Hi Hs. destruct Hs.
  - by eapply inv_write.
  - apply poll_write_pending in H1 as (_ & Hw & ->). destruct Hi; split; try done.
    intros _. split; [done|]. intros _. split; [unfold window; simpl; lia|done].
  - destruct Hi; split; try done.
  - destruct Hi as [? ? ? ? ? ? ? ? Hwait]; split; try done. intros Hat.
    by destruct (Hwait Hat) as [? _].
  - by eapply inv_read.
  - by eapply inv_update.
Qed.

Lemma inv_reachable sid l : link_reachable chunk size allowed atomic sid l -> inv l.
Proof. apply invariant_rule; [intros ? <-; apply inv_new|apply inv_step]. Qed.
End Invariant.

(** ** Progress *)

Section Progress.
Context (chunk size : nat) (allowed : outcome -> Prop) (atomic : Prop).
Hypothesis Hchunk : (chunk <= 2 * size)%nat.
Hypothesis Hwidth : Z.of_nat chunk <= 2 ^ 23.
Hypothesis Hpos : (0 < chunk)%nat.
Abbreviation step := (step chunk size allowed atomic).
Abbreviation inv := (inv chunk size allowed atomic).

(** What is left to read and to take back. *)
Definition pending_work (l : Link) : nat :=
  4 * length (data l) + (if decide (recv_buf (reader l) = []) then 0 else 2) + length (updates l).

Lemma drain_step l o :
  inv l -> allowed o -> ~ quiescent l ->
  exists l', step l l' /\ (pending_work l' < pending_work l)%nat /\
    (o <> Sent -> updates l = [] -> updates l' = []) /\
    (updates l = [] -> writer l' = writer l /\ sender l' = sender l) /\ (writer l = Observed -> writer l' = Observed).
Proof.
  intros Hi Ho Hq. destruct (updates l) as [|u us] eqn:Hu; last first.
  { destruct (update_send_window (sender l) (len (header u))) as [c effs] eqn:E.
    eexists. split; [by eapply step_update|]. split; [|split_and!; try done].
    - unfold pending_work; simpl. rewrite Hu. simpl. lia.
    - simpl. unfold woken. case_decide; [done|]. by intros ->. }
  assert (exists n r s ups buf effs,
    poll_read (reader l) (rstate l) (o, updates l) (replicate size x00)
      (match data l with b :: _ => Ready (Some b) | [] => Pending end)
      = Ok (Ready (Ok n), r, s, ups, buf, effs)) as (n & r & s & ups & buf & effs & E).
  { destruct (inv_open _ _ _ _ _ Hi) as [_ Hc]. pose proof (inv_buf _ _ _ _ _ Hi) as Hb.
    destruct (decide (recv_buf (reader l) = [])) as [He|Hne].
    - destruct (data l) as [|b q] eqn:Hd; [by destruct Hq|].
      pose proof (inv_data _ _ _ _ _ Hi) as Hdat. rewrite Hd in Hdat.
      apply Forall_cons in Hdat as [[Hb0 _] _]. rewrite poll_read_chunk by done.
      destruct (inc_recv_buf_window _ _ _). by do 6 eexists.
    - rewrite poll_read_buffered by done. rewrite length_replicate, decide_True by done.
      destruct (inc_recv_buf_window _ _ _). by do 6 eexists. }
  pose proof (step_read chunk size allowed atomic l o n r s ups buf effs Ho E) as Hstep.
  eexists. split; [exact Hstep|]. clear Hstep.
  pose proof (inv_bounds chunk size allowed atomic Hchunk l Hi) as (_ & Hbd & Ht & Hcr).
  apply read_link in E as (b & rest & Hsplit & -> & _ & Hinc & _ & Hbuf & Hchk);
    [|apply Hi|eapply Forall_impl; [apply Hi|by intros ? []]].
  assert (Z.of_nat (length b) <= total (data l) + Z.of_nat (length (recv_buf (reader l)))) as Hlb.
  { apply (f_equal length) in Hsplit. rewrite !length_app in Hsplit. unfold total. lia. }
  assert (ups.2 = [] \/ o = Sent /\ exists u, ups.2 = [u]) as Hups.
  { unfold inc_recv_buf_window in Hinc. case_decide; [|injection Hinc as _ ->; by left].
    unfold report_update_window, link_reporter in Hinc. simpl in Hinc. rewrite Hu in Hinc.
    destruct o; injection Hinc as _ ->; [right; split; [done|by eexists]|by left|by left]. }
  unfold pending_work; cbn [data reader updates writer]. rewrite Hu. split_and!.
  - assert (length ups.2 <= 1)%nat as Hl1 by (destruct Hups as [->|(_ & u & ->)]; simpl; lia).
    simpl. destruct (decide (recv_buf (reader l) = [])) as [He|Hne].
    + rewrite decide_False by tauto. destruct (Hchk He) as (c & q & -> & _). simpl.
      rewrite drop_0. case_decide; lia.
    + rewrite (decide_True (P := recv_buf (reader l) <> [])) by done.
      rewrite (decide_True (P := recv_buf r = [])) by auto. lia.
  - intros Hos _. by destruct Hups as [|[]].
  - done.
  - done.
Qed.

(** Reads and updates alone bring the link to rest. *)
Lemma drains l o :
  inv l -> allowed o ->
  exists l', rtc step l l' /\ inv l' /\ quiescent l' /\
    (o <> Sent -> updates l = [] -> writer l' = writer l /\ sender l' = sender l) /\
    (writer l = Observed -> writer l' = Observed).
Proof.
  remember (pending_work l) as n eqn:Hn. revert l Hn.
  induction (lt_wf n) as [n _ IH]. intros l -> Hi Ho.
  assert (Decision (quiescent l)) as Hdec by (unfold quiescent; apply _).
  destruct (decide (quiescent l)) as [Hq|Hq]; [exists l; split_and!; try done|].
  destruct (drain_step l o Hi Ho Hq) as (l1 & Hs & Hlt & Hups & Hwr & Hobs).
  destruct (IH _ Hlt l1 eq_refl) as (l2 & Hr & Hi2 & Hq2 & Hwr2 & Hobs2); [by eapply inv_step|done|].
  exists l2. split_and!; [by eapply rtc_l|done|done| |auto].
  intros Hos Hu. destruct (Hwr Hu) as [<- <-]. auto.
Qed.

(** A running writer uses the window up. *)
Lemma fill_window l :
  inv l -> writer l = Running -> closed (state (sender l)) = false ->
  exists l', rtc step l l' /\ inv l' /\ writer l' = Running /\ window l' < 0 /\
    updates l' = updates l.
Proof.
  remember (Z.to_nat (window l + 1)) as n eqn:Hn. revert l Hn.
  induction (lt_wf n) as [n _ IH]. intros l -> Hi Hr Hc.
  destruct (Z.lt_ge_cases (window l) 0) as [Hw|Hw]; [by exists l; split_and!|].
  set (buf := replicate chunk x00).
  assert (length buf = chunk) as Hl by apply length_replicate.
  assert (exists c ev, poll_write (sender l) buf 0%nat (Ready (Ok tt)) (Ok tt)
    = (Ready (Ok (length buf)), c, Some ev)) as (c & ev & E).
  { unfold poll_write. rewrite Hc, decide_False by (unfold window in Hw; lia). by do 2 eexists. }
  pose proof (poll_write_sent _ _ _ _ _ E) as (_ & _ & _ & Hcell & _).
  assert ((0 < length buf <= chunk)%nat) as Hlen by lia.
  pose proof (step_write chunk size allowed atomic l buf c ev Hr Hlen E) as Hs.
  pose proof (inv_step chunk size allowed atomic Hchunk Hwidth _ _ Hi Hs) as Hi1.
  set (l1 := {| sender := c; writer := Running |}) in *.
  assert (window l1 = window l - Z.of_nat chunk) as Hw1.
  { unfold window, l1. simpl. rewrite Hcell. simpl. rewrite Hl. fold (window l).
    pose proof (inv_bounds _ _ _ _ Hchunk l Hi) as (? & _).
    rewrite (swrap_small 32 (Z.of_nat _)), swrap_small by lia. done. }
  destruct (IH (Z.to_nat (window l1 + 1))) with (l := l1) as (l2 & Hrt & H2 & H3 & H4 & H5);
    [lia|done|done|done|apply Hi1|].
  exists l2. split_and!; try done. by eapply rtc_l.
Qed.

(** A waiting writer with nothing under way waits forever. *)
Lemma stuck l l' : inv l -> quiescent l -> writer l = Waiting -> ~ step l l'.
Proof.
  intros Hi (Hd & Hb & Hu) Hw Hs. destruct Hs; try congruence.
  unfold poll_read in H0. destruct (inv_open _ _ _ _ _ Hi) as [_ Hc].
  rewrite Hc, Hb, Hd in H0. rewrite decide_False in H0 by tauto. done.
Qed.
End Progress.

(** A new link brought to the point where the writer finds its window used up. *)
Lemma exhausted chunk size allowed atomic sid :
  (chunk <= 2 * size)%nat -> Z.of_nat chunk <= 2 ^ 23 -> (0 < chunk)%nat ->
  exists l, link_reachable chunk size allowed atomic sid l /\ inv chunk size allowed atomic l /\
    writer l = Running /\ window l < 0 /\ updates l = [] /\
    forall buf, exists c, poll_write (sender l) buf 0%nat (Ready (Ok tt)) (Ok tt) = (Pending, c, None).
Proof.
  intros Hc Hw Hp.
  destruct (fill_window chunk size allowed atomic Hc Hw Hp (link_new sid)) as (l & Hr & Hi & ? & Hneg & Hu);
    [by apply inv_new|done|done|].
  exists l. split_and!; try done; [by eexists; split|].
  intros buf. unfold poll_write. destruct (inv_open _ _ _ _ _ Hi) as [-> _].
  rewrite decide_True by (unfold window in Hneg; lia). by eexists.
Qed.

(** The buffers of [relay] (tunnel/relay.rs) on either side. *)
Definition chunk_size : nat := Z.to_nat 8192.

(** ** Properties *)

(** C10: flow control is sound.  In every reachable state of a link, whatever
    becomes of the window reports, the bytes handed to the reader, held by it
    and under way are exactly the bytes accepted from the writer, in order;
    the send window never falls below minus one chunk, so at most 128 KiB and
    one chunk are under way or unread; and the credit never exceeds 128 KiB,
    and is exactly that if no report is ever lost (a report acknowledged but
    not sent, which the code allows, takes its credit away for good). *)
Theorem flow_control_sound chunk size allowed atomic sid l :
  (chunk <= 2 * size)%nat -> Z.of_nat chunk <= 2 ^ 23 ->
  link_reachable chunk size allowed atomic sid l ->
  written l = got l ++ recv_buf (reader l) ++ mjoin (data l) /\
  - Z.of_nat chunk <= window l <= 131072 /\
  Z.of_nat (length (recv_buf (reader l) ++ mjoin (data l))) <= 131072 + Z.of_nat chunk /\
  0 <= unreported l /\ (length (recv_buf (reader l)) <= size)%nat /\
  credit l <= 131072 /\ (~ allowed Lost -> credit l = 131072).
Proof.
  intros Hc Hw Hr. apply inv_reachable in Hr as Hi; [|done..].
  destruct (inv_bounds _ _ _ _ Hc l Hi) as (H1 & H2 & H3 & H4).
  destruct (inv_unreported _ _ _ _ _ Hi) as [H5 _]. pose proof (inv_window _ _ _ _ _ Hi).
  rewrite length_app. unfold total in *. split_and!; try apply Hi; done || lia.
Qed.

(** A link at work: 40000 bytes written and read, their report under way, and
    three more bytes written. *)
Module FlowDemo.
Definition big : nat := Z.to_nat 40000.
Definition write (buf : list byte) (l : Link) : Link :=
  match poll_write (sender l) buf 0%nat (Ready (Ok tt)) (Ok tt) with
  | (_, c, Some ev) =>
      {| sender := c; writer := Running; data := data l ++ [body ev]; reader := reader l;
         rstate := rstate l; updates := updates l; written := written l ++ buf; got := got l |}
  | _ => l
  end.
Definition polled (size : nat) (l : Link) :=
  poll_read (reader l) (rstate l) (Sent, updates l) (replicate size x00)
    (match data l with b :: _ => Ready (Some b) | [] => Pending end).
Definition read (size : nat) (l : Link) : Link :=
  match polled size l with
  | Ok (Ready (Ok n), r, s, ups, buf, _) =>
      {| sender := sender l; writer := writer l;
         data := if decide (recv_buf (reader l) <> []) then data l else drop 1 (data l);
         reader := r; rstate := s; updates := ups.2; written := written l; got := got l ++ take n buf |}
  | _ => l
  end.
Definition writes_all (buf : list byte) (l : Link) : bool :=
  match writer l, poll_write (sender l) buf 0%nat (Ready (Ok tt)) (Ok tt) with
  | Running, (Ready (Ok n), _, Some _) => Nat.eqb n (length buf)
  | _, _ => false
  end.
Definition reads_some (size : nat) (l : Link) : bool :=
  match polled size l with Ok (Ready (Ok _), _, _, _, _, _) => true | _ => false end.

Lemma write_step chunk size atomic buf l :
  writes_all buf l = true -> (0 < length buf <= chunk)%nat -> step chunk size (eq Sent) atomic l (write buf l).
Proof.
  unfold writes_all, write. intros Hw Hb. destruct (writer l) eqn:Hr; [|done..].
  destruct (poll_write _ _ _ _ _) as [[[[n|e|]|] c] [ev|]] eqn:E; try done.
  apply Nat.eqb_eq in Hw as ->. by apply (step_write chunk size (eq Sent) atomic l buf c ev).
Qed.
Lemma read_step chunk size atomic l : reads_some size l = true -> step chunk size (eq Sent) atomic l (read size l).
Proof.
  unfold reads_some, read. destruct (polled size l) as [[[[[[[[n|e|]|] r] st] ups] buf] effs]|[]|] eqn:E; try done.
  intros _. by apply (step_read chunk size (eq Sent) atomic l Sent n r st ups buf effs).
Qed.

Definition link : Link := write [x61; x62; x63] (read big (write (replicate big x60) (link_new 7))).
Lemma link_runs atomic : link_reachable big big (eq Sent) atomic 7 link.
Proof.
  exists (link_new 7). split; [done|].
  apply (rtc_l _ _ (write (replicate big x60) (link_new 7)));
    [apply write_step; [vm_compute; reflexivity|rewrite length_replicate; unfold big; lia]|].
  apply (rtc_l _ _ (read big (write (replicate big x60) (link_new 7))));
    [apply read_step; vm_compute; reflexivity|].
  apply (rtc_l _ _ link); [apply write_step; [vm_compute; reflexivity|unfold big; simpl length; lia]|apply rtc_refl].
Qed.
End FlowDemo.

Lemma flow_control_sound_witness :
  let l := FlowDemo.link in
  written l = got l ++ recv_buf (reader l) ++ mjoin (data l) /\
  window l = 91069 /\ total (data l) = 3 /\ unreported l = 0 /\ credits (updates l) = 40000 /\ credit l = 131072.
Proof.
  intros l.
  destruct (flow_control_sound FlowDemo.big FlowDemo.big (eq Sent) True 7 l) as (Hb & _ & _ & _ & _ & _ & Hcr);
    [unfold FlowDemo.big; lia|unfold FlowDemo.big; lia|apply FlowDemo.link_runs|].
  split; [exact Hb|]. split; [vm_compute; reflexivity|]. split; [vm_compute; reflexivity|].
  split; [vm_compute; reflexivity|]. split; [vm_compute; reflexivity|]. apply Hcr. discriminate.
Defined.

(** C11: when every report is sent, the flow never stalls.  If nothing comes
    between the window check and the storing of the waker in [poll_write],
    then from every reachable state reads and updates lead to a state where
    all that was written has been handed to the reader, the writer is not
    waiting, its window is above 96 KiB, and any write is accepted. *)
Theorem flow_never_stalls chunk size (atomic : Prop) sid l buf :
  (chunk <= 2 * size)%nat -> Z.of_nat chunk <= 2 ^ 23 -> atomic ->
  link_reachable chunk size (eq Sent) atomic sid l -> (0 < length buf <= chunk)%nat ->
  exists l' c ev, rtc (step chunk size (eq Sent) atomic) l l' /\
    got l' = written l' /\ writer l' = Running /\ 98304 < window l' /\
    poll_write (sender l') buf 0%nat (Ready (Ok tt)) (Ok tt)
      = (Ready (Ok (length buf)), c, Some ev).
Proof.
  intros Hc Hw Hat Hr Hbuf. assert (0 < chunk)%nat as Hp by lia.
  apply inv_reachable in Hr as Hi; [|done..].
  destruct (drains chunk size (eq Sent) atomic Hc Hw Hp l Sent Hi eq_refl)
    as (l' & Hrt & Hi' & (Hd & Hb & Hu) & _).
  destruct (inv_unreported _ _ _ _ _ Hi') as [_ Hun]. specialize (Hun ltac:(done)).
  destruct (inv_credit _ _ _ _ _ Hi') as [_ Hcr]. specialize (Hcr ltac:(done)).
  assert (98304 < window l') as Hwin.
  { unfold credit in Hcr. rewrite Hd, Hb, Hu in Hcr. unfold total in Hcr. simpl in Hcr. lia. }
  destruct (inv_wait _ _ _ _ _ Hi' Hat) as [Hno Hwait].
  assert (writer l' = Running) as Hrun.
  { destruct (writer l'); [done|done|]. destruct (Hwait eq_refl) as [? _]. lia. }
  pose proof (inv_bytes _ _ _ _ _ Hi') as Hbytes. rewrite Hb, Hd, !app_nil_r in Hbytes.
  assert (exists c ev, poll_write (sender l') buf 0%nat (Ready (Ok tt)) (Ok tt)
    = (Ready (Ok (length buf)), c, Some ev)) as (c & ev & E).
  { unfold poll_write. destruct (inv_open _ _ _ _ _ Hi') as [-> _].
    rewrite decide_False by (unfold window in Hwin; lia). by do 2 eexists. }
  by exists l', c, ev.
Qed.

Lemma flow_never_stalls_witness :
  exists l' c ev, rtc (step FlowDemo.big FlowDemo.big (eq Sent) True) FlowDemo.link l' /\
    got l' = written l' /\ writer l' = Running /\ 98304 < window l' /\
    poll_write (sender l') [x61] 0%nat (Ready (Ok tt)) (Ok tt) = (Ready (Ok 1%nat), c, Some ev).
Proof.
  apply (flow_never_stalls FlowDemo.big FlowDemo.big True 7 FlowDemo.link [x61]);
    [unfold FlowDemo.big; lia|unfold FlowDemo.big; lia|exact I|apply FlowDemo.link_runs|unfold FlowDemo.big; simpl; lia].
Defined.

(** A report that is not sent can stall the stream for good.  If a report
    may be refused (the session's event channel is full) or acknowledged but
    lost (the session has been retired from the table), the link has a
    reachable state where all data has been read, the writer waits for a
    window that no update will open again, and nothing can happen any more. *)
Theorem unsent_report_stalls chunk size (allowed : outcome -> Prop) (atomic : Prop) o sid :
  (chunk <= 2 * size)%nat -> Z.of_nat chunk <= 2 ^ 23 -> (0 < chunk)%nat ->
  atomic -> allowed o -> o <> Sent ->
  exists l, link_reachable chunk size allowed atomic sid l /\
    got l = written l /\ writer l = Waiting /\ window l < 0 /\
    forall l', ~ step chunk size allowed atomic l l'.
Proof.
  intros Hc Hw Hp Hat Ho Hos.
  destruct (exhausted chunk size allowed atomic sid Hc Hw Hp)
    as (l & (l0 & H0 & Hr) & Hi & Hrun & Hneg & Hu & Hpend).
  destruct (Hpend [x00]) as [c E].
  pose proof (step_block chunk size allowed atomic l [x00] c Hrun Hat E) as Hs.
  apply inv_step in Hs as Hi1; [|done..]. set (l1 := {| sender := c; writer := Waiting |}) in *.
  destruct (drains chunk size allowed atomic Hc Hw Hp l1 o Hi1 Ho) as (l2 & Hr2 & Hi2 & Hq & Hwr & _).
  destruct (Hwr Hos Hu) as [Hwait Hsnd].
  exists l2. split; [exists l0; split; [done|]; etrans; [exact Hr|]; by eapply rtc_l|].
  pose proof Hq as (Hd & Hb & _). pose proof (inv_bytes _ _ _ _ _ Hi2) as Hbytes.
  rewrite Hb, Hd, !app_nil_r in Hbytes. split_and!; [done|done| |].
  - apply poll_write_pending in E as (_ & _ & ->). unfold window. by rewrite Hsnd.
  - intros l'. by eapply stuck.
Qed.

Lemma unsent_report_stalls_witness :
  exists l, link_reachable chunk_size chunk_size (fun o => o = Sent \/ o = Refused) True 7 l /\
    got l = written l /\ writer l = Waiting /\ window l < 0 /\
    forall l', ~ step chunk_size chunk_size (fun o => o = Sent \/ o = Refused) True l l'.
Proof.
  apply (unsent_report_stalls chunk_size chunk_size (fun o => o = Sent \/ o = Refused) True Refused 7);
    [unfold chunk_size; lia|unfold chunk_size; lia|unfold chunk_size; lia|exact I|right; reflexivity|
     discriminate].
Defined.

(** The wake-up that is lost.  [poll_write] checks the window and stores
    its waker in two steps.  When the updates come between the two, the
    writer waits although its window is open by more than 96 KiB, all data has
    been read, and nothing is left that would wake it. *)
Theorem wakeup_lost chunk size (allowed : outcome -> Prop) (atomic : Prop) sid :
  (chunk <= 2 * size)%nat -> Z.of_nat chunk <= 2 ^ 23 -> (0 < chunk)%nat ->
  ~ atomic -> (forall o, allowed o <-> o = Sent) ->
  exists l, link_reachable chunk size allowed atomic sid l /\
    got l = written l /\ writer l = Waiting /\ 98304 < window l /\
    forall l', ~ step chunk size allowed atomic l l'.
Proof.
  intros Hc Hw Hp Hat Ho.
  destruct (exhausted chunk size allowed atomic sid Hc Hw Hp)
    as (l & (l0 & H0 & Hr) & Hi & Hrun & Hneg & Hu & Hpend).
  destruct (Hpend [x00]) as [c E].
  pose proof (step_observe chunk size allowed atomic l [x00] c Hrun Hat E) as Hs.
  apply inv_step in Hs as Hi1; [|done..]. set (l1 := {| sender := sender l; writer := Observed |}) in *.
  destruct (drains chunk size allowed atomic Hc Hw Hp l1 Sent Hi1 ltac:(by apply Ho))
    as (l2 & Hr2 & Hi2 & Hq & _ & Hobs).
  specialize (Hobs eq_refl). pose proof (step_park chunk size allowed atomic l2 Hobs) as Hs2.
  apply inv_step in Hs2 as Hi3; [|done..].
  destruct Hq as (Hd & Hb & Hus).
  eexists. split; [exists l0; split; [done|]; etrans; [exact Hr|]; eapply rtc_l; [exact Hs|];
                   eapply rtc_r; [exact Hr2|exact Hs2]|].
  pose proof (inv_bytes _ _ _ _ _ Hi2) as Hbytes. rewrite Hb, Hd, !app_nil_r in Hbytes.
  split_and!; [done|done| |].
  - destruct (inv_unreported _ _ _ _ _ Hi2) as [_ Hun]. specialize (Hun ltac:(rewrite Ho; done)).
    destruct (inv_credit _ _ _ _ _ Hi2) as [_ Hcr]. specialize (Hcr ltac:(rewrite Ho; done)).
    unfold credit in Hcr. rewrite Hd, Hb, Hus in Hcr. unfold total in Hcr. simpl in Hcr.
    unfold window in *. simpl. lia.
  - intros l'. apply stuck; [exact Hi3|done|done].
Qed.

Lemma wakeup_lost_witness :
  exists l, link_reachable chunk_size chunk_size (eq Sent) False 7 l /\
    got l = written l /\ writer l = Waiting /\ 98304 < window l /\
    forall l', ~ step chunk_size chunk_size (eq Sent) False l l'.
Proof.
  apply (wakeup_lost chunk_size chunk_size (eq Sent) False 7);
    [unfold chunk_size; lia|unfold chunk_size; lia|unfold chunk_size; lia|intros []|].
  intros o. split; intros Ho; symmetry; exact Ho.
Defined.
