(* ===== verification/Life.v ===== *)
(** * The life of a multiplexed stream, abstractly

    What the two ends of a session promise about one stream id, as a small
    machine of its own: the stream as each end sees it ([Side]), the steps of
    an end ([side_step]) and of both ([life_step]), and its invariant
    ([life]): the stages from the creation to the closing.  [System] shows
    that the event tasks implement it. *)
From stdpp Require Import prelude.

Inductive kind := Syn | Fin.
#[export] Instance kind_eq_dec : EqDecision kind.
Proof. solve_decision. Defined.

(** What concerns one stream at one end: whether it is in the table of the
    event task or waits on the pending list; the SYN and FIN events of it in
    the event channel, from the wire and from this end, those still waiting
    for room, and those on the wire to the other end; and whether the tasks of
    this end hold the stream, and so may close it. *)
Record Side := {
  tab : bool;
  pend : bool;
  rin : list kind;
  lin : list kind;
  wait : list kind;
  kn : bool;
  out : list kind;
}.

Definition blank : Side :=
  {| tab := false; pend := false; rin := []; lin := []; wait := []; kn := false; out := [] |}.

Abbreviation fins := (Forall (eq Fin)).

(** What one end does: it handles the first event of its channel, local or
    remote, or a local SYN of another stream; a SYN gets into the channel; a
    task closes the stream.  Closing a stream queues FINs ([own]) when there
    is room. *)
Inductive side_step : Side -> Side -> Prop :=
  | local_syn t p r l w k o :
      side_step {| tab := t; pend := p; rin := r; lin := Syn :: l; wait := w; kn := k; out := o |}
                {| tab := t || p; pend := false; rin := r; lin := l; wait := w; kn := k; out := o ++ [Syn] |}
  | handed_over t p r l w k o :
      side_step {| tab := t; pend := p; rin := r; lin := l; wait := w; kn := k; out := o |}
                {| tab := t || p; pend := false; rin := r; lin := l; wait := w; kn := k; out := o |}
  | local_fin t p r l own w k o : fins own ->
      side_step {| tab := t; pend := p; rin := r; lin := Fin :: l; wait := w; kn := k; out := o |}
                {| tab := false; pend := p; rin := r; lin := l ++ own; wait := w; kn := k; out := o ++ [Fin] |}
  | remote_syn t p r l w k o :
      side_step {| tab := t; pend := p; rin := Syn :: r; lin := l; wait := w; kn := k; out := o |}
                {| tab := true; pend := p; rin := r; lin := l; wait := w; kn := true; out := o |}
  | remote_fin t p r l own w k o : fins own ->
      side_step {| tab := t; pend := p; rin := Fin :: r; lin := l; wait := w; kn := k; out := o |}
                {| tab := false; pend := p; rin := r; lin := l ++ own; wait := w; kn := k; out := o |}
  | enqueue t p r l w1 w2 k o :
      side_step {| tab := t; pend := p; rin := r; lin := l; wait := w1 ++ Syn :: w2; kn := k; out := o |}
                {| tab := t; pend := p; rin := r; lin := l ++ [Syn]; wait := w1 ++ w2; kn := true; out := o |}
  | user_close t p r l w o :
      side_step {| tab := t; pend := p; rin := r; lin := l; wait := w; kn := true; out := o |}
                {| tab := t; pend := p; rin := r; lin := l ++ [Fin]; wait := w; kn := true; out := o |}.

(** The head of a wire arrives in the event channel of the other end. *)
Definition sent (x : Side) (ks : list kind) : Side :=
  {| tab := tab x; pend := pend x; rin := rin x; lin := lin x; wait := wait x; kn := kn x; out := ks |}.
Definition got (x : Side) (k : kind) : Side :=
  {| tab := tab x; pend := pend x; rin := rin x ++ [k]; lin := lin x; wait := wait x; kn := kn x; out := out x |}.

(** The stream is opened by the end [x]; it is created on the pending list. *)
Definition created : Side :=
  {| tab := false; pend := true; rin := []; lin := []; wait := [Syn]; kn := false; out := [] |}.

(** The end that opens the stream first, the other second. *)
Inductive life_tick : Side * Side -> Side * Side -> Prop :=
  | step_owner x x' y : side_step x x' -> life_tick (x, y) (x', y)
  | step_peer x y y' : side_step y y' -> life_tick (x, y) (x, y')
  | step_to_peer x y k ks : out x = k :: ks -> life_tick (x, y) (sent x ks, got y k)
  | step_to_owner x y k ks : out y = k :: ks -> life_tick (x, y) (got x k, sent y ks).

Inductive life_step : Side * Side -> Side * Side -> Prop :=
  | step_birth : life_step (blank, blank) (created, blank)
  | step_tick v v' : life_tick v v' -> life_step v v'.

(** The stages of a life: not yet created; its SYN waiting for the channel, in
    the channel, on its way; known to both ends.  Under way to the peer are at
    most one SYN, first, and FINs. *)
Inductive life : Side -> Side -> Prop :=
  | life_unborn : life blank blank
  | life_waiting t p : t || p = true ->
      life {| tab := t; pend := p; rin := []; lin := []; wait := [Syn]; kn := false; out := [] |} blank
  | life_queued t p fs : t || p = true -> fins fs ->
      life {| tab := t; pend := p; rin := []; lin := Syn :: fs; wait := []; kn := true; out := [] |} blank
  | life_sent t fs r o fa : fins fs -> fins fa -> r ++ o = Syn :: fa -> (t = true <-> fa = []) ->
      life {| tab := t; pend := false; rin := []; lin := fs; wait := []; kn := true; out := o |}
           {| tab := false; pend := false; rin := r; lin := []; wait := []; kn := false; out := [] |}
  | life_known t t' ro lo oo rp lp op :
      fins (rp ++ oo) -> fins (ro ++ op) -> fins lo -> fins lp ->
      (rp ++ oo <> [] -> t = false) -> (ro ++ op <> [] -> t' = false) ->
      (t' = true -> t = true \/ rp ++ oo <> []) -> (t = true -> t' = true \/ ro ++ op <> []) ->
      life {| tab := t; pend := false; rin := ro; lin := lo; wait := []; kn := true; out := oo |}
           {| tab := t'; pend := false; rin := rp; lin := lp; wait := []; kn := true; out := op |}.

(** The invariant of a life. *)
Lemma fins_snoc l : fins l -> fins (l ++ [Fin]).
Proof. intros H. apply Forall_app. by split; [|constructor]. Qed.

Lemma fins_no_syn (l1 l2 : list kind) : fins (l1 ++ Syn :: l2) -> False.
Proof. rewrite Forall_app, Forall_cons. by intros (_ & [=] & _). Qed.

(** A list of FINs that starts with a SYN, or holds one, is none. *)
Ltac no_syn :=
  match goal with
  | H : fins (Syn :: _) |- _ => by destruct (fins_no_syn [] _ H)
  | H : fins (_ ++ Syn :: _) |- _ => by destruct (fins_no_syn _ _ H)
  | H : fins ((Syn :: _) ++ _) |- _ => by destruct (fins_no_syn [] _ H)
  | H : [] = _ ++ _ :: _ |- _ => by destruct (app_cons_not_nil _ _ _ H)
  | H : _ ++ _ :: _ = [] |- _ => by destruct (app_cons_not_nil _ _ _ (eq_sym H))
  end.

Lemma blank_step x : side_step blank x -> x = blank.
Proof. unfold blank. inversion 1; subst; try done; no_syn. Qed.

Lemma life_owner x x' y : life x y -> side_step x x' -> life x' y.
Proof.
  destruct 1 as [|t p Htp|t p fs Htp Hfs|t fs r o fa Hfs Hfa Ho Ht|t t' ro lo oo rp lp op H1 H2 H3 H4 H5 H6 H7 H8].
  - intros ->%blank_step. constructor.
  - inversion 1 as [| | | | |t0 p0 r0 l0 w1 w2 k0 o0|]; subst; simpl.
    + constructor. by rewrite orb_false_r.
    + destruct w1 as [|k w1]; simplify_eq/=; [by constructor|no_syn].
  - inversion 1; subst; try no_syn; simpl.
    + eapply (life_sent _ _ [] [Syn] []); [done|constructor|done|done].
    + constructor; [by rewrite orb_false_r|done].
    + constructor; [done|by apply fins_snoc].
  - inversion 1; subst; try no_syn; simpl.
    + by econstructor; [| | |rewrite orb_false_r].
    + apply Forall_cons in Hfs as [_ Hfs].
      eapply (life_sent _ _ _ _ (fa ++ [Fin])); [by apply Forall_app|by apply fins_snoc| |].
      * by rewrite app_assoc, Ho.
      * split; [done|]. by intros [_ [=]]%app_nil.
    + econstructor; [by apply fins_snoc|done..].
  - inversion 1; subst; try no_syn; simpl.
    + constructor; try done; by rewrite orb_false_r.
    + apply Forall_cons in H3 as [_ H3]. constructor; try done.
      * rewrite app_assoc. by apply fins_snoc.
      * by apply Forall_app.
      * intros Ht'. right. rewrite app_assoc. by intros [_ [=]]%app_nil.
    + apply Forall_cons in H2 as [_ H2]. constructor; try done.
      * by apply Forall_app.
      * intros Hne. by rewrite (H6 ltac:(done)).
      * by rewrite (H6 ltac:(done)).
    + constructor; try done. by apply fins_snoc.
Qed.

Lemma life_peer x y y' : life x y -> side_step y y' -> life x y'.
Proof.
  destruct 1 as [|t p Htp|t p fs Htp Hfs|t fs r o fa Hfs Hfa Ho Ht|t t' ro lo oo rp lp op H1 H2 H3 H4 H5 H6 H7 H8];
    [by intros ->%blank_step; constructor..| |].
  - inversion 1; subst; try no_syn; simpl; [by econstructor| |].
    + injection Ho as <-. constructor; try done.
      * by intros Hne; destruct t; [destruct Ht as [Ht _]; destruct Hne; apply Ht|].
      * intros _. destruct t; [by left|right]. intros E. by apply Ht in E.
      * by left.
    + discriminate Ho.
  - inversion 1; subst; try no_syn; simpl.
    + constructor; try done; by rewrite orb_false_r.
    + apply Forall_cons in H4 as [_ H4]. constructor; try done.
      * rewrite app_assoc. by apply fins_snoc.
      * by apply Forall_app.
      * intros Ht. right. rewrite app_assoc. by intros [_ [=]]%app_nil.
    + apply Forall_cons in H1 as [_ H1]. constructor; try done.
      * by apply Forall_app.
      * intros Hne. by rewrite (H5 ltac:(done)).
      * by rewrite (H5 ltac:(done)).
    + constructor; try done. by apply fins_snoc.
Qed.

Definition alive (v : Side * Side) : Prop := life v.1 v.2.

Lemma life_preserved v v' : alive v -> life_step v v' -> alive v'.
Proof.
  unfold alive. intros Hl Hs. revert Hl. destruct Hs as [|v v' Ht]; [by constructor|]. destruct Ht as [x x' y Hs|x y y' Hs|x y k ks Ho|x y k ks Ho]; simpl; intros Hl.
  - exact (life_owner x x' y Hl Hs).
  - exact (life_peer x y y' Hl Hs).
  - destruct Hl as [|t p Htp|t p fs Htp Hfs|t fs r o fa Hfs Hfa Hr Ht|]; simplify_eq/=.
    + unfold sent, got; simpl. eapply life_sent; [done|done| |done]. by rewrite <- app_assoc.
    + unfold sent, got; simpl. constructor; try done; by rewrite <- app_assoc.
  - destruct Hl; simplify_eq/=. unfold sent, got; simpl. constructor; try done; by rewrite <- app_assoc.
Qed.

(** A stream that was not created stays so. *)
Lemma unborn_tick v : life_tick (blank, blank) v -> v = (blank, blank).
Proof. inversion_clear 1; try done; f_equal; by apply blank_step. Qed.

(** While the ends disagree on a stream, the event that settles it is under
    way: what is meant by agreement. *)
Definition settles (x y : Side) : Prop :=
  (tab x = true -> tab y = false -> Syn ∈ wait x ++ lin x ++ rin y ++ out x \/ Fin ∈ rin x ++ out y) /\
  (tab y = true -> tab x = false -> Fin ∈ rin y ++ out x).

Lemma fins_elem l : fins l -> l <> [] -> Fin ∈ l.
Proof. intros H Hne. destruct H as [|k l <-]; [done|by constructor]. Qed.

Lemma life_settles x y : life x y -> settles x y.
Proof.
  unfold settles. destruct 1 as [|t p Htp|t p fs Htp Hfs|t fs r o fa Hfs Hfa Hr Ht|
    t t' ro lo oo rp lp op H1 H2 H3 H4 H5 H6 H7 H8]; simpl; split; try done.
  - left. set_solver.
  - left. set_solver.
  - left. rewrite Hr. set_solver.
  - intros -> ->. right. apply fins_elem; [done|]. by destruct (H8 eq_refl).
  - intros -> ->. apply fins_elem; [done|]. by destruct (H7 eq_refl).
Qed.

(** A SYN that arrives finds its stream unknown, and only the end that did not
    open the stream receives one. *)
Lemma fins_syn l l' : fins (l ++ l') -> Syn ∈ l -> False.
Proof. rewrite Forall_app, Forall_forall. intros [H _] Hin. by apply H in Hin. Qed.

Lemma life_syn x y : life x y -> (Syn ∈ rin y -> tab y = false) /\ ~ Syn ∈ rin x.
Proof.
  destruct 1; simpl; split; try done; intros Hin;
    first [by apply elem_of_nil in Hin | exfalso; eapply fins_syn; [|exact Hin]; eassumption].
Qed.
