(* ===== verification/System.v ===== *)
(** * Two ends of a session (src/src/rmux/session.rs on both sides)

    The event tasks of the two ends of a session, composed: each end has its
    loop, its event channel, the producers that wait for room in it, and a
    wire to the other end (whose delivery is [SessionTasks.session_link_delivers]).
    The steps are those of [handle_event] and [create_stream]; the other
    tasks of an end may send any event the code lets them send.

    The contract is the machine of [Life]: every step of the two ends is, for
    every stream id, a step of that machine or none. *)
From stdpp Require Import prelude gmap strings.
From Stdlib Require Import ZArith Lia.
From S2P Require Import Prelude Io Event Crypto Stream Session EventLoop SessionTasks Life.

Local Open Scope Z_scope.

(** ** The two ends *)

Inductive role := Client | Server.
#[export] Instance role_eq_dec : EqDecision role.
Proof. solve_decision. Defined.
Definition other (r : role) : role := match r with Client => Server | Server => Client end.

(** [waiting]: SYN events whose [create_stream] awaits room in the channel;
    [known]: the streams the tasks of this end hold. *)
Record End := { loop : Loop; inbox : list Event; waiting : list Event; known : gset Z }.
Record Sys := { ends : role -> End; wire : role -> list Event }.

Definition upd {A} (f : role -> A) (r : role) (x : A) (r' : role) : A :=
  if decide (r' = r) then x else f r'.

(** The registered session of an end: the first slot with its id. *)
Fixpoint first_slot (l : list (option MuxSession)) (sid : Z) : option MuxSession :=
  match l with
  | [] => None
  | Some ss :: l => if decide (s_id ss = sid) then Some ss else first_slot l sid
  | None :: l => first_slot l sid
  end.
Definition session_of (channel : string) (tunnel_id : Z) (w : World) : option MuxSession :=
  cs ← channels (manager w) !! channel; first_slot (sessions cs) tunnel_id.

Definition pending_ids (w : World) (o : option MuxSession) : list Z :=
  match o with Some ss => stream_of w <$> pendding_streams ss | None => [] end.

(** The events a task of this end puts in the event channel [evtx]. *)
Definition event_of (evtx : nat) (a : action) : option Event :=
  match a with
  | Do (TrySendEvent tx ev) | Do (SendEvent tx ev) => if decide (tx = evtx) then Some ev else None
  | _ => None
  end.
Definition queued (evtx : nat) (acts : list action) : list Event := omap (event_of evtx) acts.

(** A SYN carries a request the other end can read. *)
Definition syn_ok `{Bincode ConnectRequest} (ev : Event) : Prop :=
  flags (header ev) = FLAG_SYN -> is_Some (deserialize (body ev)).

Section Sys.
Context {C : Ciphers} `{Bincode ConnectRequest}.
(** Of each end: its channel name, the id of the session in its process, the
    shared state and the event channel of the session. *)
Context (channel : role -> string) (tunnel_id : role -> Z) (sref evtx : role -> nat).

Definition session (r : role) (w : World) : option MuxSession := session_of (channel r) (tunnel_id r) w.

Definition end_with (E : End) (w : World) (q : list Event) (waits : list Event) (k : gset Z) : End :=
  {| loop := with_world (loop E) w; inbox := q; waiting := waits; known := k |}.

Definition learns (ev : Event) : gset Z :=
  if remote ev && bool_decide (flags (header ev) = FLAG_SYN)
  then {[Event.stream_id (header ev)]} else ∅.

(** The end [r] has handled [ev], received [ev], or changed around its loop. *)
Definition handle_at (S : Sys) (r : role) (ev : Event) (q : list Event) (l' : Loop) (own : list Event) : Sys :=
  {| ends := upd (ends S) r
       {| loop := l'; inbox := q ++ own; waiting := waiting (ends S r);
          known := learns ev ∪ known (ends S r) |};
     wire := upd (wire S) r (wire S r ++ option_list (reply ev)) |}.

Definition receive_at (S : Sys) (r : role) (ev : Event) (evs : list Event) : Sys :=
  {| ends := upd (ends S) r
       {| loop := loop (ends S r); inbox := inbox (ends S r) ++ [received ev];
          waiting := waiting (ends S r); known := known (ends S r) |};
     wire := upd (wire S) (other r) evs |}.

Definition local_at (S : Sys) (r : role) (w : World) (q waits : list Event) (k : gset Z) : Sys :=
  {| ends := upd (ends S) r (end_with (ends S r) w q waits k); wire := wire S |}.

Definition create_at (S : Sys) (r : role) (w' : World) (ev : Event) : Sys :=
  local_at S r w' (inbox (ends S r)) (waiting (ends S r) ++ [ev]) (known (ends S r)).

(** One end handles the first event of its channel, as [handle_event] says,
    while the session goes on: its frame, the encryption of [reply ev], goes
    out, and those of the events it sends to itself that find room are queued;
    the head of the wire arrives; [create_stream] creates a stream on the
    session and then gets its SYN into the channel; the other tasks send an
    event other than SYN, a FIN only for a stream they hold; and they change
    the rest of the world. *)
Inductive sys_step (S : Sys) : Sys -> Prop :=
  | sys_handle r ev q e l' acts own :
      inbox (ends S r) = ev :: q ->
      is_closed (sstate (world (loop (ends S r))) (sref r)) = false ->
      handle_event (channel r) (tunnel_id r) (sref r) (evtx r) ev e (loop (ends S r))
        = Ok (l', acts, Continue) ->
      own `sublist_of` queued (evtx r) acts ->
      sys_step S (handle_at S r ev q l' own)
  | sys_receive r ev evs :
      wire S (other r) = ev :: evs ->
      sys_step S (receive_at S r ev evs)
  | sys_create r proto addr t m w' ev ss :
      create_stream (channel r) proto addr t (world (loop (ends S r)))
        = Ok (Ok m, w', [SendEvent (evtx r) ev]) ->
      session r (world (loop (ends S r))) = Some ss ->
      session r w' = Some (add_pendding ss (clone m)) ->
      stream_id_seed ss + 2 < 2 ^ 32 ->
      sys_step S (create_at S r w' ev)
  | sys_enqueue r ev w1 w2 :
      waiting (ends S r) = w1 ++ ev :: w2 ->
      sys_step S
        (local_at S r (world (loop (ends S r))) (inbox (ends S r) ++ [ev]) (w1 ++ w2)
           ({[Event.stream_id (header ev)]} ∪ known (ends S r)))
  | sys_local r ev :
      remote ev = false -> flags (header ev) <> FLAG_SYN ->
      (flags (header ev) = FLAG_FIN -> Event.stream_id (header ev) ∈ known (ends S r)) ->
      sys_step S
        (local_at S r (world (loop (ends S r))) (inbox (ends S r) ++ [ev]) (waiting (ends S r)) (known (ends S r)))
  | sys_world r w' :
      session r w' = session r (world (loop (ends S r))) ->
      cells_grow (world (loop (ends S r))) w' -> pending_ok w' ->
      sys_step S (local_at S r w' (inbox (ends S r)) (waiting (ends S r)) (known (ends S r))).

(** A session just started: nothing open, nothing under way. *)
Definition first_id (r : role) : Z := match r with Client => 1 | Server => 2 end.
Record starts (S : Sys) : Prop := {
  starts_loop r : streams (loop (ends S r)) = ∅ /\ pending_ok (world (loop (ends S r)));
  starts_session r : exists ss, session r (world (loop (ends S r))) = Some ss /\
    pendding_streams ss = [] /\ stream_id_seed ss = first_id r;
  starts_quiet r : inbox (ends S r) = [] /\ waiting (ends S r) = [] /\
    known (ends S r) = ∅ /\ wire S r = [];
}.

Inductive reachable : Sys -> Prop :=
  | reach_start S : starts S -> reachable S
  | reach_step S S' : reachable S -> sys_step S S' -> reachable S'.

(** The view of one stream at one end. *)
Definition kind_of (s : Z) (ev : Event) : option kind :=
  if decide (Event.stream_id (header ev) = s) then
    if decide (flags (header ev) = FLAG_SYN) then Some Syn
    else if decide (flags (header ev) = FLAG_FIN) then Some Fin
    else None
  else None.
Definition kinds (s : Z) (evs : list Event) : list kind := omap (kind_of s) evs.
Definition from (rem : bool) (evs : list Event) : list Event :=
  filter (fun ev => remote ev = rem) evs.

Definition side_of (r : role) (E : End) (w : list Event) (s : Z) : Side :=
  {| tab := bool_decide (s ∈ dom (streams (loop E)));
     pend := bool_decide (s ∈ pending_ids (world (loop E)) (session r (world (loop E))));
     rin := kinds s (from true (inbox E));
     lin := kinds s (from false (inbox E));
     wait := kinds s (waiting E);
     kn := bool_decide (s ∈ known E);
     out := kinds s w |}.
Definition side (S : Sys) (r : role) (s : Z) : Side := side_of r (ends S r) (wire S r) s.

(** ** What an event does to the tables *)

Definition tables (r : role) (l : Loop) : gset Z * option MuxSession :=
  (dom (streams l), session r (world l)).

Definition tables_after (r : role) (ev : Event) (l : Loop) : gset Z * option MuxSession :=
  let '(d, o) := tables r l in
  let sid := Event.stream_id (header ev) in
  if decide (flags (header ev) = FLAG_SYN) then
    if remote ev then ({[sid]} ∪ d, o)
    else (list_to_set (pending_ids (world l) o) ∪ d, clear_pendding <$> o)
  else if decide (flags (header ev) = FLAG_FIN) then (d ∖ {[sid]}, o)
  else (d, o).

Lemma queued_app tx a b : queued tx (a ++ b) = queued tx a ++ queued tx b.
Proof. apply omap_app. Qed.

Lemma hand_over_slot f l sid s l' s' :
  hand_over f l sid s = (l', s') ->
  first_slot l' sid = clear_pendding <$> first_slot l sid /\
  dom s' = list_to_set (match first_slot l sid with Some ss => f <$> pendding_streams ss | None => [] end)
           ∪ dom s.
Proof.
  revert l' s'. induction l as [|[ss|] l IH]; intros l' s' E; simpl in E.
  - simplify_eq. split; [done|]. simpl. set_solver.
  - simpl. destruct (decide (s_id ss = sid)) as [Hs|Hs].
    + simplify_eq. simpl. rewrite decide_True by done. split; [done|].
      induction (pendding_streams ss) as [|m ms IHm]; simpl; [set_solver|].
      rewrite dom_insert_L, IHm. set_solver.
    + destruct (hand_over f l sid s) as [l1 s1]. simplify_eq. simpl. rewrite decide_False by done.
      by apply IH.
  - destruct (hand_over f l sid s) as [l1 s1]. simplify_eq. simpl. by apply IH.
Qed.

Lemma hanle_pendding_tables r l m' s' ctx :
  hanle_pendding_mux_streams (stream_of (world l)) (channel r) (tunnel_id r) (manager (world l)) (streams l)
    = (m', s') ->
  tables r {| world := set_manager (world l) m'; streams := s'; wctx := ctx |} =
    (list_to_set (pending_ids (world l) (session r (world l))) ∪ dom (streams l),
     clear_pendding <$> session r (world l)).
Proof.
  unfold hanle_pendding_mux_streams, tables, session, session_of, pending_ids. cbn.
  destruct (channels (manager (world l)) !! channel r) as [cs|] eqn:Hcs; unmonad; intros E.
  - destruct (hand_over _ _ _ _) as [l1 s1] eqn:Eh. simplify_eq/=. rewrite lookup_insert_eq. simpl.
    apply hand_over_slot in Eh as [-> ->]. by destruct (first_slot _ _).
  - simplify_eq. rewrite Hcs. simpl. f_equal. set_solver.
Qed.

Lemma close_queued tx w m sid :
  (exists c, cells w !! cell m = Some c /\ Stream.id c = sid) ->
  Forall (eq (new_fin_event sid false)) (queued tx (close_stream w m).2).
Proof.
  intros (c & Hc & <-). unfold close_stream. rewrite Hc. unfold Stream.close.
  destruct (waker _), (data_tx m), (io_data_tx _); simpl; case_decide; by repeat constructor.
Qed.

Lemma handle_fin_tables r tx sid l :
  loop_inv l ->
  let '(l', acts, _) := handle_fin_event (sref r) sid l in
  tables r l' = (dom (streams l) ∖ {[sid]}, session r (world l)) /\
  cells_grow (world l) (world l') /\ Forall (eq (new_fin_event sid false)) (queued tx acts).
Proof.
  intros [Hs _]. unfold handle_fin_event, tables, session, session_of.
  destruct (streams l !! sid) as [m|] eqn:Hm.
  - destruct (close_stream_keeps (world l) m) as (Hmg & _ & Hg & _).
    pose proof (close_queued tx (world l) m sid (Hs _ _ Hm)) as Hq.
    destruct (close_stream (world l) m) as [w acts]; cbn in *.
    destruct (_ && _); cbn; rewrite Hmg, dom_delete_L; by split_and!.
  - assert (dom (streams l) ∖ {[sid]} = dom (streams l)) as ->.
    { apply not_elem_of_dom in Hm. set_solver. }
    destruct (_ && _); cbn; split_and!; first [done|by constructor|by intros ? ? ?; eauto].
Qed.

(** The tables after an event the loop goes on from, and what it sends to its
    own end: FINs, when the event is one. *)
Definition outcome (r : role) (ev : Event) (l l' : Loop) (acts : list action) : Prop :=
  tables r l' = tables_after r ev l /\ cells_grow (world l) (world l') /\
  Forall (fun ev' => flags (header ev) = FLAG_FIN /\
                     ev' = new_fin_event (Event.stream_id (header ev)) false) (queued (evtx r) acts).

Lemma outcome_same r ev l l' acts :
  flags (header ev) <> FLAG_SYN -> flags (header ev) <> FLAG_FIN -> tables r l' = tables r l ->
  cells_grow (world l) (world l') -> queued (evtx r) acts = [] -> outcome r ev l l' acts.
Proof.
  intros Hs Hf Ht Hg Hq. unfold outcome, tables_after. rewrite Hq, Ht. unfold tables.
  decide_eqs. by split_and!.
Qed.

Lemma queued_frames tx acts : Forall (fun a => exists f, a = SendFrame f) acts -> queued tx acts = [].
Proof. by induction 1 as [|a acts (f & ->)]. Qed.

Lemma send_local_outcome r ev e l l' acts ok :
  send_local_event ev e l = Ok (l', acts, ok) ->
  tables r l' = tables r l /\ world l' = world l /\ queued (evtx r) acts = [].
Proof.
  intros (_ & Hw & Hst & f & ->)%send_local_ok. unfold tables. rewrite Hw, Hst.
  split_and!; [done|done|]. apply queued_frames. case_match; repeat econstructor.
Qed.

Lemma handle_local_outcome r ev e l l' acts :
  loop_inv l -> remote ev = false ->
  handle_local_event (channel r) (tunnel_id r) (sref r) ev e l = Ok (l', acts, true) ->
  outcome r ev l l' acts.
Proof.
  intros Hl Hrem E. unfold handle_local_event in E.
  destruct (decide (flags (header ev) = FLAG_SHUTDOWN)); [decide_eqs; by simplify_eq|].
  destruct (decide (flags (header ev) = FLAG_SYN)) as [Hs|Hs].
  - decide_eqs. destruct (hanle_pendding_mux_streams _ _ _ _ _) as [m' s'] eqn:Eh.
    apply (hanle_pendding_tables r l m' s' (wctx l)) in Eh.
    destruct (send_local_event ev e _) as [[[l2 acts2] ok]|[]|] eqn:Es; [|done]. simplify_eq/=.
    apply (send_local_outcome r) in Es as (Ht & Hw & Hq). unfold outcome, tables_after.
    rewrite Ht, Hw, Hq, Hrem, Eh. unfold tables. decide_eqs.
    split_and!; [done|by intros ? ? ?; eauto|by constructor].
  - destruct (decide (flags (header ev) = FLAG_FIN)) as [Hf|Hf].
    + decide_eqs. pose proof (handle_fin_tables r (evtx r) (Event.stream_id (header ev)) l Hl) as Hfin.
      destruct (handle_fin_event (sref r) _ l) as [[l1 acts1] stop]. destruct Hfin as (Ht1 & Hg1 & Hq1).
      destruct stop; [by simplify_eq|]. decide_eqs.
      destruct (send_local_event ev e _) as [[[l2 acts2] ok]|[]|] eqn:Es; [|done]. simplify_eq/=.
      apply (send_local_outcome r) in Es as (Ht & Hw & Hq). unfold outcome, tables_after.
      rewrite Ht, Ht1, Hw, queued_app, Hq, app_nil_r. unfold tables. decide_eqs. split_and!; [done|done|].
      by eapply Forall_impl; [done|]; intros ? <-.
    + decide_eqs. destruct (decide (flags (header ev) = FLAG_ROUTINE)).
      * decide_eqs. unfold handle_routine_event in E. destruct (_ || _); simplify_eq/=.
        by apply outcome_same.
      * decide_eqs. destruct (send_local_event ev e _) as [[[l2 acts2] ok]|[]|] eqn:Es; [|done]. simplify_eq/=.
        apply (send_local_outcome r) in Es as (Ht & Hw & Hq). apply outcome_same; try done. by rewrite Hw.
Qed.

(** Marking the time of a PING changes nothing else. *)
Definition pinged (r : role) (ev : Event) (e : Env) (l : Loop) : Loop :=
  if decide (FLAG_PING = flags (header ev))
  then with_world l (handle_ping_event (sref r) (remote ev) e (world l)) else l.

Lemma pinged_same r ev e l :
  streams (pinged r ev e l) = streams l /\ manager (world (pinged r ev e l)) = manager (world l) /\
  cells (world (pinged r ev e l)) = cells (world l).
Proof. unfold pinged, handle_ping_event. by repeat case_match. Qed.

Lemma outcome_pinged r ev e l l' acts :
  outcome r ev (pinged r ev e l) l' acts -> outcome r ev l l' acts.
Proof.
  destruct (pinged_same r ev e l) as (Hs & Hm & Hc). intros (Ht & Hg & Hq). split_and!; [|by unfold cells_grow in *; rewrite <- Hc|done].
  rewrite Ht. unfold tables_after, tables, session, session_of, pending_ids, stream_of. by rewrite Hs, Hm, Hc.
Qed.

Lemma tables_world r l w s ctx :
  manager w = manager (world l) -> dom s = dom (streams l) ->
  tables r {| world := w; streams := s; wctx := ctx |} = tables r l.
Proof. intros Hm Hd. unfold tables, session, session_of. cbn. by rewrite Hm, Hd. Qed.

Lemma queued_silent tx effs :
  Forall (fun x => forall t ev, x <> SendEvent t ev /\ x <> TrySendEvent t ev) effs ->
  queued tx (map Do effs) = [].
Proof.
  induction 1 as [|x effs Hx _ IH]; [done|]. unfold queued in *. simpl.
  destruct x as [| |t ev|t ev| |]; try done; by destruct (Hx t ev).
Qed.

(** Closes such a side condition by the cases of an operation. *)
Ltac silent :=
  repeat case_match; unmonad; simplify_eq/=; repeat constructor; done.

Lemma set_cell_outcome r ev l m c c0 s ctx acts :
  flags (header ev) <> FLAG_SYN -> flags (header ev) <> FLAG_FIN -> dom s = dom (streams l) ->
  cells (world l) !! cell m = Some c0 -> Stream.id c = Stream.id c0 -> queued (evtx r) acts = [] ->
  outcome r ev l {| world := set_cell (world l) (cell m) c; streams := s; wctx := ctx |} acts.
Proof.
  intros Hs Hf Hd Hc Hid Hq. apply outcome_same; try done; [by apply tables_world|].
  apply set_cell_grow. congruence.
Qed.

Lemma handle_event_outcome r ev e l l' acts :
  loop_inv l -> syn_ok ev ->
  handle_event (channel r) (tunnel_id r) (sref r) (evtx r) ev e l = Ok (l', acts, Continue) ->
  outcome r ev l l' acts.
Proof.
  intros Hl Hsyn E.
  destruct (decide (remote ev = true /\ flags (header ev) = FLAG_SYN)) as [[Hrem Hs]|Hns].
  { destruct (Hsyn Hs) as [creq Hd].
    destruct (syn_opens (channel r) (tunnel_id r) (sref r) (evtx r) ev e l creq)
      as (m & c & w' & E' & Hfresh & Hc & Hm & _); [done..|].
    rewrite E' in E. simplify_eq. unfold outcome, tables_after, tables, session, session_of. cbn.
    rewrite Hrem, Hm. decide_eqs. split_and!; [f_equal| |by constructor].
    - destruct (streams l !! _) as [m'|] eqn:Hx; [|by rewrite dom_insert_L].
      apply elem_of_dom_2 in Hx. set_solver.
    - intros n x Hx. exists x. rewrite Hc, lookup_insert_ne by congruence. done. }
  unfold EventLoop.handle_event in E. fold (pinged r ev e l) in E.
  apply (outcome_pinged r ev e). destruct (pinged_same r ev e l) as (Hst & Hm & Hc).
  assert (loop_inv (pinged r ev e l)) as Hl1.
  { destruct Hl as [H1 H2]. split; unfold streams_ok, pending_ok; by rewrite ?Hst, ?Hm, ?Hc. }
  set (l1 := pinged r ev e l) in *. clearbody l1. clear l Hl Hst Hm Hc.
  destruct (remote ev) eqn:Hrem; cbn [negb] in E.
  2: { destruct (handle_local_event _ _ _ ev e l1) as [[[l2 acts2] go]|[]|] eqn:El; [|done].
       unmonad. destruct go; simplify_eq. by apply handle_local_outcome in El. }
  destruct (decide (flags (header ev) = FLAG_SYN)) as [Hs|Hs]; [by destruct Hns|].
  destruct (decide (flags (header ev) = FLAG_FIN)) as [Hf|Hf].
  { pose proof (handle_fin_tables r (evtx r) (Event.stream_id (header ev)) l1 Hl1) as Hfin.
    destruct (handle_fin_event _ _ _) as [[l3 acts3] d]. destruct Hfin as (Ht & Hg & Hq).
    destruct d; simplify_eq. unfold outcome, tables_after. rewrite Ht. unfold tables. decide_eqs.
    split_and!; [done|done|]. by eapply Forall_impl; [done|]; intros ? <-. }
  destruct (decide (flags (header ev) = FLAG_DATA)).
  { destruct (streams l1 !! _) as [m|] eqn:Hx; [|by simplify_eq; apply outcome_same].
    destruct (cells _ !! _) as [c|] eqn:Hcell; [|by simplify_eq; apply outcome_same].
    destruct (Stream.offer_data m c (body ev)) as [[[m' c'] effs]|[]|] eqn:Eo; [|done]. unmonad. simplify_eq.
    pose proof (offer_data_keeps _ _ _ _ _ _ Eo) as [Hid Hce]. rewrite Hce.
    eapply set_cell_outcome; try done.
    - apply elem_of_dom_2 in Hx. rewrite dom_insert_L. set_solver.
    - apply queued_silent. unfold Stream.offer_data in Eo. silent. }
  destruct (decide (flags (header ev) = FLAG_PING)).
  { destruct (send_local_event _ e l1) as [[[l2 acts2] go]|[]|] eqn:El; [|done]. unmonad.
    destruct go; simplify_eq. apply (send_local_outcome r) in El as (Ht & Hw & Hq).
    apply outcome_same; try done. by rewrite Hw. }
  destruct (decide (flags (header ev) = FLAG_PONG));
    [simplify_eq; apply outcome_same; try done; by intros ? ? ?; eauto|].
  destruct (decide (flags (header ev) = FLAG_WIN_UPDATE)); [|by simplify_eq; apply outcome_same].
  destruct (streams l1 !! _) as [m|]; [|by simplify_eq; apply outcome_same].
  destruct (cells _ !! _) as [c|] eqn:Hcell; [|by simplify_eq; apply outcome_same].
  pose proof (update_send_window_id c (len (header ev))) as Hid.
  destruct (Stream.update_send_window c _) as [c' effs] eqn:Eu. simplify_eq.
  eapply set_cell_outcome; try done. apply queued_silent.
  unfold Stream.update_send_window in Eu. silent.
Qed.

(** ** Events and their kinds *)

Lemma kinds_app s a b : kinds s (a ++ b) = kinds s a ++ kinds s b.
Proof. apply omap_app. Qed.

Lemma kinds_cons s ev evs : kinds s (ev :: evs) = option_list (kind_of s ev) ++ kinds s evs.
Proof. unfold kinds. simpl. by destruct (kind_of s ev). Qed.

Lemma kinds_option s o : kinds s (option_list o) = option_list (o ≫= kind_of s).
Proof. destruct o as [ev|]; [|done]. unfold kinds. simpl. by destruct (kind_of s ev). Qed.

Lemma kinds_from rem s ev evs :
  kinds s (from rem (ev :: evs)) =
    (if decide (remote ev = rem) then option_list (kind_of s ev) else []) ++ kinds s (from rem evs).
Proof. unfold from. rewrite filter_cons. case_decide; [apply kinds_cons|done]. Qed.

Lemma kinds_from_app rem s a b : kinds s (from rem (a ++ b)) = kinds s (from rem a) ++ kinds s (from rem b).
Proof. unfold from. by rewrite filter_app, kinds_app. Qed.

Lemma kind_of_other s ev :
  flags (header ev) <> FLAG_SYN -> flags (header ev) <> FLAG_FIN -> kind_of s ev = None.
Proof. intros. unfold kind_of. case_decide; [by decide_eqs|done]. Qed.

Lemma kind_of_received s ev : kind_of s (received ev) = kind_of s ev.
Proof. done. Qed.

Lemma kind_of_fin s sid : kind_of s (new_fin_event sid false) = if decide (sid = s) then Some Fin else None.
Proof. unfold kind_of, new_fin_event. simpl. by case_decide. Qed.

Lemma kind_of_spec s ev :
  (kind_of s ev = Some Syn <-> Event.stream_id (header ev) = s /\ flags (header ev) = FLAG_SYN) /\
  (kind_of s ev = Some Fin <-> Event.stream_id (header ev) = s /\ flags (header ev) = FLAG_FIN).
Proof.
  unfold kind_of, FLAG_SYN, FLAG_FIN.
  split; split; intros Hk; repeat case_decide; destruct_and?; by (done || lia).
Qed.

(** What goes out is what was sent from here. *)
Lemma reply_kinds s ev :
  kinds s (option_list (reply ev)) = if remote ev then [] else option_list (kind_of s ev).
Proof.
  unfold reply. destruct (remote ev).
  - case_decide; [|done]. rewrite kinds_option. cbn. rewrite kind_of_other; [done|by vm_compute..].
  - rewrite kinds_option. repeat case_decide; [..|done];
      (rewrite kind_of_other; [done|unfold FLAG_SYN, FLAG_FIN, FLAG_SHUTDOWN, FLAG_ROUTINE in *; lia..]).
Qed.

Lemma own_kinds ev own s :
  Forall (fun ev' => flags (header ev) = FLAG_FIN /\
                     ev' = new_fin_event (Event.stream_id (header ev)) false) own ->
  kinds s (from true own) = [] /\ fins (kinds s (from false own)) /\
  (kind_of s ev <> Some Fin -> kinds s (from false own) = []).
Proof.
  induction 1 as [|? own [Hf ->] _ (IH1 & IH2 & IH3)]; [done|].
  rewrite !kinds_from. cbn. rewrite kind_of_fin. split_and!; [done| |].
  - destruct (decide (Event.stream_id (header ev) = s)); cbn; [by constructor|done].
  - intros Hk. pose proof Hk as Hk'. unfold kind_of in Hk'. rewrite Hf in Hk'.
    destruct (decide (Event.stream_id (header ev) = s)); cbn in *; [done|]. by apply IH3.
Qed.

Lemma pending_ids_grow w w' o :
  (forall ss m, o = Some ss -> m ∈ pendding_streams ss -> is_Some (cells w !! cell m)) ->
  cells_grow w w' -> pending_ids w' o = pending_ids w o.
Proof.
  intros Hp Hg. unfold pending_ids. destruct o as [ss|]; [|done].
  apply list_fmap_ext. intros i m Hm%list_elem_of_lookup_2. unfold stream_of.
  destruct (Hp ss m eq_refl Hm) as [c Hc]. destruct (Hg _ _ Hc) as (c' & Hc' & Hid).
  by rewrite Hc, Hc'.
Qed.

Lemma first_slot_elem l sid ss : first_slot l sid = Some ss -> Some ss ∈ l.
Proof.
  induction l as [|[x|] l IH]; simpl; [done| |intros ?; right; by apply IH].
  case_decide; [intros [= ->]; by left|intros ?; right; by apply IH].
Qed.

Lemma session_pending r w ss m :
  pending_ok w -> session r w = Some ss -> m ∈ pendding_streams ss -> is_Some (cells w !! cell m).
Proof.
  unfold session, session_of. intros Hp Hs Hm.
  destruct (channels (manager w) !! channel r) as [cs|] eqn:Hcs; [|done].
  by eapply Hp; [done|eapply first_slot_elem|].
Qed.

(** ** Every step is a step of every stream's life, or none *)

Lemma side_step_eq x y y' : side_step x y' -> y = y' -> side_step x y.
Proof. by intros H1 ->. Qed.

Lemma bool_decide_union (a b : gset Z) s :
  bool_decide (s ∈ a ∪ b) = bool_decide (s ∈ a) || bool_decide (s ∈ b).
Proof. repeat case_bool_decide; set_solver. Qed.

(** The tables of one stream after an event. *)
Lemma outcome_side r ev l l' acts s :
  loop_inv l -> outcome r ev l l' acts ->
  let t := bool_decide (s ∈ dom (streams l)) in
  let p := bool_decide (s ∈ pending_ids (world l) (session r (world l))) in
  bool_decide (s ∈ dom (streams l')) =
    (if decide (kind_of s ev = Some Fin) then false
     else if decide (remote ev = true) then bool_decide (kind_of s ev = Some Syn) || t
     else if decide (flags (header ev) = FLAG_SYN) then t || p else t) /\
  bool_decide (s ∈ pending_ids (world l') (session r (world l'))) =
    (if decide (remote ev = false /\ flags (header ev) = FLAG_SYN) then false else p).
Proof.
  intros [_ Hp] (Ht & Hg & _) t p. unfold tables_after in Ht. unfold tables in Ht.
  assert (pending_ids (world l') (session r (world l)) = pending_ids (world l) (session r (world l))) as Hpe.
  { apply pending_ids_grow; [|done]. intros ss m Hss Hm. by eapply session_pending. }
  destruct (kind_of_spec s ev) as [Hsyn Hfin].
  destruct (decide (flags (header ev) = FLAG_SYN)) as [Hs|Hs].
  - assert (kind_of s ev <> Some Fin) as Hnf by (rewrite Hfin, Hs; by intros [_ [=]]).
    rewrite (decide_False (P := kind_of s ev = Some Fin)) by done.
    destruct (remote ev) eqn:Hrem; injection Ht as -> ->.
    + rewrite bool_decide_union, Hpe, decide_True by done. rewrite (decide_False (P := _ /\ _)) by naive_solver.
      split; [|done]. f_equal. apply bool_decide_ext. rewrite Hsyn. set_solver.
    + rewrite bool_decide_union, decide_False by done. rewrite (decide_True (P := _ /\ _)) by done. split.
      * rewrite orb_comm. unfold t, p. f_equal. apply bool_decide_ext. by rewrite elem_of_list_to_set.
      * apply bool_decide_eq_false_2. unfold pending_ids. destruct (session r (world l)); simpl; set_solver.
  - assert (kind_of s ev <> Some Syn) as Hns by naive_solver.
    rewrite (bool_decide_eq_false_2 (kind_of s ev = Some Syn)) by done.
    rewrite (decide_False (P := remote ev = false /\ _)) by naive_solver.
    destruct (decide (flags (header ev) = FLAG_FIN)) as [Hf|Hf]; injection Ht as -> ->; rewrite Hpe;
      (split; [|done]); case_decide as Hk; rewrite Hfin in Hk.
    + apply bool_decide_eq_false_2. destruct Hk as [-> _]. set_solver.
    + transitivity t; [|by case_decide]. apply bool_decide_ext. set_solver.
    + by destruct Hk.
    + by case_decide.
Qed.

Lemma Forall_sublist {A} (P : A -> Prop) (l k : list A) : l `sublist_of` k -> Forall P k -> Forall P l.
Proof. rewrite !Forall_forall. intros Hl Hk x Hx. by eapply Hk, elem_of_sublist. Qed.

Lemma learns_in ev (k : gset Z) s :
  bool_decide (s ∈ learns ev ∪ k) =
    (if remote ev then bool_decide (kind_of s ev = Some Syn) else false) || bool_decide (s ∈ k).
Proof.
  rewrite bool_decide_union. f_equal. unfold learns. destruct (kind_of_spec s ev) as [Hsyn _].
  destruct (remote ev); cbn [andb]; [|by apply bool_decide_eq_false_2; set_solver].
  apply bool_decide_ext. rewrite Hsyn. case_bool_decide; set_solver.
Qed.

Lemma handle_side r ev e E q l' acts own w s :
  loop_inv (loop E) -> syn_ok ev -> inbox E = ev :: q ->
  handle_event (channel r) (tunnel_id r) (sref r) (evtx r) ev e (loop E) = Ok (l', acts, Continue) ->
  own `sublist_of` queued (evtx r) acts ->
  let x := side_of r E w s in
  let x' := side_of r {| loop := l'; inbox := q ++ own; waiting := waiting E; known := learns ev ∪ known E |}
              (w ++ option_list (reply ev)) s in
  x' = x \/ side_step x x'.
Proof.
  intros Hl Hsyn Hq E1 Hown x x'. apply handle_event_outcome in E1; [|done..].
  destruct (outcome_side _ _ _ _ _ s Hl E1) as [Ht Hp]. destruct E1 as (_ & _ & Hfins).
  apply (Forall_sublist _ _ _ Hown) in Hfins. apply (own_kinds ev own s) in Hfins as (Hr & Hlo & Hno).
  destruct (kind_of_spec s ev) as [Hks Hkf]. unfold x, x', side_of. simpl.
  rewrite Ht, Hp, Hq, !kinds_from, !kinds_from_app, kinds_app, reply_kinds, learns_in, Hr, app_nil_r.
  clear x x' Ht Hp Hq Hr Hown.
  destruct (remote ev) eqn:Hrem; simpl; destruct (kind_of s ev) as [[]|] eqn:Hk; simpl;
    rewrite ?app_nil_r; try rewrite (Hno ltac:(done)), app_nil_r.
  - right. eapply side_step_eq; [apply remote_syn|]. done.
  - right. eapply side_step_eq; [by apply remote_fin|]. done.
  - by left.
  - right. rewrite !(decide_True (P := flags (header ev) = FLAG_SYN)) by by apply Hks.
    rewrite decide_True by (by destruct Hks as [Hks _]; split; [|apply Hks]).
    eapply side_step_eq; [apply local_syn|]. done.
  - right. rewrite (decide_False (P := _ /\ _)).
    2: { intros [_ Hs]. by destruct Hkf as [[_ Hf] _]; [|rewrite Hs in Hf]. }
    eapply side_step_eq; [by apply local_fin|]. done.
  - destruct (decide (flags (header ev) = FLAG_SYN)).
    + right. rewrite decide_True by done. eapply side_step_eq; [apply handed_over|]. done.
    + left. by rewrite decide_False by naive_solver.
Qed.

(** The end whose [create_stream] gives out an id, by its parity. *)
Definition owner (s : Z) : role := if decide (s mod 2 = 1) then Client else Server.
Definition views (S : Sys) (s : Z) : Side * Side := (side S (owner s) s, side S (other (owner s)) s).

Lemma upd_eq {A} (f : role -> A) r x : upd f r x r = x.
Proof. unfold upd. by rewrite decide_True. Qed.
Lemma upd_ne {A} (f : role -> A) r x : upd f r x (other r) = f (other r).
Proof. unfold upd. rewrite decide_False; [done|by destruct r]. Qed.
Lemma upd_ne' {A} (f : role -> A) r x : upd f (other r) x r = f r.
Proof. unfold upd. rewrite decide_False; [done|by destruct r]. Qed.
Lemma other_other r : other (other r) = r.
Proof. by destruct r. Qed.

(** The other end stays as it is. *)
Definition keeps (S S' : Sys) (r : role) : Prop := ends S' r = ends S r /\ wire S' r = wire S r.

Lemma keeps_other S r E' w :
  w (other r) = wire S (other r) -> keeps S {| ends := upd (ends S) r E'; wire := w |} (other r).
Proof. intros Hw. split; [apply upd_ne|done]. Qed.

Lemma role_cases r r' : r' = r \/ r' = other r.
Proof. destruct r, r'; auto. Qed.

(** A step of one end. *)
Lemma views_local S S' r s :
  keeps S S' (other r) ->
  side S' r s = side S r s \/ side_step (side S r s) (side S' r s) ->
  views S' s = views S s \/ life_tick (views S s) (views S' s).
Proof.
  intros [He Hw] Hx. assert (side S' (other r) s = side S (other r) s) as Ho.
  { unfold side. by rewrite He, Hw. }
  unfold views. destruct (role_cases r (owner s)) as [->| ->]; rewrite ?other_other, Ho;
    (destruct Hx as [->|Hx]; [by left|right; by constructor]).
Qed.

(** The head of a wire arrives. *)
Lemma views_receive S r ev evs s :
  wire S (other r) = ev :: evs ->
  let S' := {| ends := upd (ends S) r
                 {| loop := loop (ends S r); inbox := inbox (ends S r) ++ [received ev];
                    waiting := waiting (ends S r); known := known (ends S r) |};
               wire := upd (wire S) (other r) evs |} in
  views S' s = views S s \/ life_tick (views S s) (views S' s).
Proof.
  intros Hw S'.
  assert (side S' (other r) s = sent (side S (other r) s) (kinds s evs)) as Ho.
  { unfold side, S', sent. simpl. by rewrite upd_ne, upd_eq. }
  assert (side S' r s = match kind_of s ev with Some k => got (side S r s) k | None => side S r s end) as Hr.
  { unfold side, S', side_of, got. simpl. rewrite upd_eq, upd_ne'. simpl. rewrite !kinds_from_app, !kinds_from. simpl.
    rewrite kind_of_received. destruct (kind_of s ev); simpl; by rewrite ?app_nil_r. }
  assert (out (side S (other r) s) = option_list (kind_of s ev) ++ kinds s evs) as Hk.
  { unfold side. simpl. by rewrite Hw, kinds_cons. }
  unfold views. destruct (kind_of s ev) as [k|] eqn:E.
  - right. assert (owner s = r \/ owner s = other r) as [->| ->] by (destruct (owner s), r; auto);
      rewrite ?other_other, Hr, Ho; by constructor.
  - left. assert (sent (side S (other r) s) (kinds s evs) = side S (other r) s) as Hs.
    { change (option_list None ++ kinds s evs) with (kinds s evs) in Hk. by rewrite <- Hk. }
    assert (owner s = r \/ owner s = other r) as [->| ->] by (destruct (owner s), r; auto);
      by rewrite ?other_other, Hr, Ho, Hs.
Qed.

(** ** Creating a stream *)

Lemma first_slot_insert l idx p p' tid ss x :
  l !! idx = Some (Some p) -> s_id p' = s_id p ->
  first_slot l tid = Some ss -> first_slot (<[idx:=Some p']> l) tid = Some x ->
  x = ss \/ (x = p' /\ ss = p).
Proof.
  intros Hidx Hid. revert idx Hidx. induction l as [|[y|] l IH]; intros [|idx]; simpl; try done.
  - intros [= ->]. rewrite Hid. case_decide; [naive_solver|]. intros -> [= ->]. by left.
  - intros Hl. case_decide; [intros [= ->] [= ->]; by left|]. by apply IH.
  - intros Hl. by apply IH.
Qed.

Lemma pick_session_in n l cur idx p cur' :
  pick_session n l cur = (Some (idx, p), cur') -> l !! idx = Some (Some p).
Proof.
  revert cur. induction n as [|n IH]; intros cur E; [done|]. cbn [pick_session] in E.
  case_match; [case_match; [by injection E as <- <- _; subst|]|]; by eapply IH.
Qed.

Lemma add_pendding_neq ss m : add_pendding ss m <> ss.
Proof. intros E%(f_equal (fun s => length (pendding_streams s))). simpl in E. rewrite length_app in E. simpl in E. lia. Qed.

Lemma create_spec ch tid proto addr t w m w' tx ev ss :
  create_stream ch proto addr t w = Ok (Ok m, w', [SendEvent tx ev]) ->
  session_of ch tid w = Some ss -> session_of ch tid w' = Some (add_pendding ss (clone m)) ->
  pending_ok w ->
  new_syn_event (stream_id_seed ss) {| proto := proto; addr := addr |} = Ok ev /\
  cells_grow w w' /\ pending_ok w' /\ stream_of w' (clone m) = stream_id_seed ss.
Proof.
  unfold create_stream, session_of. destruct (channels (manager w) !! ch) as [cs|] eqn:Hcs; unmonad; [|done].
  destruct (pick_session _ _ _) as [[[idx p]|] cur] eqn:Hp; [|done]. apply pick_session_in in Hp.
  destruct (new_syn_event (stream_id_seed p) _) as [cev|[]|] eqn:Hev; [|done]. cbn.
  intros E Hss. simplify_eq/=. rewrite lookup_insert_eq. simpl. intros Hx Hpend.
  set (c := fresh (dom (cells w))) in *.
  assert (cells w !! c = None) as Hfresh by (apply not_elem_of_dom, is_fresh).
  edestruct (first_slot_insert _ _ _ (add_pendding p _) _ _ _ Hp eq_refl Hss Hx) as [Hbad|[Hx' ->]].
  { by apply add_pendding_neq in Hbad. }
  assert (Event.stream_id (header ev) = stream_id_seed p) as Hid.
  { unfold new_syn_event in Hev. destruct (serialize _); simplify_eq. by rewrite with_flag_data by done. }
  split_and!; [done| | |].
  - intros n x Hn. exists x. simpl. rewrite lookup_insert_ne by congruence. done.
  - intros ch' cs' ss' m' Hch Hin Hm. simpl in *.
    destruct (decide (cell m' = c)) as [->|Hne]; [rewrite lookup_insert_eq; by eexists|].
    rewrite lookup_insert_ne by congruence. destruct (decide (ch' = ch)) as [->|Hc].
    + rewrite lookup_insert_eq in Hch. simplify_eq/=.
      apply list_elem_of_lookup in Hin as [i Hi]. apply list_lookup_insert_Some in Hi as [(-> & ? & _)|[_ Hi]].
      * simplify_eq/=. apply elem_of_app in Hm as [Hm|Hm%list_elem_of_singleton]; [|by subst].
        eapply Hpend; [done| |done]. by eapply list_elem_of_lookup_2.
      * eapply Hpend; [done|by eapply list_elem_of_lookup_2|done].
    + rewrite lookup_insert_ne in Hch by done. by eapply Hpend.
  - unfold stream_of. simpl. rewrite lookup_insert_eq. exact Hid.
Qed.

(** ** The invariant of the two ends *)

Definition seed_of (S : Sys) (r : role) : Z :=
  default 0 (stream_id_seed <$> session r (world (loop (ends S r)))).

Record sys_inv (S : Sys) : Prop := {
  inv_loop r : loop_inv (loop (ends S r));
  inv_session r : is_Some (session r (world (loop (ends S r))));
  inv_seed r : 0 < seed_of S r < 2 ^ 32 /\ owner (seed_of S r) = r;
  inv_syn r : Forall syn_ok (inbox (ends S r) ++ waiting (ends S r) ++ wire S r);
  inv_alive s : alive (views S s);
  inv_unborn s : seed_of S (owner s) <= s -> views S s = (blank, blank);
}.

Lemma syn_ok_other ev : flags (header ev) <> FLAG_SYN -> syn_ok ev.
Proof. by intros H1 H2. Qed.

Lemma first_id_seed r : 0 < first_id r < 2 ^ 32 /\ owner (first_id r) = r.
Proof. by destruct r. Qed.

Lemma owner_add2 z : owner (z + 2) = owner z.
Proof. unfold owner. replace (z + 2) with (z + 1 * 2) by lia. by rewrite Z.mod_add by lia. Qed.

Lemma start_side S r s : starts S -> side S r s = blank.
Proof.
  intros [Hl Hs Hq].
  destruct (Hl r) as [Hst _], (Hs r) as (ss & Hss & Hp & _), (Hq r) as (Hi & Hw & Hk & Ho).
  unfold side, side_of. rewrite Hst, Hss, Hi, Hw, Hk, Ho. unfold pending_ids. rewrite Hp.
  unfold blank. f_equal; apply bool_decide_eq_false_2; set_solver.
Qed.

Lemma starts_inv S : starts S -> sys_inv S.
Proof.
  intros Hstart. pose proof (fun r s => start_side S r s Hstart) as Hside.
  destruct Hstart as [Hl Hs Hq]. split.
  - intros r. destruct (Hl r) as [Hst Hp]. split; [rewrite Hst; apply map_Forall_empty|done].
  - intros r. destruct (Hs r) as (ss & -> & _). by eexists.
  - intros r. destruct (Hs r) as (ss & Hss & _ & Hseed). unfold seed_of. rewrite Hss. simpl.
    rewrite Hseed. apply first_id_seed.
  - intros r. destruct (Hq r) as (-> & -> & _ & ->). constructor.
  - intros s. unfold views, alive. simpl. rewrite !Hside. constructor.
  - intros s _. unfold views. by rewrite !Hside.
Qed.

(** A step that creates no stream. *)
Definition quiet (S S' : Sys) : Prop :=
  forall s, views S' s = views S s \/ life_tick (views S s) (views S' s).

(** What is left to prove of it. *)
Lemma inv_step_quiet S S' :
  sys_inv S ->
  (forall r, loop_inv (loop (ends S' r))) ->
  (forall r, is_Some (session r (world (loop (ends S' r)))) /\ seed_of S' r = seed_of S r) ->
  (forall r, Forall syn_ok (inbox (ends S' r) ++ waiting (ends S' r) ++ wire S' r)) ->
  quiet S S' -> sys_inv S'.
Proof.
  intros [H1 H2 H3 H4 H5 H6] Hl Hs Hsyn Hv. split; try done.
  - intros r. apply Hs.
  - intros r. destruct (Hs r) as [_ ->]. apply H3.
  - intros s. destruct (Hv s) as [->|Ht]; [done|]. by eapply life_preserved; [|constructor].
  - intros s Hle. destruct (Hs (owner s)) as [_ E]. rewrite E in Hle. specialize (H6 s Hle).
    destruct (Hv s) as [->|Ht]; [done|]. rewrite H6 in Ht. by apply unborn_tick.
Qed.

(** ... and when one end only changes. *)
Lemma inv_step_end S S' r :
  sys_inv S -> keeps S S' (other r) ->
  loop_inv (loop (ends S' r)) ->
  (exists o, session r (world (loop (ends S' r))) = Some o /\ stream_id_seed o = seed_of S r) ->
  Forall syn_ok (inbox (ends S' r) ++ waiting (ends S' r) ++ wire S' r) ->
  quiet S S' -> sys_inv S'.
Proof.
  intros Hinv Hk Hl (o & Ho & Hseed) Hsyn Hv. pose proof Hinv as [H1 H2 H3 H4 _ _].
  pose proof Hk as [He Hw]. apply (inv_step_quiet S); [done|..].
  - intros r'. destruct (role_cases r r') as [->| ->]; [done|]. by rewrite He.
  - intros r'. destruct (role_cases r r') as [->| ->].
    + rewrite Ho. split; [by eexists|]. unfold seed_of at 1. by rewrite Ho.
    + unfold seed_of. by rewrite He.
  - intros r'. destruct (role_cases r r') as [->| ->]; [done|]. by rewrite He, Hw.
  - done.
Qed.

Lemma session_seed S r :
  sys_inv S -> exists o, session r (world (loop (ends S r))) = Some o /\ stream_id_seed o = seed_of S r.
Proof. intros Hinv. destruct (inv_session S Hinv r) as [o Ho]. exists o. unfold seed_of. by rewrite Ho. Qed.

Lemma handle_syn_ok S r ev q :
  sys_inv S -> inbox (ends S r) = ev :: q ->
  syn_ok ev /\ Forall syn_ok q /\ Forall syn_ok (waiting (ends S r)) /\ Forall syn_ok (wire S r).
Proof.
  intros Hinv Hq. pose proof (inv_syn S Hinv r) as Hsyn.
  rewrite Hq, !Forall_app, Forall_cons in Hsyn. by destruct_and!.
Qed.

Lemma quiet_handle S r ev q e l' acts own :
  sys_inv S -> inbox (ends S r) = ev :: q ->
  handle_event (channel r) (tunnel_id r) (sref r) (evtx r) ev e (loop (ends S r)) = Ok (l', acts, Continue) ->
  own `sublist_of` queued (evtx r) acts -> quiet S (handle_at S r ev q l' own).
Proof.
  intros Hinv Hq E Hown s. destruct (handle_syn_ok S r ev q Hinv Hq) as (Hev & _).
  apply (views_local S _ r).
  - apply keeps_other, upd_ne.
  - unfold side, handle_at. simpl. rewrite !upd_eq. eapply handle_side; eauto. apply (inv_loop S Hinv).
Qed.

Lemma inv_handle S r ev q e l' acts own :
  sys_inv S -> inbox (ends S r) = ev :: q ->
  handle_event (channel r) (tunnel_id r) (sref r) (evtx r) ev e (loop (ends S r)) = Ok (l', acts, Continue) ->
  own `sublist_of` queued (evtx r) acts -> sys_inv (handle_at S r ev q l' own).
Proof.
  intros Hinv Hq E Hown. pose proof (inv_loop S Hinv r) as Hl.
  destruct (handle_syn_ok S r ev q Hinv Hq) as (Hev & Hsq & Hsw & Hsx).
  pose proof (handle_event_outcome r ev e _ l' acts Hl Hev E) as (Ht & Hg & Hfin).
  apply (inv_step_end S _ r Hinv); simpl; rewrite ?upd_eq; simpl.
  - apply keeps_other, upd_ne.
  - by apply handle_event_inv in E.
  - destruct (session_seed S r Hinv) as (o & Ho & Hseed).
    unfold tables_after, tables in Ht. rewrite Ho in Ht.
    repeat case_match; simplify_eq; eexists; (split; [done|done]).
  - rewrite !Forall_app. split_and!; [done| |done|done|].
    + eapply Forall_impl; [by eapply Forall_sublist|]. intros ev' [_ ->]. by apply syn_ok_other.
    + unfold reply. by repeat case_match; constructor.
  - by eapply quiet_handle.
Qed.

Lemma inv_receive S r ev evs :
  sys_inv S -> wire S (other r) = ev :: evs -> sys_inv (receive_at S r ev evs).
Proof.
  intros Hinv Hw. pose proof Hinv as [H1 H2 _ H4 _ _]. apply (inv_step_quiet S); [done|..]; simpl.
  - intros r'. destruct (role_cases r r') as [->| ->]; rewrite ?upd_eq, ?upd_ne; apply H1.
  - intros r'. unfold seed_of. simpl.
    destruct (role_cases r r') as [->| ->]; rewrite ?upd_eq, ?upd_ne; (split; [apply H2|done]).
  - pose proof (H4 (other r)) as Ho. rewrite Hw, !Forall_app, Forall_cons in Ho.
    destruct Ho as (Hoi & How & Hev & Hevs).
    intros r'. pose proof (H4 r') as Hr. rewrite !Forall_app in Hr. destruct Hr as (Hri & Hrw & Hrx).
    destruct (role_cases r r') as [->| ->]; rewrite ?upd_eq, ?upd_ne, ?upd_ne'; simpl; rewrite !Forall_app;
      split_and!; try done. by constructor.
  - intros s. by apply views_receive.
Qed.

(** A change of one end that leaves the tables of its loop alone. *)
Definition same_tables (S : Sys) (r : role) (w : World) : Prop :=
  session r w = session r (world (loop (ends S r))) /\
  cells_grow (world (loop (ends S r))) w /\ pending_ok w.

Lemma same_tables_refl S r : sys_inv S -> same_tables S r (world (loop (ends S r))).
Proof. intros Hinv. by destruct (inv_loop S Hinv r) as [_ Hp]. Qed.

Lemma quiet_local S r w q waits k :
  sys_inv S -> same_tables S r w ->
  (forall s, let x := side S r s in
     let x' := {| tab := tab x; pend := pend x; rin := kinds s (from true q); lin := kinds s (from false q);
                  wait := kinds s waits; kn := bool_decide (s ∈ k); out := out x |} in
     x' = x \/ side_step x x') ->
  quiet S (local_at S r w q waits k).
Proof.
  intros Hinv (Hs & Hg & Hp) Hv s. destruct (inv_loop S Hinv r) as [Hst Hp0].
  apply (views_local S _ r); [by apply keeps_other|].
  unfold side at 1 4. simpl. rewrite upd_eq. unfold side_of. simpl. rewrite Hs.
  rewrite (pending_ids_grow (world (loop (ends S r)))); [apply Hv| |done].
  intros ss m Hss Hm. by eapply session_pending.
Qed.

Lemma inv_local S r w q waits k :
  sys_inv S -> same_tables S r w -> Forall syn_ok (q ++ waits) ->
  quiet S (local_at S r w q waits k) -> sys_inv (local_at S r w q waits k).
Proof.
  intros Hinv (Hs & Hg & Hp) Hsyn Hv. destruct (inv_loop S Hinv r) as [Hst Hp0].
  apply (inv_step_end S _ r Hinv); simpl; rewrite ?upd_eq; simpl.
  - by apply keeps_other.
  - split; [by eapply streams_ok_grow|done].
  - rewrite Hs. by apply session_seed.
  - pose proof (inv_syn S Hinv r) as Hr. rewrite !Forall_app in *. by destruct_and!.
  - done.
Qed.

Lemma syn_event sid creq ev :
  new_syn_event sid creq = Ok ev -> exists d,
    serialize creq = Some d /\ body ev = d /\ remote ev = false /\
    Event.stream_id (header ev) = sid /\ flags (header ev) = FLAG_SYN.
Proof.
  unfold new_syn_event. destruct (serialize creq) as [d|]; [|done]. intros [= <-].
  exists d. rewrite with_flag_data by done. split_and!; try done. by apply flags_get.
Qed.

Section Laws.
Context `{!BincodeLaws ConnectRequest}.

Lemma views_create S r proto addr t m w' ev ss s :
  sys_inv S ->
  create_stream (channel r) proto addr t (world (loop (ends S r))) = Ok (Ok m, w', [SendEvent (evtx r) ev]) ->
  session r (world (loop (ends S r))) = Some ss -> session r w' = Some (add_pendding ss (clone m)) ->
  views (create_at S r w' ev) s = views S s /\ s <> seed_of S r \/
  views S s = (blank, blank) /\ views (create_at S r w' ev) s = (created, blank) /\ s = seed_of S r.
Proof.
  intros Hinv Hc Hss Hss'. destruct (inv_loop S Hinv r) as [Hst Hp].
  pose proof Hc as Hspec. eapply create_spec in Hspec as (Hev & Hg & Hp' & Hid); [|done..].
  apply syn_event in Hev as (d & _ & _ & _ & Hsid & Hfl).
  assert (seed_of S r = stream_id_seed ss) as Hseed by (unfold seed_of; by rewrite Hss).
  assert (pending_ids w' (Some (add_pendding ss (clone m))) =
          pending_ids (world (loop (ends S r))) (Some ss) ++ [stream_id_seed ss]) as Hpe.
  { rewrite <- (pending_ids_grow (world (loop (ends S r))) w' (Some ss)); [| |done].
    - unfold pending_ids. simpl. rewrite fmap_app. simpl. by rewrite Hid.
    - intros ss0 m0 [= <-] Hm. by eapply session_pending. }
  assert (side (create_at S r w' ev) r s =
    {| tab := tab (side S r s);
       pend := pend (side S r s) || bool_decide (s = stream_id_seed ss);
       rin := rin (side S r s); lin := lin (side S r s);
       wait := wait (side S r s) ++ (if decide (s = stream_id_seed ss) then [Syn] else []);
       kn := kn (side S r s); out := out (side S r s) |}) as Hside.
  { unfold side, create_at, local_at. simpl. rewrite upd_eq. unfold side_of, end_with. simpl.
    rewrite Hss', Hpe, Hss, kinds_app. f_equal.
    - repeat case_bool_decide; set_solver.
    - f_equal. rewrite kinds_cons. unfold kind_of. rewrite Hsid, Hfl.
      repeat case_decide; (done || congruence). }
  assert (keeps S (create_at S r w' ev) (other r)) as [He Hw] by by apply keeps_other.
  assert (side (create_at S r w' ev) (other r) s = side S (other r) s) as Ho by (unfold side; by rewrite He, Hw).
  destruct (decide (s = stream_id_seed ss)) as [Hs|Hs].
  - right. rewrite bool_decide_eq_true_2, orb_true_r in Hside by done.
    assert (owner s = r) as Hown by (rewrite Hs, <- Hseed; apply (inv_seed S Hinv r)).
    assert (views S s = (blank, blank)) as Hb by (apply (inv_unborn S Hinv); rewrite Hown, Hs; lia).
    split_and!; [done| |congruence]. unfold views in *. rewrite Hown in *. apply pair_equal_spec in Hb as [Hb1 Hb2].
    by rewrite Hside, Ho, Hb1, Hb2.
  - left. split; [|congruence]. rewrite bool_decide_eq_false_2, orb_false_r, app_nil_r in Hside by done.
    unfold views. by destruct (role_cases r (owner s)) as [->| ->]; rewrite ?other_other, Ho, Hside.
Qed.

Lemma inv_create S r proto addr t m w' ev ss :
  sys_inv S ->
  create_stream (channel r) proto addr t (world (loop (ends S r))) = Ok (Ok m, w', [SendEvent (evtx r) ev]) ->
  session r (world (loop (ends S r))) = Some ss -> session r w' = Some (add_pendding ss (clone m)) ->
  stream_id_seed ss + 2 < 2 ^ 32 ->
  sys_inv (create_at S r w' ev).
Proof.
  intros Hinv Hc Hss Hss' Hlt.
  pose proof (fun s => views_create S r _ _ _ _ _ _ _ s Hinv Hc Hss Hss') as Hv.
  destruct (inv_loop S Hinv r) as [Hst Hp].
  pose proof Hc as Hspec. eapply create_spec in Hspec as (Hev & Hg & Hp' & _); [|done..].
  apply syn_event in Hev as (d & Hser & Hd & _ & _ & _). apply deserialize_serialize in Hser.
  assert (seed_of S r = stream_id_seed ss) as Hseed by (unfold seed_of; by rewrite Hss).
  destruct (inv_seed S Hinv r) as [Hrange Hown]. rewrite Hseed in Hrange, Hown.
  assert (seed_of (create_at S r w' ev) r = seed_of S r + 2) as Hr.
  { unfold seed_of at 1. simpl. rewrite upd_eq. simpl. rewrite Hss'. simpl. rewrite wrap_small; lia. }
  assert (keeps S (create_at S r w' ev) (other r)) as [He Hw] by by apply keeps_other.
  assert (seed_of (create_at S r w' ev) (other r) = seed_of S (other r)) as Ho.
  { unfold seed_of. by rewrite He. }
  pose proof Hinv as [H1 H2 H3 H4 H5 H6]. split.
  - intros r'. destruct (role_cases r r') as [->| ->]; [|rewrite He; apply H1]. simpl. rewrite upd_eq.
    split; simpl; [by eapply streams_ok_grow|done].
  - intros r'. destruct (role_cases r r') as [->| ->]; [|rewrite He; apply H2]. simpl. rewrite upd_eq.
    simpl. rewrite Hss'. by eexists.
  - intros r'. destruct (role_cases r r') as [->| ->]; [|rewrite Ho; apply H3].
    rewrite Hr, owner_add2, Hseed. split; [lia|done].
  - intros r'. destruct (role_cases r r') as [->| ->]; [|rewrite He, Hw; apply H4].
    pose proof (H4 r) as Hs. simpl. rewrite upd_eq. simpl. rewrite !Forall_app in *. destruct_and!.
    split_and!; try done. constructor; [|constructor]. intros _. rewrite Hd. by eexists.
  - intros s. destruct (Hv s) as [[-> _]|(_ & -> & _)]; [apply H5|]. by constructor.
  - intros s Hle. destruct (Hv s) as [[-> Hne]|(_ & _ & ->)].
    + apply H6. destruct (role_cases r (owner s)) as [Hs|Hs]; rewrite Hs in *; [lia|]. by rewrite Ho in Hle.
    + rewrite Hseed, Hown in Hle. lia.
Qed.

Lemma quiet_enqueue S r ev w1 w2 :
  sys_inv S -> waiting (ends S r) = w1 ++ ev :: w2 -> remote ev = false -> flags (header ev) = FLAG_SYN ->
  quiet S (local_at S r (world (loop (ends S r))) (inbox (ends S r) ++ [ev]) (w1 ++ w2)
             ({[Event.stream_id (header ev)]} ∪ known (ends S r))).
Proof.
  intros Hinv Hw Hrem Hfl. apply quiet_local; [done|by apply same_tables_refl|].
  intros s. unfold side, side_of. simpl.
  assert (kind_of s ev = if decide (Event.stream_id (header ev) = s) then Some Syn else None) as Hk.
  { unfold kind_of. by rewrite Hfl. }
  rewrite Hw, !kinds_app, !kinds_from_app, kinds_cons, !kinds_from, Hk, Hrem, bool_decide_union.
  simpl. destruct (decide (Event.stream_id (header ev) = s)) as [Hs|Hs].
  - right. rewrite (bool_decide_eq_true_2 (s ∈ ({[Event.stream_id (header ev)]} : gset Z)))
      by (by apply elem_of_singleton). simpl. rewrite app_nil_r.
    eapply side_step_eq; [apply enqueue|]. done.
  - left. rewrite (bool_decide_eq_false_2 (s ∈ ({[Event.stream_id (header ev)]} : gset Z)))
      by (rewrite elem_of_singleton; congruence). simpl. by rewrite !app_nil_r.
Qed.

Lemma quiet_task S r ev :
  sys_inv S -> remote ev = false -> flags (header ev) <> FLAG_SYN ->
  (flags (header ev) = FLAG_FIN -> Event.stream_id (header ev) ∈ known (ends S r)) ->
  quiet S (local_at S r (world (loop (ends S r))) (inbox (ends S r) ++ [ev]) (waiting (ends S r)) (known (ends S r))).
Proof.
  intros Hinv Hrem Hfl Hk. apply quiet_local; [done|by apply same_tables_refl|].
  intros s. unfold side, side_of. simpl. rewrite !kinds_from_app, !kinds_from, Hrem. simpl.
  rewrite app_nil_r. destruct (kind_of s ev) as [k|] eqn:E; simpl; [right|left; by rewrite !app_nil_r].
  destruct (kind_of_spec s ev) as [Hs Hf]. destruct k; [by destruct Hs as [[_ ?] _]|].
  destruct Hf as [[<- Hf] _]; [done|]. rewrite (bool_decide_eq_true_2 (_ ∈ known _)) by auto.
  eapply side_step_eq; [apply user_close|]. done.
Qed.

(** Only SYNs of this end wait for room. *)
Definition waits_ok (S : Sys) : Prop :=
  forall r, Forall (fun ev => remote ev = false /\ flags (header ev) = FLAG_SYN) (waiting (ends S r)).

Lemma waits_step S S' : sys_inv S -> waits_ok S -> sys_step S S' -> waits_ok S'.
Proof.
  intros Hinv Hw Hs r'.
  assert (forall r E', (r' = r -> Forall (fun ev => remote ev = false /\ flags (header ev) = FLAG_SYN) (waiting E')) ->
    Forall (fun ev => remote ev = false /\ flags (header ev) = FLAG_SYN) (waiting (upd (ends S) r E' r'))) as Hu.
  { intros r E' HE. unfold upd. case_decide; auto. }
  destruct Hs as [r ev q e l' acts own Hq _ E Hown|r ev evs Hwi|r proto addr t m w' ev ss Hc Hss Hss' _|
    r ev w1 w2 Hwa|r ev _ _ _|r w' _ _ _]; simpl; apply Hu; intros ->; simpl; try apply Hw.
  - destruct (inv_loop S Hinv r) as [_ Hp]. eapply create_spec in Hc as (Hev & _); [|done..].
    apply syn_event in Hev as (d & _ & _ & ? & _ & ?). apply Forall_app. split; [apply Hw|by repeat constructor].
  - pose proof (Hw r) as Hr. rewrite Hwa, Forall_app, Forall_cons in Hr. apply Forall_app. by destruct_and!.
Qed.

Lemma waits_in S r ev w1 w2 :
  waits_ok S -> waiting (ends S r) = w1 ++ ev :: w2 -> remote ev = false /\ flags (header ev) = FLAG_SYN.
Proof. intros Hw Hwa. specialize (Hw r). rewrite Hwa, Forall_app, Forall_cons in Hw. by destruct_and!. Qed.

(** Every step is, for every stream, a step of its life or none. *)
Lemma views_step S S' s :
  sys_inv S -> waits_ok S -> sys_step S S' -> views S' s = views S s \/ life_step (views S s) (views S' s).
Proof.
  intros Hinv Hw Hs.
  assert (quiet S S' -> views S' s = views S s \/ life_step (views S s) (views S' s)) as Hq.
  { intros Hq. destruct (Hq s); [by left|right; by constructor]. }
  destruct Hs as [r ev q e l' acts own Hi _ E Hown|r ev evs Hwi|r proto addr t m w' ev ss Hc Hss Hss' Hlt|
    r ev w1 w2 Hwa|r ev Hrem Hfl Hk|r w' Hs Hg Hp].
  - by eapply Hq, quiet_handle.
  - apply Hq. intros s'. by apply views_receive.
  - destruct (views_create S r _ _ _ _ _ _ _ s Hinv Hc Hss Hss') as [[-> _]|(-> & -> & _)]; [by left|].
    right. constructor.
  - destruct (waits_in S r ev w1 w2 Hw Hwa). by apply Hq, quiet_enqueue.
  - by apply Hq, quiet_task.
  - apply Hq, quiet_local; [done|done|by left].
Qed.

Lemma sys_inv_step S S' : sys_inv S -> waits_ok S -> sys_step S S' -> sys_inv S'.
Proof.
  intros Hinv Hw Hs.
  destruct Hs as [r ev q e l' acts own Hi _ E Hown|r ev evs Hwi|r proto addr t m w' ev ss Hc Hss Hss' Hlt|
    r ev w1 w2 Hwa|r ev Hrem Hfl Hk|r w' Hs Hg Hp];
    try (pose proof (inv_syn S Hinv r) as Hr; rewrite !Forall_app in Hr; destruct Hr as (Hri & Hrw & Hrx)).
  - by eapply inv_handle.
  - by apply inv_receive.
  - by eapply inv_create.
  - destruct (waits_in S r ev w1 w2 Hw Hwa). rewrite Hwa, Forall_app, Forall_cons in Hrw. destruct_and!.
    apply inv_local; [done|by apply same_tables_refl| |by apply quiet_enqueue].
    rewrite !Forall_app. split_and!; try done. by constructor.
  - apply inv_local; [done|by apply same_tables_refl| |by apply quiet_task].
    rewrite !Forall_app. split_and!; try done. constructor; [by apply syn_ok_other|constructor].
  - apply inv_local; [done|done| |apply quiet_local; [done|done|by left]]. by apply Forall_app.
Qed.

Lemma sys_inv_reachable S : reachable S -> sys_inv S /\ waits_ok S.
Proof.
  induction 1 as [S Hs|S S' _ [Hi Hw] Hs].
  - split; [by apply starts_inv|]. intros r. destruct (starts_quiet S Hs r) as (_ & -> & _). constructor.
  - split; [by eapply sys_inv_step|by eapply waits_step].
Qed.

(** What is under way for a stream: events of one kind in a list. *)
Definition carries (f s : Z) (evs : list Event) : Prop :=
  exists ev, ev ∈ evs /\ Event.stream_id (header ev) = s /\ flags (header ev) = f.

Lemma kinds_carries s k evs :
  k ∈ kinds s evs -> carries (match k with Syn => FLAG_SYN | Fin => FLAG_FIN end) s evs.
Proof.
  intros (ev & Hin & Hk)%list_elem_of_omap. exists ev. split; [done|].
  destruct (kind_of_spec s ev) as [Hs Hf]. destruct k; [by apply Hs|by apply Hf].
Qed.
End Laws.
End Sys.

(** ** Running the system

    The steps as functions, for concrete runs. *)

Section Run.
Context {C : Ciphers} `{Bincode ConnectRequest}.
Context (channel : role -> string) (tunnel_id : role -> Z) (sref evtx : role -> nat).
Abbreviation reachable := (reachable channel tunnel_id sref evtx).
Abbreviation session := (session channel tunnel_id).

Definition do_create (S : Sys) (r : role) (proto addr : string) (t : Z) : Sys :=
  match create_stream (channel r) proto addr t (world (loop (ends S r))) with
  | Ok (Ok _, w', [SendEvent _ ev]) => create_at S r w' ev
  | _ => S
  end.
Definition do_enqueue (S : Sys) (r : role) : Sys :=
  match waiting (ends S r) with
  | ev :: w => local_at S r (world (loop (ends S r))) (inbox (ends S r) ++ [ev]) w
                 ({[Event.stream_id (header ev)]} ∪ known (ends S r))
  | [] => S
  end.
Definition do_handle (S : Sys) (r : role) (e : Env) : Sys :=
  if is_closed (sstate (world (loop (ends S r))) (sref r)) then S
  else match inbox (ends S r) with
  | ev :: q =>
      match handle_event (channel r) (tunnel_id r) (sref r) (evtx r) ev e (loop (ends S r)) with
      | Ok (l', acts, Continue) => handle_at S r ev q l' (queued (evtx r) acts)
      | _ => S
      end
  | [] => S
  end.
Definition do_receive (S : Sys) (r : role) : Sys :=
  match wire S (other r) with ev :: evs => receive_at S r ev evs | [] => S end.

Lemma reach_create S r proto addr t ss :
  reachable S -> session r (world (loop (ends S r))) = Some ss -> stream_id_seed ss + 2 < 2 ^ 32 ->
  match create_stream (channel r) proto addr t (world (loop (ends S r))) with
  | Ok (Ok m, w', [SendEvent tx ev]) => tx = evtx r /\ session r w' = Some (add_pendding ss (clone m))
  | _ => True
  end -> reachable (do_create S r proto addr t).
Proof.
  intros Hr Hss Hlt. unfold do_create.
  destruct (create_stream _ _ _ _ _) as [[[[m|e|] w'] [|[] [|]]]|[]|] eqn:E; try done.
  intros [-> Hss']. eapply reach_step; [done|]. by eapply sys_create.
Qed.

Lemma reach_enqueue S r : reachable S -> reachable (do_enqueue S r).
Proof.
  intros Hr. unfold do_enqueue. destruct (waiting (ends S r)) as [|ev w] eqn:E; [done|].
  eapply reach_step; [done|]. by apply (sys_enqueue _ _ _ _ S r ev [] w).
Qed.

Lemma reach_handle S r e : reachable S -> reachable (do_handle S r e).
Proof.
  intros Hr. unfold do_handle. destruct (is_closed _) eqn:Hc; [done|].
  destruct (inbox (ends S r)) as [|ev q] eqn:Hq; [done|].
  destruct (handle_event _ _ _ _ ev e _) as [[[l' acts] []]|[]|] eqn:E; try done.
  eapply reach_step; [done|]. by eapply sys_handle.
Qed.

Lemma reach_receive S r : reachable S -> reachable (do_receive S r).
Proof.
  intros Hr. unfold do_receive. destruct (wire S (other r)) as [|ev evs] eqn:E; [done|].
  eapply reach_step; [done|]. by apply sys_receive.
Qed.
End Run.

(** A session of two ends, on which the client opens a stream. *)
Module SystemDemo.
Definition channel (r : role) : string := match r with Client => "rmux" | Server => "" end.
Definition tunnel_id (r : role) : Z := match r with Client => 4 | Server => 0 end.
Definition evtx (r : role) : nat := match r with Client => 9 | Server => 3 end.
Definition nowhere : World := {| manager := manager_new; sstates := ∅; cells := ∅ |}.
Definition loop_of (r : role) : Loop :=
  {| world := start_session (channel r) (tunnel_id r) (evtx r) (evtx r) 2400 0 nowhere;
     streams := ∅; wctx := Toy.ctx |}.
Definition s0 : Sys :=
  {| ends r := {| loop := loop_of r; inbox := []; waiting := []; known := ∅ |}; wire _ := [] |}.
#[export] Instance bincode : Bincode ConnectRequest := Session.Demo.req_bincode.
#[export] Instance bincode_laws : BincodeLaws ConnectRequest := Session.Demo.req_bincode_laws.
#[export] Instance ciphers : Ciphers := Toy.toy.

Abbreviation reachable := (System.reachable channel tunnel_id evtx evtx).
Abbreviation handle := (do_handle channel tunnel_id evtx evtx).

Lemma channels_of r :
  channels (manager (world (loop_of r))) =
    {[channel r := {| sessions := [Some (session_new (channel r) (tunnel_id r) (evtx r) (evtx r) 2400)];
                      cursor := 0 |}]}.
Proof. by destruct r; vm_compute. Qed.

Lemma s0_starts : starts channel tunnel_id s0.
Proof.
  split.
  - intros r. split; [done|]. intros ch cs ss m Hch Hss Hm. exfalso.
    cbn [s0 ends System.loop] in Hch. rewrite channels_of in Hch.
    apply lookup_singleton_Some in Hch as [_ <-].
    apply list_elem_of_singleton in Hss as [= ->]. by apply elem_of_nil in Hm.
  - intros []; by eexists.
  - by intros [].
Qed.

(** The stream created; its SYN sent; the SYN arrived and handled. *)
Definition s1 : Sys := do_create channel s0 Client "tcp" "b:2" 5.
Definition s2 : Sys := handle (do_enqueue s1 Client) Client (LoopDemo.env 6).
Definition s3 : Sys := handle (do_receive s2 Server) Server (LoopDemo.env 7).

Lemma s1_reachable : reachable s1.
Proof.
  eapply reach_create; [apply reach_start, s0_starts|reflexivity|vm_compute; reflexivity|].
  vm_compute. split; reflexivity.
Qed.
Lemma s2_reachable : reachable s2.
Proof. apply reach_handle, reach_enqueue, s1_reachable. Qed.
Lemma s3_reachable : reachable s3.
Proof. apply reach_handle, reach_receive, s2_reachable. Qed.
End SystemDemo.

Example system_opens :
  elements (dom (streams (loop (ends SystemDemo.s2 Client)))) = [1] /\
  elements (dom (streams (loop (ends SystemDemo.s2 Server)))) = [] /\
  length (wire SystemDemo.s2 Client) = 1%nat /\
  elements (dom (streams (loop (ends SystemDemo.s3 Server)))) = [1].
Proof. vm_compute. split_and!; reflexivity. Qed.

(** ** Properties *)

(** C5: the two ends of a session implement the life of every stream.  Each
    step of the system of the two event tasks, their event channels and the
    wires between them is, for every stream id, a step of the abstract machine
    of that id or none; the system starts with no stream born.  The manager
    does not retire the sessions of the system meanwhile, and no end has run out
    of stream ids ([sys_world]). *)
Theorem ends_refine_lives {C : Ciphers} `{BincodeLaws ConnectRequest} channel tunnel_id sref evtx S S' s :
  let views := views channel tunnel_id in
  (starts channel tunnel_id S -> views S s = (blank, blank)) /\
  (reachable channel tunnel_id sref evtx S -> sys_step channel tunnel_id sref evtx S S' ->
   (views S' s = views S s \/ life_step (views S s) (views S' s)) /\ alive (views S' s)).
Proof.
  intros V. split.
  - intros Hs. unfold V, System.views. f_equal; by apply start_side.
  - intros Hr Hs. destruct (sys_inv_reachable channel tunnel_id sref evtx S Hr) as [Hinv Hw]. split; [by apply (views_step channel tunnel_id sref evtx)|].
    apply inv_alive. by apply (sys_inv_step channel tunnel_id sref evtx S).
Qed.

(** C4: the two ends agree on the open streams, up to what is under way.  If
    only the end that opened a stream has it, its SYN is still under way to
    the other, or the FIN of the other to it; if only the other has it, the
    FIN of the end that opened it is under way; and when nothing is under way,
    both have the same streams.  This is as long as the manager does not retire
    the session, after which a stream can be lost to one end
    ([retired_stream_lost]), and stream ids do not wrap. *)
Theorem ends_agree {C : Ciphers} `{BincodeLaws ConnectRequest} channel tunnel_id sref evtx S :
  reachable channel tunnel_id sref evtx S ->
  (forall s, let o := owner s in let p := other o in
   let has r := s ∈ dom (streams (loop (ends S r))) in
   (has o -> ~ has p ->
      carries FLAG_SYN s (waiting (ends S o) ++ from false (inbox (ends S o)) ++
                          from true (inbox (ends S p)) ++ wire S o) \/
      carries FLAG_FIN s (from true (inbox (ends S o)) ++ wire S p)) /\
   (has p -> ~ has o -> carries FLAG_FIN s (from true (inbox (ends S p)) ++ wire S o))) /\
  ((forall r, waiting (ends S r) = [] /\ inbox (ends S r) = [] /\ wire S r = []) ->
   dom (streams (loop (ends S Client))) = dom (streams (loop (ends S Server)))).
Proof.
  intros Hr. destruct (sys_inv_reachable channel tunnel_id sref evtx S Hr) as [Hinv _].
  pose proof (fun s => life_settles _ _ (inv_alive _ _ S Hinv s)) as Hset.
  assert (forall s, let o := owner s in let p := other o in
   let has r := s ∈ dom (streams (loop (ends S r))) in
   (has o -> ~ has p ->
      carries FLAG_SYN s (waiting (ends S o) ++ from false (inbox (ends S o)) ++
                          from true (inbox (ends S p)) ++ wire S o) \/
      carries FLAG_FIN s (from true (inbox (ends S o)) ++ wire S p)) /\
   (has p -> ~ has o -> carries FLAG_FIN s (from true (inbox (ends S p)) ++ wire S o))) as Hall.
  { intros s o p has. destruct (Hset s) as [H1 H2]. cbn in H1, H2. rewrite <- !kinds_app in *.
    unfold has, p, o. split; intros Ha Hb; apply (bool_decide_eq_true_2 _) in Ha; apply (bool_decide_eq_false_2 _) in Hb.
    - destruct (H1 Ha Hb) as [Hk|Hk]; apply kinds_carries in Hk; [by left|by right].
    - by apply (kinds_carries s Fin), H2. }
  split; [exact Hall|]. intros Hq.
  assert (forall f s, ~ carries f s []) as Hno by (by intros f s (ev & Hin%elem_of_nil & _)).
  apply set_eq. intros s. destruct (Hall s) as [H1 H2].
  destruct (Hq Client) as (Hw1 & Hi1 & Ho1), (Hq Server) as (Hw2 & Hi2 & Ho2).
  destruct (owner s); cbn in H1, H2; rewrite ?Hw1, ?Hi1, ?Ho1, ?Hw2, ?Hi2, ?Ho2 in H1;
    rewrite ?Hw1, ?Hi1, ?Ho1, ?Hw2, ?Hi2, ?Ho2 in H2; simpl in H1, H2;
    split; intros Hin; match goal with |- ?P => destruct (decide P) as [|Hnot]; [done|] end;
    exfalso; first [by destruct (H1 Hin Hnot) as [Hc|Hc]; apply Hno in Hc | by apply (Hno _ _ (H2 Hin Hnot))].
Qed.

Lemma ends_agree_witness :
  1 ∈ dom (streams (loop (ends SystemDemo.s2 Client))) /\
  (carries FLAG_SYN 1 (waiting (ends SystemDemo.s2 Client) ++ from false (inbox (ends SystemDemo.s2 Client)) ++
                       from true (inbox (ends SystemDemo.s2 Server)) ++ wire SystemDemo.s2 Client) \/
   carries FLAG_FIN 1 (from true (inbox (ends SystemDemo.s2 Client)) ++ wire SystemDemo.s2 Server)) /\
  dom (streams (loop (ends SystemDemo.s3 Client))) = dom (streams (loop (ends SystemDemo.s3 Server))).
Proof.
  assert (1 ∈ dom (streams (loop (ends SystemDemo.s2 Client)))) as Hin
    by (apply (bool_decide_eq_true_1 _); vm_compute; reflexivity).
  split; [exact Hin|]. split.
  - destruct (ends_agree (C := SystemDemo.ciphers) (H := SystemDemo.bincode) (H0 := SystemDemo.bincode_laws)
                SystemDemo.channel SystemDemo.tunnel_id SystemDemo.evtx SystemDemo.evtx
                SystemDemo.s2 SystemDemo.s2_reachable) as [H _].
    apply (H 1); [exact Hin|]. apply (bool_decide_eq_true_1 _). vm_compute. reflexivity.
  - destruct (ends_agree (C := SystemDemo.ciphers) (H := SystemDemo.bincode) (H0 := SystemDemo.bincode_laws)
                SystemDemo.channel SystemDemo.tunnel_id SystemDemo.evtx SystemDemo.evtx
                SystemDemo.s3 SystemDemo.s3_reachable) as [_ H].
    apply H. intros []; vm_compute; split_and!; reflexivity.
Defined.

(** C32: between two ends that run this code a SYN always opens a new stream:
    one that arrives carries an id of the other end that is not in the
    table, as long as stream ids do not wrap and the session is not retired. *)
Theorem syn_finds_new {C : Ciphers} `{BincodeLaws ConnectRequest} channel tunnel_id sref evtx S r ev :
  reachable channel tunnel_id sref evtx S ->
  ev ∈ inbox (ends S r) -> remote ev = true -> flags (header ev) = FLAG_SYN ->
  let s := Event.stream_id (header ev) in
  owner s = other r /\ s ∉ dom (streams (loop (ends S r))).
Proof.
  intros Hr Hin Hrem Hfl s. destruct (sys_inv_reachable channel tunnel_id sref evtx S Hr) as [Hinv _].
  destruct (life_syn _ _ (inv_alive _ _ S Hinv s)) as [H1 H2].
  assert (Syn ∈ rin (side channel tunnel_id S r s)) as Hk.
  { unfold side, side_of. simpl. apply list_elem_of_omap. exists ev. split.
    - apply list_elem_of_filter. by split.
    - by apply kind_of_spec. }
  unfold views in H1, H2. cbn [fst snd] in H1, H2.
  destruct (role_cases r (owner s)) as [E|E]; rewrite E in H1, H2; [by destruct H2|].
  split; [done|]. rewrite other_other in H1. by apply (bool_decide_eq_false_1 _), H1.
Qed.

Lemma syn_finds_new_witness :
  let S := do_receive SystemDemo.s2 Server in
  exists ev, inbox (ends S Server) = [ev] /\ Event.stream_id (header ev) = 1 /\
    1 ∉ dom (streams (loop (ends S Server))).
Proof.
  set (S := do_receive SystemDemo.s2 Server).
  destruct (inbox (ends S Server)) as [|ev q] eqn:E; [vm_compute in E; discriminate E|].
  exists ev. assert (Event.stream_id (header ev) = 1 /\ q = [] /\ remote ev = true /\
                     flags (header ev) = FLAG_SYN) as (Hid & Hq & Hrem & Hfl).
  { vm_compute in E. injection E as <- <-. split_and!; reflexivity. }
  destruct (syn_finds_new (C := SystemDemo.ciphers) (H := SystemDemo.bincode) (H0 := SystemDemo.bincode_laws)
                SystemDemo.channel SystemDemo.tunnel_id SystemDemo.evtx SystemDemo.evtx S Server ev)
    as [_ Hnew].
  - apply reach_receive, SystemDemo.s2_reachable.
  - rewrite E. left.
  - exact Hrem.
  - exact Hfl.
  - rewrite Hid in Hnew. split; [|split; [exact Hid|exact Hnew]]. by subst q.
Defined.

Lemma ends_refine_lives_witness :
  let views := views SystemDemo.channel SystemDemo.tunnel_id in
  views SystemDemo.s0 1 = (blank, blank) /\
  (views SystemDemo.s1 1 = views SystemDemo.s0 1 \/ life_step (views SystemDemo.s0 1) (views SystemDemo.s1 1)).
Proof.
  destruct (ends_refine_lives (C := SystemDemo.ciphers) (H := SystemDemo.bincode) (H0 := SystemDemo.bincode_laws)
                SystemDemo.channel SystemDemo.tunnel_id SystemDemo.evtx SystemDemo.evtx
              SystemDemo.s0 SystemDemo.s1 1) as [H1 H2].
  split; [apply H1, SystemDemo.s0_starts|]. apply H2; [apply reach_start, SystemDemo.s0_starts|].
  unfold SystemDemo.s1, do_create.
  destruct (create_stream (SystemDemo.channel Client) "tcp" "b:2" 5
              (world (loop (ends SystemDemo.s0 Client)))) as [[[[m|e|] w'] [|[?|?|?|tx ev|?|?] [|]]]|[]|] eqn:E;
    try (vm_compute in E; discriminate E).
  assert (tx = SystemDemo.evtx Client) as Htx by (vm_compute in E; injection E as _ _ <- _; reflexivity).
  subst. eapply sys_create; [exact E|reflexivity| |vm_compute; reflexivity].
  vm_compute in E. injection E as <- <- _. vm_compute. reflexivity.
Defined.

(** What [sys_world] leaves out: a session that has left its slot (the
    manager retired it) while a stream waits on its pending list.  The SYN
    still goes out, so the other end opens the stream, but the table of this
    end never gets it. *)
Lemma retired_stream_lost {C : Ciphers} `{Bincode ConnectRequest} channel tunnel_id sref evtx ev e l :
  remote ev = false -> flags (header ev) = FLAG_SYN -> ctx_ok (wctx l) -> send_ok e = true ->
  session_of channel tunnel_id (world l) = None ->
  exists l' f, handle_event channel tunnel_id sref evtx ev e l = Ok (l', [SendFrame f], Continue) /\
    reply ev = Some ev /\ streams l' = streams l.
Proof.
  intros Hrem Hfl Hok Hsend Hs. unfold handle_event. decide_eqs. rewrite Hrem. cbn [negb].
  unfold handle_local_event. decide_eqs.
  destruct (hanle_pendding_mux_streams _ _ _ _ _) as [m s] eqn:Eh.
  assert (s = streams l) as ->.
  { unfold hanle_pendding_mux_streams, session_of in *.
    destruct (channels _ !! _) as [cs|]; [|by simplify_eq]. simpl in Hs.
    assert (forall k s1, hand_over (stream_of (world l)) (sessions cs) tunnel_id (streams l) = (k, s1) ->
              s1 = streams l) as Hsame.
    { clear Eh. induction (sessions cs) as [|[ss|] k IH]; intros k1 s1 E; simpl in E, Hs; [by simplify_eq| |].
      - destruct (decide (s_id ss = tunnel_id)); [done|]. destruct (hand_over _ k _ _) eqn:Ek.
        simplify_eq. by eapply IH.
      - destruct (hand_over _ k _ _) eqn:Ek. simplify_eq. by eapply IH. }
    destruct (hand_over _ _ _ _) eqn:Eo. simplify_eq. by eapply Hsame. }
  match goal with |- context [send_local_event ev e ?x] =>
    destruct (send_local_event_spec ev e x) as (c & f & _ & _ & ->); [done|] end.
  unmonad. rewrite Hsend. eexists _, f. split; [done|]. split; [|done].
  unfold reply. rewrite Hrem. by decide_eqs.
Qed.
