(* ===== verification/Delivery.v ===== *)
(** * From one stream to its other end (src/src/rmux/session.rs, both sides)

    The DATA events of a stream across a session: the event task of one side
    sends them, the link carries them ([session_link_delivers]), and the event
    task of the other side puts their bodies into the data channel of the
    stream.  A data channel is named after the cell that first holds its ends,
    so the chunks of a stream are the [SendData] effects under that name. *)
From stdpp Require Import prelude gmap list strings.
From Stdlib Require Import ZArith Lia.
From S2P Require Import Prelude Io Event Crypto Buf Stream Session EventLoop SessionTasks.

Local Open Scope Z_scope.

(** ** Chunks and DATA events *)

Definition chunk_for (n : nat) (a : action) : option (list byte) :=
  match a with Do (SendData tx d) => if decide (tx = n) then Some d else None | _ => None end.
(** What is put into data channel [n]. *)
Definition chunks (n : nat) (acts : list action) : list (list byte) := omap (chunk_for n) acts.

Definition data_for (sid : Z) (ev : Event) : option (list byte) :=
  if decide (flags (header ev) = FLAG_DATA /\ Event.stream_id (header ev) = sid) then Some (body ev) else None.
(** The bodies of the DATA events of a stream. *)
Definition bodies (sid : Z) (evs : list Event) : list (list byte) := omap (data_for sid) evs.

(** The events of the peer among the inputs of an event task. *)
Definition remotes (inputs : list (option Event * Env)) : list Event :=
  omap (fun i => ev ← i.1; if remote ev then Some ev else None) inputs.

Lemma chunks_app n a b : chunks n (a ++ b) = chunks n a ++ chunks n b.
Proof. apply omap_app. Qed.

Lemma chunks_close n w m : chunks n (close_stream w m).2 = [].
Proof.
  unfold close_stream, Stream.close. destruct (cells w !! cell m) as [c|]; [|done].
  by destruct (data_tx m), (io_data_tx (io_state c)), (waker (io_state c)).
Qed.

Lemma chunks_window n c inc : chunks n (map Do (Stream.update_send_window c inc).2) = [].
Proof. unfold Stream.update_send_window. by repeat case_match. Qed.

Lemma chunks_fin sref n sid l : chunks n (handle_fin_event sref sid l).1.2 = [].
Proof.
  unfold handle_fin_event. destruct (streams l !! sid) as [m|].
  - pose proof (chunks_close n (world l) m). destruct (close_stream (world l) m) as [w acts].
    simpl in *. by case_match.
  - by case_match.
Qed.

(** ** A stream that its task holds *)

Section Held.
Context {C : Ciphers} `{Bincode ConnectRequest}.
Context (sid : Z) (n : nat).

(** A stream that has no sender of its own yet, or that of its own channel. *)
Definition own_sender (m : MuxStream) : Prop := data_tx m = None \/ data_tx m = Some (cell m).

(** Cells hold the sender of their own channel only; the streams that wait to
    be handed over are other streams. *)
Record tidy (w : World) : Prop := {
  t_named : forall j c tx, cells w !! j = Some c -> io_data_tx (io_state c) = Some tx -> tx = j;
  t_pending : forall ch cs ss m, channels (manager w) !! ch = Some cs -> Some ss ∈ sessions cs ->
    m ∈ pendding_streams ss ->
    cell m <> n /\ own_sender m /\ exists c, cells w !! cell m = Some c /\ Stream.id c <> sid;
}.

(** Cells stay, with their streams; that of the stream keeps its sender. *)
Definition stays (w w' : World) : Prop :=
  forall j c, cells w !! j = Some c -> exists c', cells w' !! j = Some c' /\ Stream.id c' = Stream.id c /\
    (j = n -> io_data_tx (io_state c') = io_data_tx (io_state c)).

(** The stream [sid] of the table is behind cell [n] and can be sent to. *)
Record held (l : Loop) : Prop := {
  h_stream : exists m c, streams l !! sid = Some m /\ cell m = n /\ cells (world l) !! n = Some c /\
    Stream.id c = sid /\
    (data_tx m = Some n \/ data_tx m = None /\ io_data_tx (io_state c) = Some n);
  h_others : forall k m, k <> sid -> streams l !! k = Some m -> cell m <> n /\ own_sender m;
  h_tidy : tidy (world l);
}.

(** What the other tasks do keeps this. *)
Definition decent (e : Env) : Prop := forall w, tidy w -> tidy (others e w) /\ stays w (others e w).

Lemma held_world l w' : held l -> tidy w' -> stays (world l) w' -> held (with_world l w').
Proof.
  intros [(m & c & Hm & Hc & Hn & Hid & Htx) Ho _] Ht Hs. destruct (Hs n c Hn) as (c' & Hn' & Hid' & Htx').
  split; [|done|done]. exists m, c'. rewrite Hid', Htx' by done. by split_and!.
Qed.

Lemma held_ctx l ctx : held l -> held {| world := world l; streams := streams l; wctx := ctx |}.
Proof. intros [H1 H2 H3]. by split. Qed.

Lemma stays_refl w : stays w w.
Proof. intros j c Hc. by exists c. Qed.

(** Setting a cell to one of the same stream. *)
Lemma set_cell_tidy w j c c' :
  cells w !! j = Some c -> Stream.id c' = Stream.id c ->
  (io_data_tx (io_state c') = None \/ io_data_tx (io_state c') = io_data_tx (io_state c)) ->
  tidy w -> tidy (set_cell w j c').
Proof.
  intros Hj Hid Htx [Hn Hp]. split; simpl.
  - intros j' c0 tx. destruct (decide (j' = j)) as [->|Hne].
    + rewrite lookup_insert_eq. intros [= <-] E. destruct Htx as [Htx|Htx]; [congruence|].
      rewrite Htx in E. by eapply Hn.
    + rewrite lookup_insert_ne by done. apply Hn.
  - intros ch cs ss m Hch Hss Hm. destruct (Hp ch cs ss m Hch Hss Hm) as (H1 & H2 & c0 & Hc0 & H3).
    split_and!; [done|done|]. destruct (decide (cell m = j)) as [E|Hne].
    + exists c'. rewrite E, lookup_insert_eq. split; [done|]. rewrite Hid. congruence.
    + exists c0. by rewrite lookup_insert_ne.
Qed.

Lemma set_cell_stays w j c c' :
  cells w !! j = Some c -> Stream.id c' = Stream.id c ->
  (j = n -> io_data_tx (io_state c') = io_data_tx (io_state c)) -> stays w (set_cell w j c').
Proof.
  intros Hj Hid Htx j' c0 Hc0. simpl. destruct (decide (j' = j)) as [->|Hne].
  - exists c'. rewrite lookup_insert_eq. simplify_eq. by split_and!.
  - exists c0. by rewrite lookup_insert_ne.
Qed.

Lemma held_set_cell l j c c' :
  held l -> cells (world l) !! j = Some c -> Stream.id c' = Stream.id c ->
  io_data_tx (io_state c') = io_data_tx (io_state c) -> held (with_world l (set_cell (world l) j c')).
Proof.
  intros Hl Hj Hid Htx. apply held_world; [done| |by eapply set_cell_stays].
  eapply set_cell_tidy; [done|done|by right|apply Hl].
Qed.

Lemma held_sstate l k st : held l -> held (with_world l (set_sstate (world l) k st)).
Proof. intros [H1 H2 H3]. split; [done|done|]. by destruct H3. Qed.

Lemma insert_all_keeps (f : MuxStream -> Z) ms (s : gmap Z MuxStream) k :
  is_Some (s !! k) -> is_Some (foldr (fun x t => <[f x := x]> t) s ms !! k).
Proof.
  intros Hk. induction ms as [|x ms IH]; simpl; [done|].
  destruct (decide (f x = k)) as [<-|Hne]; [rewrite lookup_insert_eq; by eexists|by rewrite lookup_insert_ne].
Qed.

Lemma hand_over_keeps f l id s l' s' k :
  hand_over f l id s = (l', s') -> is_Some (s !! k) -> is_Some (s' !! k).
Proof.
  revert l' s'. induction l as [|[ss|] l IH]; intros l' s' E Hk; simpl in E; [by simplify_eq| |].
  - destruct (decide (s_id ss = id)); [simplify_eq; by apply insert_all_keeps|].
    destruct (hand_over f l id s) as [l1 s1]. simplify_eq. by apply (IH l1).
  - destruct (hand_over f l id s) as [l1 s1]. simplify_eq. by apply (IH l1).
Qed.

Lemma held_hand_over channel tunnel_id l m' s' :
  hanle_pendding_mux_streams (stream_of (world l)) channel tunnel_id (manager (world l)) (streams l) = (m', s') ->
  held l -> held {| world := set_manager (world l) m'; streams := s'; wctx := wctx l |}.
Proof.
  unfold hanle_pendding_mux_streams. intros E [(m & c & Hm & Hc & Hn & Hid & Htx) Ho [Hnm Hp]].
  destruct (channels (manager (world l)) !! channel) as [cs|] eqn:Hcs.
  2: { injection E as <- <-. split; [by exists m, c|done|by split]. }
  destruct (hand_over _ _ _ _) as [l1 s1] eqn:Eh. injection E as <- <-.
  pose proof (hand_over_keeps _ _ _ _ _ _ sid Eh ltac:(by eexists)) as [m1 Hm1].
  apply hand_over_spec in Eh as [H1 H2].
  assert (forall ss x, Some ss ∈ sessions cs -> x ∈ pendding_streams ss ->
    cell x <> n /\ own_sender x /\ stream_of (world l) x <> sid) as Hpend.
  { intros ss x Hss Hx. destruct (Hp channel cs ss x Hcs Hss Hx) as (? & ? & c0 & Hc0 & ?).
    split_and!; [done|done|]. unfold stream_of. by rewrite Hc0. }
  split; simpl.
  - exists m1, c. destruct (H2 sid m1 Hm1) as [?|(ss & Hss & Hx & Hk)].
    + simplify_eq. by split_and!.
    + exfalso. by destruct (Hpend ss m1 Hss Hx) as (_ & _ & ?).
  - intros k x Hk Hx. destruct (H2 k x Hx) as [?|(ss & Hss & Hin & _)]; [by eapply Ho|].
    by destruct (Hpend ss x Hss Hin) as (? & ? & _).
  - split; [done|]. intros ch cs' ss' x Hch Hss Hx. simpl in Hch. destruct (decide (ch = channel)) as [->|Hne].
    + rewrite lookup_insert_eq in Hch. simplify_eq. simpl in Hss.
      destruct (H1 ss' Hss) as (ss & Hss0 & Hsub). by eapply (Hp channel cs ss x), Hsub.
    + rewrite lookup_insert_ne in Hch by done. by apply (Hp ch cs' ss' x).
Qed.

Lemma close_keeps_tx m c : io_data_tx (io_state (Stream.close m c).1) = io_data_tx (io_state c).
Proof. unfold Stream.close. by destruct (waker (io_state c)). Qed.
Lemma window_keeps_tx c inc : io_data_tx (io_state (Stream.update_send_window c inc).1) = io_data_tx (io_state c).
Proof. unfold Stream.update_send_window. by repeat case_match. Qed.

Lemma held_close l m : held l -> held (with_world l (close_stream (world l) m).1).
Proof.
  intros Hl. unfold close_stream. destruct (cells (world l) !! cell m) as [c|] eqn:Hc; [|by destruct l].
  pose proof (close_id m c). pose proof (close_keeps_tx m c). destruct (Stream.close m c) as [c' effs].
  by eapply held_set_cell.
Qed.

Lemma held_delete l k : k <> sid -> held l -> held (with_streams l (delete k (streams l))).
Proof.
  intros Hk [(m & c & Hm & H1) Ho Ht]. split; simpl; [|..|done].
  - exists m, c. by rewrite lookup_delete_ne.
  - intros k' x Hk' Hx. eapply Ho; [done|]. by apply lookup_delete_Some in Hx as [_ ?].
Qed.

Lemma held_fin sref k l : k <> sid -> held l -> held (handle_fin_event sref k l).1.1.
Proof.
  intros Hk Hl. unfold handle_fin_event. destruct (streams l !! k) as [m|].
  - pose proof (held_delete _ k Hk (held_close l m Hl)) as H1.
    destruct (close_stream (world l) m) as [w acts]. cbn [fst] in H1.
    destruct (_ && _); simpl; [by eapply held_sstate in H1|done].
  - destruct (_ && _); simpl; [by apply held_sstate|done].
Qed.

Lemma chunks_local channel tunnel_id sref ev e l r :
  handle_local_event channel tunnel_id sref ev e l = Ok r ->
  (flags (header ev) = FLAG_FIN -> Event.stream_id (header ev) <> sid) -> held l ->
  held r.1.1 /\ chunks n r.1.2 = [].
Proof.
  unfold handle_local_event. intros E Hfin Hl.
  destruct (decide (FLAG_SHUTDOWN = _)); [by injection E as <-|].
  match type of E with context [if decide (FLAG_SYN = _) then ?a else ?b] =>
    set (l1 := if decide (FLAG_SYN = _) then a else b) in * end.
  assert (held l1) as Hl1.
  { unfold l1. destruct (decide (FLAG_SYN = _)); [|done].
    destruct (hanle_pendding_mux_streams _ _ _ _ _) eqn:Eh. by eapply held_hand_over. }
  match type of E with context [if decide (FLAG_FIN = _) then ?a else ?b] =>
    set (x := if decide (FLAG_FIN = _) then a else b) in * end.
  assert (held x.1.1 /\ chunks n x.1.2 = []) as [Hx Hcx].
  { unfold x. destruct (decide (FLAG_FIN = _)) as [Hf|]; [|done].
    split; [apply held_fin; [by apply Hfin|done]|apply chunks_fin]. }
  destruct x as [[l2 acts] done]; simpl in Hx, Hcx. destruct done; [by injection E as <-|].
  destruct (decide (FLAG_ROUTINE = _)).
  - unfold handle_routine_event in E. destruct (_ || _); injection E as <-; [|done].
    split; [by apply held_sstate|done].
  - unfold send_local_event in E. destruct (encrypt _ _ _) as [[[ctx ?] ?]|[]|]; [|done].
    injection E as <-. cbn [fst snd]. split; [by apply held_ctx|]. rewrite chunks_app, Hcx. by case_match.
Qed.

Lemma held_syn channel tunnel_id evtx ev e l :
  held l ->
  let '(w, acts, o) := handle_syn channel tunnel_id evtx ev e (world l) in
  held (with_world l w) /\ chunks n acts = [] /\
  (forall m, o = Some m -> cell m <> n /\ own_sender m).
Proof.
  intros Hl. unfold handle_syn. destruct (deserialize (body ev)) as [creq|]; [|by destruct l].
  set (c := fresh (dom (cells (world l)))). simpl.
  assert (forall j x, cells (world l) !! j = Some x -> j <> c) as Hfresh.
  { intros j x Hj ->. apply (is_fresh (dom (cells (world l)))), elem_of_dom. by exists x. }
  destruct Hl as [(m & x & Hm & Hc & Hn & Hid & Htx) Ho [Hnm Hp]].
  split_and!; [|done|intros m0 [= <-]; split; [intros E; by eapply Hfresh in Hn|by left]].
  apply held_world; [split; [by exists m, x|done|by split]|split; simpl|].
  - intros j y tx. destruct (decide (j = c)) as [->|Hne].
    + rewrite lookup_insert_eq. by intros [= <-] [= <-].
    + rewrite lookup_insert_ne by done. apply Hnm.
  - intros ch cs ss m0 Hch Hss Hin. destruct (Hp ch cs ss m0 Hch Hss Hin) as (? & ? & y & Hy & ?).
    split_and!; [done|done|]. exists y. rewrite lookup_insert_ne; [done|]. intros E. by eapply Hfresh in Hy.
  - intros j y Hj. exists y. simpl. rewrite lookup_insert_ne; [done|]. intros E. by eapply Hfresh in Hj.
Qed.

Lemma held_insert l k m : k <> sid -> cell m <> n -> own_sender m -> held l ->
  held (with_streams l (<[k := m]> (streams l))).
Proof.
  intros Hk Hc Hs [(m0 & c & Hm & H1) Ho Ht]. split; simpl; [|..|done].
  - exists m0, c. by rewrite lookup_insert_ne.
  - intros k' x Hk' Hx. destruct (decide (k' = k)) as [->|Hne].
    + rewrite lookup_insert_eq in Hx. by simplify_eq.
    + rewrite lookup_insert_ne in Hx by done. by eapply Ho.
Qed.

(** A DATA event for a stream of the table. *)
Lemma held_offer l k m c data m' c' effs :
  held l -> streams l !! k = Some m -> cells (world l) !! cell m = Some c ->
  Stream.offer_data m c data = Ok (m', c', effs) ->
  held {| world := set_cell (world l) (cell m) c'; streams := <[k := m']> (streams l); wctx := wctx l |} /\
  chunks n (map Do effs) = if decide (k = sid) then [data] else [].
Proof.
  intros Hl Hm Hc E. pose proof (offer_data_keeps _ _ _ _ _ _ E) as [Hid Hcell].
  unfold Stream.offer_data in E. destruct (check_data_tx m c) as [m1 c1] eqn:Ek.
  destruct data as [|b data]; [done|]. injection E as -> -> <-.
  assert (io_data_tx (io_state c') = None \/ io_data_tx (io_state c') = io_data_tx (io_state c)) as Htx'.
  { unfold check_data_tx in Ek. repeat case_match; simplify_eq/=; auto. }
  pose proof Hl as [(m0 & c0 & Hm0 & Hc0 & Hn0 & Hid0 & Htx0) Ho Ht].
  pose proof (set_cell_tidy _ _ _ _ Hc Hid Htx' Ht) as Ht'.
  destruct (decide (k = sid)) as [->|Hne].
  - rewrite Hm in Hm0. injection Hm0 as <-. rewrite Hc0, Hn0 in Hc. injection Hc as ->.
    assert (data_tx m' = Some n) as Hd.
    { unfold check_data_tx in Ek. destruct Htx0 as [Htx0|[Htx0 Hio]]; rewrite Htx0 in Ek; [congruence|].
      rewrite Hio in Ek. injection Ek as <- _. done. }
    rewrite Hd. split; [|cbn; by rewrite decide_True].
    split; simpl; [|..|done].
    + exists m', c'. rewrite Hc0, !lookup_insert_eq, Hid, Hcell. split_and!; auto.
    + intros k x Hk Hx. rewrite lookup_insert_ne in Hx by done. by eapply Ho.
  - destruct (Ho k m Hne Hm) as [Hcn Hown].
    assert (own_sender m' /\ (data_tx m' = None \/ data_tx m' = Some (cell m))) as [Hown' Hd].
    { unfold own_sender. rewrite Hcell. enough (data_tx m' = None \/ data_tx m' = Some (cell m)) by done.
      unfold check_data_tx in Ek. unfold own_sender in Hown. destruct (data_tx m) eqn:Hdm; [by injection Ek as <- _; rewrite Hdm|].
      destruct (io_data_tx (io_state c)) as [tx|] eqn:Hio; injection Ek as <- _; simpl; [right|by left].
      f_equal. by eapply (t_named _ Ht). }
    split.
    + apply (held_insert (with_world l (set_cell (world l) (cell m) c'))); [done|by rewrite Hcell|done|].
      apply held_world; [done|done|]. by eapply set_cell_stays.
    + destruct Hd as [->| ->]; [done|]. cbn. by rewrite decide_False.
Qed.

(** What a stream is due for an event. *)
Definition due (ev : Event) : list (list byte) := if remote ev then option_list (data_for sid ev) else [].
Definition no_fin (ev : Event) : Prop := flags (header ev) = FLAG_FIN -> Event.stream_id (header ev) <> sid.

Lemma due_other ev : flags (header ev) <> FLAG_DATA -> due ev = [].
Proof. intros Hf. unfold due, data_for. case_match; [|done]. by rewrite decide_False by (by intros [? _]). Qed.

Lemma handle_event_chunks channel tunnel_id sref evtx ev e l r :
  handle_event channel tunnel_id sref evtx ev e l = Ok r -> no_fin ev -> held l ->
  held r.1.1 /\ chunks n r.1.2 = due ev.
Proof.
  unfold handle_event. intros E Hfin Hl.
  match type of E with context [if decide (FLAG_PING = _) then with_world l ?a else ?b] =>
    set (l1 := if decide (FLAG_PING = _) then with_world l a else b) in * end.
  assert (held l1) as Hl1.
  { unfold l1. destruct (decide (FLAG_PING = _)); [|done]. unfold handle_ping_event.
    destruct (negb _); [by apply held_sstate|by destruct l]. }
  clearbody l1. clear Hl. destruct (remote ev) eqn:Hr; cbn [negb] in E.
  2: { unfold due. rewrite Hr. destruct (handle_local_event _ _ _ ev e l1) as [[[l2 acts] go]|[]|] eqn:El; [|done].
       injection E as <-. by eapply chunks_local in El. }
  destruct (decide (flags (header ev) = FLAG_SYN)) as [Hf|_].
  { rewrite due_other by (by rewrite Hf). pose proof (held_syn channel tunnel_id evtx ev e l1 Hl1) as Hs.
    destruct (handle_syn _ _ _ _ _ _) as [[w acts'] o]. destruct Hs as (Hw & Hc & Ho).
    destruct o as [m|]; injection E as <-; [|done]. split; [|done]. cbn [fst].
    destruct (streams l1 !! stream_of w m) as [x|] eqn:Hk; [done|].
    destruct (Ho m eq_refl). apply (held_insert (with_world l1 w)); [|done..].
    intros Hk'. rewrite Hk' in Hk. destruct Hl1 as [(m0 & c0 & Hm0 & _) _ _]. congruence. }
  destruct (decide (flags (header ev) = FLAG_FIN)) as [Hf|_].
  { rewrite due_other by (by rewrite Hf). pose proof (held_fin sref _ l1 (Hfin Hf) Hl1).
    pose proof (chunks_fin sref n (Event.stream_id (header ev)) l1).
    destruct (handle_fin_event _ _ _) as [[l3 acts3] d]. by injection E as <-. }
  destruct (decide (flags (header ev) = FLAG_DATA)) as [Hf|Hf].
  { unfold due, data_for. rewrite Hr. destruct (streams l1 !! _) as [m|] eqn:Hm.
    - destruct (cells _ !! _) as [c|] eqn:Hc.
      + destruct (Stream.offer_data m c (body ev)) as [[[m' c'] effs]|[]|] eqn:Eo; [|done].
        injection E as <-. destruct (held_offer l1 _ m c _ m' c' effs Hl1 Hm Hc Eo) as [Hh Hch].
        apply offer_data_keeps in Eo as [_ Hcm]. cbn [fst snd]. rewrite Hcm, Hch. split; [done|].
        repeat case_decide; naive_solver.
      + injection E as <-. split; [done|]. rewrite decide_False; [done|]. intros [_ Hs].
        destruct Hl1 as [(m0 & c0 & Hm0 & Hcell & Hn & _) _ _]. rewrite Hs in Hm. congruence.
    - injection E as <-. split; [done|]. rewrite decide_False; [done|]. intros [_ Hs].
      destruct Hl1 as [(m0 & c0 & Hm0 & _) _ _]. rewrite Hs in Hm. congruence. }
  rewrite due_other by done.
  destruct (decide (flags (header ev) = FLAG_PING)).
  { unfold send_local_event in E. destruct (encrypt _ _ _) as [[[ctx ?] ?]|[]|]; [|done].
    injection E as <-. split; [by apply held_ctx|]. cbn [fst snd]. by case_match. }
  destruct (decide (flags (header ev) = FLAG_PONG)); [injection E as <-; split; [by apply held_sstate|done]|].
  destruct (decide (flags (header ev) = FLAG_WIN_UPDATE)); [|by injection E as <-].
  destruct (streams l1 !! _) as [m|]; [|by injection E as <-].
  destruct (cells _ !! _) as [c|] eqn:Hc; [|by injection E as <-].
  pose proof (update_send_window_id c (len (header ev))). pose proof (window_keeps_tx c (len (header ev))).
  pose proof (chunks_window n c (len (header ev))).
  destruct (Stream.update_send_window c _) as [c' effs]. injection E as <-. split; [by eapply held_set_cell|done].
Qed.

(** The loop puts in the chunks it is due, in order. *)
Lemma event_loop_chunks channel tunnel_id sref evtx inputs l l' acts over :
  event_loop channel tunnel_id sref evtx inputs l = Ok (l', acts, over) ->
  Forall (fun i : option Event * Env => decent i.2 /\ forall ev, i.1 = Some ev -> no_fin ev) inputs -> held l ->
  chunks n acts `prefix_of` bodies sid (remotes inputs) /\ (over = false -> chunks n acts = bodies sid (remotes inputs)).
Proof.
  revert l acts. induction inputs as [|[[ev|] e] inputs IH]; intros l acts E Hi Hl; simpl in E.
  - by destruct (is_closed _); injection E as <- <- <-.
  - apply Forall_cons in Hi as [[He Hfin] Hi]. destruct (is_closed _).
    { injection E as <- <- <-. split; [apply prefix_nil|done]. }
    destruct (handle_event _ _ _ _ ev e _) as [[[l1 acts1] nx]|[]|] eqn:Eh; [|done]. unmonad.
    apply handle_event_chunks in Eh as [Hl1 Hc1]; [|by apply Hfin|].
    2: { destruct (He _ (h_tidy _ Hl)). by apply held_world. }
    cbn [fst snd] in Hl1, Hc1.
    assert (bodies sid (remotes ((Some ev, e) :: inputs)) = due ev ++ bodies sid (remotes inputs)) as ->.
    { unfold due, bodies, remotes. simpl. destruct (remote ev); [|done]. simpl. by destruct (data_for sid ev). }
    rewrite <- Hc1. destruct nx; [|injection E as <- <- <-; split; [by apply prefix_app_r|done]].
    destruct (event_loop _ _ _ _ inputs l1) as [[[l2 acts2] over2]|[]|] eqn:El; [|done].
    injection E as <- <- <-. destruct (IH l1 acts2 El Hi Hl1) as [Hp Ho]. rewrite chunks_app.
    split; [by apply prefix_app|]. intros Hov. by rewrite (Ho Hov).
  - destruct (is_closed _); injection E as <- <- <-; (split; [apply prefix_nil|done]).
Qed.
(** *** After the FIN

    The stream has left the table, and whatever is opened later under its id
    is behind another cell: nothing more is put into data channel [n]. *)

Record gone (l : Loop) : Prop := {
  g_cell : is_Some (cells (world l) !! n);
  g_others : forall k m, streams l !! k = Some m -> cell m <> n /\ own_sender m;
  g_tidy : tidy (world l);
}.

Lemma gone_world l w' : gone l -> tidy w' -> stays (world l) w' -> gone (with_world l w').
Proof. intros [[c Hc] Ho _] Ht Hs. destruct (Hs n c Hc) as (c' & Hc' & _). split; [by eexists|done|done]. Qed.

Lemma gone_set_cell l j c c' :
  gone l -> cells (world l) !! j = Some c -> Stream.id c' = Stream.id c ->
  io_data_tx (io_state c') = io_data_tx (io_state c) -> gone (with_world l (set_cell (world l) j c')).
Proof.
  intros Hl Hj Hid Htx. apply gone_world; [done| |by eapply set_cell_stays].
  eapply set_cell_tidy; [done|done|by right|apply Hl].
Qed.

Lemma gone_sstate l k st : gone l -> gone (with_world l (set_sstate (world l) k st)).
Proof. intros [H1 H2 H3]. split; [done|done|]. by destruct H3. Qed.

Lemma gone_ctx l ctx : gone l -> gone {| world := world l; streams := streams l; wctx := ctx |}.
Proof. intros [H1 H2 H3]. by split. Qed.

Lemma gone_insert l k m : cell m <> n -> own_sender m -> gone l -> gone (with_streams l (<[k := m]> (streams l))).
Proof.
  intros Hc Hs [H1 Ho Ht]. split; [done| |done]. intros k' x Hx. simpl in Hx.
  destruct (decide (k' = k)) as [->|Hne].
  - rewrite lookup_insert_eq in Hx. by simplify_eq.
  - rewrite lookup_insert_ne in Hx by done. by eapply Ho.
Qed.

Lemma gone_close l m : gone l -> gone (with_world l (close_stream (world l) m).1).
Proof.
  intros Hl. unfold close_stream. destruct (cells (world l) !! cell m) as [c|] eqn:Hc; [|by destruct l].
  pose proof (close_id m c). pose proof (close_keeps_tx m c). destruct (Stream.close m c) as [c' effs].
  by eapply gone_set_cell.
Qed.

Lemma delete_gone k l : (k = sid /\ held l) \/ gone l -> gone (with_streams l (delete k (streams l))).
Proof.
  intros [[-> [(m & c & _ & _ & Hc & _) Ho Ht]]|[H1 Ho Ht]]; split; simpl; [by eexists| |done|done| |done];
    intros k' x Hx; apply lookup_delete_Some in Hx as [Hk Hx]; [by eapply Ho|by eapply Ho].
Qed.

Lemma gone_fin sref k l : (k = sid /\ held l) \/ gone l -> gone (handle_fin_event sref k l).1.1.
Proof.
  intros Hl. unfold handle_fin_event. destruct (streams l !! k) as [m|] eqn:Hm.
  - assert (gone (with_streams (with_world l (close_stream (world l) m).1) (delete k (streams l)))) as H1.
    { apply (delete_gone k (with_world l (close_stream (world l) m).1)).
      destruct Hl as [[-> Hl]|Hl]; [left; split; [done|by apply held_close]|right; by apply gone_close]. }
    destruct (close_stream (world l) m) as [w acts]. cbn [fst] in H1.
    destruct (_ && _); simpl; [by eapply gone_sstate in H1|done].
  - assert (gone l) as Hg.
    { destruct Hl as [[-> [(m & c & Hs & _) _ _]]|Hl]; [congruence|done]. }
    destruct (_ && _); simpl; [by apply gone_sstate|done].
Qed.

Lemma gone_hand_over channel tunnel_id l m' s' :
  hanle_pendding_mux_streams (stream_of (world l)) channel tunnel_id (manager (world l)) (streams l) = (m', s') ->
  gone l -> gone {| world := set_manager (world l) m'; streams := s'; wctx := wctx l |}.
Proof.
  unfold hanle_pendding_mux_streams. intros E [H1 Ho [Hnm Hp]].
  destruct (channels (manager (world l)) !! channel) as [cs|] eqn:Hcs; [|by injection E as <- <-].
  destruct (hand_over _ _ _ _) as [l1 s1] eqn:Eh. injection E as <- <-. apply hand_over_spec in Eh as [Hs H2].
  split; simpl; [done| |].
  - intros k x Hx. destruct (H2 k x Hx) as [?|(ss & Hss & Hin & _)]; [by eapply Ho|].
    by destruct (Hp channel cs ss x Hcs Hss Hin) as (? & ? & _).
  - split; [done|]. intros ch cs' ss' x Hch Hss Hx. simpl in Hch. destruct (decide (ch = channel)) as [->|Hne].
    + rewrite lookup_insert_eq in Hch. simplify_eq. simpl in Hss.
      destruct (Hs ss' Hss) as (ss & Hss0 & Hsub). by eapply (Hp channel cs ss x), Hsub.
    + rewrite lookup_insert_ne in Hch by done. by apply (Hp ch cs' ss' x).
Qed.

(** A DATA event goes to the channel of the stream it is for, not to [n]. *)
Lemma gone_offer l k m c data m' c' effs :
  gone l -> streams l !! k = Some m -> cells (world l) !! cell m = Some c ->
  Stream.offer_data m c data = Ok (m', c', effs) ->
  gone {| world := set_cell (world l) (cell m) c'; streams := <[k := m']> (streams l); wctx := wctx l |} /\
  chunks n (map Do effs) = [].
Proof.
  intros Hl Hm Hc E. pose proof (offer_data_keeps _ _ _ _ _ _ E) as [Hid Hcell].
  destruct Hl as [Hn Ho Ht]. destruct (Ho k m Hm) as [Hcn Hown]. unfold Stream.offer_data in E.
  destruct (check_data_tx m c) as [m1 c1] eqn:Ek. destruct data as [|b data]; [done|]. injection E as -> -> <-.
  assert (io_data_tx (io_state c') = None \/ io_data_tx (io_state c') = io_data_tx (io_state c)) as Htx'.
  { unfold check_data_tx in Ek. repeat case_match; simplify_eq/=; auto. }
  assert (own_sender m') as Hown'.
  { unfold own_sender, check_data_tx in *. rewrite Hcell. destruct (data_tx m) eqn:Hdm; [injection Ek as <- _; by rewrite Hdm|].
    destruct (io_data_tx (io_state c)) as [tx|] eqn:Hio; injection Ek as <- _; simpl; [right|by left].
    f_equal. by eapply (t_named _ Ht). }
  split.
  - apply (gone_insert (with_world l (set_cell (world l) (cell m) c'))); [by rewrite Hcell|done|].
    apply gone_world; [done|by eapply set_cell_tidy|by eapply set_cell_stays].
  - destruct Hown' as [->| ->]; [done|]. cbn. by rewrite decide_False by (by rewrite Hcell).
Qed.
(** The event is the FIN of the stream, or the stream is gone already. *)
Definition leaving (ev : Event) (l : Loop) : Prop :=
  (flags (header ev) = FLAG_FIN /\ Event.stream_id (header ev) = sid /\ held l) \/ gone l.

Lemma leaving_fin sref ev l : leaving ev l -> flags (header ev) = FLAG_FIN ->
  gone (handle_fin_event sref (Event.stream_id (header ev)) l).1.1.
Proof. intros [(_ & Hs & Hl)|Hl] _; apply gone_fin; auto. Qed.

Lemma leaving_gone ev l : leaving ev l -> flags (header ev) <> FLAG_FIN -> gone l.
Proof. by intros [(? & _)|?] Hf. Qed.

Lemma gone_local channel tunnel_id sref ev e l r :
  handle_local_event channel tunnel_id sref ev e l = Ok r -> leaving ev l ->
  gone r.1.1 /\ chunks n r.1.2 = [].
Proof.
  unfold handle_local_event. intros E Hl.
  destruct (decide (FLAG_SHUTDOWN = _)) as [Hf|_].
  { injection E as <-. split; [|done]. eapply leaving_gone; [done|by rewrite <- Hf]. }
  match type of E with context [if decide (FLAG_SYN = _) then ?a else ?b] =>
    set (l1 := if decide (FLAG_SYN = _) then a else b) in * end.
  assert (leaving ev l1) as Hl1.
  { unfold l1. destruct (decide (FLAG_SYN = _)) as [Hf|]; [|done]. apply leaving_gone in Hl; [|by rewrite <- Hf].
    destruct (hanle_pendding_mux_streams _ _ _ _ _) eqn:Eh. right. by eapply gone_hand_over. }
  match type of E with context [if decide (FLAG_FIN = _) then ?a else ?b] =>
    set (x := if decide (FLAG_FIN = _) then a else b) in * end.
  assert (gone x.1.1 /\ chunks n x.1.2 = []) as [Hx Hcx].
  { unfold x. destruct (decide (FLAG_FIN = _)) as [Hf|Hf]; [split; [by apply leaving_fin|apply chunks_fin]|].
    split; [|done]. by apply leaving_gone in Hl1. }
  destruct x as [[l2 acts] done]; simpl in Hx, Hcx. destruct done; [by injection E as <-|].
  destruct (decide (FLAG_ROUTINE = _)).
  - unfold handle_routine_event in E. destruct (_ || _); injection E as <-; [|done]. split; [by apply gone_sstate|done].
  - unfold send_local_event in E. destruct (encrypt _ _ _) as [[[ctx ?] ?]|[]|]; [|done].
    injection E as <-. cbn [fst snd]. split; [by apply gone_ctx|]. rewrite chunks_app, Hcx. by case_match.
Qed.

Lemma gone_syn channel tunnel_id evtx ev e l :
  gone l ->
  let '(w, acts, o) := handle_syn channel tunnel_id evtx ev e (world l) in
  gone (with_world l w) /\ chunks n acts = [] /\ (forall m, o = Some m -> cell m <> n /\ own_sender m).
Proof.
  intros Hl. unfold handle_syn. destruct (deserialize (body ev)) as [creq|]; [|by destruct l].
  set (c := fresh (dom (cells (world l)))). simpl.
  assert (forall j x, cells (world l) !! j = Some x -> j <> c) as Hfresh.
  { intros j x Hj ->. apply (is_fresh (dom (cells (world l)))), elem_of_dom. by exists x. }
  pose proof Hl as [[x Hn] _ [Hnm Hp]].
  split_and!; [|done|intros m0 [= <-]; split; [intros E; by eapply Hfresh in Hn|by left]].
  apply gone_world; [done|split; simpl|].
  - intros j y tx. destruct (decide (j = c)) as [->|Hne].
    + rewrite lookup_insert_eq. by intros [= <-] [= <-].
    + rewrite lookup_insert_ne by done. apply Hnm.
  - intros ch cs ss m0 Hch Hss Hin. destruct (Hp ch cs ss m0 Hch Hss Hin) as (? & ? & y & Hy & ?).
    split_and!; [done|done|]. exists y. rewrite lookup_insert_ne; [done|]. intros E. by eapply Hfresh in Hy.
  - intros j y Hj. exists y. simpl. rewrite lookup_insert_ne; [done|]. intros E. by eapply Hfresh in Hj.
Qed.

Lemma gone_event channel tunnel_id sref evtx ev e l r :
  handle_event channel tunnel_id sref evtx ev e l = Ok r -> leaving ev l -> gone r.1.1 /\ chunks n r.1.2 = [].
Proof.
  unfold handle_event. intros E Hl.
  match type of E with context [if decide (FLAG_PING = _) then with_world l ?a else ?b] =>
    set (l1 := if decide (FLAG_PING = _) then with_world l a else b) in * end.
  assert (leaving ev l1) as Hl1.
  { unfold l1. destruct (decide (FLAG_PING = _)) as [Hf|]; [|done]. apply leaving_gone in Hl; [|by rewrite <- Hf].
    right. unfold handle_ping_event. destruct (negb _); [by apply gone_sstate|by destruct l]. }
  clearbody l1. clear Hl. destruct (remote ev) eqn:Hr; cbn [negb] in E.
  2: { destruct (handle_local_event _ _ _ ev e l1) as [[[l2 acts] go]|[]|] eqn:El; [|done].
       injection E as <-. by eapply gone_local in El. }
  destruct (decide (flags (header ev) = FLAG_SYN)) as [Hf|_].
  { apply leaving_gone in Hl1; [|by rewrite Hf]. pose proof (gone_syn channel tunnel_id evtx ev e l1 Hl1) as Hs.
    destruct (handle_syn _ _ _ _ _ _) as [[w acts'] o]. destruct Hs as (Hw & Hc & Ho).
    destruct o as [m|]; injection E as <-; [|done]. split; [|done]. cbn [fst].
    destruct (Ho m eq_refl). destruct (streams l1 !! stream_of w m); [done|]. by apply (gone_insert (with_world l1 w)). }
  destruct (decide (flags (header ev) = FLAG_FIN)) as [Hf|Hf].
  { pose proof (leaving_fin sref ev l1 Hl1 Hf). pose proof (chunks_fin sref n (Event.stream_id (header ev)) l1).
    destruct (handle_fin_event _ _ _) as [[l3 acts3] d]. by injection E as <-. }
  apply leaving_gone in Hl1; [|done]. destruct (decide (flags (header ev) = FLAG_DATA)).
  { destruct (streams l1 !! _) as [m|] eqn:Hm; [|by injection E as <-].
    destruct (cells _ !! _) as [c|] eqn:Hc; [|by injection E as <-].
    destruct (Stream.offer_data m c (body ev)) as [[[m' c'] effs]|[]|] eqn:Eo; [|done]. injection E as <-.
    destruct (gone_offer l1 _ m c _ m' c' effs Hl1 Hm Hc Eo) as [Hh Hch]. apply offer_data_keeps in Eo as [_ Hcm].
    cbn [fst snd]. by rewrite Hcm. }
  destruct (decide (flags (header ev) = FLAG_PING)).
  { unfold send_local_event in E. destruct (encrypt _ _ _) as [[[ctx ?] ?]|[]|]; [|done].
    injection E as <-. split; [by apply gone_ctx|]. cbn [fst snd]. by case_match. }
  destruct (decide (flags (header ev) = FLAG_PONG)); [injection E as <-; split; [by apply gone_sstate|done]|].
  destruct (decide (flags (header ev) = FLAG_WIN_UPDATE)); [|by injection E as <-].
  destruct (streams l1 !! _) as [m|]; [|by injection E as <-]. destruct (cells _ !! _) as [c|] eqn:Hc; [|by injection E as <-].
  pose proof (update_send_window_id c (len (header ev))). pose proof (window_keeps_tx c (len (header ev))).
  pose proof (chunks_window n c (len (header ev))).
  destruct (Stream.update_send_window c _) as [c' effs]. injection E as <-. split; [by eapply gone_set_cell|done].
Qed.

Lemma event_loop_gone channel tunnel_id sref evtx inputs l l' acts over :
  event_loop channel tunnel_id sref evtx inputs l = Ok (l', acts, over) ->
  Forall (fun i : option Event * Env => decent i.2) inputs -> gone l -> chunks n acts = [].
Proof.
  revert l acts. induction inputs as [|[[ev|] e] inputs IH]; intros l acts E Hi Hl; simpl in E.
  - by destruct (is_closed _); injection E as <- <- <-.
  - apply Forall_cons in Hi as [He Hi]. destruct (is_closed _); [by injection E as <- <- <-|].
    destruct (handle_event _ _ _ _ ev e _) as [[[l1 acts1] nx]|[]|] eqn:Eh; [|done]. unmonad.
    apply gone_event in Eh as [Hl1 Hc1]; [|right; destruct (He _ (g_tidy _ Hl)); by apply gone_world].
    cbn [fst snd] in Hl1, Hc1. destruct nx; [|by injection E as <- <- <-].
    destruct (event_loop _ _ _ _ inputs l1) as [[[l2 acts2] over2]|[]|] eqn:El; [|done].
    injection E as <- <- <-. by rewrite chunks_app, Hc1, (IH l1 acts2 El Hi Hl1).
  - by destruct (is_closed _); injection E as <- <- <-.
Qed.

#[local] Instance no_fin_dec ev : Decision (no_fin ev).
Proof. unfold no_fin. apply _. Defined.

(** FIN or no FIN, what is put into data channel [n] are the first bodies of
    the stream, in order. *)
Lemma event_loop_prefix channel tunnel_id sref evtx inputs l l' acts over :
  event_loop channel tunnel_id sref evtx inputs l = Ok (l', acts, over) ->
  Forall (fun i : option Event * Env => decent i.2) inputs -> held l ->
  chunks n acts `prefix_of` bodies sid (remotes inputs).
Proof.
  revert l acts. induction inputs as [|[[ev|] e] inputs IH]; intros l acts E Hi Hl; simpl in E.
  - by destruct (is_closed _); injection E as <- <- <-.
  - apply Forall_cons in Hi as [He Hi]. destruct (is_closed _); [injection E as <- <- <-; apply prefix_nil|].
    destruct (handle_event _ _ _ _ ev e _) as [[[l1 acts1] nx]|[]|] eqn:Eh; [|done]. unmonad.
    assert (bodies sid (remotes ((Some ev, e) :: inputs)) = due ev ++ bodies sid (remotes inputs)) as ->.
    { unfold due, bodies, remotes. simpl. destruct (remote ev); [|done]. simpl. by destruct (data_for sid ev). }
    assert (held (with_world l (others e (world l)))) as Hl0 by (destruct (He _ (h_tidy _ Hl)); by apply held_world).
    destruct (decide (no_fin ev)) as [Hn|Hn].
    + apply handle_event_chunks in Eh as [Hl1 Hc1]; [|done..]. cbn [fst snd] in Hl1, Hc1. rewrite <- Hc1.
      destruct nx; [|injection E as <- <- <-; by apply prefix_app_r].
      destruct (event_loop _ _ _ _ inputs l1) as [[[l2 acts2] over2]|[]|] eqn:El; [|done].
      injection E as <- <- <-. rewrite chunks_app. by apply prefix_app, (IH l1 acts2 El Hi Hl1).
    + apply gone_event in Eh as [Hl1 Hc1]; [|left; unfold no_fin in Hn; destruct (decide (flags (header ev) = FLAG_FIN));
        destruct (decide (Event.stream_id (header ev) = sid)); tauto].
      cbn [fst snd] in Hl1, Hc1. destruct nx; [|injection E as <- <- <-; rewrite Hc1; apply prefix_nil].
      destruct (event_loop _ _ _ _ inputs l1) as [[[l2 acts2] over2]|[]|] eqn:El; [|done].
      injection E as <- <- <-. rewrite chunks_app, Hc1, (event_loop_gone _ _ _ _ _ _ _ _ _ El Hi Hl1). apply prefix_nil.
  - destruct (is_closed _); injection E as <- <- <-; apply prefix_nil.
Qed.
End Held.

Lemma bodies_received sid evs : bodies sid (received <$> evs) = bodies sid evs.
Proof.
  unfold bodies. induction evs as [|ev evs IH]; [done|]. cbn in *. rewrite IH.
  by unfold data_for.
Qed.

Lemma bodies_prefix sid a b : a `prefix_of` b -> bodies sid a `prefix_of` bodies sid b.
Proof. intros [k ->]. unfold bodies. rewrite omap_app. by apply prefix_app_r. Qed.

(** ** Properties *)

(** C3: a stream crosses a session whole and in order.  The bodies of the DATA
    events that one side's event task sends for a stream are the chunks that
    the other side's event task puts into the data channel of that stream, in
    order, none lost, repeated or put into another channel, until the stream
    gets its FIN: whatever other streams do, whatever the interleaving of the
    tasks and of local and remote events, the batching of the writes and the
    chunking of the transport. *)
Theorem data_crosses_session {C : Ciphers} {A : BytesAlloc} `{!CipherLaws C} `{!BytesAllocLaws A}
    `{Bincode ConnectRequest} channel tunnel_id sref evtx inputs w ctx r l acts over
    turns snd sacts s rturns sid :
  ctx_ok ctx -> sync ctx r -> Forall event_wf (replies inputs) ->
  process_event channel tunnel_id sref evtx inputs w ctx = Ok (l, acts, over) ->
  handle_send turns sender_new = Ok (snd, sacts, false) -> mjoin (t_arrivals <$> turns) = frames acts ->
  contents (vbuf snd) = [] -> queue snd = [] ->
  healthy s -> Io.stream s = wrote snd -> Forall quiet rturns ->
  exists evs, evs `prefix_of` replies inputs /\ (over = false -> evs = replies inputs) /\
    (length rturns <= length evs -> exists racts, handle_recv rturns r s [] = Some (Ok (racts, false)) /\
     forall channel' tunnel_id' sref' evtx' inputs' n l1 l2 acts' over',
       held sid n l1 ->
       Forall (fun i : option Event * Env => decent sid n i.2 /\ forall ev, i.1 = Some ev -> no_fin sid ev) inputs' ->
       event_loop channel' tunnel_id' sref' evtx' inputs' l1 = Ok (l2, acts', over') ->
       remotes inputs' `prefix_of` handed racts ->
       chunks n acts' `prefix_of` bodies sid evs /\
       (over' = false -> remotes inputs' = handed racts -> length rturns = length evs ->
        chunks n acts' = bodies sid evs))%nat.
Proof.
  intros Hok Hsync Hwf E Esnd Harr Hc Hq Hh Hs Hrt.
  destruct (link_reads _ _ _ _ _ _ _ _ _ _ _ _ _ _ _ Hok Hsync Hwf E Esnd Harr Hc Hq Hh Hs)
    as (evs & r' & s' & buf & Hp & Hov & Hr).
  exists evs. split; [done|]. split; [done|]. intros Hlen.
  destruct (handle_recv_reads _ _ _ _ _ _ _ _ Hr Hrt Hlen) as (racts & Er & Hra).
  exists racts. split; [done|]. intros ch' tid' sr' ex' inputs' n l1 l2 acts' over' Hl Hi El Hrem.
  destruct (event_loop_chunks sid n _ _ _ _ _ _ _ _ _ El Hi Hl) as [Hpre Hall].
  split.
  - etrans; [exact Hpre|]. rewrite <- (bodies_received sid evs). apply bodies_prefix.
    etrans; [exact Hrem|]. rewrite Hra. apply prefix_take.
  - intros Ho Heq Hfull. rewrite (Hall Ho), Heq, Hra, Hfull, take_ge by (by rewrite length_fmap).
    apply bodies_received.
Qed.

Module DeliveryDemo.
Definition inputs : list (option Event * Env) := [(Some Toy.hello, LoopDemo.env 1); (Some Toy.hello, LoopDemo.env 2)].
(** The other end has stream 7 behind cell 0; a local PING comes in between. *)
Definition inputs' : list (option Event * Env) :=
  [(Some (received Toy.hello), LoopDemo.env 4); (Some (new_ping_event 0 false), LoopDemo.env 5);
   (Some (received Toy.hello), LoopDemo.env 6)].
Definition turn : RecvTurn := {| r_closed := false; r_drop := false; r_now := 3; r_taken := true |}.
Definition run := @process_event Toy.toy Session.Demo.req_bincode "rmux" 4 9 9 inputs LoopDemo.start Toy.ctx.
Definition acts : list action := match run with Ok (_, a, _) => a | _ => [] end.
Definition turns : list SendTurn :=
  [{| t_closed := false; t_arrivals := frames acts; t_gone := false; t_now := 3; t_write := Ok 20%nat |};
   {| t_closed := false; t_arrivals := []; t_gone := false; t_now := 3; t_write := Ok 99%nat |}].
Definition snd : Sender := match handle_send turns sender_new with Ok (s, _, _) => s | _ => sender_new end.

Lemma holds : held 7 0 LoopDemo.loop.
Proof.
  split.
  - exists LoopDemo.one.1, LoopDemo.one.2. repeat (split; [reflexivity|]). right. split; reflexivity.
  - intros k m Hk Hm. unfold LoopDemo.loop in Hm. cbn [streams] in Hm.
    apply lookup_singleton_Some in Hm as [<- _]. done.
  - split.
    + intros j c tx Hc Ht. cbn [LoopDemo.loop world LoopDemo.start cells] in Hc.
      apply lookup_singleton_Some in Hc as [<- <-]. by injection Ht.
    + intros ch cs ss m Hch. discriminate Hch.
Qed.
Lemma calm t : decent 7 0 (LoopDemo.env t).
Proof. intros w Hw. split; [exact Hw|]. intros j c Hc. by exists c. Qed.
End DeliveryDemo.

Lemma data_crosses_session_witness :
  exists l2 acts' over', @event_loop Toy.toy Session.Demo.req_bincode "" 0 9 9 DeliveryDemo.inputs' LoopDemo.loop
      = Ok (l2, acts', over') /\ chunks 0 acts' = [[x68; x69]; [x68; x69]].
Proof.
  destruct (@event_loop Toy.toy Session.Demo.req_bincode "" 0 9 9 DeliveryDemo.inputs' LoopDemo.loop)
    as [[[l2 acts'] over']|[]|] eqn:El; [|vm_compute in El; discriminate El].
  exists l2, acts', over'. split; [reflexivity|].
  destruct DeliveryDemo.run as [[[l acts] over]|[]|] eqn:E; [|vm_compute in E; discriminate E].
  destruct (handle_send DeliveryDemo.turns sender_new) as [[[snd sacts] ov]|[]|] eqn:Es;
    [|vm_compute in Es; discriminate Es].
  assert (acts = DeliveryDemo.acts) as Ha by (unfold DeliveryDemo.acts; rewrite E; reflexivity).
  assert (snd = DeliveryDemo.snd) as Hs by (unfold DeliveryDemo.snd; rewrite Es; reflexivity).
  assert (ov = false) as -> by (vm_compute in Es; injection Es as _ _ <-; reflexivity).
  destruct (data_crosses_session (C := Toy.toy) (A := Io.Concrete.exact_alloc)
    (H := Session.Demo.req_bincode) "rmux" 4 9 9 DeliveryDemo.inputs LoopDemo.start Toy.ctx Toy.ctx
    l acts over DeliveryDemo.turns snd sacts [Bytes (wrote snd)] [DeliveryDemo.turn; DeliveryDemo.turn] 7)
    as (evs & _ & Hall & Hrecv).
  - apply Toy.ctx_sync.
  - apply Toy.ctx_sync.
  - apply (bool_decide_eq_true_1 _). vm_compute. reflexivity.
  - exact E.
  - exact Es.
  - rewrite Ha. vm_compute. reflexivity.
  - rewrite Hs. vm_compute. reflexivity.
  - rewrite Hs. vm_compute. reflexivity.
  - rewrite Hs. apply (bool_decide_eq_true_1 _). vm_compute. reflexivity.
  - unfold Io.stream. simpl. apply app_nil_r.
  - apply (bool_decide_eq_true_1 _). vm_compute. reflexivity.
  - rewrite Hall in Hrecv by (vm_compute in E; injection E as _ _ <-; reflexivity).
    destruct Hrecv as (racts & Er & Hdata); [vm_compute; lia|].
    assert (handed racts = remotes DeliveryDemo.inputs') as Hr.
    { rewrite Hs in Er. vm_compute in Er. injection Er as <-. vm_compute. reflexivity. }
    destruct (Hdata ""%string 0 9%nat 9%nat DeliveryDemo.inputs' 0%nat LoopDemo.loop l2 acts' over'
      DeliveryDemo.holds) as [_ Heq].
    + repeat apply Forall_cons_2; try apply Forall_nil_2; (split; [apply DeliveryDemo.calm|]);
        intros ev Hev; injection Hev as <-; intros Hf; discriminate Hf.
    + exact El.
    + rewrite Hr. reflexivity.
    + rewrite Heq; [reflexivity| |symmetry; exact Hr|reflexivity].
      vm_compute in El. injection El as _ _ <-. reflexivity.
Defined.
