(* ===== verification/Ws.v ===== *)
(** * The WebSocket transport (src/src/utils/ws.rs)

    [WebsocketReader] and [WebsocketWriter], which make a byte stream of the
    messages of a WebSocket, and what a session gets through them: the reader
    behaves as the byte source of the file Io as long as no message is left
    over that is larger than the next slice, which is so when every frame of
    the session travels in a message of its own.  The message streams of
    [tokio_tungstenite] and [futures] are parameters. *)
From stdpp Require Import prelude strings.
From Stdlib Require Import ZArith Lia.
From S2P Require Import Prelude Io Event Crypto Buf.

Local Open Scope Z_scope.

(** ** The reader *)

(** What [poll_next] of the message stream answers; when the list is over, it
    answers [None]. *)
Inductive message :=
  | Message (binary : bool) (data : list byte)
  | MessageErr (e : string)
  | MessagePending.

Record WebsocketReader := { messages : list message; recv_buf : list byte }.

Definition reader_new (stream : list message) : WebsocketReader :=
  {| messages := stream; recv_buf := [] |}.

(** [poll_read] into [buf]: the result, the reader, the slice after it. *)
Definition poll_read (r : WebsocketReader) (buf : list byte)
    : partial (poll (io_result nat) * WebsocketReader * list byte) :=
  if decide (recv_buf r <> []) then
    '(n, rest, buf) ← fill_read_buf (recv_buf r) buf;
    Ok (Ready (Ok n), {| messages := messages r; recv_buf := rest |}, buf)
  else
    match messages r with
    | [] => Ok (Ready (Ok 0%nat), {| messages := []; recv_buf := [] |}, buf)
    | MessagePending :: ms => Ok (Pending, {| messages := ms; recv_buf := [] |}, buf)
    | MessageErr e :: ms =>
        Ok (Ready (Err (make_io_error e)), {| messages := ms; recv_buf := [] |}, buf)
    | Message binary data :: ms =>
        let r := {| messages := ms; recv_buf := [] |} in
        if negb binary then Ok (Ready (Err (make_io_error "invalid msg type")), r, buf)
        else
          let copy_n := length data in
          if decide (0 = copy_n)%nat then Ok (Ready (Ok 0%nat), r, buf)
          else
            let copy_n := if decide (length buf < copy_n)%nat then length buf else copy_n in
            (* buf[0..copy_n].copy_from_slice(&data[0..copy_n]) *)
            dst ← slice_to copy_n buf;
            src ← slice_to copy_n data;
            rest ← (if decide (copy_n < length data)%nat then slice_from copy_n data else Ok []);
            Ok (Ready (Ok copy_n), {| messages := ms; recv_buf := rest |},
                src ++ drop (length dst) buf)
    end.

(** *** The byte source it stands for *)

Definition message_arrival (m : message) : arrival :=
  match m with
  | Message true data => Bytes data
  | Message false _ => ReadErr (make_io_error "invalid msg type")
  | MessageErr e => ReadErr (make_io_error e)
  | MessagePending => NotReady
  end.
Definition as_source (r : WebsocketReader) : source :=
  (if decide (recv_buf r = []) then [] else [Bytes (recv_buf r)])
  ++ (message_arrival <$> messages r).

(** The slice after a read of [l]. *)
Definition laid (l buf : list byte) : list byte := l ++ drop (length l) buf.

(** What a read of a source becomes for a reader that fills a slice. *)
Definition read_result (buf : list byte) (a : poll (io_result (list byte)))
    : poll (io_result nat) * list byte :=
  match a with
  | Ready (Ok l) => (Ready (Ok (length l)), laid l buf)
  | Ready (Err e) => (Ready (Err e), buf)
  | Ready Panic => (Ready Panic, buf)
  | Pending => (Pending, buf)
  end.

(** A message is delivered up to the slice, the rest is kept. *)
Lemma poll_read_message x ms buf :
  x <> [] -> (0 < length buf)%nat ->
  poll_read {| messages := Message true x :: ms; recv_buf := [] |} buf =
    Ok (Ready (Ok (length (take (length buf) x))),
        {| messages := ms; recv_buf := drop (length buf) x |}, laid (take (length buf) x) buf).
Proof.
  intros Hx Hb. unfold poll_read. cbn [recv_buf messages negb].
  assert (length x <> 0)%nat as Hlx by (by destruct x). rewrite !decide_False by tauto || lia.
  set (n := if decide (length buf < length x)%nat then _ else _).
  assert (n = min (length buf) (length x)) as Hn by (unfold n; case_decide; lia). clearbody n.
  rewrite (slice_to_le n buf), (slice_to_le n x) by lia. unmonad. unfold laid.
  destruct (decide (n < length x)%nat) as [Hlt|Hge].
  - assert (n = length buf) as -> by lia. rewrite slice_from_le by lia.
    assert (length (take (length buf) x) = length buf) as -> by (rewrite length_take; lia).
    by rewrite (take_ge buf) by lia.
  - assert (n = length x) as -> by lia. rewrite !(take_ge x), (drop_ge x) by lia.
    by rewrite length_take, Nat.min_l by lia.
Qed.

Lemma poll_read_source r buf :
  (0 < length buf)%nat ->
  if decide (length (recv_buf r) <= length buf)%nat
  then exists r', poll_read r buf =
         Ok (let '(a, _) := Io.poll_read (length buf) (as_source r) in
             let '(res, buf') := read_result buf a in (res, r', buf')) /\
         as_source r' = (Io.poll_read (length buf) (as_source r)).2
  else poll_read r buf = Panic.
Proof.
  intros Hb. destruct r as [ms rb]. unfold as_source. cbn [recv_buf messages].
  destruct (decide (rb = [])) as [->|Hr].
  2: { unfold poll_read. rewrite (decide_True (P := rb <> [])) by done. cbn [recv_buf messages].
       rewrite fill_read_buf_eq. unmonad. case_decide as Hle; [|done]. simpl.
       rewrite (take_ge rb), decide_True by done. by eexists {| messages := ms; recv_buf := [] |}. }
  rewrite decide_True by (simpl; lia). cbn [app].
  destruct ms as [|[[] data|e|] ms]; [by eexists| |by eexists {| messages := ms; recv_buf := [] |}..].
  destruct (decide (data = [])) as [->|Hd].
  { exists {| messages := ms; recv_buf := [] |}. simpl. by rewrite take_nil. }
  rewrite poll_read_message by done. eexists. split; [done|]. cbn [recv_buf messages].
  change (message_arrival <$> Message true data :: ms) with (Bytes data :: (message_arrival <$> ms)).
  cbn [Io.poll_read snd]. case_decide as Hle.
  - apply (f_equal length) in Hle. rewrite length_drop in Hle. simpl in Hle. by rewrite decide_True by lia.
  - rewrite decide_False; [done|]. intros H. by rewrite drop_ge in Hle by done.
Qed.

(** ** Reading the events of a session from it *)

(** [read(&mut buf).await] with [n] bytes of room: polled until it is ready;
    every answer that is not takes a message off the script. *)
Fixpoint await_read (fuel n : nat) (r : WebsocketReader)
    : option (partial (io_result (list byte) * WebsocketReader)) :=
  match fuel with
  | O => None
  | S fuel =>
      match poll_read r (replicate n x00) with
      | Ok (Ready (Ok k), r, buf) => Some (Ok (Ok (take k buf), r))
      | Ok (Ready (Err e), r, _) => Some (Ok (Err e, r))
      | Ok (Ready Panic, _, _) => Some Panic
      | Ok (Pending, r, _) => await_read fuel n r
      | Err e => match e with end
      | Panic => Some Panic
      end
  end.

Lemma take_laid l buf : take (length l) (laid l buf) = l.
Proof. unfold laid. by rewrite take_app_length. Qed.

Lemma await_message fuel n waits x ms :
  (0 < n)%nat -> x <> [] -> Forall (eq MessagePending) waits -> (length waits < fuel)%nat ->
  await_read fuel n {| messages := waits ++ Message true x :: ms; recv_buf := [] |} =
    Some (Ok (Ok (take n x), {| messages := ms; recv_buf := drop n x |})).
Proof.
  intros Hn Hx Hw. revert fuel. induction Hw as [|m waits <- Hw IH]; intros [|fuel] Hf; simpl in Hf; try lia.
  - cbn [await_read app]. rewrite poll_read_message by (rewrite ?length_replicate; done).
    cbn beta iota. by rewrite length_replicate, take_laid.
  - apply IH. lia.
Qed.

(** The rest of a message is answered at once, if it fits. *)
Lemma await_rest fuel n x ms :
  x <> [] -> (length x <= n)%nat ->
  await_read (S fuel) n {| messages := ms; recv_buf := x |} =
    Some (Ok (Ok x, {| messages := ms; recv_buf := [] |})).
Proof.
  intros Hx Hn. cbn [await_read]. unfold poll_read. cbn [recv_buf messages].
  rewrite decide_True by done. rewrite fill_read_buf_eq, decide_True by (rewrite length_replicate; done).
  unmonad. by rewrite take_app_length.
Qed.

(** It answers what the source it stands for answers. *)
Lemma await_read_ready fuel n r :
  (0 < n)%nat -> (length (recv_buf r) <= n)%nat -> (0 < fuel)%nat ->
  (Io.poll_read n (as_source r)).1 <> Pending ->
  exists r', await_read fuel n r = Some (Ok ((Io.read n (as_source r)).1, r')) /\
    as_source r' = (Io.read n (as_source r)).2.
Proof.
  intros Hn Hr Hf Hp. destruct fuel as [|fuel]; [lia|]. cbn [await_read].
  pose proof (poll_read_source r (replicate n x00)) as H. rewrite length_replicate in H.
  specialize (H Hn). rewrite decide_True in H by done. destruct H as (r' & -> & Hs). exists r'. rewrite Hs.
  destruct (as_source r) as [|[l|e|] s]; simpl in *; rewrite ?take_laid; done.
Qed.

Lemma await_read_source fuel n r :
  (0 < n)%nat -> (length (recv_buf r) <= n)%nat -> (length (messages r) < fuel)%nat ->
  exists r', await_read fuel n r = Some (Ok ((Io.read n (as_source r)).1, r')) /\
    as_source r' = (Io.read n (as_source r)).2.
Proof.
  intros Hn. destruct r as [ms rb]. cbn [recv_buf messages]. intros Hr Hf.
  revert fuel rb Hr Hf. induction ms as [|m ms IH]; intros fuel rb Hr Hf.
  { apply await_read_ready; [done|done|simpl in *; lia|]. unfold as_source. simpl. by case_decide. }
  destruct (decide (rb = [])) as [->|Hne].
  2: { apply await_read_ready; [done|done|lia|]. unfold as_source. simpl. by rewrite decide_False. }
  destruct m as [[] data|e|]; try (apply await_read_ready; [done|done|lia|done]).
  destruct fuel as [|fuel]; [lia|]. apply (IH fuel []); simpl in *; lia.
Qed.

Inductive event_outcome :=
  | WsEvent (ev : Event) (ctx : CryptoContext) (r : WebsocketReader) (recv_buf : list byte)
  | WsEnd
  | WsError (e : string).

Section ReadEvents.
Context {C : Ciphers} {A : BytesAlloc}.

(** The loop of [read_encrypt_event] over a WebSocket. *)
Fixpoint ws_event_loop (fuel : nat) (ctx : CryptoContext) (r : WebsocketReader)
    (recv_buf : list byte) (next_read_n : Z) : option (partial event_outcome) :=
  match fuel with
  | O => None
  | S fuel =>
      let next_read_n :=
        if bool_decide (0 < next_read_n) && bool_decide (next_read_n < 4096)
        then 4096 else next_read_n in
      let try_decrypt (r : WebsocketReader) (recv_buf : list byte) :=
        match decrypt ctx recv_buf with
        | Ok (ctx, recv_buf, inl ev) => Some (Ok (WsEvent ev ctx r recv_buf))
        | Ok (ctx, recv_buf, inr (n, reason)) =>
            if decide (reason = ""%string)
            then ws_event_loop fuel ctx r recv_buf n
            else Some (Ok (WsError reason))
        | Err e => match e with end
        | Panic => Some Panic
        end in
      if decide (0 < next_read_n) then
        let room := (capacity (length recv_buf) (Z.to_nat next_read_n) - length recv_buf)%nat in
        match await_read (S (length (messages r))) room r with
        | Some (Ok (Ok l, r)) =>
            if decide (length l = 0%nat) then Some (Ok WsEnd) else try_decrypt r (recv_buf ++ l)
        | Some (Ok (Err e, _)) => Some (Ok (WsError e))
        | Some (Ok (Panic, _)) | Some Panic => Some Panic
        | Some (Err e) => match e with end
        | None => None
        end
      else try_decrypt r recv_buf
  end.

(** A turn without a read, one for every message, and one more for the rest
    of a message that did not fit are enough. *)
Definition ws_read_event (ctx : CryptoContext) (r : WebsocketReader) (recv_buf : list byte) :=
  ws_event_loop (S (S (2 * length (messages r)))) ctx r recv_buf 0.

(** Reading [n] events; [None] when a read does not give one. *)
Fixpoint ws_read_events (n : nat) (ctx : CryptoContext) (r : WebsocketReader) (recv_buf : list byte)
    : option (list Event * CryptoContext * WebsocketReader) :=
  match n with
  | O => Some ([], ctx, r)
  | S n => match ws_read_event ctx r recv_buf with
           | Some (Ok (WsEvent ev ctx r recv_buf)) =>
               '(evs, ctx, r) ← ws_read_events n ctx r recv_buf;
               Some (ev :: evs, ctx, r)
           | _ => None
           end
  end.

Context `{!CipherLaws C} `{!BytesAllocLaws A}.

Lemma Io_read_message n ms l ms' :
  ms = l ++ ms' -> Forall (eq MessagePending) l ->
  Io.read n (message_arrival <$> ms) = Io.read n (message_arrival <$> ms').
Proof. intros -> H. induction H as [|m l <- H IH]; [done|]. simpl. apply IH. Qed.

(** One turn of the loop, with and without a read. *)
Definition room_for (buf : list byte) (n : Z) : nat :=
  let n := if bool_decide (0 < n) && bool_decide (n < 4096) then 4096 else n in
  (capacity (length buf) (Z.to_nat n) - length buf)%nat.

Lemma room_for_enough buf n : 0 < n -> (Z.to_nat n <= room_for buf n /\ Z.to_nat 4096 <= room_for buf n)%nat.
Proof.
  intros Hn. unfold room_for. rewrite bool_decide_eq_true_2 by done. cbn [andb].
  pose proof (capacity_reserve (length buf)) as Hc. destruct (bool_decide (n < 4096)) eqn:E.
  - apply bool_decide_eq_true in E. specialize (Hc (Z.to_nat 4096)). lia.
  - apply bool_decide_eq_false in E. specialize (Hc (Z.to_nat n)). lia.
Qed.

Lemma loop_first fuel ctx r buf n :
  decrypt ctx buf = Ok (ctx, buf, inr (n, ""%string)) ->
  ws_event_loop (S fuel) ctx r buf 0 = ws_event_loop fuel ctx r buf n.
Proof. intros H. cbn [ws_event_loop]. simpl. by rewrite H. Qed.

Lemma loop_read fuel ctx r r1 buf l n :
  0 < n -> l <> [] -> await_read (S (length (messages r))) (room_for buf n) r = Some (Ok (Ok l, r1)) ->
  match decrypt ctx (buf ++ l) with
  | Ok (ctx', rest, inl ev) =>
      ws_event_loop (S fuel) ctx r buf n = Some (Ok (WsEvent ev ctx' r1 rest))
  | Ok (ctx', rest, inr (k, reason)) =>
      reason = ""%string -> ws_event_loop (S fuel) ctx r buf n = ws_event_loop fuel ctx' r1 rest k
  | _ => True
  end.
Proof.
  intros Hn Hl Ha. cbn [ws_event_loop]. fold (room_for buf n).
  rewrite (decide_True (P := 0 < _)) by (case_match; lia). rewrite Ha.
  rewrite decide_False by (by destruct l).
  destruct (decrypt ctx (buf ++ l)) as [[[ctx' rest] [ev|[k reason]]]|[]|]; [done| |done].
  intros ->. done.
Qed.

(** One frame that is the next message. *)
Lemma ws_frame_read w r ev w' r' f waits ms :
  codec w r ev w' r' f -> Forall (eq MessagePending) waits ->
  ws_read_event r (reader_new (waits ++ Message true f :: ms)) [] =
    Some (Ok (WsEvent (received ev) r' (reader_new ms) [])).
Proof.
  intros Hc Hw. pose proof (codec_nonempty _ _ _ _ _ _ Hc) as Hf8.
  assert (f <> []) as Hf by (intros ->; simpl in Hf8; lia).
  pose proof (codec_decrypt _ _ _ _ _ _ Hc []) as Hdec. rewrite app_nil_r in Hdec.
  unfold ws_read_event, reader_new. cbn [messages]. rewrite length_app. cbn [length].
  replace (2 * (length waits + S (length ms)))%nat with (S (S (2 * (length waits + length ms)))) by lia.
  rewrite (loop_first _ _ _ [] 8) by (by rewrite (codec_partial _ _ _ _ _ _ Hc [] f)).
  destruct (room_for_enough [] 8) as [_ Hr]; [done|]. set (room := room_for [] 8) in *.
  pose proof (loop_read (S (S (2 * (length waits + length ms)))) r
    {| messages := waits ++ Message true f :: ms; recv_buf := [] |}
    {| messages := ms; recv_buf := drop room f |} [] (take room f) 8 ltac:(done)) as H1.
  specialize (H1 ltac:(intros E%(f_equal length); rewrite length_take in E; simpl in E; lia)).
  specialize (H1 ltac:(apply await_message; [unfold room in *; lia|done|done|simpl; len])). cbn [app] in H1.
  destruct (decide (length f <= room)%nat) as [Hle|Hgt].
  { rewrite (take_ge f), (drop_ge f), Hdec in H1 by done. exact H1. }
  assert (drop room f <> []) as Hd by (intros E%(f_equal length); rewrite length_drop in E; simpl in E; lia).
  rewrite (codec_partial _ _ _ _ _ _ Hc (take room f) (drop room f) Hd (take_drop _ _)) in H1.
  rewrite decide_False in H1 by (rewrite length_take; lia). rewrite H1 by done.
  set (n2 := Z.of_nat (length (drop room f))). assert (0 < n2) as Hn2 by (unfold n2; rewrite length_drop; lia).
  pose proof (loop_read (S (2 * (length waits + length ms))) r
    {| messages := ms; recv_buf := drop room f |} {| messages := ms; recv_buf := [] |}
    (take room f) (drop room f) n2 Hn2 Hd) as H2.
  destruct (room_for_enough (take room f) n2 Hn2) as [Hr2 _].
  specialize (H2 ltac:(apply await_rest; [done|unfold n2 in Hr2 |- *; rewrite Nat2Z.id in Hr2; exact Hr2])).
  rewrite take_drop, Hdec in H2. exact H2.
Qed.
End ReadEvents.

(** ** The writer *)

(** A sink of messages: one poll of a new [send] future (which is dropped when
    it is not ready), one of a [close] future, and the messages the sink has
    taken over so far. *)
Class MessageSink (S : Type) := {
  send_poll : list byte -> S -> poll (io_result unit) * S;
  close_poll : S -> poll (io_result unit) * S;
  taken : S -> list (list byte);
}.

(** A completed [send] has handed its message over.  A pending one may have
    done so too, and wait for the flush. *)
Class MessageSinkLaws (S : Type) {M : MessageSink S} := {
  send_ready : forall m s s', send_poll m s = (Ready (Ok tt), s') -> taken s' = taken s ++ [m];
  send_pending : forall m s s', send_poll m s = (Pending, s') ->
    taken s' = taken s \/ taken s' = taken s ++ [m];
}.

Section Writer.
Context {S : Type} {M : MessageSink S}.

(** [poll_write], [poll_flush] and [poll_shutdown] of [WebsocketWriter]. *)
Definition poll_write (buf : list byte) (sink : S) : poll (io_result nat) * S :=
  match send_poll buf sink with
  | (Pending, sink) => (Pending, sink)
  | (Ready (Err e), sink) => (Ready (Err (make_io_error e)), sink)
  | (Ready (Ok _), sink) => (Ready (Ok (length buf)), sink)
  | (Ready Panic, sink) => (Ready Panic, sink)
  end.
Definition poll_flush (sink : S) : poll (io_result unit) * S := (Ready (Ok tt), sink).
Definition poll_shutdown (sink : S) : poll (io_result unit) * S :=
  match close_poll sink with
  | (Pending, sink) => (Pending, sink)
  | (Ready (Err e), sink) => (Ready (Err (make_io_error e)), sink)
  | (Ready (Ok _), sink) => (Ready (Ok tt), sink)
  | (Ready Panic, sink) => (Ready Panic, sink)
  end.

(** An awaited write: the slice is offered again at every poll. *)
Fixpoint await_write (fuel : nat) (buf : list byte) (sink : S) : option (io_result nat * S) :=
  match fuel with
  | O => None
  | Datatypes.S fuel =>
      match poll_write buf sink with
      | (Pending, sink) => await_write fuel buf sink
      | (Ready r, sink) => Some (r, sink)
      end
  end.

(** The pending polls of an awaited write that took the message over. *)
Fixpoint repeats (fuel : nat) (buf : list byte) (sink : S) : nat :=
  match fuel with
  | O => 0
  | Datatypes.S fuel =>
      match send_poll buf sink with
      | (Pending, sink') =>
          (if decide (taken sink' = taken sink) then 0 else 1) + repeats fuel buf sink'
      | _ => 0
      end
  end.

(** [write_buf] of a queue of frames to a writer without vectored writes: its
    first chunk, as one message. *)
Definition ws_write_buf (v : VBuf) : partial (VBuf * list byte) :=
  m ← bytes v; Ok (Buf.advance v (length m), m).

(** The messages of [n] of them. *)
Fixpoint ws_messages (n : nat) (v : VBuf) : partial (VBuf * list (list byte)) :=
  match n with
  | O => Ok (v, [])
  | Datatypes.S n => '(v, m) ← ws_write_buf v; '(v, ms) ← ws_messages n v; Ok (v, m :: ms)
  end.
End Writer.

Lemma ws_messages_frames fs rest :
  Forall (fun f => f <> []) fs ->
  ws_messages (length fs) {| cur := 0; inner := fs ++ rest |} =
    Ok ({| cur := 0; inner := rest |}, fs).
Proof.
  intros H. induction H as [|f fs Hf Hfs IH]; [done|]. cbn [length ws_messages].
  unfold ws_write_buf, bytes. cbn [inner cur app]. rewrite slice_from_le by lia. unmonad.
  rewrite drop_0. unfold Buf.advance. cbn [inner cur advance_loop].
  rewrite decide_True by (destruct f; simpl; [done|lia]). rewrite decide_True by lia.
  replace (length f - (length f - 0))%nat with 0%nat by lia.
  assert (advance_loop 0 (fs ++ rest) 0 = {| cur := 0; inner := fs ++ rest |}) as ->
    by (destruct (fs ++ rest); done).
  by rewrite IH.
Qed.

(** ** Sequences of frames *)

Section Frames.
Context {C : Ciphers} {A : BytesAlloc}.

(** One frame for every event, as the event task makes them. *)
Fixpoint encrypt_each (w : CryptoContext) (evs : list Event)
    : partial (CryptoContext * list (list byte)) :=
  match evs with
  | [] => Ok (w, [])
  | ev :: evs =>
      '(w, f) ← write_encrypt_event w ev; '(w, fs) ← encrypt_each w evs; Ok (w, f :: fs)
  end.

Definition is_pending (m : message) : bool := match m with MessagePending => true | _ => false end.
(** The messages of a script without its delays. *)
Definition arrived (ms : list message) : list message := filter (fun m => is_pending m = false) ms.

Lemma arrived_cons ms m l :
  arrived ms = m :: l ->
  exists waits ms', ms = waits ++ m :: ms' /\ Forall (eq MessagePending) waits /\ arrived ms' = l.
Proof.
  unfold arrived. induction ms as [|x ms IH]; intros E; [done|].
  rewrite filter_cons in E. destruct x; simpl in E; simplify_eq/=; try by exists [], ms.
  destruct (IH E) as (ws & ms' & -> & ? & ?). exists (MessagePending :: ws), ms'. auto.
Qed.

Context `{!CipherLaws C} `{!BytesAllocLaws A}.

Lemma encrypt_each_read evs w r :
  ctx_ok w -> Forall event_wf evs -> sync w r ->
  exists w' fs, encrypt_each w evs = Ok (w', fs) /\ Forall (fun f => f <> []) fs /\
    length fs = length evs /\
    forall ms, arrived ms = Message true <$> fs ->
    exists r' ms', ws_read_events (length evs) r (reader_new ms) []
        = Some (received <$> evs, r', reader_new ms') /\ sync w' r' /\ arrived ms' = [].
Proof.
  revert w r. induction evs as [|ev evs IH]; intros w r Hw Hevs Hs.
  { exists w, []. split_and!; try done. intros ms Hms. by exists r, ms. }
  apply Forall_cons in Hevs as [Hev Hevs].
  destruct (codec_event w r ev Hw Hev Hs) as (w1 & r1 & f & Hc).
  destruct (codec_encrypt _ _ _ _ _ _ Hc []) as [ev' Hen].
  assert (ctx_ok w1) as Hw1 by (unfold ctx_ok; rewrite (codec_key _ _ _ _ _ _ Hc); done).
  destruct (IH w1 r1 Hw1 Hevs (codec_sync _ _ _ _ _ _ Hc)) as (w' & fs & Hall & Hne & Hlen & Hread).
  pose proof (codec_nonempty _ _ _ _ _ _ Hc) as Hf8. exists w', (f :: fs). split_and!.
  - cbn [encrypt_each]. unfold write_encrypt_event. rewrite Hen. unmonad. by rewrite Hall.
  - constructor; [|done]. intros ->. simpl in Hf8. lia.
  - simpl. by rewrite Hlen.
  - intros ms Hms. apply arrived_cons in Hms as (waits & ms1 & -> & Hwt & Hms1).
    destruct (Hread ms1 Hms1) as (r' & ms' & Hr & ? & ?). exists r', ms'.
    split; [|done]. cbn [length ws_read_events].
    rewrite (ws_frame_read _ _ _ _ _ _ _ _ Hc Hwt), Hr. done.
Qed.
End Frames.

(** ** Properties *)

(** C24: events cross a WebSocket.  The frames of a sequence of events, sent
    through the frame queue as one message each, and arriving with any delays
    between them, are read back by [read_encrypt_event] as the same events,
    in order, with synchronised contexts; although a frame may be longer than
    the slice it is read into, no read meets a rest that is longer than its
    slice, so nothing panics. *)
Theorem ws_session_reads {C : Ciphers} {A : BytesAlloc} `{!CipherLaws C} `{!BytesAllocLaws A} w r evs :
  ctx_ok w -> sync w r -> Forall event_wf evs ->
  exists w' fs, encrypt_each w evs = Ok (w', fs) /\
    ws_messages (length evs) {| cur := 0; inner := fs |} = Ok (vbuf_new, fs) /\
    forall ms, arrived ms = Message true <$> fs ->
    exists r' ms', ws_read_events (length evs) r (reader_new ms) []
        = Some (received <$> evs, r', reader_new ms') /\ sync w' r' /\ arrived ms' = [].
Proof.
  intros Hw Hs Hevs. destruct (encrypt_each_read evs w r Hw Hevs Hs) as (w' & fs & E & Hne & Hl & Hr).
  exists w', fs. split; [done|]. split; [|done]. rewrite <- Hl.
  pose proof (ws_messages_frames fs [] Hne) as H. by rewrite app_nil_r in H.
Qed.

(** C25: the WebSocket reader is a byte source.  Polled with a slice, and
    awaited with some room, it answers, and leaves behind, exactly what the
    source of its messages answers, a message that is not binary being an
    error and an empty one the end; except that it panics, always, on a rest
    of a message that is longer than the slice. *)
Theorem ws_reader_is_source r buf :
  (0 < length buf)%nat ->
  (if decide (length (recv_buf r) <= length buf)%nat
   then (exists r', poll_read r buf =
          Ok (let '(a, _) := Io.poll_read (length buf) (as_source r) in
              let '(res, buf') := read_result buf a in (res, r', buf')) /\
          as_source r' = (Io.poll_read (length buf) (as_source r)).2) /\
        (exists r', await_read (S (length (messages r))) (length buf) r
            = Some (Ok ((Io.read (length buf) (as_source r)).1, r')) /\
          as_source r' = (Io.read (length buf) (as_source r)).2)
   else poll_read r buf = Panic).
Proof.
  intros Hb. pose proof (poll_read_source r buf Hb) as Hp. case_decide as Hr; [|done].
  split; [done|]. apply await_read_source; [done|done|lia].
Qed.

(** A write that is not finished at once is repeated.  An awaited write
    to a WebSocket hands its message over once, and once more for every poll
    that was not ready although it had taken the message: a frame arrives
    exactly once only if no flush ever had to wait. *)
Theorem ws_write_repeats {S : Type} {M : MessageSink S} `{!MessageSinkLaws S} fuel buf sink n sink' :
  await_write fuel buf sink = Some (Ok n, sink') ->
  n = length buf /\
  taken sink' = taken sink ++ replicate (1 + repeats fuel buf sink) buf.
Proof.
  revert sink. induction fuel as [|fuel IH]; intros sink E; [done|].
  cbn [await_write repeats] in *. unfold poll_write in E.
  destruct (send_poll buf sink) as [[[[]|e|]|] s1] eqn:P; simplify_eq.
  - split; [done|]. by apply send_ready.
  - destruct (IH s1 E) as [-> ->]. split; [done|].
    destruct (send_pending _ _ _ P) as [Ht|Ht]; rewrite Ht.
    + by rewrite decide_True.
    + rewrite decide_False by (intros H%(f_equal length); rewrite length_app in H; simpl in H; lia).
      rewrite <- app_assoc. done.
Qed.

(** A sink for the witnesses. *)
Module WsDemo.
(** A sink that makes every poll of its script wait; [true] is a poll that has
    taken the message and waits for the flush. *)
#[export] Instance slow_sink : MessageSink (list bool * list (list byte)) := {|
  send_poll m (s : list bool * list (list byte)) := match s.1 with
                   | [] => (Ready (Ok tt), ([], s.2 ++ [m]))
                   | took :: l => (Pending, (l, if took : bool then s.2 ++ [m] else s.2))
                   end;
  close_poll s := (Ready (Ok tt), s);
  taken s := s.2;
|}.
#[export] Instance slow_sink_laws : MessageSinkLaws (list bool * list (list byte)).
Proof.
  split; intros m [[|[] l] q] s'; simpl; intros E; simplify_eq; simpl; auto.
Qed.
End WsDemo.
#[export] Existing Instances WsDemo.slow_sink WsDemo.slow_sink_laws.

Lemma ws_session_reads_witness :
  exists w' fs, encrypt_each (C := Toy.toy) Toy.ctx [Toy.hello; Toy.fin; Toy.hello] = Ok (w', fs) /\
    ws_messages 3 {| cur := 0; inner := fs |} = Ok (vbuf_new, fs) /\
    forall ms, arrived ms = Message true <$> fs ->
    exists r' ms', ws_read_events (C := Toy.toy) (A := Io.Concrete.exact_alloc) 3 Toy.ctx (reader_new ms) []
        = Some (received <$> [Toy.hello; Toy.fin; Toy.hello], r', reader_new ms') /\
        sync w' r' /\ arrived ms' = [].
Proof.
  apply (ws_session_reads (C := Toy.toy) (A := Io.Concrete.exact_alloc)
           Toy.ctx Toy.ctx [Toy.hello; Toy.fin; Toy.hello]).
  - apply Toy.ctx_sync.
  - apply Toy.ctx_sync.
  - apply Toy.events_wf.
Defined.

Lemma ws_reader_is_source_witness :
  poll_read {| messages := []; recv_buf := [x61; x62] |} [x00] = Panic.
Proof.
  assert (0 < length [x00])%nat as H by (simpl; lia).
  exact (ws_reader_is_source {| messages := []; recv_buf := [x61; x62] |} [x00] H).
Defined.

Lemma ws_write_repeats_witness :
  await_write 3 [x61] ([false; true], []) = Some (Ok 1%nat, ([], [[x61]; [x61]])) /\
  taken (([], [[x61]; [x61]]) : list bool * list (list byte)) =
    taken (([false; true], []) : list bool * list (list byte)) ++ replicate (1 + 1) [x61].
Proof.
  split; [reflexivity|].
  exact (proj2 (ws_write_repeats (M := WsDemo.slow_sink) (MessageSinkLaws0 := WsDemo.slow_sink_laws)
                  3 [x61] ([false; true], []) 1 ([], [[x61]; [x61]]) eq_refl)).
Defined.
