(* ===== verification/Text.v ===== *)
(** * Strings of the Rust standard library

    What the tunnels use of [std::str]: UTF-8 validation and the lossy
    conversion, ASCII case, searching for a character, parsing and printing
    decimal numbers.  A Rust string is the [string] of its UTF-8 bytes. *)
From stdpp Require Import prelude strings pretty.
From Stdlib Require Import ZArith NArith Lia.
From Stdlib Require Strings.Ascii Strings.String.
From S2P Require Import Prelude.

Definition str (l : list byte) : string := String.string_of_list_byte l.
Definition bytes_of (s : string) : list byte := String.list_byte_of_string s.

Lemma str_bytes s : str (bytes_of s) = s.
Proof. apply String.string_of_list_byte_of_string. Qed.

Lemma bytes_str l : bytes_of (str l) = l.
Proof. apply String.list_byte_of_string_of_list_byte. Qed.

Lemma bytes_app a b : bytes_of (a +:+ b) = bytes_of a ++ bytes_of b.
Proof. unfold bytes_of, String.list_byte_of_string in *. induction a as [|c a IH]; [done|]. simpl. by f_equal. Qed.

Lemma str_app a b : str (a ++ b) = str a +:+ str b.
Proof. by rewrite <- (str_bytes (str a +:+ str b)), bytes_app, !bytes_str. Qed.

(** ** UTF-8 *)

Local Open Scope Z_scope.

Definition in_range (lo hi : Z) (b : byte) : bool :=
  bool_decide (lo <= u8v b) && bool_decide (u8v b <= hi).
Definition cont (b : byte) : bool := in_range 128 191 b.

(** The range of the second byte after a lead byte, and how many bytes the
    sequence has; [None] for a byte that leads none. *)
Definition lead (b : byte) : option (nat * (Z * Z)) :=
  let v := u8v b in
  if bool_decide (v < 128) then Some (1%nat, (0, 0))
  else if in_range 194 223 b then Some (2%nat, (128, 191))
  else if bool_decide (v = 224) then Some (3%nat, (160, 191))
  else if in_range 225 236 b then Some (3%nat, (128, 191))
  else if bool_decide (v = 237) then Some (3%nat, (128, 159))
  else if in_range 238 239 b then Some (3%nat, (128, 191))
  else if bool_decide (v = 240) then Some (4%nat, (144, 191))
  else if in_range 241 243 b then Some (4%nat, (128, 191))
  else if bool_decide (v = 244) then Some (4%nat, (128, 143))
  else None.

(** The sequence at the front: whether it is valid, and its length; an
    invalid one is as long as its longest part that can start a valid one. *)
Definition utf8_next (b : byte) (l : list byte) : bool * nat :=
  match lead b with
  | None => (false, 1%nat)
  | Some (1%nat, _) => (true, 1%nat)
  | Some (n, (lo, hi)) =>
      match l with
      | b2 :: l =>
          if in_range lo hi b2 then
            if decide (n = 2%nat) then (true, 2%nat)
            else match l with
                 | b3 :: l =>
                     if cont b3 then
                       if decide (n = 3%nat) then (true, 3%nat)
                       else match l with
                            | b4 :: _ => if cont b4 then (true, 4%nat) else (false, 3%nat)
                            | [] => (false, 3%nat)
                            end
                     else (false, 2%nat)
                 | [] => (false, 2%nat)
                 end
          else (false, 1%nat)
      | [] => (false, 1%nat)
      end
  end.

(** U+FFFD *)
Definition replacement : list byte := [xef; xbf; xbd].

Fixpoint utf8_fold (fuel : nat) (l : list byte) : bool * list byte :=
  match fuel, l with
  | S fuel, b :: l =>
      let '(ok, n) := utf8_next b l in
      let '(ok', r) := utf8_fold fuel (drop n (b :: l)) in
      (ok && ok', (if ok then take n (b :: l) else replacement) ++ r)
  | _, _ => (true, [])
  end.

(** [std::str::from_utf8] *)
Definition from_utf8 (l : list byte) : option string :=
  if (utf8_fold (length l) l).1 then Some (str l) else None.

(** [String::from_utf8_lossy] *)
Definition from_utf8_lossy (l : list byte) : string := str (utf8_fold (length l) l).2.

Definition ascii (b : byte) : Prop := u8v b < 128.
#[export] Instance ascii_dec b : Decision (ascii b).
Proof. unfold ascii. apply _. Defined.

Lemma utf8_next_len b l : (1 <= (utf8_next b l).2)%nat.
Proof. unfold utf8_next. repeat case_match; simpl; lia. Qed.

Lemma utf8_fold_valid fuel l :
  (length l <= fuel)%nat -> (utf8_fold fuel l).1 = true -> (utf8_fold fuel l).2 = l.
Proof.
  revert l. induction fuel as [|fuel IH]; intros [|b l] Hf; try done; [simpl in Hf; lia|].
  cbn [utf8_fold]. pose proof (utf8_next_len b l) as Hn.
  destruct (utf8_next b l) as [ok n]; simpl in Hn.
  specialize (IH (drop n (b :: l))). destruct (utf8_fold fuel _) as [ok' r]; simpl in *.
  intros H. apply andb_true_iff in H as [-> ->]. rewrite IH; [apply take_drop| |done].
  rewrite length_drop. simpl. lia.
Qed.

(** A valid string is converted to itself. *)
Lemma lossy_valid l s : from_utf8 l = Some s -> from_utf8_lossy l = s.
Proof.
  unfold from_utf8, from_utf8_lossy. destruct (utf8_fold (length l) l).1 eqn:E; [|done].
  intros [= <-]. by rewrite utf8_fold_valid.
Qed.

Lemma utf8_fold_ascii fuel l :
  (length l <= fuel)%nat -> Forall ascii l -> utf8_fold fuel l = (true, l).
Proof.
  revert l. induction fuel as [|fuel IH]; intros [|b l] Hf Ha; try done; [simpl in Hf; lia|].
  apply Forall_cons in Ha as [Hb Ha]. cbn [utf8_fold].
  assert (utf8_next b l = (true, 1%nat)) as ->.
  { unfold utf8_next, lead. by rewrite bool_decide_eq_true_2. }
  change (drop 1 (b :: l)) with l. rewrite IH; [done|simpl in Hf; lia|done].
Qed.

Lemma from_utf8_ascii l : Forall ascii l -> from_utf8 l = Some (str l).
Proof. intros H. unfold from_utf8. by rewrite utf8_fold_ascii. Qed.

Lemma lossy_ascii l : Forall ascii l -> from_utf8_lossy l = str l.
Proof. intros H. apply lossy_valid. by apply from_utf8_ascii. Qed.

(** ** Characters *)

Definition char_in (c : Ascii.ascii) (s : string) : bool :=
  existsb (Ascii.eqb c) (String.list_ascii_of_string s).

(** [to_ascii_lowercase], [to_ascii_uppercase] on bytes. *)
Definition lower (b : byte) : byte := if in_range 65 90 b then byte_of (u8v b + 32) else b.
Definition upper (b : byte) : byte := if in_range 97 122 b then byte_of (u8v b - 32) else b.
Definition to_ascii_lowercase (s : string) : string := str (lower <$> bytes_of s).

(** ** Decimal numbers *)

(** [format!("{}", n)] of an unsigned integer. *)
Definition show (n : Z) : string := pretty (Z.to_N n).

Definition digit (b : byte) : option Z :=
  if in_range 48 57 b then Some (u8v b - 48) else None.

(** Digits to a number below [2 ^ w]. *)
Fixpoint parse_digits (w : Z) (acc : Z) (l : list byte) : option Z :=
  match l with
  | [] => Some acc
  | b :: l =>
      match digit b with
      | Some d => let n := acc * 10 + d in
                  if decide (n < 2 ^ w) then parse_digits w n l else None
      | None => None
      end
  end.

(** [str::parse] of an unsigned [w]-bit integer: a [+] may lead. *)
Definition parse_unsigned (w : Z) (s : string) : option Z :=
  match bytes_of s with
  | [] => None
  | x2b :: [] => None
  | x2b :: l => parse_digits w 0 l
  | l => parse_digits w 0 l
  end.

Lemma parse_digits_bound w acc l n :
  0 <= acc < 2 ^ w -> parse_digits w acc l = Some n -> 0 <= n < 2 ^ w.
Proof.
  revert acc. induction l as [|b l IH]; intros acc Ha E; simpl in E; [by simplify_eq|].
  unfold digit in E. destruct (in_range 48 57 b) eqn:Hr; [|done]. case_decide; [|done].
  apply IH in E; [done|]. unfold in_range in Hr.
  apply andb_true_iff in Hr as [Hlo _]. apply bool_decide_eq_true in Hlo. lia.
Qed.
