(* ===== verification/Tls.v ===== *)
(** * The SNI proxy (src/src/tunnel/tls.rs)

    [valid_tls_version], and [peek_sni]: the parser that takes the server
    name out of a ClientHello without changing what is relayed.  Against it, a
    builder of ClientHello records as RFC 5246 and RFC 6066 lay them out. *)
From stdpp Require Import prelude strings.
From Stdlib Require Import ZArith Lia.
From S2P Require Import Prelude Io Text.

Definition valid_tls_version (buf : list byte) : bool :=
  match buf with
  | b0 :: b1 :: _ :: _ =>
      if decide (b0 <> x16) then false
      else if decide (u8v b1 < 3)%Z then false else true
  | _ => false
  end.

(** Two bytes, big-endian, as a length. *)
Definition len16 (l : list byte) (i : nat) : io_result nat :=
  hi ← index i l; lo ← index (S i) l; Ok (Z.to_nat (be16 hi lo)).

(** [for _ in 0..num_names { .. }] over the names; [None] when none of them
    is a host name. *)
Fixpoint find_name (num_names : nat) (data : list byte) : io_result (option string) :=
  match num_names with
  | O => Ok None
  | S num_names =>
      if decide (length data < 3) then Err (make_error "invalid ext data length")
      else
        name_type ← index 0 data;
        name_len ← len16 data 1;
        data ← slice_from 3 data;
        if decide (length data < name_len) then Err (make_error "invalid ext name data")
        else if decide (name_type = x00) then
          name ← slice_to name_len data;
          Ok (Some (from_utf8_lossy name))
        else
          data ← slice_from name_len data;
          find_name num_names data
  end.

(** The loop over the extensions, with fuel; [None] is "still looping". *)
Fixpoint scan_extensions (fuel : nat) (ext_buf : list byte) : option (io_result string) :=
  match fuel with
  | O => None
  | S fuel =>
      if decide (length ext_buf < 4) then Some (Err (make_error "invalid ext buf len"))
      else
        match (extension ← len16 ext_buf 0;
               length ← len16 ext_buf 2;
               ext_buf ← slice_from 4 ext_buf;
               Ok (extension, length, ext_buf)) : io_result _ with
        | Ok (extension, len, ext_buf) =>
            if decide (length ext_buf < len) then Some (Err (make_error "invalid ext buf content"))
            else
              let found : io_result (option string) :=
                if decide (extension = 0) then
                  if decide (len < 2) then Err (make_error "invalid ext buf length")
                  else num_names ← len16 ext_buf 0;
                       data ← slice_from 2 ext_buf;
                       find_name num_names data
                else Ok None in
              match found with
              | Ok (Some name) => Some (Ok name)
              | Ok None =>
                  match slice_from (E := string) len ext_buf with
                  | Ok ext_buf => scan_extensions fuel ext_buf
                  | Err e => Some (Err e)
                  | Panic => Some Panic
                  end
              | Err e => Some (Err e)
              | Panic => Some Panic
              end
        | Err e => Some (Err e)
        | Panic => Some Panic
        end
  end.

(** From the handshake message to the extensions. *)
Definition skip_to_extensions (vdata : list byte) : io_result (list byte) :=
  t ← index 0 vdata;
  if decide (t <> x01) then Err (make_error "not clienthello handshake")
  else
    rest_buf ← slice_from 38 vdata;
    b ← index 0 rest_buf;
    let sid_len := Z.to_nat (u8v b) in
    rest_buf ← slice_from (1 + sid_len) rest_buf;
    if decide (length rest_buf < 2) then Err (make_error "no sufficient space for sni0")
    else
      cipher_len ← len16 rest_buf 0;
      if decide (cipher_len mod 2 = 1 \/ length rest_buf < 3 + cipher_len)
      then Err (make_error "invalid cipher_len")
      else
        rest_buf ← slice_from (2 + cipher_len) rest_buf;
        b ← index 0 rest_buf;
        let compress_method_len := Z.to_nat (u8v b) in
        if decide (length rest_buf < 1 + compress_method_len)
        then Err (make_error "invalid compress_method_len")
        else
          rest_buf ← slice_from (1 + compress_method_len) rest_buf;
          if decide (length rest_buf < 2) then Err (make_error "invalid after compress_method")
          else
            ext_len ← len16 rest_buf 0;
            rest_buf ← slice_from 2 rest_buf;
            if decide (length rest_buf < ext_len) then Err (make_error "invalid ext_len")
            else if decide (ext_len = 0) then Err (make_error "no extension in client_hello")
            else Ok rest_buf.

(** The server name and everything read so far; the fuel is enough for any
    record ([scan_total]). *)
Definition peek_sni (inbound : source) : option (io_result (string * list byte)) * source :=
  match read_exact 5 inbound with
  | (Ok ver_len_buf, inbound) =>
      match len16 ver_len_buf 3 with
      | Ok n =>
          if decide (n < 42) then (Some (Err (make_error "no sufficient space for sni")), inbound)
          else
            match read_exact n inbound with
            | (Ok vdata, inbound) =>
                let peek_buf := ver_len_buf ++ vdata in
                (match skip_to_extensions vdata with
                 | Ok ext_buf =>
                     fmap (fun r => name ← r; Ok (name, peek_buf))
                          (scan_extensions (S (length ext_buf)) ext_buf)
                 | Err e => Some (Err e)
                 | Panic => Some Panic
                 end, inbound)
            | (Err e, inbound) => (Some (Err e), inbound)
            | (Panic, inbound) => (Some Panic, inbound)
            end
      | Err e => (Some (Err e), inbound)
      | Panic => (Some Panic, inbound)
      end
  | (Err e, inbound) => (Some (Err e), inbound)
  | (Panic, inbound) => (Some Panic, inbound)
  end.

(** What [handle_tls] relays to, and the bytes it sends there first. *)
Definition handle_tls_target (r : string * list byte) : string * list byte :=
  (r.1 +:+ ":443", r.2).

(** ** Lengths and slices *)

Lemma len16_ok l i :
  S i < length l -> exists n, len16 l i = Ok n.
Proof.
  intros H. unfold len16. destruct (index_lt (E := string) i l) as (a & -> & _); [lia|].
  destruct (index_lt (E := string) (S i) l) as (b & -> & _); [lia|]. unmonad.
  by eexists.
Qed.

Lemma find_name_no_panic n data : find_name n data <> Panic.
Proof.
  revert data. induction n as [|n IH]; intros data; [done|]. cbn [find_name].
  case_decide; [done|]. destruct (index_lt (E := string) 0 data) as (b & -> & _); [lia|].
  destruct (len16_ok data 1) as (k & ->); [lia|]. rewrite slice_from_le by lia. unmonad.
  case_decide; [done|]. case_decide; [by rewrite slice_to_le by lia|].
  by rewrite slice_from_le by lia.
Qed.

(** The loop over the extensions ends within its fuel, without a panic. *)
Lemma scan_total fuel ext :
  length ext < fuel -> exists r, scan_extensions fuel ext = Some r /\ r <> Panic.
Proof.
  revert ext. induction fuel as [|fuel IH]; intros ext Hf; [lia|]. cbn [scan_extensions].
  case_decide; [by eexists|].
  destruct (len16_ok ext 0) as (ty & ->); [lia|].
  destruct (len16_ok ext 2) as (len & ->); [lia|]. rewrite slice_from_le by lia. unmonad.
  assert (length (drop 4 ext) = length ext - 4) as Hl by apply length_drop.
  set (e := drop 4 ext) in *. case_decide; [by eexists|].
  assert (forall r : io_result (option string), r <> Panic ->
    exists x, match r with
              | Ok (Some name) => Some (Ok name)
              | Ok None => match slice_from (E := string) len e with
                           | Ok e => scan_extensions fuel e | Err e => Some (Err e) | Panic => Some Panic
                           end
              | Err e => Some (Err e)
              | Panic => Some Panic
              end = Some x /\ x <> Panic) as Hr.
  { intros [[name|]|msg|] Hp; try done; [by eexists| |by eexists].
    rewrite slice_from_le by lia. apply IH. rewrite length_drop. lia. }
  apply Hr. case_decide; [|done]. case_decide; [done|].
  destruct (len16_ok e 0) as (k & ->); [lia|]. rewrite slice_from_le by lia. unmonad.
  apply find_name_no_panic.
Qed.

(** The parser of the message panics only on the session id. *)
Lemma skip_panics vdata :
  42 <= length vdata ->
  (skip_to_extensions vdata = Panic <->
   vdata !! 0 = Some x01 /\ exists b, vdata !! 38 = Some b /\ length vdata < 39 + Z.to_nat (u8v b)).
Proof.
  intros Hn. unfold skip_to_extensions.
  destruct (index_lt (E := string) 0 vdata) as (t & -> & Ht); [lia|]. unmonad.
  rewrite Ht. case_decide as Ht1; [split; [done|]; by intros [[=] _]|].
  assert (t = x01) as -> by (destruct (decide (t = x01)); [done|by destruct Ht1]).
  rewrite slice_from_le by lia.
  destruct (index_lt (E := string) 0 (drop 38 vdata)) as (b & -> & Hb); [rewrite length_drop; lia|].
  rewrite lookup_drop in Hb. simpl in Hb. rewrite Hb.
  destruct (decide (1 + Z.to_nat (u8v b) <= length (drop 38 vdata))) as [Hs|Hs].
  2: { unfold slice_from. rewrite decide_False by done. split; [|done]. intros _.
       rewrite length_drop in Hs. split; [done|]. exists b. split; [done|lia]. }
  split.
  2: { intros (_ & b' & [= <-] & H). rewrite length_drop in Hs. lia. }
  rewrite slice_from_le by done. set (r := drop _ (drop 38 vdata)). clearbody r. intros E. exfalso.
  revert E. case_decide; [done|]. destruct (len16_ok r 0) as (c & ->); [lia|].
  case_decide as Hc; [done|]. assert (3 + c <= length r) as Hc' by lia. clear Hc.
  rewrite slice_from_le by lia. set (r2 := drop (2 + c) r).
  assert (1 <= length r2) as Hr2 by (unfold r2; rewrite length_drop; lia). clearbody r2.
  destruct (index_lt (E := string) 0 r2) as (m & -> & _); [lia|].
  case_decide; [done|]. rewrite slice_from_le by lia. set (r3 := drop _ r2). clearbody r3.
  case_decide; [done|]. destruct (len16_ok r3 0) as (k & ->); [lia|].
  rewrite slice_from_le by lia. case_decide; [done|]. by case_decide.
Qed.

(** ** Building a ClientHello *)

(** A length on two bytes. *)
Definition put16 (n : nat) : list byte :=
  [byte_of (Z.shiftr (Z.of_nat n) 8); byte_of (Z.of_nat n)].

Record Extension := { ext_type : nat; ext_data : list byte }.
Definition put_ext (e : Extension) : list byte :=
  put16 (ext_type e) ++ put16 (length (ext_data e)) ++ ext_data e.

(** The server name extension of RFC 6066 with one host name. *)
Definition sni_ext (host : list byte) : Extension :=
  {| ext_type := 0;
     ext_data := put16 (3 + length host) ++ [x00] ++ put16 (length host) ++ host |}.

Record Hello := {
  head : list byte;         (* message length, version and random: 37 bytes *)
  session_id : list byte;
  ciphers : list byte;      (* two bytes per suite *)
  compression : list byte;
  before : list Extension;
  host : list byte;
  after : list byte;
}.

Definition put_exts (h : Hello) : list byte :=
  mjoin (put_ext <$> before h) ++ put_ext (sni_ext (host h)) ++ after h.

Definition put_message (h : Hello) : list byte :=
  [x01] ++ head h ++ [byte_of (Z.of_nat (length (session_id h)))] ++ session_id h ++
  put16 (length (ciphers h)) ++ ciphers h ++
  [byte_of (Z.of_nat (length (compression h)))] ++ compression h ++
  put16 (length (put_exts h)) ++ put_exts h.

Definition put_record (minor : byte) (h : Hello) : list byte :=
  [x16; x03; minor] ++ put16 (length (put_message h)) ++ put_message h.

Definition hello_ok (h : Hello) : Prop :=
  length (head h) = 37 /\ length (session_id h) < 256 /\ length (compression h) < 256 /\
  length (ciphers h) mod 2 = 0 /\
  Forall (fun e => (0 < ext_type e)%nat /\ Z.of_nat (ext_type e) < 65536)%Z (before h) /\ Forall ascii (host h) /\
  (Z.of_nat (length (put_message h)) < 65536)%Z.

#[export] Instance hello_ok_dec h : Decision (hello_ok h).
Proof. unfold hello_ok. apply _. Defined.

(** ** Reading the builder's output *)

Lemma length_put16 n : length (put16 n) = 2.
Proof. done. Qed.

Lemma slice_from_app (a b : list byte) n :
  n = length a -> slice_from (E := string) n (a ++ b) = Ok b.
Proof. intros ->. rewrite slice_from_le by (rewrite length_app; lia). by rewrite drop_app_length. Qed.

Lemma slice_to_app (a b : list byte) n :
  n = length a -> slice_to (E := string) n (a ++ b) = Ok a.
Proof. intros ->. rewrite slice_to_le by (rewrite length_app; lia). by rewrite take_app_length. Qed.

Lemma be16_put n :
  (Z.of_nat n < 65536)%Z ->
  be16 (byte_of (Z.shiftr (Z.of_nat n) 8)) (byte_of (Z.of_nat n)) = Z.of_nat n.
Proof.
  intros Hn. rewrite be16_add, !u8v_byte_of. unfold wrap. rewrite Z.shiftr_div_pow2 by lia.
  change (2 ^ 8)%Z with 256%Z. rewrite (Z.mod_small (_ / 256)).
  - pose proof (Z.div_mod (Z.of_nat n) 256). lia.
  - split; [apply Z.div_pos; lia|]. apply Z.div_lt_upper_bound; lia.
Qed.

Lemma len16_put a n rest i :
  i = length a -> (Z.of_nat n < 65536)%Z -> len16 (a ++ put16 n ++ rest) i = Ok n.
Proof.
  intros -> Hn. unfold len16, index. rewrite (lookup_app_r a _ (length a)), (lookup_app_r a _ (S (length a))) by lia.
  rewrite Nat.sub_diag. replace (S (length a) - length a) with 1 by lia. simpl. unmonad.
  by rewrite be16_put, Nat2Z.id.
Qed.

Lemma len16_put0 n rest :
  (Z.of_nat n < 65536)%Z -> len16 (put16 n ++ rest) 0 = Ok n.
Proof. intros. by apply (len16_put [] n rest 0). Qed.

Lemma index_head (b : byte) l : index (E := string) 0 ([b] ++ l) = Ok b.
Proof. done. Qed.

Lemma u8_put n : n < 256 -> Z.to_nat (u8v (byte_of (Z.of_nat n))) = n.
Proof. intros. rewrite u8v_byte_of, wrap_small by (change (2 ^ 8)%Z with 256%Z; lia). lia. Qed.

Lemma skip_put h :
  hello_ok h -> put_exts h <> [] -> skip_to_extensions (put_message h) = Ok (put_exts h).
Proof.
  intros (Hh & Hs & Hm & Hc & _ & _ & Hlen) Hne.
  assert (Z.of_nat (length (ciphers h)) < 65536 /\ Z.of_nat (length (put_exts h)) < 65536)%Z as [Hc16 He16].
  { unfold put_message in Hlen. rewrite !length_app in Hlen. lia. }
  unfold skip_to_extensions. assert (index (E := string) 0 (put_message h) = Ok x01) as -> by done.
  unfold put_message. unmonad. rewrite decide_False by tauto.
  rewrite (app_assoc [x01]), slice_from_app by (simpl; lia).
  rewrite index_head, u8_put by done. rewrite (app_assoc [_]), slice_from_app by done.
  rewrite decide_False by (rewrite length_app, length_put16; lia).
  rewrite (len16_put0 (length (ciphers h))) by done.
  rewrite decide_False by (rewrite !length_app, length_put16; cbn [length]; lia).
  rewrite (app_assoc (put16 _)), slice_from_app by done. rewrite index_head, u8_put by done.
  rewrite decide_False by (rewrite !length_app; cbn [length]; lia).
  rewrite (app_assoc [_]), slice_from_app by done.
  rewrite decide_False by (rewrite length_app, length_put16; lia).
  rewrite (len16_put0 (length (put_exts h))) by done. rewrite slice_from_app by done.
  rewrite decide_False by lia. rewrite decide_False; [done|]. by destruct (put_exts h).
Qed.

Lemma scan_put_ext fuel e rest :
  0 < ext_type e -> (Z.of_nat (ext_type e) < 65536)%Z -> (Z.of_nat (length (ext_data e)) < 65536)%Z ->
  scan_extensions (S fuel) (put_ext e ++ rest) = scan_extensions fuel rest.
Proof.
  intros H0 Ht Hd. cbn [scan_extensions]. unfold put_ext. rewrite <- !app_assoc.
  rewrite decide_False by (rewrite !length_app, !length_put16; lia).
  rewrite (len16_put0 (ext_type e)) by done.
  rewrite (len16_put (put16 (ext_type e)) (length (ext_data e)) _ 2) by done. unmonad.
  rewrite (app_assoc (put16 _) (put16 _)), slice_from_app by done.
  rewrite decide_False by (rewrite length_app; lia). rewrite decide_False by lia.
  by rewrite slice_from_app.
Qed.

Lemma scan_put_sni fuel host rest :
  (Z.of_nat (length host) + 5 < 65536)%Z -> Forall ascii host ->
  scan_extensions (S fuel) (put_ext (sni_ext host) ++ rest) = Some (Ok (str host)).
Proof.
  intros Hl Ha. cbn [scan_extensions]. unfold put_ext, sni_ext; cbn [ext_type ext_data].
  set (d := put16 (3 + length host) ++ _). rewrite <- !app_assoc.
  assert (length d = 5 + length host) as Hd by (unfold d; rewrite !length_app, !length_put16; simpl; lia).
  rewrite decide_False by (rewrite !length_app, !length_put16; lia).
  rewrite (len16_put0 0) by done. rewrite (len16_put (put16 0) (length d) _ 2) by (done || lia). unmonad.
  rewrite (app_assoc (put16 _) (put16 _)), slice_from_app by done.
  rewrite decide_False by (rewrite length_app; lia). rewrite decide_True by done.
  rewrite decide_False by lia. unfold d. rewrite <- !app_assoc.
  rewrite (len16_put0 (3 + length host)) by (done || lia). rewrite slice_from_app by done.
  cbn [find_name Nat.add]. rewrite decide_False by (simpl; lia).
  rewrite index_head, (len16_put [x00] (length host) _ 1) by (done || lia). unmonad.
  rewrite app_assoc, slice_from_app by done. rewrite decide_False by (rewrite length_app; lia).
  rewrite decide_True, slice_to_app by done. by rewrite lossy_ascii.
Qed.

Lemma length_put_ext e : length (put_ext e) = 4 + length (ext_data e).
Proof. unfold put_ext. rewrite !length_app, !length_put16. lia. Qed.

Lemma scan_put h fuel :
  hello_ok h -> length (put_exts h) <= fuel -> scan_extensions fuel (put_exts h) = Some (Ok (str (host h))).
Proof.
  intros (_ & _ & _ & _ & Hb & Ha & Hlen) Hf.
  assert (Z.of_nat (length (put_exts h)) < 65536)%Z as H16.
  { unfold put_message in Hlen. rewrite !length_app in Hlen. lia. }
  unfold put_exts in *. clear Hlen. revert fuel Hf.
  induction (before h) as [|e es IH]; intros fuel Hf.
  - change (mjoin (put_ext <$> [])) with (@nil byte) in *. rewrite app_nil_l in *.
    rewrite length_app, length_put_ext in Hf, H16.
    assert (length (ext_data (sni_ext (host h))) = 5 + length (host h)) as Hd.
    { unfold sni_ext; cbn [ext_data]. rewrite !length_app, !length_put16. simpl. lia. }
    rewrite Hd in Hf, H16. destruct fuel as [|fuel]; [lia|]. apply scan_put_sni; [lia|done].
  - apply Forall_cons in Hb as [[H0 Ht] Hb].
    change (mjoin (put_ext <$> e :: es)) with (put_ext e ++ mjoin (put_ext <$> es)) in *.
    rewrite <- app_assoc in *.
    rewrite length_app, length_put_ext in Hf, H16. destruct fuel as [|fuel]; [lia|].
    rewrite scan_put_ext by (done || lia). apply IH; [done|lia|lia].
Qed.

(** The name the client asks for is found.  On a ClientHello record
    with any session id, cipher suites, compression methods and extensions
    before and after the server name, delivered in any chunking,
    [peek_sni] returns the host name, keeps every byte of the record to be
    relayed, and leaves what follows unread. *)
Lemma peek_sni_ok h minor rest s :
  hello_ok h -> healthy s -> stream s = put_record minor h ++ rest ->
  exists s', peek_sni s = (Some (Ok (str (host h), put_record minor h)), s') /\
    stream s' = rest /\ healthy s'.
Proof.
  intros Hok Hs Hst.
  assert (put_exts h <> []) as Hne.
  { unfold put_exts. intros E%(f_equal length). rewrite !length_app, length_put_ext in E. simpl in E. lia. }
  assert (42 <= length (put_message h)) as H42.
  { destruct Hok as (Hh & _). unfold put_message. rewrite !length_app, length_put16. simpl. lia. }
  pose proof Hok as (_ & _ & _ & _ & _ & _ & Hlen).
  set (hd := [x16; x03; minor] ++ put16 (length (put_message h))).
  assert (stream s = hd ++ put_message h ++ rest) as Hst' by (by rewrite Hst).
  unfold peek_sni. pose proof (read_exact_healthy 5 s Hs) as H5.
  rewrite decide_True in H5 by (rewrite Hst', length_app; simpl; lia).
  destruct H5 as (s1 & -> & Hs1 & Hh1). rewrite Hst' in *.
  rewrite (take_app_length' hd), (drop_app_length' hd) in * by done.
  assert (len16 hd 3 = Ok (length (put_message h))) as ->.
  { pose proof (len16_put [x16; x03; minor] (length (put_message h)) [] 3 eq_refl Hlen) as E.
    by rewrite app_nil_r in E. }
  rewrite decide_False by lia. pose proof (read_exact_healthy (length (put_message h)) s1 Hh1) as Hn.
  rewrite Hs1, decide_True in Hn by (rewrite length_app; lia). destruct Hn as (s2 & -> & Hs2 & Hh2).
  rewrite take_app_length, drop_app_length in *. rewrite skip_put by done.
  rewrite scan_put by (done || lia). simpl. unmonad. exists s2. done.
Qed.

(** ** Properties *)

(** C29: the parser always ends, and one input crashes it.  On every stream
    [peek_sni] returns a name or an error, never loops, and panics exactly on
    a record of at least 42 bytes with a ClientHello whose session id
    is announced longer than the message. *)
Theorem peek_sni_total s :
  exists r s', peek_sni s = (Some r, s') /\
    (r = Panic <-> exists hd n vdata s1, read_exact 5 s = (Ok hd, s1) /\ len16 hd 3 = Ok n /\
       42 <= n /\ read_exact n s1 = (Ok vdata, s') /\ vdata !! 0 = Some x01 /\
       exists b, vdata !! 38 = Some b /\ length vdata < 39 + Z.to_nat (u8v b)).
Proof.
  unfold peek_sni. pose proof (read_exact_length 5 s) as L5.
  destruct (read_exact 5 s) as [[hd|e|] s1] eqn:E5; [| |done].
  2: { exists (Err e), s1. split; [done|]. split; [done|]. by intros (? & ? & ? & ? & [=] & _). }
  destruct (len16_ok hd 3) as (n & Hn); [lia|]. rewrite Hn. case_decide as H42.
  { eexists (Err _), s1. split; [done|]. split; [done|].
    intros (hd' & n' & ? & ? & [= -> ->] & Hn' & ? & _). rewrite Hn in Hn'. injection Hn' as ->. lia. }
  pose proof (read_exact_length n s1) as Ln.
  destruct (read_exact n s1) as [[vdata|e|] s2] eqn:En; [| |done].
  2: { exists (Err e), s2. split; [done|]. split; [done|].
       intros (hd' & n' & v' & s' & [= -> ->] & Hn' & _ & Hr & _).
       rewrite Hn in Hn'. injection Hn' as ->. congruence. }
  pose proof (skip_panics vdata ltac:(lia)) as Hsk.
  set (bad := vdata !! 0 = Some x01 /\ exists b, vdata !! 38 = Some b /\ length vdata < 39 + Z.to_nat (u8v b)) in *.
  enough (exists r, match skip_to_extensions vdata with
                    | Ok ext_buf => fmap (fun r => name ← r; Ok (name, hd ++ vdata))
                                         (scan_extensions (S (length ext_buf)) ext_buf)
                    | Err e => Some (Err e)
                    | Panic => Some Panic
                    end = Some r /\ (r = Panic <-> bad)) as (r & -> & Hr).
  { exists r, s2. split; [done|]. rewrite Hr. split.
    - intros Hb. exists hd, n, vdata, s1. split_and!; try done; [lia|apply Hb|apply Hb].
    - intros (hd' & n' & v' & s' & [= -> ->] & Hn' & _ & Hr' & Hb).
      rewrite Hn in Hn'. injection Hn' as ->. rewrite En in Hr'. by injection Hr' as ->. }
  destruct (skip_to_extensions vdata) as [ext|e|].
  - destruct (scan_total (S (length ext)) ext) as (r & -> & Hr); [lia|].
    eexists. split; [done|]. rewrite <- Hsk. by destruct r.
  - eexists. split; [done|]. rewrite <- Hsk. done.
  - eexists. split; [done|]. rewrite <- Hsk. done.
Qed.
