(* ===== verification/Handshake.v ===== *)
(** * The handshake of a session (src/src/channel/rmux.rs, tunnel/rmux.rs, tunnel/ws.rs)

    The connecting side ([init_client]) announces its cipher method in an AUTH
    event, the accepting side ([handle_rmux], and [handle_websocket] over a
    WebSocket) answers with a random number, and both derive the contexts of
    the session from the shared key, the method and that number. *)
From stdpp Require Import prelude strings.
From Stdlib Require Import ZArith Lia.
From S2P Require Import Prelude Io Event Crypto Text.

Local Open Scope Z_scope.

Record CipherConfig := { cipher_key : string; cipher_method : string }.

(** What a successful handshake hands to [process_rmux_session]. *)
Record Ready := {
  rctx : CryptoContext;
  wctx : CryptoContext;
  inbound : source;
  recv_buf : list byte;
}.

(** What has been written, and the outcome; [None] is a read that does not
    return. *)
Abbreviation outcome := (list byte * option (io_result Ready))%type.

Section Handshake.
Context {C : Ciphers} {A : BytesAlloc} `{Bincode AuthRequest} `{Bincode AuthResponse}.

(** [init_client] up to [process_rmux_session]; [sent] is the outcome of the
    write. *)
Definition init_client (cfg : CipherConfig) (sent : io_result unit) (ri : source) : outcome :=
  let method := cipher_method cfg in
  let key := bytes_of (cipher_key cfg) in
  match new_auth_event 0 {| req_method := method |}, new method key 0, new method key 0 with
  | Ok ev, Ok rc, Ok wc =>
      match write_encrypt_event wc ev with
      | Ok (wc, data) =>
          (data,
           match sent with
           | Ok _ =>
               match read_encrypt_event rc ri [] with
               | Some (Ok (GotEvent recv_ev rc ri buf)) =>
                   match deserialize (body recv_ev) with
                   | Some decoded =>
                       if negb (success decoded)
                       then Some (Err "connection refused"%string)
                       else
                         Some (match new method key (rand decoded), new method key (rand decoded) with
                               | Ok r, Ok w => Ok {| rctx := r; wctx := w; inbound := ri; recv_buf := buf |}
                               | Err e, _ => match e with end
                               | _, Err e => match e with end
                               | Panic, _ | _, Panic => Panic
                               end)
                   | None => Some Panic
                   end
               | Some (Ok EndOfStream) => Some (Err (make_io_error "can NOT read first auth envent."))
               | Some (Ok (ReadError e)) => Some (Err (make_io_error e))
               | Some (Err e) => match e with end
               | Some Panic => Some Panic
               | None => None
               end
           | Err e => Some (Err e)
           | Panic => Some Panic
           end)
      | _ => ([], Some Panic)
      end
  | _, _, _ => ([], Some Panic)
  end.

(** [handle_rmux] up to [handle_rmux_session]; [random] is the number drawn,
    [unreadable] the error of a failed read, which [handle_rmux] and
    [handle_websocket] word differently. *)
Definition handle_rmux (cfg : CipherConfig) (random : Z) (sent : io_result unit)
    (unreadable : string -> string) (ri : source) : outcome :=
  let method := cipher_method cfg in
  let key := bytes_of (cipher_key cfg) in
  match new method key 0, new method key 0 with
  | Ok rc, Ok wc =>
      match read_encrypt_event rc ri [] with
      | Some (Ok (GotEvent recv_ev rc ri buf)) =>
          match deserialize (body recv_ev) with
          | Some auth_req =>
              let auth_res := {| success := true; err := ""; rand := random;
                                 res_method := req_method auth_req |} in
              match (res ← new_auth_event 0 auth_res; encrypt wc res []) : partial _ with
              | Ok (wc, _, data) =>
                  (data,
                   match sent with
                   | Ok _ =>
                       Some (match new (res_method auth_res) key (rand auth_res),
                                   new (res_method auth_res) key (rand auth_res) with
                             | Ok r, Ok w => Ok {| rctx := r; wctx := w; inbound := ri; recv_buf := buf |}
                             | Err e, _ => match e with end
                             | _, Err e => match e with end
                             | Panic, _ | _, Panic => Panic
                             end)
                   | Err e => Some (Err e)
                   | Panic => Some Panic
                   end)
              | _ => ([], Some Panic)
              end
          | None => ([], Some (Err (make_io_error "Failed to parse AuthRequest")))
          end
      | Some (Ok EndOfStream) => ([], Some (Err (make_io_error "can NOT read first auth envent.")))
      | Some (Ok (ReadError e)) => ([], Some (Err (unreadable e)))
      | Some (Err e) => match e with end
      | Some Panic => ([], Some Panic)
      | None => ([], None)
      end
  | _, _ => ([], Some Panic)
  end.

Definition handle_websocket (cfg : CipherConfig) (random : Z) (sent : io_result unit)
    (ri : source) : outcome :=
  handle_rmux cfg random sent make_io_error ri.
End Handshake.

(** ** One encrypted event each way *)

Section Lemmas.
Context {C : Ciphers} {A : BytesAlloc} `{!CipherLaws C} `{!BytesAllocLaws A}.

(** An AUTH event between contexts of one method, key and nonce. *)
Lemma auth_exchange {T} `{Bincode T} c (m : T) d :
  sync c c -> ctx_ok c -> serialize m = Some d -> Z.of_nat (length d) < 2 ^ 24 ->
  exists ev w f,
    new_auth_event 0 m = Ok ev /\ (forall out, exists ev', encrypt c ev out = Ok (w, ev', out ++ f)) /\
    body ev = d /\
    forall s rest, healthy s -> stream s = f ++ rest ->
      exists r s' buf, read_encrypt_event c s [] = Some (Ok (GotEvent (received ev) r s' buf)) /\
        buf ++ stream s' = rest /\ healthy s'.
Proof.
  intros Hs Hok Hd Hlen. exists (with_flag (new_data_event 0 d false) FLAG_AUTH).
  assert (event_wf (with_flag (new_data_event 0 d false) FLAG_AUTH)) as Hwf
    by (by apply with_flag_wf).
  destruct (codec_event c c _ Hok Hwf Hs) as (w & r & f & Hc).
  exists w, f. split_and!; [by unfold new_auth_event; rewrite Hd|apply Hc|done|].
  intros s rest Hh E.
  destruct (read_encrypt_event_got Hc s [] Hh E) as (s' & buf & Hr & E' & Hh').
  by exists r, s', buf.
Qed.

Lemma new_ok method k n :
  supported method -> exists c, new method k n = Ok c /\ sync c c /\ ctx_ok c.
Proof.
  intros Hm. pose proof (new_supported method k n Hm) as E.
  eexists. split; [exact E|]. by apply (new_sync method k n).
Qed.
End Lemmas.

(** ** Properties *)

(** C23: the two sides of a handshake agree.  With a shared key and supported
    method, whatever the chunking, each side's handshake succeeds on what the
    other one writes; the contexts of the session are those of the method, the
    key and the server's random number on both sides, so each side's write
    context mirrors the other's read context; and the bytes behind the
    handshake are left for the session. *)
Theorem handshake_agrees {C : Ciphers} {A : BytesAlloc} `{!CipherLaws C} `{!BytesAllocLaws A}
    `{BincodeLaws AuthRequest} `{BincodeLaws AuthResponse} cfg random unreadable d1 d2 :
  supported (cipher_method cfg) ->
  serialize {| req_method := cipher_method cfg |} = Some d1 -> Z.of_nat (length d1) < 2 ^ 24 ->
  serialize {| success := true; err := ""; rand := random; res_method := cipher_method cfg |} = Some d2 ->
  Z.of_nat (length d2) < 2 ^ 24 ->
  exists data1 data2 c,
    new (cipher_method cfg) (bytes_of (cipher_key cfg)) random = Ok c /\ sync c c /\ ctx_ok c /\
    (forall ri, (init_client cfg (Ok tt) ri).1 = data1) /\
    (forall s rest, healthy s -> stream s = data1 ++ rest ->
       exists s' buf, handle_rmux cfg random (Ok tt) unreadable s =
         (data2, Some (Ok {| rctx := c; wctx := c; inbound := s'; recv_buf := buf |})) /\
         buf ++ stream s' = rest /\ healthy s') /\
    (forall ri rest, healthy ri -> stream ri = data2 ++ rest ->
       exists ri' buf, init_client cfg (Ok tt) ri =
         (data1, Some (Ok {| rctx := c; wctx := c; inbound := ri'; recv_buf := buf |})) /\
         buf ++ stream ri' = rest /\ healthy ri').
Proof.
  intros Hm Hd1 Hl1 Hd2 Hl2. set (key := bytes_of (cipher_key cfg)).
  destruct (new_ok (cipher_method cfg) key 0 Hm) as (c0 & Hc0 & Hs0 & Hok0).
  destruct (new_ok (cipher_method cfg) key random Hm) as (c & Hc & Hs & Hok).
  destruct (auth_exchange c0 _ d1 Hs0 Hok0 Hd1 Hl1) as (ev1 & w1 & f1 & Hev1 & He1 & Hb1 & Hr1).
  destruct (auth_exchange c0 _ d2 Hs0 Hok0 Hd2 Hl2) as (ev2 & w2 & f2 & Hev2 & He2 & Hb2 & Hr2).
  destruct (He1 []) as [ev1' E1]. destruct (He2 []) as [ev2' E2]. simpl in E1, E2.
  exists f1, f2, c. split_and!; [done|done|done|..].
  - intros ri. unfold init_client, write_encrypt_event. fold key. by rewrite Hev1, Hc0, E1.
  - intros s rest Hh Hst. destruct (Hr1 s rest Hh Hst) as (r & s' & buf & Hread & Hrest & Hh').
    exists s', buf. split; [|done]. unfold handle_rmux. fold key. rewrite Hc0, Hread.
    simpl. rewrite Hb1, (deserialize_serialize _ _ Hd1). cbn [req_method].
    rewrite Hev2. unmonad. rewrite E2. simpl. by rewrite Hc.
  - intros s rest Hh Hst. destruct (Hr2 s rest Hh Hst) as (r & s' & buf & Hread & Hrest & Hh').
    exists s', buf. split; [|done]. unfold init_client, write_encrypt_event. fold key.
    rewrite Hev1, Hc0, E1. unmonad. rewrite Hread. simpl.
    rewrite Hb2, (deserialize_serialize _ _ Hd2). simpl. by rewrite Hc.
Qed.

(** Serializers for the witnesses; a response that is not the one below has
    no encoding. *)
Module HandshakeDemo.
Definition answer : AuthResponse :=
  {| success := true; err := ""; rand := 77; res_method := "chacha20poly1305" |}.
#[export] Instance AuthResponse_eq_dec : EqDecision AuthResponse.
Proof. solve_decision. Defined.
#[export] Instance res_bincode : Bincode AuthResponse := {|
  serialize m := if decide (m = answer) then Some [x4d] else None;
  deserialize l := Some answer |}.
#[export] Instance res_bincode_laws : BincodeLaws AuthResponse.
Proof. intros m d E. simpl in *. by case_decide; simplify_eq. Qed.
Definition cfg : CipherConfig := {| cipher_key := "secret"; cipher_method := "chacha20poly1305" |}.
(** The server's answer on the wire. *)
Definition reply : source :=
  match new (C := Toy.toy) "chacha20poly1305" (bytes_of "secret") 0 with
  | Ok c => match encrypt (C := Toy.toy) c (with_flag (new_data_event 0 [x4d] false) FLAG_AUTH) [] with
            | Ok (_, _, f) => [Bytes f]
            | _ => []
            end
  | _ => []
  end.
End HandshakeDemo.

Lemma handshake_agrees_witness :
  exists data1 data2 c,
    new (C := Toy.toy) "chacha20poly1305" (bytes_of "secret") 77 = Ok c /\ sync c c /\ ctx_ok c /\
    (forall ri, (init_client (C := Toy.toy) (A := Io.Concrete.exact_alloc) (H := name_bincode)
                   (H0 := HandshakeDemo.res_bincode) HandshakeDemo.cfg (Ok tt) ri).1 = data1) /\
    (forall s rest, healthy s -> stream s = data1 ++ rest ->
       exists s' buf, handle_rmux (C := Toy.toy) (A := Io.Concrete.exact_alloc) (H := name_bincode)
                   (H0 := HandshakeDemo.res_bincode) HandshakeDemo.cfg 77 (Ok tt) id s =
         (data2, Some (Ok {| rctx := c; wctx := c; inbound := s'; recv_buf := buf |})) /\
         buf ++ stream s' = rest /\ healthy s').
Proof.
  destruct (handshake_agrees (C := Toy.toy) (A := Io.Concrete.exact_alloc) (H := name_bincode)
              (H0 := name_bincode_laws) (H1 := HandshakeDemo.res_bincode)
              (H2 := HandshakeDemo.res_bincode_laws) HandshakeDemo.cfg 77 id
              (bytes_of "chacha20poly1305") [x4d])
    as (data1 & data2 & c & H1 & H2 & H3 & H4 & H5 & _).
  - left. reflexivity.
  - reflexivity.
  - reflexivity.
  - reflexivity.
  - reflexivity.
  - exists data1, data2, c. repeat (split; [assumption|]). exact H5.
Defined.

(** Both directions of a session share one nonce sequence.  After a
    successful handshake a side seals its outgoing bodies with the key and
    the nonces under which its peer seals the incoming ones: the n-th body of
    either direction is sealed with the same key and nonce. *)
Theorem directions_share_nonces {C : Ciphers} {A : BytesAlloc} `{!CipherLaws C}
    `{Bincode AuthRequest} `{Bincode AuthResponse} cfg random sent unreadable ri data side :
  init_client cfg sent ri = (data, Some (Ok side)) \/
  handle_rmux cfg random sent unreadable ri = (data, Some (Ok side)) ->
  sealing_key (wctx side) = opening_key (rctx side).
Proof.
  assert (forall m k n c c', new m k n = Ok c -> new m k n = Ok c' ->
    sealing_key c' = opening_key c) as Hnew.
  { intros m k n c c' E E'. rewrite E in E'. injection E' as <-.
    apply new_sync in E as [(_ & _ & Hk) _]. done. }
  unfold init_client, handle_rmux. intros [E|E]; repeat (case_match; simplify_eq/=; try done);
    by eapply Hnew.
Qed.

Lemma directions_share_nonces_witness :
  exists data side,
    init_client (C := Toy.toy) (A := Io.Concrete.exact_alloc) (H := name_bincode)
      (H0 := HandshakeDemo.res_bincode) HandshakeDemo.cfg (Ok tt)
      HandshakeDemo.reply = (data, Some (Ok side)) /\
    sealing_key (wctx side) = opening_key (rctx side).
Proof.
  match goal with |- exists data side, ?e = _ /\ _ => destruct e as [data [[side|e0|]|]] eqn:E end;
    [|vm_compute in E; discriminate E..].
  exists data, side. split; [reflexivity|].
  apply (directions_share_nonces (C := Toy.toy) (A := Io.Concrete.exact_alloc) (H := name_bincode)
           (H0 := HandshakeDemo.res_bincode) HandshakeDemo.cfg 0 (Ok tt) id HandshakeDemo.reply data side).
  left. exact E.
Defined.
