(* ===== verification/Http.v ===== *)
(** * The HTTP proxy (src/src/tunnel/http.rs)

    [parse_request], which rewrites the header of a proxied request,
    [HttpReader], which hands the rewritten headers and the bodies to the
    relay, and what [handle_http] and [handle_https] derive from the first
    request.  The header parser is the third-party crate [httparse], the class
    [HttpParse] here. *)
From stdpp Require Import prelude strings.
From Stdlib Require Import ZArith Lia.
From Stdlib Require Strings.Ascii Strings.String.
From S2P Require Import Prelude Io Buf Text.

Local Open Scope Z_scope.

(** ** Requests *)

Record Header := { name : string; value : list byte }.

Record HttpRequest := {
  method : option string;
  path : option string;
  version : option Z;
  headers : list Header;
}.

Definition CRLF : list byte := [x0d; x0a].

(** [HttpRequest::to_bytes] *)
Definition to_bytes (r : HttpRequest) : list byte :=
  (match method r with Some v => bytes_of v ++ [x20] | None => [] end) ++
  (match path r with Some v => bytes_of v ++ [x20] | None => [] end) ++
  (match version r with
   | Some v => bytes_of (if decide (v = 0) then "HTTP/1.0" else "HTTP/1.1")
   | None => []
   end) ++ CRLF ++
  mjoin ((fun h => bytes_of (name h) ++ [x3a] ++ value h ++ CRLF) <$> headers r) ++ CRLF.

(** [HttpRequest::remove_header] and [HttpRequest::get_header]; names are
    compared like [unicase::Ascii]s, whatever their case. *)
Definition same_name (h : Header) (n : string) : bool :=
  bool_decide (to_ascii_lowercase (name h) = to_ascii_lowercase n).
Definition remove_header (n : string) (r : HttpRequest) : HttpRequest :=
  {| method := method r; path := path r; version := version r;
     headers := filter (fun h => same_name h n = false) (headers r) |}.
Definition get_header (n : string) (r : HttpRequest) : option string :=
  from_utf8_lossy <$> (value <$> head (filter (fun h => same_name h n = true) (headers r))).

(** A removed header is not found, another one as before. *)
Lemma get_removed n n' r :
  get_header n' (remove_header n r) =
  if decide (to_ascii_lowercase n' = to_ascii_lowercase n) then None else get_header n' r.
Proof.
  unfold get_header, remove_header, same_name. cbn [headers].
  induction (headers r) as [|h hs IH]; [by case_decide|]. rewrite filter_cons.
  destruct (decide (bool_decide (to_ascii_lowercase (name h) = to_ascii_lowercase n) = false)) as [Hh|Hh].
  - apply bool_decide_eq_false in Hh. rewrite !filter_cons.
    destruct (decide (bool_decide (to_ascii_lowercase (name h) = to_ascii_lowercase n') = true)) as [Hd|Hd]; [|exact IH].
    apply bool_decide_eq_true in Hd. rewrite decide_False; [done|congruence].
  - rewrite IH. case_decide as Hn; [done|]. rewrite filter_cons_False; [done|].
    apply not_false_is_true, bool_decide_eq_true in Hh. rewrite bool_decide_eq_true. congruence.
Qed.

(** [httparse::Request::parse] with room for 32 headers; the [n] of a complete
    one counts bytes of the input. *)
Inductive parse_status :=
  | Complete (n : nat) (req : HttpRequest)
  | Partial
  | ParseError.

Class HttpParse := req_parse : list byte -> parse_status.

(** [str::contains], [str::find] of a character, [str::starts_with]. *)
Definition contains (pat s : string) : bool :=
  match String.index 0 pat s with Some _ => true | None => false end.
Definition find_char (c : Ascii.ascii) (s : string) : option nat :=
  String.index 0 (String c EmptyString) s.
Definition starts_with (pat s : string) : bool := String.prefix pat s.
Definition str_from (n : nat) (s : string) : string := str (drop n (bytes_of s)).

(** The state the loop over the parsed headers builds. *)
Record scan := { kept : list Header; body_len : Z; remote_host : string }.

Definition scan_header (s : scan) (h : Header) : scan :=
  let hn := to_ascii_lowercase (name h) in
  let push (s : scan) := {| kept := kept s ++ [h]; body_len := body_len s; remote_host := remote_host s |} in
  if decide (hn = "proxy-authorization"%string) then s
  else if decide (hn = "proxy-connection"%string) then s
  else if decide (hn = "transfer-encoding"%string) then
    push (if contains "chunked" (from_utf8_lossy (value h))
          then {| kept := kept s; body_len := -1; remote_host := remote_host s |} else s)
  else if decide (hn = "content-length"%string) then
    push (match parse_unsigned 64 (from_utf8_lossy (value h)) with
          | Some v => {| kept := kept s; body_len := swrap 64 v; remote_host := remote_host s |}
          | None => s
          end)
  else if decide (hn = "host"%string) then
    push {| kept := kept s; body_len := body_len s; remote_host := from_utf8_lossy (value h) |}
  else push s.

Definition rewrite_path (v : string) : string :=
  if starts_with "http://" v then
    let vv := str_from 7 v in
    match find_char (Ascii.ascii_of_byte x2f) vv with Some n => str_from n vv | None => v end
  else v.

Section Parser.
Context `{HttpParse}.

(** The result ([success], the host, the body length), the receive buffer,
    and what [http_buf] is set to, if it is. *)
Definition parse_request (recv_buf : list byte)
    : io_result (bool * string * Z) * list byte * option (list byte) :=
  match req_parse recv_buf with
  | Partial => (Ok (false, ""%string, 0), recv_buf, None)
  | ParseError => (Err "other error"%string, recv_buf, None)
  | Complete header_len req =>
      let s := foldl scan_header {| kept := []; body_len := 0; remote_host := "" |} (headers req) in
      let hreq := {| method := method req; path := rewrite_path <$> path req;
                     version := version req; headers := kept s |} in
      (Ok (true, remote_host s, body_len s), drop header_len recv_buf, Some (to_bytes hreq))
  end.
End Parser.

(** ** Bodies *)

(** [while tail_pos < recv_buf.len() { push_back; if tail.len() > 5 { pop_front } }] *)
Fixpoint push_tail (tail l : list byte) : list byte :=
  match l with
  | [] => tail
  | b :: l =>
      let tail := tail ++ [b] in
      push_tail (if decide (5 < length tail)%nat then drop 1 tail else tail) l
  end.

(** ["0\r\n\r\n"] *)
Definition LAST_CHUNK : list byte := [x30; x0d; x0a; x0d; x0a].

(** [body_complete], [fill_n], the receive buffer, the destination, the tail
    and the body length. *)
Definition check_body_complete_and_fill_read_buf (recv_buf dst tail : list byte) (body_len : Z)
    : partial (bool * nat * list byte * list byte * list byte * Z) :=
  if decide (body_len < 0) then
    let '(tail, tail_pos) :=
      if decide (5 < length recv_buf)%nat then ([], length recv_buf - 5)%nat else (tail, 0%nat) in
    let tail := push_tail tail (drop tail_pos recv_buf) in
    let body_complete := bool_decide (tail = LAST_CHUNK) in
    '(n, recv_buf, dst) ← fill_read_buf recv_buf dst;
    Ok (body_complete, n, recv_buf, dst, tail, body_len)
  else if decide (0 < body_len) then
    '(n, recv_buf, dst) ← fill_read_buf recv_buf dst;
    let body_len := swrap 64 (body_len - Z.of_nat n) in
    Ok (bool_decide (body_len = 0), n, recv_buf, dst, tail, body_len)
  else Ok (false, 0%nat, recv_buf, dst, tail, body_len).

(** ** The reader

    The field [counter] of the source stays 0 and is only logged; the socket
    it reads is an argument of [poll_read]. *)

Inductive HttpDecodeState := DecodingHeader | DecodingBody.
#[export] Instance HttpDecodeState_eq_dec : EqDecision HttpDecodeState.
Proof. solve_decision. Defined.

Record HttpReader := {
  state : HttpDecodeState;
  recv_buf : list byte;
  http_buf : list byte;
  body_length : Z;
  body_tail : list byte;
}.

Definition newHttpReader : HttpReader :=
  {| state := DecodingHeader; recv_buf := []; http_buf := []; body_length := 0; body_tail := [] |}.

Definition add_recv_content (r : HttpReader) (b : list byte) : HttpReader :=
  {| state := state r; recv_buf := recv_buf r ++ b; http_buf := http_buf r;
     body_length := body_length r; body_tail := body_tail r |}.

Section Reader.
Context `{HttpParse} {A : BytesAlloc}.

(** [HttpReader::parse_request] *)
Definition reader_parse_request (r : HttpReader) : io_result (bool * string * Z) * HttpReader :=
  let '(res, rb, hb) := parse_request (recv_buf r) in
  (res, {| state := state r; recv_buf := rb; http_buf := default (http_buf r) hb;
           body_length := body_length r; body_tail := body_tail r |}).

(** The branch of [poll_read] for a body; [recv] is the receive buffer. *)
Definition read_body (r : HttpReader) (recv buf : list byte)
    : partial (nat * HttpReader * list byte) :=
  '(complete, n, rb, buf, tail, blen) ←
    check_body_complete_and_fill_read_buf recv buf (body_tail r) (body_length r);
  Ok (n, {| state := (if (complete : bool) then DecodingHeader else state r); recv_buf := rb;
            http_buf := http_buf r; body_length := blen; body_tail := tail |}, buf).

(** After [nn] bytes were received behind [recv_buf]. *)
Definition received (r : HttpReader) (recv buf : list byte)
    : partial (io_result nat * HttpReader * list byte) :=
  let set_recv rb := {| state := state r; recv_buf := rb; http_buf := http_buf r;
                        body_length := body_length r; body_tail := body_tail r |} in
  if decide (state r = DecodingHeader) then
    match parse_request recv with
    | (Ok (success, _, blen), rb, hb) =>
        if (success : bool) then
          '(n, hb, buf) ← fill_read_buf (default (http_buf r) hb) buf;
          Ok (Ok n, {| state := (if decide (0 = blen) then DecodingHeader else DecodingBody);
                       recv_buf := rb; http_buf := hb; body_length := blen;
                       body_tail := body_tail r |}, buf)
        else Ok (Ok 0%nat, set_recv rb, buf)
    | (Err e, rb, _) => Ok (Err e, set_recv rb, buf)
    | (Panic, rb, _) => Panic
    end
  else
    '(n, r, buf) ← read_body r recv buf;
    Ok (Ok n, r, buf).

(** [AsyncRead::poll_read] of the reader into [buf].  On an error of the
    socket the receive buffer keeps its unset length; the connection is
    over, and its contents are left as they were here. *)
Definition poll_read (r : HttpReader) (reader : source) (buf : list byte)
    : partial (poll (io_result nat) * HttpReader * source * list byte) :=
  '(n, hb, buf) ← fill_read_buf (http_buf r) buf;
  let r := {| state := state r; recv_buf := recv_buf r; http_buf := hb;
              body_length := body_length r; body_tail := body_tail r |} in
  if decide (0 < n)%nat then Ok (Ready (Ok n), r, reader, buf)
  else
    '(n, r, buf) ← (if decide (state r = DecodingBody) then read_body r (recv_buf r) buf
                    else Ok (0%nat, r, buf));
    if decide (0 < n)%nat then Ok (Ready (Ok n), r, reader, buf)
    else
      let room := (capacity (length (recv_buf r)) (length buf) - length (recv_buf r))%nat in
      match Io.poll_read room reader with
      | (Ready (Ok l), reader) =>
          if decide (length l = 0%nat) then Ok (Ready (Ok 0%nat), r, reader, buf)
          else
            '(res, r, buf) ← received r (recv_buf r ++ l) buf;
            Ok (Ready res, r, reader, buf)
      | (Ready (Err e), reader) => Ok (Ready (Err e), r, reader, buf)
      | (Ready Panic, reader) => Panic
      | (Pending, reader) => Ok (Pending, r, reader, buf)
      end.

(** What [handle_http] does with the first header [head] and the bytes
    [body] read behind it: the target it relays to and the reader it relays
    from. *)
Definition handle_http (head body : list byte) : io_result (string * HttpReader) :=
  let hreader := add_recv_content (add_recv_content newHttpReader head) body in
  match reader_parse_request hreader with
  | (Err _, _) => Err (make_error "failed to parse http header")
  | (Ok (success, remote, _), hreader) =>
      if negb success then Err (make_error "failed to parse http header complete")
      else Ok (if char_in (Ascii.ascii_of_byte x3a) remote then remote else remote +:+ ":80", hreader)
  | (Panic, _) => Panic
  end.

(** [handle_https]: the target, and the answer to the client. *)
Definition handle_https (head : list byte) : io_result (string * list byte) :=
  match parse_request head with
  | (Err _, _, _) => Err (make_error "failed to parse http header")
  | (Ok (success, remote, _), _, _) =>
      if negb success then Err (make_error "failed to parse http header complete")
      else Ok (remote, bytes_of "HTTP/1.0 200 Connection established" ++ CRLF ++ CRLF)
  | (Panic, _, _) => Panic
  end.
End Reader.

(** ** The end of a body, against any segmentation *)














(** ** The rewriting of a request *)

Definition proxy_header (h : Header) : bool :=
  bool_decide (to_ascii_lowercase (name h) = "proxy-authorization"%string) ||
  bool_decide (to_ascii_lowercase (name h) = "proxy-connection"%string).
Definition is_header (n : string) (h : Header) : Prop := to_ascii_lowercase (name h) = n.
#[export] Instance is_header_dec n h : Decision (is_header n h).
Proof. unfold is_header. apply _. Defined.

Lemma scan_kept s hs :
  kept (foldl scan_header s hs) = kept s ++ filter (fun h => proxy_header h = false) hs.
Proof.
  revert s. induction hs as [|h hs IH]; intros s; simpl; [by rewrite app_nil_r|].
  rewrite IH, filter_cons. unfold scan_header.
  destruct (decide (to_ascii_lowercase (name h) = "proxy-authorization"%string)) as [H1|H1].
  { rewrite decide_False; [done|]. unfold proxy_header. by rewrite bool_decide_eq_true_2. }
  destruct (decide (to_ascii_lowercase (name h) = "proxy-connection"%string)) as [H2|H2].
  { rewrite decide_False; [done|]. unfold proxy_header. by rewrite orb_comm, bool_decide_eq_true_2. }
  rewrite (decide_True (P := proxy_header h = false))
    by (unfold proxy_header; by rewrite !bool_decide_eq_false_2).
  by repeat case_match; simpl; rewrite <- app_assoc.
Qed.

Lemma scan_host s hs :
  remote_host (foldl scan_header s hs) =
  from_option (fun h => from_utf8_lossy (value h)) (remote_host s) (last (filter (is_header "host") hs)).
Proof.
  induction hs as [|h hs IH] using rev_ind; [done|]. rewrite foldl_snoc, filter_app, last_app.
  rewrite filter_cons, filter_nil.
  destruct (decide (is_header "host" h)) as [Hh|Hh]; unfold is_header in Hh.
  { unfold scan_header. by rewrite Hh. }
  cbn [last]. rewrite <- IH. unfold scan_header at 1. by repeat (case_match; simpl).
Qed.

(** ** Properties *)



(** What a proxied request becomes.  When the parser recognises a header,
    the request sent on has its method and version, its path made relative,
    and its header fields in order less the two proxy fields and nothing else;
    the target is the last Host field, with port 80 unless it names one; and
    exactly the bytes of the header leave the buffer. *)
Theorem http_request_rewritten `{HttpParse} head body n req :
  req_parse (head ++ body) = Complete n req ->
  let remote := from_option (fun h => from_utf8_lossy (value h)) ""%string
                  (last (filter (is_header "host") (headers req))) in
  exists r, handle_http head body
      = Ok (if char_in (Ascii.ascii_of_byte x3a) remote then remote else remote +:+ ":80", r) /\
    recv_buf r = drop n (head ++ body) /\
    http_buf r = to_bytes {| method := method req; path := rewrite_path <$> path req;
                             version := version req;
                             headers := filter (fun h => proxy_header h = false) (headers req) |}.
Proof.
  intros E remote. unfold handle_http, reader_parse_request, parse_request.
  cbn [recv_buf add_recv_content newHttpReader app]. rewrite E. cbn [negb].
  rewrite scan_kept, scan_host. cbn [kept remote_host app]. fold remote.
  eexists. split; [done|]. by split.
Qed.

(** A parser for the witnesses: it knows one request. *)
Module HttpDemo.
Definition wire : list byte := bytes_of "POST http://a/x HTTP/1.1..".
Definition post : HttpRequest :=
  {| method := Some "POST"%string; path := Some "http://a/x"%string; version := Some 1;
     headers := [{| name := "Host"; value := bytes_of "a" |};
                 {| name := "Proxy-Connection"; value := bytes_of "close" |};
                 {| name := "Content-Length"; value := bytes_of "4" |}] |}.
Definition parser : HttpParse := fun d =>
  if decide (take (length wire) d = wire) then Complete (length wire) post
  else if decide (length d < 20)%nat then Partial else ParseError.
End HttpDemo.

Lemma http_request_rewritten_witness :
  exists r, handle_http (H := HttpDemo.parser) HttpDemo.wire (bytes_of "ab") = Ok ("a:80"%string, r) /\
    recv_buf r = bytes_of "ab" /\
    http_buf r = to_bytes {| method := Some "POST"%string; path := Some "/x"%string; version := Some 1;
                             headers := [{| name := "Host"; value := bytes_of "a" |};
                                         {| name := "Content-Length"; value := bytes_of "4" |}] |}.
Proof.
  destruct (http_request_rewritten (H := HttpDemo.parser) HttpDemo.wire (bytes_of "ab")
              (length HttpDemo.wire) HttpDemo.post) as (r & H1 & H2 & H3).
  - vm_compute. reflexivity.
  - exists r. split; [|split].
    + rewrite H1. vm_compute. reflexivity.
    + rewrite H2. vm_compute. reflexivity.
    + rewrite H3. vm_compute. reflexivity.
Defined.

(** The body of the first request is taken for a header.  [handle_http]
    leaves the reader waiting for a header whatever the length the first
    header announced; once that header is handed out, the bytes of
    the body go to the header parser with the next ones received, and unless
    they are a header the reader reports an error, or an end of stream. *)
Theorem first_body_taken_for_header `{HttpParse} {A : BytesAlloc} `{!BytesAllocLaws A}
    head body target r l reader buf :
  handle_http head body = Ok (target, r) ->
  l <> [] -> (length l <= length buf)%nat -> buf <> [] ->
  let sent := {| state := state r; recv_buf := recv_buf r; http_buf := [];
                 body_length := body_length r; body_tail := body_tail r |} in
  ((length (http_buf r) <= length buf)%nat -> http_buf r <> [] ->
     poll_read r (Bytes l :: reader) buf =
       Ok (Ready (Ok (length (http_buf r))), sent, Bytes l :: reader,
           http_buf r ++ drop (length (http_buf r)) buf)) /\
  (req_parse (recv_buf r ++ l) = ParseError -> exists r' e,
     poll_read sent (Bytes l :: reader) buf = Ok (Ready (Err e), r', reader, buf)) /\
  (req_parse (recv_buf r ++ l) = Partial -> exists r',
     poll_read sent (Bytes l :: reader) buf = Ok (Ready (Ok 0%nat), r', reader, buf)).
Proof.
  intros E Hl Hll Hb sent.
  assert (state r = DecodingHeader) as Hst.
  { unfold handle_http, reader_parse_request, parse_request in E.
    destruct (req_parse _); try done. simpl in E. by destruct (char_in _ _); simplify_eq/=. }
  split_and!.
  - intros Hh Hne. unfold poll_read. rewrite fill_read_buf_eq, decide_True by done. unmonad.
    rewrite decide_True by (destruct (http_buf r); [done|simpl; lia]). done.
  - intros Hp. unfold poll_read, sent. simpl. unmonad. rewrite Hst. simpl.
    set (room := (_ - _)%nat). assert (length buf <= room)%nat as Hroom.
    { unfold room. pose proof (capacity_reserve (length (recv_buf r)) (length buf)). lia. }
    rewrite take_ge by lia. rewrite (decide_True (P := (length l <= room)%nat)) by lia.
    rewrite decide_False by (by destruct l). unfold received. simpl.
    unfold parse_request. rewrite Hp. by do 2 eexists.
  - intros Hp. unfold poll_read, sent. simpl. unmonad. rewrite Hst. simpl.
    set (room := (_ - _)%nat). assert (length buf <= room)%nat as Hroom.
    { unfold room. pose proof (capacity_reserve (length (recv_buf r)) (length buf)). lia. }
    rewrite take_ge by lia. rewrite (decide_True (P := (length l <= room)%nat)) by lia.
    rewrite decide_False by (by destruct l). unfold received. simpl.
    unfold parse_request. rewrite Hp. by eexists.
Qed.

Lemma first_body_taken_for_header_witness :
  exists target r, handle_http (H := HttpDemo.parser) HttpDemo.wire (bytes_of "ab") = Ok (target, r) /\
    exists r', poll_read (H := HttpDemo.parser) (A := Io.Concrete.exact_alloc)
      {| state := state r; recv_buf := recv_buf r; http_buf := []; body_length := body_length r;
         body_tail := body_tail r |} [Bytes (bytes_of "cd")] (replicate 8 x00)
      = Ok (Ready (Ok 0%nat), r', [], replicate 8 x00).
Proof.
  destruct (handle_http (H := HttpDemo.parser) HttpDemo.wire (bytes_of "ab")) as [[t r]|e|] eqn:E;
    [|vm_compute in E; discriminate E..].
  exists t, r. split; [reflexivity|].
  apply (first_body_taken_for_header (H := HttpDemo.parser) (A := Io.Concrete.exact_alloc)
           HttpDemo.wire (bytes_of "ab") t r (bytes_of "cd") [] (replicate 8 x00) E).
  - discriminate.
  - vm_compute. lia.
  - discriminate.
  - vm_compute in E. injection E as _ <-. vm_compute. reflexivity.
Defined.
