(* ===== verification/Conn.v ===== *)
(** * Dialogues on a connection

    A small monad for the code that talks to one peer step by step: exact
    reads, writes, errors.  It is what [read_exact], [write_all] and [?] are to
    the source (tunnel/socks5.rs, tunnel/http.rs, utils/net.rs). *)
From stdpp Require Import prelude strings.
From Stdlib Require Import ZArith Lia.
From S2P Require Import Prelude Io.

(** The bytes to come, the bytes written so far, and what the writes to come
    answer (when the list is over they succeed). *)
Record Conn := { input : source; output : list byte; answers : list (io_result unit) }.

Definition conn (T : Type) : Type := Conn -> io_result T * Conn.
#[export] Instance conn_ret : MRet conn := fun T x c => (Ok x, c).
#[export] Instance conn_bind : MBind conn := fun T U f m c =>
  match m c with
  | (Ok x, c) => f x c
  | (Err e, c) => (Err e, c)
  | (Panic, c) => (Panic, c)
  end.

Definition fail {T} (e : string) : conn T := fun c => (Err (make_error e), c).
Definition lift {T} (r : io_result T) : conn T := fun c => (r, c).
Definition get (n : nat) : conn (list byte) := fun c =>
  let '(r, s) := read_exact n (input c) in
  (r, {| input := s; output := output c; answers := answers c |}).
Definition write_all (l : list byte) : conn unit := fun c =>
  let r := default (Ok tt) (head (answers c)) in
  (r, {| input := input c; output := (match r with Ok _ => output c ++ l | _ => output c end);
         answers := tail (answers c) |}).

(** ** Steps that succeed *)

(** A read of exactly the bytes that come first. *)
Lemma get_ok l n rest c :
  healthy (input c) -> stream (input c) = l ++ rest -> n = length l ->
  exists c', get n c = (Ok l, c') /\ healthy (input c') /\ stream (input c') = rest /\
    output c' = output c /\ answers c' = answers c.
Proof.
  intros Hh E ->. unfold get. pose proof (read_exact_healthy (length l) (input c) Hh) as H.
  rewrite decide_True in H by (rewrite E, length_app; lia). destruct H as (s & -> & Hs & Hh').
  rewrite E in *. rewrite take_app_length, drop_app_length in *. by eexists.
Qed.

Lemma write_ok l c :
  answers c = [] -> write_all l c = (Ok tt, {| input := input c; output := output c ++ l; answers := [] |}).
Proof. intros E. unfold write_all. by rewrite E. Qed.

Lemma bind_ok {T U} (m : conn T) (f : T -> conn U) c x c' :
  m c = (Ok x, c') -> (m ≫= f) c = f x c'.
Proof. intros E. unfold mbind, conn_bind. by rewrite E. Qed.
