(* ===== verification/Socks5.v ===== *)
(** * The SOCKS5 proxy (src/src/tunnel/socks5.rs)

    The dialogue of [handle_socks5] with its client up to the relay, in the
    monad of the file Conn.  Against it, the messages a client sends by
    RFC 1928. *)
From stdpp Require Import prelude strings.
From Stdlib Require Import ZArith Lia.
From S2P Require Import Prelude Io Text Conn.

Local Open Scope Z_scope.

(** ** Addresses *)

Definition VERSION : byte := x05.
Definition METH_NO_AUTH : byte := x00.
Definition CMD_CONNECT : byte := x01.
Definition ATYP_IPV4 : byte := x01.
Definition ATYP_IPV6 : byte := x04.
Definition ATYP_DOMAIN : byte := x03.
Definition SOCKS_RESP_SUUCESS : byte := x00.

(** [Ipv4Addr::to_string] *)
Definition show_ipv4 (a b c d : byte) : string :=
  show (u8v a) +:+ "." +:+ show (u8v b) +:+ "." +:+ show (u8v c) +:+ "." +:+ show (u8v d).

(** [format!("{:x}", n)] of a [u16]. *)
Definition hex_digit (n : Z) : byte :=
  byte_of (if decide (n < 10) then 48 + n else 87 + n).
Fixpoint hex_digits (fuel : nat) (n : Z) : list byte :=
  match fuel with
  | O => []
  | S fuel => (if decide (n < 16) then [] else hex_digits fuel (n / 16)) ++ [hex_digit (n mod 16)]
  end.
Definition show_hex (n : Z) : string := str (hex_digits 4 n).

Definition join (sep : string) (l : list string) : string :=
  match l with
  | [] => ""
  | s :: l => foldl (fun acc x => acc +:+ sep +:+ x) s l
  end.

(** The first longest run of zero segments: position and length. *)
Fixpoint zero_run (l : list Z) : nat :=
  match l with 0 :: l => S (zero_run l) | _ => 0%nat end.
Fixpoint find_zero_slice (pos : nat) (l : list Z) (best : nat * nat) : nat * nat :=
  match l with
  | [] => best
  | _ :: l' =>
      let n := zero_run l in
      find_zero_slice (S pos) l' (if decide (best.2 < n)%nat then (pos, n) else best)
  end.

(** [Ipv6Addr::to_string], of the eight segments. *)
Definition show_ipv6 (s : list Z) : string :=
  let quad g h := show (g / 256) +:+ "." +:+ show (g mod 256) +:+ "." +:+
                  show (h / 256) +:+ "." +:+ show (h mod 256) in
  match s with
  | [0; 0; 0; 0; 0; 0; 0; 0] => "::"
  | [0; 0; 0; 0; 0; 0; 0; 1] => "::1"
  | [0; 0; 0; 0; 0; 0; g; h] => "::" +:+ quad g h
  | [0; 0; 0; 0; 0; 65535; g; h] => "::ffff:" +:+ quad g h
  | _ =>
      let '(at_, n) := find_zero_slice 0 s (0%nat, 0%nat) in
      if decide (1 < n)%nat
      then join ":" (show_hex <$> take at_ s) +:+ "::" +:+ join ":" (show_hex <$> drop (at_ + n) s)
      else join ":" (show_hex <$> s)
  end.

(** [name_port]: the last two bytes are the port. *)
Definition name_port (addr_buf : list byte) : io_result (option string) :=
  if decide (length addr_buf < 2)%nat then Panic   (* the subtraction *)
  else
    let pos := (length addr_buf - 2)%nat in
    hostname ← slice_to pos addr_buf;
    match from_utf8 hostname with
    | None => Ok None
    | Some hostname =>
        hi ← index pos addr_buf;
        lo ← index (pos + 1) addr_buf;
        Ok (Some (hostname +:+ ":" +:+ show (be16 hi lo)))
    end.

(** ** The dialogue *)

Definition port_of (b : list byte) (i : nat) : io_result Z :=
  hi ← index i b; lo ← index (S i) b; Ok (be16 hi lo).

(** The eight segments of 16 bytes. *)
Fixpoint segments (n : nat) (b : list byte) (i : nat) : io_result (list Z) :=
  match n with
  | O => Ok []
  | S n => s ← port_of b i; r ← segments n b (i + 2); Ok (s :: r)
  end.

(** From the address type byte to the target. *)
Definition read_target (atyp : byte) : conn string :=
  if decide (atyp = ATYP_IPV4) then
    b ← get 6;
    lift (a0 ← index 0 b; a1 ← index 1 b; a2 ← index 2 b; a3 ← index 3 b; port ← port_of b 4;
          Ok (show_ipv4 a0 a1 a2 a3 +:+ ":" +:+ show port))
  else if decide (atyp = ATYP_IPV6) then
    b ← get 18;
    lift (s ← segments 8 b 0; port ← port_of b 16; Ok (show_ipv6 s +:+ ":" +:+ show port))
  else if decide (atyp = ATYP_DOMAIN) then
    len_buf ← get 1;
    n ← lift (index 0 len_buf);
    addr_buf ← get (Z.to_nat (u8v n) + 2);
    r ← lift (name_port addr_buf);
    match r with
    | Some addr => mret addr
    | None => fail "can not get addr with domian"
    end
  else fail ("unknown ATYP received: " +:+ show (u8v atyp)).

Definition RESP : list byte := [x05; SOCKS_RESP_SUUCESS; x00; x01] ++ replicate 6 x00.

(** [handle_socks5] up to the log line in front of [relay_connection]: the
    target.  That line unwraps the two addresses of the socket, and so panics
    when the client has reset the connection in the meantime: this is not
    modelled. *)
Definition handle_socks5 : conn string :=
  num_methods_buf ← get 2;
  n ← lift (index 1 num_methods_buf);
  vdata ← get (Z.to_nat (u8v n));
  if decide (METH_NO_AUTH ∉ vdata) then fail "no supported method given"
  else
    _ ← write_all [VERSION; METH_NO_AUTH];
    head ← get 4;
    h0 ← lift (index 0 head);
    if decide (h0 <> VERSION) then fail "didn't confirm with v5 version"
    else
      h1 ← lift (index 1 head);
      if decide (h1 <> CMD_CONNECT) then fail "unsupported command"
      else
        h3 ← lift (index 3 head);
        target_addr ← read_target h3;
        _ ← write_all RESP;
        mret target_addr.

(** ** What a client sends *)

Inductive address :=
  | IPv4 (a b c d : byte)
  | IPv6 (b : list byte)
  | Domain (name : list byte).

Definition port_bytes (p : Z) : list byte := [byte_of (Z.shiftr p 8); byte_of p].

Definition put_address (a : address) (p : Z) : list byte :=
  match a with
  | IPv4 a b c d => [ATYP_IPV4; a; b; c; d]
  | IPv6 b => ATYP_IPV6 :: b
  | Domain name => ATYP_DOMAIN :: byte_of (Z.of_nat (length name)) :: name
  end ++ port_bytes p.

Definition put_greeting (methods : list byte) : list byte :=
  [VERSION; byte_of (Z.of_nat (length methods))] ++ methods.
Definition put_connect (a : address) (p : Z) : list byte :=
  [VERSION; CMD_CONNECT; x00] ++ put_address a p.

(** The target of an address: host and port. *)
Definition target_of (a : address) (p : Z) : string :=
  match a with
  | IPv4 a b c d => show_ipv4 a b c d
  | IPv6 b => match segments 8 b 0 with Ok s => show_ipv6 s | _ => "" end
  | Domain name => from_utf8_lossy name
  end +:+ ":" +:+ show p.

Definition address_ok (a : address) : Prop :=
  match a with
  | IPv4 _ _ _ _ => True
  | IPv6 b => length b = 16%nat
  | Domain name => (length name < 256)%nat /\ from_utf8 name <> None
  end.

(** ** Lemmas *)

Lemma u8_byte n : (n < 256)%nat -> Z.to_nat (u8v (byte_of (Z.of_nat n))) = n.
Proof. intros. rewrite u8v_byte_of, wrap_small by (change (2 ^ 8) with 256; lia). lia. Qed.

Lemma be16_port p : 0 <= p < 65536 -> be16 (byte_of (Z.shiftr p 8)) (byte_of p) = p.
Proof.
  intros Hp. rewrite be16_add, !u8v_byte_of. unfold wrap. rewrite Z.shiftr_div_pow2 by lia.
  change (2 ^ 8) with 256. rewrite (Z.mod_small (p / 256)).
  - pose proof (Z.div_mod p 256). lia.
  - split; [apply Z.div_pos; lia|]. apply Z.div_lt_upper_bound; lia.
Qed.

Lemma segments_ok n b i :
  (i + 2 * n <= length b)%nat -> exists s, segments n b i = Ok s.
Proof.
  revert i. induction n as [|n IH]; intros i Hi; [by eexists|]. cbn [segments].
  unfold port_of. destruct (index_lt (E := string) i b) as (x & -> & _); [lia|].
  destruct (index_lt (E := string) (S i) b) as (y & -> & _); [lia|]. unmonad.
  destruct (IH (i + 2)%nat) as (s & ->); [lia|]. by eexists.
Qed.

Lemma segments_prefix n b i rest s :
  segments n b i = Ok s -> segments n (b ++ rest) i = Ok s.
Proof.
  revert i s. induction n as [|n IH]; intros i s E; [done|]. cbn [segments] in *. unfold port_of, index in *.
  destruct (b !! i) as [x|] eqn:Hx; [|done]. rewrite (lookup_app_l_Some _ _ _ _ Hx). unmonad.
  destruct (b !! S i) as [y|] eqn:Hy; [|done]. rewrite (lookup_app_l_Some _ _ _ _ Hy).
  destruct (segments n b (i + 2)) as [r|e|] eqn:Er; [|done..]. by rewrite (IH _ _ Er).
Qed.

Lemma lookup_suffix (l : list byte) i x y :
  i = length l -> index (E := string) i (l ++ [x; y]) = Ok x /\
  index (E := string) (S i) (l ++ [x; y]) = Ok y /\ port_of (l ++ [x; y]) i = Ok (be16 x y) /\
  slice_to (E := string) i (l ++ [x; y]) = Ok l.
Proof.
  intros ->. assert (index (E := string) (length l) (l ++ [x; y]) = Ok x) as Hx.
  { unfold index. by rewrite lookup_app_r, Nat.sub_diag by lia. }
  assert (index (E := string) (S (length l)) (l ++ [x; y]) = Ok y) as Hy.
  { unfold index. rewrite lookup_app_r by lia. by replace (S (length l) - length l)%nat with 1%nat by lia. }
  split_and!; try done.
  - unfold port_of. by rewrite Hx, Hy.
  - rewrite slice_to_le by (rewrite length_app; lia). by rewrite take_app_length.
Qed.

Lemma name_port_ok name p :
  from_utf8 name <> None -> 0 <= p < 65536 ->
  name_port (name ++ port_bytes p) = Ok (Some (from_utf8_lossy name +:+ ":" +:+ show p)).
Proof.
  intros Hn Hp. unfold name_port, port_bytes.
  rewrite decide_False by (rewrite length_app; simpl; lia).
  assert (length (name ++ [byte_of (Z.shiftr p 8); byte_of p]) - 2 = length name)%nat as ->
    by (rewrite length_app; simpl; lia).
  destruct (lookup_suffix name (length name) (byte_of (Z.shiftr p 8)) (byte_of p) eq_refl)
    as (H1 & H2 & _ & H4). rewrite H4. unmonad.
  destruct (from_utf8 name) as [s|] eqn:E; [|done]. rewrite (lossy_valid _ _ E), H1.
  replace (length name + 1)%nat with (S (length name)) by lia. rewrite H2. by rewrite be16_port.
Qed.

#[local] Arguments segments : simpl never.
Lemma read_target_ok a p rest c :
  address_ok a -> 0 <= p < 65536 -> healthy (input c) ->
  stream (input c) = drop 1 (put_address a p) ++ rest ->
  exists c', read_target (default x00 (head (put_address a p))) c = (Ok (target_of a p), c') /\
    healthy (input c') /\ stream (input c') = rest /\ output c' = output c /\ answers c' = answers c.
Proof.
  intros Ha Hp Hh E. destruct a as [a0 a1 a2 a3|b|name]; simpl in E |- *; unfold read_target; decide_eqs.
  - destruct (get_ok ([a0; a1; a2; a3] ++ port_bytes p) 6 rest c Hh) as (c' & Hg & ?); [done|done|].
    exists c'. split; [|done]. erewrite bind_ok by exact Hg. unfold lift, port_of, port_bytes. simpl. unmonad.
    by rewrite be16_port.
  - destruct (get_ok (b ++ port_bytes p) 18 rest c Hh) as (c' & Hg & ?); [done|by rewrite length_app, Ha|].
    exists c'. split; [|done]. erewrite bind_ok by exact Hg. unfold lift.
    destruct (segments_ok 8 b 0) as (s & Hs); [by rewrite Ha|]. rewrite (segments_prefix _ _ _ _ _ Hs).
    unfold port_bytes in *.
    destruct (lookup_suffix b 16 (byte_of (Z.shiftr p 8)) (byte_of p)) as (_ & _ & -> & _); [by symmetry|].
    unmonad. unfold target_of. rewrite Hs, be16_port; done.
  - destruct Ha as [Hlen Hu]. rewrite <- app_assoc in E.
    destruct (get_ok [byte_of (Z.of_nat (length name))] 1 (name ++ port_bytes p ++ rest) c Hh)
      as (c1 & Hg1 & Hh1 & E1 & Ho1 & Ha1); [done|done|].
    erewrite bind_ok by exact Hg1. rewrite (bind_ok _ _ c1 (byte_of (Z.of_nat (length name))) c1) by done.
    rewrite u8_byte by done.
    destruct (get_ok (name ++ port_bytes p) (length name + 2) rest c1 Hh1) as (c2 & Hg2 & Hh2 & E2 & Ho2 & Ha2);
      [by rewrite <- app_assoc|by rewrite length_app|].
    erewrite bind_ok by exact Hg2. unfold lift at 1.
    erewrite bind_ok by (by rewrite name_port_ok).
    exists c2. by rewrite Ho2, Ha2.
Qed.

(** The dialogue of a client that connects.  For a greeting that offers "no
    authentication" and a CONNECT request to an IPv4, IPv6 or domain address,
    in any chunking, the handler answers with its method choice and success,
    returns the host and port asked for, and leaves what follows for the
    relay. *)
Lemma handle_socks5_ok methods a p rest c :
  METH_NO_AUTH ∈ methods -> (length methods < 256)%nat -> address_ok a -> 0 <= p < 65536 ->
  healthy (input c) -> answers c = [] ->
  stream (input c) = put_greeting methods ++ put_connect a p ++ rest ->
  exists c', handle_socks5 c = (Ok (target_of a p), c') /\
    stream (input c') = rest /\ output c' = output c ++ [x05; x00] ++ RESP.
Proof.
  intros Hm Hlen Ha Hp Hh Hans E. unfold put_greeting in E. rewrite <- !app_assoc in E.
  destruct (get_ok [VERSION; byte_of (Z.of_nat (length methods))] 2 _ c Hh E eq_refl)
    as (c1 & H1 & Hh1 & E1 & Ho1 & Ha1). unfold handle_socks5.
  erewrite bind_ok by exact H1. rewrite (bind_ok _ _ c1 (byte_of (Z.of_nat (length methods))) c1) by done.
  rewrite u8_byte by done. destruct (get_ok methods _ _ c1 Hh1 E1 eq_refl) as (c2 & H2 & Hh2 & E2 & Ho2 & Ha2).
  erewrite bind_ok by exact H2. rewrite decide_False by tauto.
  erewrite bind_ok by (apply write_ok; congruence).
  set (c3 := {| input := input c2 |}).
  assert (exists ty addr, put_address a p = ty :: addr) as (ty & addr & Had)
    by (destruct a; by do 2 eexists).
  unfold put_connect in E2. rewrite Had in E2.
  destruct (get_ok [VERSION; CMD_CONNECT; x00; ty] 4 (addr ++ rest) c3 Hh2) as (c4 & H4 & Hh4 & E4 & Ho4 & Ha4);
    [exact E2|done|].
  erewrite bind_ok by exact H4. rewrite (bind_ok _ _ c4 VERSION c4) by done. rewrite decide_False by tauto.
  rewrite (bind_ok _ _ c4 CMD_CONNECT c4) by done. rewrite decide_False by tauto.
  rewrite (bind_ok _ _ c4 ty c4) by done.
  destruct (read_target_ok a p rest c4 Ha Hp Hh4) as (c5 & H5 & Hh5 & E5 & Ho5 & Ha5); [by rewrite Had|].
  rewrite Had in H5. cbn [head default from_option id] in H5. erewrite bind_ok by exact H5.
  erewrite bind_ok by (apply write_ok; rewrite Ha5, Ha4; done).
  eexists. split; [done|]. simpl. split; [done|]. rewrite Ho5, Ho4. simpl. rewrite Ho2, Ho1.
  by rewrite <- app_assoc.
Qed.
