(* ===== verification/Relay.v ===== *)
(** * Channels and relaying (src/src/tunnel/relay.rs, src/src/channel/,
      src/src/config/mod.rs)

    The choice of a channel by the proxy rules ([relay_stream]), the opening
    of a stream on it ([get_channel_stream]), the two copies that [relay]
    joins, and the tick of [routine_channels] that keeps the configured
    number of sessions per channel alive.  Regular expressions and the TCP
    connect of the direct channel are parameters. *)
From stdpp Require Import prelude gmap strings.
From Stdlib Require Import ZArith Lia.
From S2P Require Import Handshake Prelude Io Event Stream Session.

(** ** Proxy rules *)

(** [Regex::new]: a pattern to its matcher, or an error. *)
Class RegexNew := regex_new : string -> option (string -> bool).

Record PACConfig := { pac_host : string; pac_channel : string; re : option (string -> bool) }.

(** [PACConfig::init]: an invalid pattern is unwrapped. *)
Definition init `{RegexNew} (p : PACConfig) : partial PACConfig :=
  match re p with
  | None =>
      match regex_new (pac_host p) with
      | Some r => Ok {| pac_host := pac_host p; pac_channel := pac_channel p; re := Some r |}
      | None => Panic
      end
  | Some _ => Ok p
  end.

Definition is_match (p : PACConfig) (addr : string) : partial bool :=
  match re p with Some r => Ok (r addr) | None => Panic end.

(** The loop of [relay_stream] over the rules; [channel] is what the loop has
    chosen so far. *)
Fixpoint select_channel (m : ChannelSessionManager) (target : string) (pac : list PACConfig)
    (channel : string) : partial string :=
  match pac with
  | [] => Ok channel
  | p :: pac =>
      hit ← is_match p target;
      if hit : bool then
        let channel := pac_channel p in
        if bool_decide (channel <> "direct"%string)
           && bool_decide (get_channel_session_size channel m = 0)
        then select_channel m target pac channel
        else Ok channel
      else select_channel m target pac channel
  end.

(** ** Opening a stream *)

Inductive ChannelStream :=
  | DirectChannelStream (addr : string)
  | MuxChannelStream (s : MuxStream).

Section Open.
Context `{Bincode ConnectRequest}.
(** [TcpStream::connect] under its timeout of three seconds. *)
Context (connect : string -> io_result unit).

Definition get_direct_stream (addr : string) : io_result ChannelStream :=
  match connect addr with
  | Ok _ => Ok (DirectChannelStream addr)
  | Err e => Err e
  | Panic => Panic
  end.

Definition get_rmux_stream (channel addr : string) (now : Z) (w : World)
    : partial (io_result ChannelStream * World * list effect) :=
  '(r, w, effs) ← create_stream channel "tcp" addr now w;
  Ok (match r with Ok s => Ok (MuxChannelStream s) | Err e => Err e | Panic => Panic end, w, effs).

Definition get_channel_stream (channel addr : string) (now : Z) (w : World)
    : partial (io_result ChannelStream * World * list effect) :=
  if decide (channel = "direct"%string) then Ok (get_direct_stream addr, w, [])
  else get_rmux_stream channel addr now w.

(** [relay_stream] up to the relay: the remote stream. *)
Definition open_remote (pac : list PACConfig) (target : string) (now : Z) (w : World)
    : partial (io_result ChannelStream * World * list effect) :=
  channel ← select_channel (manager w) target pac "";
  if decide (channel = ""%string) then Ok (Err (make_error "no valid channel found."), w, [])
  else get_channel_stream channel target now w.
End Open.

(** ** The two copies of [relay] *)

(** One direction: the copy, and what it returned when it is over; the
    writer is then shut down. *)
Record Direction := { copy : BufCopy; outcome : option (io_result Z) }.

Definition RELAY_BUF : list byte := replicate (Z.to_nat 8192) x00.
Definition direction (r : source) (w : sink) : Direction :=
  {| copy := buf_copy r w RELAY_BUF; outcome := None |}.

Definition shut_down (d : Direction) : bool := bool_decide (is_Some (outcome d)).

(** A poll of the [async] block of a direction: errors of the copy are
    dropped, and the shutdown of the writer follows at once. *)
Definition poll_direction (d : Direction) : option Direction :=
  match outcome d with
  | Some _ => Some d
  | None =>
      '(c, r) ← copy_poll (copy d);
      Some {| copy := c; outcome := match r with Ready r => Some r | Pending => None end |}
  end.

(** A poll of [join(client_to_server, server_to_client)]. *)
Definition poll_relay (d : Direction * Direction) : option (Direction * Direction * bool) :=
  a ← poll_direction d.1; b ← poll_direction d.2;
  Some (a, b, shut_down a && shut_down b).

(** Polled [n] times, or until it is done. *)
Fixpoint relay (n : nat) (d : Direction * Direction) : option (Direction * Direction * bool) :=
  '(a, b, over) ← poll_relay d;
  match n, over with
  | S n, false => relay n (a, b)
  | _, _ => Some (a, b, over)
  end.

(** [write_all] of the buffered bytes in front of the relay: [None] is an
    error of the writer; a writer that is not ready is polled again. *)
Fixpoint write_all (fuel : nat) (l : list byte) (w : sink) : option (io_result unit * sink) :=
  match fuel with
  | O => None
  | S fuel =>
      if decide (l = []) then Some (Ok tt, w)
      else
        match Io.poll_write l w with
        | (Ready (Ok n), w) =>
            if decide (n = 0) then Some (Err "write zero"%string, w)
            else write_all fuel (drop n l) w
        | (Ready (Err e), w) => Some (Err e, w)
        | (Ready Panic, w) => Some (Panic, w)
        | (Pending, w) => write_all fuel l w
        end
  end.

(** [relay_stream] once the remote stream is open. *)
Definition relay_stream (fuel n : nat) (relay_buf : list byte) (local_reader : source)
    (local_writer : sink) (remote_reader : source) (remote_writer : sink)
    : option (io_result (Direction * Direction * bool)) :=
  '(r, wo) ← (if decide (relay_buf = []) then Some (Ok tt, remote_writer)
              else write_all fuel relay_buf remote_writer);
  match r with
  | Ok _ => Ok <$> relay n (direction local_reader wo, direction remote_reader local_writer)
  | Err e => Some (Err e)
  | Panic => Some Panic
  end.

(** ** Keeping the channels up ([routine_channels]) *)

Record ChannelConfig := {
  ch_name : string;
  url : string;
  cipher : CipherConfig;
  ping_interval_sec : Z;
  conns_per_host : Z;
  max_alive_mins : Z;
  proxy : option string;
  work_time_frame : option (Z * Z);
  sni : option string;
  sni_proxy : option string;
}.

Definition is_valid_hour (c : ChannelConfig) (h : Z) : bool :=
  match work_time_frame c with
  | Some (from, to) => bool_decide (from <= h)%Z && bool_decide (h < to)%Z
  | None => true
  end.

(** The clients a tick starts, each with its session id from the seed. *)
Fixpoint start_clients (c : ChannelConfig) (n : nat) (seed : Z) : list (ChannelConfig * Z) * Z :=
  match n with
  | O => ([], seed)
  | S n =>
      let '(l, s) := start_clients c n (wrap 32 (seed + 1)) in
      ((c, seed) :: l, s)
  end.

Fixpoint tick_channels (m : ChannelSessionManager) (hour : Z) (cfgs : list ChannelConfig) (seed : Z)
    : list (ChannelConfig * Z) * Z :=
  match cfgs with
  | [] => ([], seed)
  | c :: cfgs =>
      if negb (is_valid_hour c hour) then tick_channels m hour cfgs seed
      else
        let count := get_channel_session_size (ch_name c) m in
        let '(l, seed) :=
          if decide (count < Z.to_nat (conns_per_host c))
          then start_clients c (Z.to_nat (conns_per_host c) - count) seed
          else ([], seed) in
        let '(l', seed) := tick_channels m hour cfgs seed in
        (l ++ l', seed)
  end.

(** The ping part of a tick: whether [routine_all_sessions] runs, and the new
    [ping_time]; [rand_inc] is drawn from -10 .. 9, the difference of the
    unsigned seconds wraps. *)
Definition tick_ping (now ping_time rand_inc : Z) : bool * Z :=
  if decide (wrap 64 (30 + rand_inc) < wrap 64 (now - ping_time))%Z then (true, now)
  else (false, ping_time).

(** ** Lemmas on the rules *)

Definition hit (target : string) (p : PACConfig) : Prop :=
  match re p with Some r => r target = true | None => False end.
Definition usable (m : ChannelSessionManager) (p : PACConfig) : Prop :=
  pac_channel p = "direct"%string \/ get_channel_session_size (pac_channel p) m <> 0.
#[export] Instance hit_dec target p : Decision (hit target p).
Proof. unfold hit. destruct (re p); apply _. Defined.
#[export] Instance usable_dec m p : Decision (usable m p).
Proof. unfold usable. apply _. Defined.

(** The rules a target matches, and the first of them on a usable channel. *)
Definition matching (target : string) (pac : list PACConfig) : list PACConfig :=
  filter (hit target) pac.
Definition first_usable (m : ChannelSessionManager) (target : string) (pac : list PACConfig)
    : option PACConfig :=
  head (filter (usable m) (matching target pac)).
Definition ready_rules (pac : list PACConfig) : Prop := Forall (fun p => is_Some (re p)) pac.

Lemma select_channel_spec m target pac prev :
  ready_rules pac ->
  select_channel m target pac prev =
    Ok (match first_usable m target pac with
        | Some p => pac_channel p
        | None => from_option pac_channel prev (last (matching target pac))
        end).
Proof.
  unfold first_usable, matching. intros Hr. revert prev.
  induction Hr as [|p pac [r Hp] Hr IH]; intros prev; [done|].
  cbn [select_channel]. unfold is_match. rewrite Hp. unmonad.
  destruct (r target) eqn:Hit.
  - rewrite filter_cons_True by (unfold hit; by rewrite Hp).
    destruct (decide (usable m p)) as [Hu|Hu].
    + rewrite filter_cons_True by done. cbn [head].
      assert (bool_decide (pac_channel p <> "direct"%string)
              && bool_decide (get_channel_session_size (pac_channel p) m = 0) = false) as ->; [|done].
      apply andb_false_iff. rewrite !bool_decide_eq_false. unfold usable in Hu. tauto.
    + rewrite filter_cons_False by done.
      rewrite !bool_decide_eq_true_2 by (unfold usable in Hu; tauto || lia). cbn [andb].
      rewrite IH. f_equal. destruct (head _); [done|]. rewrite last_cons.
      by destruct (last _).
  - rewrite filter_cons_False by (unfold hit; by rewrite Hp, Hit). by apply IH.
Qed.

Lemma pick_session_dead n (l : list (option MuxSession)) cur :
  (forall i s, l !! i <> Some (Some s)) -> exists cur', pick_session n l cur = (None, cur').
Proof.
  intros Hl. revert cur. induction n as [|n IH]; intros cur; [by eexists|]. cbn [pick_session].
  destruct (l !! _) as [[s|]|] eqn:E; [by apply Hl in E|apply IH..].
Qed.

Lemma size_zero_dead channel m cs :
  channels m !! channel = Some cs -> get_channel_session_size channel m = 0 ->
  forall i s, sessions cs !! i <> Some (Some s).
Proof.
  intros Hcs H0 i s Hi. rewrite (size_of _ _ _ Hcs) in H0.
  apply length_zero_iff_nil in H0.
  apply list_elem_of_lookup_2 in Hi.
  assert (Some s ∈ filter is_Some (sessions cs)) as Hin by (apply list_elem_of_filter; by split; [eexists|]).
  rewrite H0 in Hin. by apply elem_of_nil in Hin.
Qed.

(** The slots of every channel, without the cursors. *)
Definition all_sessions (m : ChannelSessionManager) : gmap string (list (option MuxSession)) :=
  sessions <$> channels m.

Lemma create_stream_dead `{Bincode ConnectRequest} channel proto addr now w :
  get_channel_session_size channel (manager w) = 0 ->
  exists w', create_stream channel proto addr now w = Ok (Err "no channel found."%string, w', []) /\
    all_sessions (manager w') = all_sessions (manager w) /\
    retired (manager w') = retired (manager w) /\ sstates w' = sstates w /\ cells w' = cells w.
Proof.
  intros H0. unfold create_stream. destruct (channels (manager w) !! channel) as [cs|] eqn:Hcs; [|by eexists].
  pose proof (size_zero_dead _ _ _ Hcs H0) as Hdead.
  destruct (pick_session_dead (length (sessions cs)) (sessions cs) (cursor cs) Hdead) as (cur & ->).
  eexists. split; [done|]. split_and!; try done. unfold all_sessions. simpl.
  rewrite fmap_insert. simpl. apply insert_id. by rewrite lookup_fmap, Hcs.
Qed.

(** ** Lemmas on the copies *)

(** What a sink that goes on accepting answers: never an error, never zero
    bytes; [Full] a finite number of times. *)
Definition accepting (a : acceptance) : Prop :=
  match a with Accept n => 0 < n | WriteErr _ => False | Full => True end.
Definition open_sink (w : sink) : Prop :=
  Forall accepting (writes w) /\ Forall accepting (flushes w).
#[export] Instance accepting_dec a : Decision (accepting a).
Proof. destruct a; simpl; apply _. Defined.
#[export] Instance open_sink_dec w : Decision (open_sink w).
Proof. unfold open_sink. apply _. Defined.

#[local] Instance arrival_eq_dec (a : arrival) : Decision (a = NotReady).
Proof. destruct a; [right|right|left]; done. Defined.
#[local] Instance acceptance_eq_dec (a : acceptance) : Decision (a = Full).
Proof. destruct a; [right|right|left]; done. Defined.

(** The polls that can still find an end not ready. *)
Definition not_ready (s : source) : nat := length (filter (.= NotReady) s).
Definition full (l : list acceptance) : nat := length (filter (.= Full) l).
Definition stalls (c : BufCopy) : nat :=
  not_ready (reader c) + full (writes (writer c)) + full (flushes (writer c)).


(** A step of the copy: it keeps the sink open, and uses up a not-ready
    answer exactly when it is the one that suspends. *)
Definition tame (c c' : BufCopy) (o : option copy_result) : Prop :=
  open_sink (writer c') /\ stalls c' <= stalls c /\
  (o = Some Pending -> stalls c' < stalls c) /\ (forall e, o <> Some (Ready (Err e))) /\
  o <> Some (Ready Panic).

Lemma tame_trans c1 c2 c3 o : tame c1 c2 None -> tame c2 c3 o -> tame c1 c3 o.
Proof. unfold tame. intros (? & ? & _) (? & ? & Hp & ? & ?). split_and!; try done; [lia|]. intros E; specialize (Hp E). lia. Qed.

Lemma poll_read_tame n s r s' :
  0 < n -> healthy s -> Io.poll_read n s = (r, s') ->
  not_ready s' <= not_ready s /\ (r = Pending -> not_ready s' < not_ready s).
Proof.
  intros Hn Hs E. destruct s as [|[l|e|] s]; simpl in E; simplify_eq; unfold not_ready.
  - done.
  - rewrite (filter_cons_False _ (Bytes l)) by done. case_decide; [done|].
    by rewrite filter_cons_False by done.
  - by apply healthy_cons in Hs as [[] _].
  - rewrite filter_cons_True by done. simpl. split; [lia|]. intros _. unfold not_ready. lia.
Qed.

Lemma poll_write_tame l w r w' :
  l <> [] -> open_sink w -> Io.poll_write l w = (r, w') ->
  open_sink w' /\ flushes w' = flushes w /\ full (writes w') <= full (writes w) /\
  (r = Pending -> full (writes w') < full (writes w)) /\
  (forall e, r <> Ready (Err e)) /\ r <> Ready (Ok 0).
Proof.
  intros Hl [Ha Hf] E. unfold Io.poll_write in E. unfold full, open_sink.
  destruct (writes w) as [|[n|e|] ws]; simplify_eq; simpl; try (apply Forall_cons in Ha as [Hn Ha]; simpl in Hn).
  - destruct l; [done|]. by split_and!.
  - rewrite filter_cons_False by done. destruct n, l; try done; try lia.
  - done.
  - split_and!; try done; simpl; lia.
Qed.

Lemma poll_flush_tame w r w' :
  open_sink w -> Io.poll_flush w = (r, w') ->
  open_sink w' /\ writes w' = writes w /\ full (flushes w') <= full (flushes w) /\
  (r = Pending -> full (flushes w') < full (flushes w)) /\ (forall e, r <> Ready (Err e)).
Proof.
  intros [Ha Hf] E. unfold Io.poll_flush in E. unfold full, open_sink in *.
  destruct (flushes w) as [|[n|e|] fs] eqn:W; simplify_eq; simpl; try (apply Forall_cons in Hf as [Hn Hf]; simpl in Hn).
  - rewrite W. by split_and!.
  - rewrite filter_cons_False by done. by split_and!.
  - done.
  - split_and!; try done; simpl; lia.
Qed.

Lemma read_in_tame base total c c' o :
  copy_inv base total c -> open_sink (writer c) -> read_in c = (c', o) -> tame c c' o.
Proof.
  intros ((_ & _) & Hh & Hb) Ho E. unfold read_in in E. unfold tame, stalls.
  case_decide; [|by simplify_eq; split_and!]. destruct (read_done c); [by simplify_eq; split_and!|].
  destruct (Io.poll_read _ _) as [r s] eqn:R.
  pose proof (poll_read_tame _ _ _ _ Hb Hh R) as [H1 H2].
  apply poll_read_healthy in R as [(-> & _)|(l & -> & _)]; [| |done..].
  - specialize (H2 eq_refl). simplify_eq. simpl. split_and!; try done; lia.
  - case_decide; simplify_eq; simpl; split_and!; try done; lia.
Qed.

Lemma write_out_tame fuel c c' o :
  pos c <= cap c <= length (Io.buf c) -> open_sink (writer c) ->
  write_out fuel c = Some (c', o) -> tame c c' o.
Proof.
  revert c. induction fuel as [|fuel IH]; intros c Hp Ho E; [done|]. simpl in E.
  case_decide as Hpc; [|simplify_eq; unfold tame; by split_and!].
  destruct (Io.poll_write (pending c) (writer c)) as [r w] eqn:W.
  assert (pending c <> []) as Hne.
  { intros E0%(f_equal length). rewrite length_pending in E0 by done. simpl in E0. lia. }
  pose proof (poll_write_spec _ _ _ _ W) as (i & Hi & _ & Hok & _).
  rewrite length_pending in Hi by done.
  destruct (poll_write_tame _ _ _ _ Hne Ho W) as (Hw & Hfl & Hle & Hlt & Herr & Hz).
  destruct r as [[n|e|]|].
  - rewrite (Hok n eq_refl) in *. case_decide as Hi0; [by subst i|].
    eapply tame_trans; [|apply IH in E; [exact E|simpl; lia|done]].
    unfold tame, stalls. simpl. rewrite Hfl. split_and!; try done; lia.
  - by destruct (Herr e).
  - by apply poll_write_spec in W as (? & _ & _ & _ & _ & _ & Hn).
  - specialize (Hlt eq_refl). simplify_eq. unfold tame, stalls. simpl. rewrite Hfl.
    split_and!; try done; lia.
Qed.

Lemma finish_tame c c' o : open_sink (writer c) -> finish c = (c', o) -> tame c c' o.
Proof.
  intros Ho E. unfold finish in E. unfold tame, stalls.
  case_decide; [|by simplify_eq; split_and!]. destruct (read_done c); [|by simplify_eq; split_and!].
  destruct (Io.poll_flush (writer c)) as [r w] eqn:F.
  destruct (poll_flush_tame _ _ _ Ho F) as (Hw & Hwr & Hle & Hlt & Herr).
  apply poll_flush_written in F as [_ Hnp].
  destruct r as [[[]|e|]|]; simplify_eq; simpl; rewrite Hwr; try (by destruct (Herr e));
    split_and!; try done; try lia. intros _. specialize (Hlt eq_refl). lia.
Qed.

(** A poll with open ends either completes or uses up a not-ready answer. *)
Lemma copy_loop_tame base total fuel c c' r :
  copy_inv base total c -> open_sink (writer c) -> copy_loop fuel c = Some (c', r) -> tame c c' (Some r).
Proof.
  revert c. induction fuel as [|fuel IH]; intros c I Ho E; [done|]. cbn [copy_loop] in E.
  destruct (read_in c) as [c1 o1] eqn:R.
  pose proof (read_in_tame _ _ _ _ _ I Ho R) as T1.
  apply (read_in_inv _ _ _ _ _ I) in R as (I1 & _).
  destruct o1 as [r1|]; [by simplify_eq|]. pose proof T1 as [Ho1 _].
  destruct (write_out_inv base total (S (cap c1 - pos c1)) c1 I1) as (c2 & o2 & W & I2 & _); [lia|].
  rewrite W in E. apply write_out_tame in W as T2; [|apply I1|done].
  destruct o2 as [r2|]; [simplify_eq; by eapply tame_trans|]. pose proof T2 as [Ho2 _].
  destruct (finish c2) as [c3 o3] eqn:F. pose proof (finish_tame _ _ _ Ho2 F) as T3.
  apply (finish_inv _ _ _ _ _ I2) in F as (I3 & _).
  destruct o3 as [r3|]; [simplify_eq; by do 2 (eapply tame_trans; [done|])|].
  pose proof T3 as [Ho3 _]. apply IH in E; [|done..]. by do 3 (eapply tame_trans; [done|]).
Qed.

(** *** A direction *)

Definition dir_inv (base : Z) (total : list byte) (d : Direction) : Prop :=
  copy_inv base total (copy d) /\
  (forall a, outcome d = Some (Ok a) ->
     written (writer (copy d)) = total /\ a = wrap 64 (Z.of_nat (length total) - base)).

Definition dir_open (d : Direction) : Prop :=
  open_sink (writer (copy d)) /\ (forall r, outcome d = Some r -> exists a, r = Ok a).

Definition dir_stalls (d : Direction) : nat :=
  match outcome d with Some _ => 0 | None => S (stalls (copy d)) end.

Lemma no_stalls_over d : dir_stalls d = 0 -> shut_down d = true.
Proof. unfold dir_stalls, shut_down. by destruct (outcome d). Qed.

Lemma poll_direction_inv base total d :
  dir_inv base total d ->
  exists d', poll_direction d = Some d' /\ dir_inv base total d' /\
    (outcome d <> None -> d' = d) /\
    (dir_open d -> dir_open d' /\ dir_stalls d' <= dir_stalls d - 1).
Proof.
  intros [I Hd]. unfold poll_direction. destruct (outcome d) as [o|] eqn:Eo.
  { exists d. split; [done|]. rewrite <- Eo in Hd. split; [by split|]. split; [done|].
    intros Ho. split; [done|]. unfold dir_stalls. rewrite Eo. lia. }
  destruct (copy_poll_total base total _ I) as (c & r & E & I' & Hr). rewrite E. simpl.
  eexists. split; [done|]. split_and!; [|done|].
  - split; [done|]. simpl. intros a. destruct r; [|done]. intros [= ->]. by apply Hr.
  - intros [Ho _]. apply (copy_loop_tame base total) in E as (Ho' & Hle & Hlt & Herr & Hp); [|done..].
    unfold dir_open, dir_stalls. simpl. rewrite Eo. destruct r as [[a|e|]|]; try done.
    + split; [|lia]. split; [done|]. intros r [= <-]. by eexists.
    + by destruct (Herr e).
    + specialize (Hlt eq_refl). split; [|lia]. by split.
Qed.

Lemma direction_inv r w :
  healthy r ->
  dir_inv (Z.of_nat (length (written w))) (written w ++ stream r) (direction r w).
Proof. intros Hr. split; [|done]. by apply buf_copy_inv. Qed.

Lemma relay_inv n b1 t1 b2 t2 d1 d2 :
  dir_inv b1 t1 d1 -> dir_inv b2 t2 d2 ->
  exists d1' d2' over, relay n (d1, d2) = Some (d1', d2', over) /\
    dir_inv b1 t1 d1' /\ dir_inv b2 t2 d2' /\ over = shut_down d1' && shut_down d2' /\
    (dir_open d1 -> dir_open d2 -> dir_stalls d1 <= S n -> dir_stalls d2 <= S n ->
     dir_open d1' /\ dir_open d2' /\ over = true).
Proof.
  revert d1 d2. induction n as [|n IH]; intros d1 d2 I1 I2; cbn [relay]; unfold poll_relay; cbn [fst snd];
    destruct (poll_direction_inv _ _ _ I1) as (d1' & -> & I1' & _ & H1);
    destruct (poll_direction_inv _ _ _ I2) as (d2' & -> & I2' & _ & H2); cbn [mbind option_bind].
  - exists d1', d2', (shut_down d1' && shut_down d2'). split_and!; try done.
    intros Ho1 Ho2 Hs1 Hs2. destruct (H1 Ho1) as [Ho1' S1], (H2 Ho2) as [Ho2' S2].
    split_and!; try done. by rewrite !no_stalls_over by lia.
  - destruct (shut_down d1' && shut_down d2') eqn:Eo.
    + exists d1', d2', true. split_and!; try done. intros Ho1 Ho2 _ _.
      by destruct (H1 Ho1), (H2 Ho2).
    + destruct (IH d1' d2' I1' I2') as (e1 & e2 & o & E & J1 & J2 & Ho & Hlive).
      exists e1, e2, o. split_and!; try done. intros Ho1 Ho2 Hs1 Hs2.
      destruct (H1 Ho1) as [? ?], (H2 Ho2) as [? ?]. apply Hlive; try done; lia.
Qed.

Lemma write_all_ok fuel l w :
  open_sink w -> length l + full (writes w) < fuel ->
  exists w', write_all fuel l w = Some (Ok tt, w') /\ written w' = written w ++ l /\
    open_sink w' /\ full (writes w') <= full (writes w) /\ flushes w' = flushes w.
Proof.
  revert l w. induction fuel as [|fuel IH]; intros l w Ho Hf; [lia|]. cbn [write_all].
  case_decide as Hl; [exists w; subst l; rewrite app_nil_r; by split_and!|].
  destruct (Io.poll_write l w) as [r w1] eqn:W.
  pose proof (poll_write_spec _ _ _ _ W) as (i & Hi & Hw & Hok & Hpe & _ & Hnp).
  destruct (poll_write_tame _ _ _ _ Hl Ho W) as (Ho1 & Hfl & Hle & Hlt & Herr & Hz).
  destruct r as [[k|e|]|]; [|by destruct (Herr e)|done|].
  - rewrite (Hok k eq_refl) in *. case_decide; [by subst i|].
    destruct (IH (drop i l) w1 Ho1) as (w' & E & Hw' & Ho' & Hle' & Hfl'); [rewrite length_drop; lia|].
    exists w'. rewrite Hw', Hw, <- app_assoc, take_drop, Hfl'. split_and!; try done. lia.
  - specialize (Hlt eq_refl). rewrite (Hpe eq_refl), take_0, app_nil_r in Hw.
    destruct (IH l w1 Ho1) as (w' & E & Hw' & Ho' & Hle' & Hfl'); [lia|].
    exists w'. rewrite Hw', Hw, Hfl'. split_and!; try done. lia.
Qed.

(** Between healthy ends the relay ends and has carried everything. *)
Lemma relay_all n lr lw rr rw :
  healthy lr -> healthy rr -> open_sink lw -> open_sink rw ->
  not_ready lr + full (writes rw) + full (flushes rw) <= n ->
  not_ready rr + full (writes lw) + full (flushes lw) <= n ->
  exists up down, relay n (direction lr rw, direction rr lw) = Some (up, down, true) /\
    written (writer (copy up)) = written rw ++ stream lr /\
    written (writer (copy down)) = written lw ++ stream rr /\
    outcome up = Some (Ok (wrap 64 (Z.of_nat (length (stream lr))))) /\
    outcome down = Some (Ok (wrap 64 (Z.of_nat (length (stream rr))))).
Proof.
  intros Hlr Hrr Hlw Hrw Hn1 Hn2.
  destruct (relay_inv n _ _ _ _ _ _ (direction_inv lr rw Hlr) (direction_inv rr lw Hrr))
    as (up & down & over & -> & [Iu Hu] & [Id Hd] & Hover & Hlive).
  destruct Hlive as ([_ Ou] & [_ Od] & ->);
    [done|done|unfold dir_stalls, stalls; simpl; lia..|].
  exists up, down. split; [done|]. symmetry in Hover. apply andb_true_iff in Hover as [Su Sd].
  unfold shut_down in Su, Sd. apply bool_decide_eq_true in Su as [ru Eu], Sd as [rd Ed].
  destruct (Ou _ Eu) as [au ->], (Od _ Ed) as [ad ->].
  destruct (Hu _ Eu) as [-> ->], (Hd _ Ed) as [-> ->].
  rewrite Eu, Ed. split_and!; try done; do 3 f_equal; len.
Qed.

(** What a direction from [s] to [w] owes at any time: what it wrote, holds
    and has still to read is the source, in order, and when it ended without
    error all of it is written. *)
Definition carried (s : source) (w : sink) (d : Direction) : Prop :=
  written (writer (copy d)) ++ pending (copy d) ++ stream (reader (copy d))
    = written w ++ stream s /\
  forall a, outcome d = Some (Ok a) ->
    written (writer (copy d)) = written w ++ stream s /\
    a = wrap 64 (Z.of_nat (length (stream s))).

Lemma dir_carried s w d :
  dir_inv (Z.of_nat (length (written w))) (written w ++ stream s) d -> carried s w d.
Proof.
  intros [I Hd]. split; [apply I|]. intros a Ha. destruct (Hd a Ha) as [? ->].
  split; [done|]. f_equal. len.
Qed.

(** *** A tick *)

#[export] Instance cipher_config_eq_dec : EqDecision CipherConfig.
Proof. solve_decision. Defined.
#[export] Instance channel_config_eq_dec : EqDecision ChannelConfig.
Proof. solve_decision. Defined.

(** Session ids counted from a seed. *)
Definition ids_from (seed : Z) (n : nat) : list Z :=
  (fun i => wrap 32 (seed + Z.of_nat i)) <$> seq 0 n.

Lemma length_ids_from seed n : length (ids_from seed n) = n.
Proof. unfold ids_from. by rewrite length_fmap, length_seq. Qed.

Lemma ids_from_app seed n k :
  ids_from seed (n + k) = ids_from seed n ++ ids_from (wrap 32 (seed + Z.of_nat n)) k.
Proof.
  unfold ids_from. rewrite seq_app, fmap_app. f_equal. simpl.
  rewrite <- (Nat.add_0_r n) at 1. rewrite <- fmap_add_seq, <- list_fmap_compose.
  apply list_fmap_ext. intros i x _. simpl. rewrite wrap_wrap_add by lia. f_equal. lia.
Qed.

Lemma ids_from_S seed n :
  is_u 32 seed -> ids_from seed (S n) = seed :: ids_from (wrap 32 (seed + 1)) n.
Proof.
  intros Hs. replace (S n) with (1 + n) by lia. rewrite ids_from_app.
  unfold ids_from at 1. simpl. by rewrite Z.add_0_r, wrap_small.
Qed.

Lemma start_clients_spec c n seed :
  is_u 32 seed ->
  (start_clients c n seed).1 = pair c <$> ids_from seed n /\
  (start_clients c n seed).2 = wrap 32 (seed + Z.of_nat n).
Proof.
  revert seed. induction n as [|n IH]; intros seed Hs; cbn [start_clients].
  - split; [done|]. simpl. by rewrite Z.add_0_r, wrap_small.
  - destruct (IH (wrap 32 (seed + 1))) as [H1 H2]; [apply wrap_range; lia|].
    destruct (start_clients c n _) as [l s]. simpl in H1, H2. subst l s. split.
    + by rewrite ids_from_S.
    + simpl. rewrite wrap_wrap_add by lia. f_equal. lia.
Qed.

(** Starting none when none is missing. *)
Lemma start_missing c n k seed :
  (if decide (n < k) then start_clients c (k - n) seed else ([], seed)) = start_clients c (k - n) seed.
Proof. case_decide; [done|]. by replace (k - n) with 0 by lia. Qed.

Lemma tick_ids m hour cfgs seed :
  is_u 32 seed ->
  let '(l, s) := tick_channels m hour cfgs seed in
  l.*2 = ids_from seed (length l) /\ s = wrap 32 (seed + Z.of_nat (length l)).
Proof.
  revert seed. induction cfgs as [|c cfgs IH]; intros seed Hs; cbn [tick_channels].
  - split; [done|]. simpl. by rewrite Z.add_0_r, wrap_small.
  - destruct (negb _); [by apply IH|]. rewrite start_missing.
    set (n := Z.to_nat _ - _). destruct (start_clients_spec c n seed Hs) as [H1 H2].
    destruct (start_clients c n seed) as [l s]. simpl in H1, H2. subst l.
    specialize (IH s). destruct (tick_channels m hour cfgs s) as [l' s'].
    destruct IH as [Hl' Hs']; [subst s; apply wrap_range; lia|].
    rewrite length_app, length_fmap, length_ids_from. rewrite ids_from_app, fmap_app, Hl', <- H2, <- list_fmap_compose. split.
    + f_equal. apply list_fmap_id.
    + rewrite Hs', H2, wrap_wrap_add by lia. f_equal. lia.
Qed.

Lemma start_counts c x n seed :
  length (filter (fun y => y.1 = c) (start_clients x n seed).1) = if decide (x = c) then n else 0.
Proof.
  revert seed. induction n as [|n IH]; intros seed; cbn [start_clients]; [by case_decide|].
  specialize (IH (wrap 32 (seed + 1))). destruct (start_clients x n _) as [l s]. simpl in *.
  destruct (decide (x = c)) as [->|Hne].
  - rewrite filter_cons_True by done. simpl. by rewrite IH.
  - by rewrite filter_cons_False by done.
Qed.

Lemma tick_counts m hour c cfgs seed :
  NoDup cfgs ->
  length (filter (fun x => x.1 = c) (tick_channels m hour cfgs seed).1) =
    if decide (c ∈ cfgs /\ is_valid_hour c hour = true)
    then Z.to_nat (conns_per_host c) - get_channel_session_size (ch_name c) m else 0.
Proof.
  intros Hnd. revert seed. induction Hnd as [|x cfgs Hx Hnd IH]; intros seed; cbn [tick_channels].
  - rewrite decide_False; [done|]. intros [H _]. by apply elem_of_nil in H.
  - pose proof (elem_of_cons cfgs c x) as Hin. destruct (is_valid_hour x hour) eqn:V; cbn [negb].
    + rewrite start_missing. set (n := Z.to_nat _ - _).
      pose proof (start_counts c x n seed) as Hst. destruct (start_clients x n seed) as [l s].
      specialize (IH s). destruct (tick_channels m hour cfgs s) as [l' s']. simpl in *.
      rewrite filter_app, length_app, Hst, IH.
      destruct (decide (x = c)) as [<-|Hne].
      * rewrite decide_False, decide_True by tauto. lia.
      * simpl. apply decide_ext. naive_solver.
    + rewrite IH. apply decide_ext. naive_solver congruence.
Qed.

(** ** Properties *)

(** C35: the proxy rules decide the channel.  When a matching rule names a
    usable channel (the direct one, or one with a live session), the stream
    is opened on the channel of the first such rule (and only an empty
    channel name is refused); otherwise the connection is refused with an
    error, no event is sent, and no session, stream or state changes. *)
Theorem rules_choose_channel `{Bincode ConnectRequest} connect pac target now w :
  ready_rules pac ->
  match first_usable (manager w) target pac with
  | Some p =>
      open_remote connect pac target now w =
        if decide (pac_channel p = ""%string)
        then Ok (Err "no valid channel found."%string, w, [])
        else get_channel_stream connect (pac_channel p) target now w
  | None => exists e w', open_remote connect pac target now w = Ok (Err e, w', []) /\
      all_sessions (manager w') = all_sessions (manager w) /\
      retired (manager w') = retired (manager w) /\ sstates w' = sstates w /\ cells w' = cells w
  end.
Proof.
  intros Hr. unfold open_remote. rewrite select_channel_spec by done.
  destruct (first_usable _ _ _) as [p|] eqn:F; unmonad; [done|].
  case_decide as Hc; [by do 2 eexists|].
  destruct (last (matching target pac)) as [p|] eqn:L; [|done]. simpl in *.
  assert (~ usable (manager w) p) as Hu.
  { intros Hu. unfold first_usable in F. apply head_None in F.
    assert (p ∈ filter (usable (manager w)) (matching target pac)) as Hin
      by (apply list_elem_of_filter; split; [done|by apply last_Some_elem_of]).
    rewrite F in Hin. by apply elem_of_nil in Hin. }
  unfold usable in Hu. unfold get_channel_stream. rewrite decide_False by tauto.
  unfold get_rmux_stream. destruct (create_stream_dead (pac_channel p) "tcp" target now w) as (w' & -> & Hw');
    [lia|]. unmonad. by exists "no channel found."%string, w'.
Qed.

(** Relaying delivers everything.  While both peers keep sending without
    error and keep accepting (any chunking, any finite number of delays),
    the relay ends, the remote side has received the bytes read ahead
    followed by everything the client sent, the client everything the remote
    sent, and each writer was shut down after its last byte. *)
Theorem relay_stream_delivers fuel n relay_buf lr lw rr rw :
  healthy lr -> healthy rr -> open_sink lw -> open_sink rw ->
  length relay_buf + full (writes rw) < fuel ->
  not_ready lr + full (writes rw) + full (flushes rw) <= n ->
  not_ready rr + full (writes lw) + full (flushes lw) <= n ->
  exists up down, relay_stream fuel n relay_buf lr lw rr rw = Some (Ok (up, down, true)) /\
    written (writer (copy up)) = written rw ++ relay_buf ++ stream lr /\
    written (writer (copy down)) = written lw ++ stream rr /\
    outcome up = Some (Ok (wrap 64 (Z.of_nat (length (stream lr))))) /\
    outcome down = Some (Ok (wrap 64 (Z.of_nat (length (stream rr))))).
Proof.
  intros Hlr Hrr Hlw Hrw Hfuel Hn1 Hn2. unfold relay_stream.
  assert (exists wo, (if decide (relay_buf = []) then Some (Ok tt, rw) else write_all fuel relay_buf rw)
            = Some (Ok tt, wo) /\ written wo = written rw ++ relay_buf /\ open_sink wo /\
            full (writes wo) <= full (writes rw) /\ flushes wo = flushes rw)
    as (wo & -> & Hw & Ho & Hle & Hfl).
  { case_decide as E; [exists rw; subst relay_buf; rewrite app_nil_r; by split_and!|].
    by apply write_all_ok. }
  simpl. destruct (relay_all n lr lw rr wo) as (up & down & -> & Hu & Hd & Eu & Ed); try done.
  { rewrite Hfl. lia. }
  exists up, down. rewrite Hu, Hw, <- app_assoc. by split_and!.
Qed.

(** The two directions of a relay are independent, whatever the writers
    answer.  After any number of polls, each direction has written exactly
    the first bytes of its source, in order; a direction that ended without
    error wrote all of them before its writer was shut down; and the relay is
    over only when both directions have ended, so an error or the end of one
    side does not cut the other. *)
Theorem relay_directions_independent n lr lw rr rw :
  healthy lr -> healthy rr ->
  exists up down over, relay n (direction lr rw, direction rr lw) = Some (up, down, over) /\
    (over = true <-> outcome up <> None /\ outcome down <> None) /\
    carried lr rw up /\ carried rr lw down.
Proof.
  intros Hlr Hrr.
  destruct (relay_inv n _ _ _ _ _ _ (direction_inv lr rw Hlr) (direction_inv rr lw Hrr))
    as (up & down & over & E & Iu & Id & Hover & _).
  exists up, down, over. split; [done|]. split.
  - rewrite Hover, andb_true_iff. unfold shut_down. rewrite !bool_decide_eq_true, <- !not_eq_None_Some. done.
  - by split; apply dir_carried.
Qed.

(** A tick of the routine fills every channel up.  For every configured
    channel inside its hours it starts exactly the missing number of clients
    (none outside its hours), under consecutive session ids. *)
Theorem tick_fills_channels m hour cfgs seed l seed' :
  NoDup cfgs -> is_u 32 seed -> tick_channels m hour cfgs seed = (l, seed') ->
  (forall c, length (filter (fun x => x.1 = c) l) =
     if decide (c ∈ cfgs /\ is_valid_hour c hour = true)
     then Z.to_nat (conns_per_host c) - get_channel_session_size (ch_name c) m else 0) /\
  l.*2 = ids_from seed (length l) /\
  seed' = wrap 32 (seed + Z.of_nat (length l)).
Proof.
  intros Hnd Hseed E.
  pose proof (tick_ids m hour cfgs seed Hseed) as Hids. rewrite E in Hids. destruct Hids as [Hids Hs].
  split_and!; try done. intros c. pose proof (tick_counts m hour c cfgs seed Hnd) as Hc.
  by rewrite E in Hc.
Qed.

(** Rules, ends and a configuration for the witnesses. *)
Module RelayDemo.
Definition rule (channel : string) : PACConfig :=
  {| pac_host := ".*"; pac_channel := channel; re := Some (fun _ => true) |}.
Definition rules : list PACConfig := [rule "down"; rule "rmux"; rule "direct"].
Definition connect (a : string) : io_result unit := Ok tt.
Definition client : source := [Bytes [x61; x62]; NotReady; Bytes [x63]].
Definition server : source := [NotReady; Bytes [x64]].
Definition out : sink := {| writes := [Accept 1; Full]; flushes := [Full]; written := [] |}.
Definition config : ChannelConfig :=
  {| ch_name := "rmux"; url := "rmux://b:48000";
     cipher := {| cipher_key := "k"; cipher_method := "none" |};
     ping_interval_sec := 30; conns_per_host := 3; max_alive_mins := 40; proxy := None;
     work_time_frame := Some (8, 20)%Z; sni := None; sni_proxy := None |}.
End RelayDemo.

Lemma rules_choose_channel_witness :
  ready_rules RelayDemo.rules /\
  @open_remote Demo.req_bincode RelayDemo.connect RelayDemo.rules "a:1" 0 (Demo.world 0) =
    @get_channel_stream Demo.req_bincode RelayDemo.connect "rmux" "a:1" 0 (Demo.world 0).
Proof.
  assert (ready_rules RelayDemo.rules) as Hr by (repeat constructor; by eexists).
  split; [exact Hr|].
  exact (rules_choose_channel (H := Demo.req_bincode) RelayDemo.connect RelayDemo.rules "a:1" 0
           (Demo.world 0) Hr).
Defined.

Lemma relay_stream_delivers_witness :
  exists up down,
    relay_stream 5 4 [x47; x48] RelayDemo.client RelayDemo.out RelayDemo.server RelayDemo.out
      = Some (Ok (up, down, true)) /\
    written (writer (copy up)) = [] ++ [x47; x48] ++ [x61; x62; x63] /\
    written (writer (copy down)) = [] ++ [x64] /\
    outcome up = Some (Ok (wrap 64 3)) /\ outcome down = Some (Ok (wrap 64 1)).
Proof.
  apply (relay_stream_delivers 5 4 [x47; x48] RelayDemo.client RelayDemo.out RelayDemo.server RelayDemo.out).
  - repeat constructor; done.
  - repeat constructor; done.
  - apply (bool_decide_eq_true_1 _). vm_compute. reflexivity.
  - apply (bool_decide_eq_true_1 _). vm_compute. reflexivity.
  - vm_compute. lia.
  - vm_compute. lia.
  - vm_compute. lia.
Defined.

Lemma relay_directions_independent_witness :
  exists up down over,
    relay 1 (direction RelayDemo.client
               {| writes := [WriteErr "reset"]; flushes := []; written := [] |},
             direction RelayDemo.server RelayDemo.out) = Some (up, down, over) /\
    (over = true <-> outcome up <> None /\ outcome down <> None) /\
    carried RelayDemo.client {| writes := [WriteErr "reset"]; flushes := []; written := [] |} up /\
    carried RelayDemo.server RelayDemo.out down.
Proof. apply (relay_directions_independent 1); repeat constructor; done. Defined.

Lemma tick_fills_channels_witness :
  NoDup [RelayDemo.config] /\
  (forall c, length (filter (fun x => x.1 = c)
       (tick_channels (manager (Demo.world 0)) 9 [RelayDemo.config] 7).1) =
     if decide (c ∈ [RelayDemo.config] /\ is_valid_hour c 9 = true)
     then Z.to_nat (conns_per_host c)
          - get_channel_session_size (ch_name c) (manager (Demo.world 0)) else 0) /\
  [7; 8]%Z = ids_from 7 2 /\ 9%Z = wrap 32 (7 + 2).
Proof.
  assert (NoDup [RelayDemo.config]) as Hnd by (repeat constructor; by intros ?%elem_of_nil).
  split; [exact Hnd|].
  apply (tick_fills_channels (manager (Demo.world 0)) 9 [RelayDemo.config] 7
           [(RelayDemo.config, 7%Z); (RelayDemo.config, 8%Z)] 9 Hnd).
  - unfold is_u. lia.
  - vm_compute. reflexivity.
Defined.
