(* ===== verification/Duplex.v ===== *)
(** * Copies between any two ends (src/src/utils/io.rs, [BufCopy])

    [BufCopy] is generic in its reader and its writer.  [Io] has it between
    two scripts; here it is between any two ends, whose state [X] may be shared
    with the ends of other copies: the two directions of a relay over a
    multiplexed stream share the cell of the stream.  What a pair of ends
    promises is the class [Faithful]; the copy's theorems are proved against
    it, and the scripts of [Io] are one instance. *)
From stdpp Require Import prelude strings.
From Stdlib Require Import ZArith Lia.
From S2P Require Import Prelude Io.

(** ** Ends *)

(** The methods of the reader and of the writer, on the state behind them;
    [e_left] bounds the non-empty reads that are left. *)
Record Ends (X : Type) := {
  e_read : nat -> X -> poll (io_result (list byte)) * X;
  e_write : list byte -> X -> poll (io_result nat) * X;
  e_flush : X -> poll (io_result unit) * X;
  e_left : X -> nat;
}.
Arguments e_read {X}. Arguments e_write {X}. Arguments e_flush {X}. Arguments e_left {X}.

(** A reader that yields [avail] from its front, and a writer that appends to
    [put]; neither touches what the other has. *)
Class Faithful {X} (E : Ends X) (avail put : X -> list byte) := {
  f_read n x r x' : e_read E n x = (r, x') ->
    put x' = put x /\
    match r with
    | Ready (Ok l) => length l <= n /\ avail x = l ++ avail x' /\ (l <> [] -> e_left E x' < e_left E x)
    | _ => avail x' = avail x
    end;
  f_write l x r x' : e_write E l x = (r, x') ->
    avail x' = avail x /\ e_left E x' = e_left E x /\
    match r with
    | Ready (Ok i) => i <= length l /\ put x' = put x ++ take i l
    | _ => put x' = put x
    end;
  f_flush x r x' : e_flush E x = (r, x') -> avail x' = avail x /\ put x' = put x;
}.

(** ** The copy *)

(** [BufCopy] without its reader and writer. *)
Record Copy := { c_done : bool; c_pos : nat; c_cap : nat; c_amt : Z; c_buf : list byte }.

Definition copy_new (b : list byte) : Copy :=
  {| c_done := false; c_pos := 0; c_cap := 0; c_amt := 0; c_buf := b |}.

(** [&me.buf[me.pos..me.cap]] *)
Definition held (c : Copy) : list byte := take (c_cap c - c_pos c) (drop (c_pos c) (c_buf c)).

Section Copy.
Context {X : Type} (E : Ends X).

Definition duplex_read (c : Copy) (x : X) : Copy * X * option copy_result :=
  if decide (c_pos c = c_cap c) then
    if c_done c then (c, x, None)
    else
      let '(r, x) := e_read E (length (c_buf c)) x in
      match r with
      | Pending => (c, x, Some Pending)
      | Ready (Err e) => (c, x, Some (Ready (Err e)))
      | Ready Panic => (c, x, Some (Ready Panic))
      | Ready (Ok l) =>
          if decide (length l = 0)
          then ({| c_done := true; c_pos := c_pos c; c_cap := c_cap c; c_amt := c_amt c; c_buf := c_buf c |}, x, None)
          else ({| c_done := false; c_pos := 0; c_cap := length l; c_amt := c_amt c; c_buf := fill l (c_buf c) |}, x, None)
      end
  else (c, x, None).

Fixpoint duplex_write (fuel : nat) (c : Copy) (x : X) : option (Copy * X * option copy_result) :=
  match fuel with
  | O => None
  | S fuel =>
      if decide (c_pos c < c_cap c) then
        let '(r, x) := e_write E (held c) x in
        match r with
        | Pending => Some (c, x, Some Pending)
        | Ready (Err e) => Some (c, x, Some (Ready (Err e)))
        | Ready Panic => Some (c, x, Some (Ready Panic))
        | Ready (Ok i) =>
            if decide (i = 0)
            then Some (c, x, Some (Ready (Err "write zero byte into writer"%string)))
            else duplex_write fuel {| c_done := c_done c; c_pos := c_pos c + i; c_cap := c_cap c;
                                      c_amt := wrap 64 (c_amt c + Z.of_nat i); c_buf := c_buf c |} x
        end
      else Some (c, x, None)
  end.

Definition duplex_finish (c : Copy) (x : X) : X * option copy_result :=
  if decide (c_pos c = c_cap c) then
    if c_done c then
      let '(r, x) := e_flush E x in
      match r with
      | Pending => (x, Some Pending)
      | Ready (Err e) => (x, Some (Ready (Err e)))
      | Ready Panic => (x, Some (Ready Panic))
      | Ready (Ok tt) => (x, Some (Ready (Ok (c_amt c))))
      end
    else (x, None)
  else (x, None).

(** [poll]: the loop, with fuel. *)
Fixpoint duplex_loop (fuel : nat) (c : Copy) (x : X) : option (Copy * X * copy_result) :=
  match fuel with
  | O => None
  | S fuel =>
      match duplex_read c x with
      | (c, x, Some r) => Some (c, x, r)
      | (c, x, None) =>
          match duplex_write (S (c_cap c - c_pos c)) c x with
          | None => None
          | Some (c, x, Some r) => Some (c, x, r)
          | Some (c, x, None) =>
              match duplex_finish c x with
              | (x, Some r) => Some (c, x, r)
              | (x, None) => duplex_loop fuel c x
              end
          end
      end
  end.

Definition duplex_poll (c : Copy) (x : X) : option (Copy * X * copy_result) :=
  duplex_loop (S (S (e_left E x))) c x.
End Copy.

(** ** The scripts of [Io] *)

Definition script_ends : Ends (source * sink) := {|
  e_read n x := let '(r, s) := poll_read n x.1 in (r, (s, x.2));
  e_write l x := let '(r, w) := poll_write l x.2 in (r, (x.1, w));
  e_flush x := let '(r, w) := poll_flush x.2 in (r, (x.1, w));
  e_left x := weight x.1;
|}.

Definition copy_of (c : BufCopy) : Copy :=
  {| c_done := read_done c; c_pos := pos c; c_cap := cap c; c_amt := amt c; c_buf := buf c |}.

#[export] Instance script_faithful : Faithful script_ends (fun x => stream x.1) (fun x => written x.2).
Proof.
  split; cbn.
  - intros n [s w] r x' E. cbn in E. destruct s as [|[l|e|] s]; cbn in E; injection E as <- <-; cbn.
    + split_and!; [done|lia|done|done].
    + rewrite length_take. split_and!; [done|lia| |].
      * rewrite stream_cons. cbn. case_decide; [by rewrite take_ge by done|].
        rewrite stream_cons. cbn. by rewrite app_assoc, take_drop.
      * intros Hne. case_decide; cbn; [lia|]. rewrite length_drop. destruct l, n; cbn in *; (done || lia).
    + done.
    + done.
  - intros l [s w] r x' E. cbn in E. destruct (poll_write l w) as [r' w'] eqn:W. injection E as <- <-. cbn.
    split_and!; [done..|]. apply poll_write_spec in W as (i & Hi & Hw & Hok & Hpe & Herr & Hpa).
    destruct r' as [[n|e|]|]; [|rewrite Hw, (Herr e eq_refl), take_0; by rewrite app_nil_r|done|
      rewrite Hw, (Hpe eq_refl), take_0; by rewrite app_nil_r].
    by rewrite (Hok n eq_refl).
  - intros [s w] r x' E. cbn in E. destruct (poll_flush w) as [r' w'] eqn:F. injection E as <- <-. cbn.
    apply poll_flush_written in F as [-> _]. done.
Qed.

(** ** Lemmas *)

Definition copy_wf (c : Copy) : Prop :=
  c_pos c <= c_cap c <= length (c_buf c) /\ (c_done c = true -> c_pos c = c_cap c).

Lemma held_done c : c_pos c = c_cap c -> held c = [].
Proof. intros Hpc. unfold held. by rewrite Hpc, Nat.sub_diag. Qed.

Lemma held_length c : copy_wf c -> length (held c) = c_cap c - c_pos c.
Proof. intros [? _]. unfold held. rewrite length_take, length_drop. lia. Qed.

Lemma copy_new_wf b : copy_wf (copy_new b).
Proof. by split; [simpl; lia|]. Qed.

Section Laws.
Context {X : Type} (E : Ends X) (avail put : X -> list byte) `{!Faithful E avail put}.

(** Everything that has passed or is to pass through the copy, in order. *)
Definition conveyed (c : Copy) (x : X) : list byte := put x ++ held c ++ avail x.

Lemma duplex_read_spec c x c' x' o :
  copy_wf c -> duplex_read E c x = (c', x', o) ->
  copy_wf c' /\ put x' = put x /\ conveyed c' x' = conveyed c x /\
  (o = None -> c_pos c' < c_cap c' /\ e_left E x' < e_left E x \/
               c_done c' = true /\ c_pos c' = c_cap c' \/ c' = c /\ x' = x /\ c_pos c < c_cap c).
Proof.
  intros Hwf. pose proof Hwf as [Hp Hd]. unfold duplex_read, conveyed. case_decide as Hpc.
  2: { intros [= <- <- <-]. split_and!; try done. intros _. right; right. split_and!; [done..|lia]. }
  destruct (c_done c) eqn:Hdone.
  { intros [= <- <- <-]. split_and!; try done. intros _. by right; left. }
  destruct (e_read E _ x) as [r x1] eqn:R. apply f_read in R as [Hput Hr].
  destruct r as [[l|e|]|]; [|by intros [= <- <- <-]; rewrite Hput, Hr..].
  destruct Hr as (Hl & Hav & Hlt). case_decide as Hl0; intros [= <- <- <-]; rewrite Hput.
  - destruct l; [|done]. split_and!; try done; [by rewrite Hav|]. intros _. by right; left.
  - split_and!; [|done| |].
    + split; [|done]. cbn. unfold fill. rewrite length_app, length_drop. lia.
    + f_equal. rewrite (held_done c Hpc), Hav. unfold held, fill. cbn.
      by rewrite drop_0, Nat.sub_0_r, take_app_length.
    + intros _. left. cbn. split; [lia|]. apply Hlt. by destruct l.
Qed.

Lemma duplex_write_spec fuel c x :
  copy_wf c -> c_cap c - c_pos c < fuel ->
  exists c' x' o, duplex_write E fuel c x = Some (c', x', o) /\
    copy_wf c' /\ conveyed c' x' = conveyed c x /\ put x `prefix_of` put x' /\
    e_left E x' = e_left E x /\ c_done c' = c_done c /\ (o = None -> c_pos c' = c_cap c') /\
    (forall a, o <> Some (Ready (Ok a))).
Proof.
  revert c x. induction fuel as [|fuel IH]; intros c x Hwf Hf; [lia|]. cbn [duplex_write].
  pose proof Hwf as [Hp Hd]. case_decide as Hpc.
  2: { exists c, x, None. split_and!; try done. intros _. lia. }
  destruct (e_write E (held c) x) as [r x1] eqn:W. apply f_write in W as (Hav & Hleft & Hr).
  destruct r as [[i|e|]|].
  2-4: do 3 eexists; split_and!; [done..| | | | | |done]; unfold conveyed; by rewrite ?Hr, ?Hav.
  destruct Hr as [Hi Hput]. rewrite held_length in Hi by done. case_decide as Hi0.
  { subst i. rewrite take_0, app_nil_r in Hput. do 3 eexists. split_and!; [done..| | | | | |done];
      unfold conveyed; by rewrite ?Hput, ?Hav. }
  set (c1 := {| c_done := c_done c; c_pos := c_pos c + i; c_cap := c_cap c;
                c_amt := wrap 64 (c_amt c + Z.of_nat i); c_buf := c_buf c |}).
  assert (held c = take i (held c) ++ held c1) as Hheld.
  { unfold held. cbn. rewrite Nat.sub_add_distr, <- drop_drop.
    by rewrite <- (skipn_firstn_comm i), take_drop. }
  destruct (IH c1 x1) as (c' & x' & o & E1 & Hwf' & Hc & Hpre & Hl & Hd' & Ho & Hno).
  { split; [cbn; lia|]. intros Hdone. specialize (Hd Hdone). lia. }
  { cbn. lia. }
  exists c', x', o. split_and!; try done; [| |congruence].
  - rewrite Hc. unfold conveyed. rewrite Hput, Hav, <- app_assoc. f_equal.
    rewrite app_assoc. by rewrite <- Hheld.
  - etrans; [|exact Hpre]. rewrite Hput. by apply prefix_app_r.
Qed.

Lemma duplex_finish_spec c x x' o :
  duplex_finish E c x = (x', o) ->
  put x' = put x /\ avail x' = avail x /\
  (o = None -> x' = x /\ (c_done c = true -> c_pos c <> c_cap c)) /\
  (forall a, o = Some (Ready (Ok a)) -> held c = [] /\ c_done c = true).
Proof.
  unfold duplex_finish. case_decide as Hpc; [|by intros [= <- <-]].
  destruct (c_done c) eqn:Hd; [|by intros [= <- <-]].
  destruct (e_flush E x) as [r x1] eqn:F. apply f_flush in F as [Hav Hput].
  destruct r as [[[]|e|]|]; intros [= <- <-]; split_and!; try done.
  intros a _. split; [by apply held_done|done].
Qed.

(** From any state, within the fuel it is given, a poll returns, and what is
    conveyed stays. *)
Lemma duplex_loop_spec fuel c x :
  copy_wf c -> e_left E x + (if decide (c_pos c < c_cap c) then 1 else 0) < fuel ->
  exists c' x' r, duplex_loop E fuel c x = Some (c', x', r) /\ copy_wf c' /\
    conveyed c' x' = conveyed c x /\ put x `prefix_of` put x' /\
    (forall a, r = Ready (Ok a) -> held c' = [] /\ c_done c' = true).
Proof.
  revert c x. induction fuel as [|fuel IH]; intros c x Hwf Hf; [lia|]. cbn [duplex_loop].
  destruct (duplex_read E c x) as [[c1 x1] o1] eqn:R.
  assert (forall a, o1 <> Some (Ready (Ok a))) as Hno1.
  { intros a ->. unfold duplex_read in R. case_decide; [|done]. destruct (c_done c); [done|].
    destruct (e_read E _ x) as [[[l|e|]|] x2]; try done. by case_decide. }
  apply (duplex_read_spec _ _ _ _ _ Hwf) in R as (Hwf1 & Hput1 & Hc1 & Hpr).
  destruct o1 as [r|].
  { exists c1, x1, r. split_and!; try done; [by rewrite Hput1|]. intros a ->. by destruct (Hno1 a). }
  specialize (Hpr eq_refl).
  destruct (duplex_write_spec (S (c_cap c1 - c_pos c1)) c1 x1 Hwf1)
    as (c2 & x2 & o2 & -> & Hwf2 & Hc2 & Hpre2 & Hl2 & Hd2 & Hpc2 & Hno2); [lia|].
  rewrite Hput1 in Hpre2.
  destruct o2 as [r|].
  { exists c2, x2, r. split_and!; try done; [congruence|]. intros a ->. by destruct (Hno2 a). }
  specialize (Hpc2 eq_refl). destruct (duplex_finish E c2 x2) as [x3 o3] eqn:F.
  apply duplex_finish_spec in F as (Hput3 & Hav3 & Hnone & Hfin).
  assert (conveyed c2 x3 = conveyed c x) as Hc3 by (rewrite <- Hc1, <- Hc2; unfold conveyed; by rewrite Hput3, Hav3).
  destruct o3 as [r|].
  { exists c2, x3, r. split_and!; try done; [by rewrite Hput3|]. intros a ->. by apply (Hfin a). }
  destruct (Hnone eq_refl) as [-> Hnd].
  destruct (IH c2 x2) as (c' & x' & r & E' & Hwf' & Hc' & Hpre' & Hok); [done| |].
  { rewrite Hl2, (decide_False (P := c_pos c2 < c_cap c2)) by lia.
    destruct Hpr as [[? ?]|[[Hdone _]|(-> & -> & ?)]]; [case_decide; lia| |case_decide; lia].
    rewrite Hd2 in Hnd. by destruct (Hnd Hdone). }
  exists c', x', r. split_and!; try done; [congruence|by etrans].
Qed.

Lemma duplex_poll_spec c x :
  copy_wf c ->
  exists c' x' r, duplex_poll E c x = Some (c', x', r) /\ copy_wf c' /\
    conveyed c' x' = conveyed c x /\ put x `prefix_of` put x' /\
    (forall a, r = Ready (Ok a) -> held c' = [] /\ c_done c' = true).
Proof. intros Hwf. apply duplex_loop_spec; [done|]. case_decide; lia. Qed.
End Laws.

(** What every method of the ends keeps, a poll keeps; what is written is not
    empty and fits the buffer. *)
Section Keeps.
Context {X : Type} (E : Ends X) (avail put : X -> list byte) `{!Faithful E avail put}.
Context (R : X -> X -> Prop) `{!PreOrder R} (N : nat).
Hypothesis read_keeps : forall n x, R x (e_read E n x).2.
Hypothesis write_keeps : forall l x, l <> [] -> length l <= N -> R x (e_write E l x).2.
Hypothesis flush_keeps : forall x, R x (e_flush E x).2.

Definition sized (c : Copy) : Prop := copy_wf c /\ length (c_buf c) = N.

Lemma duplex_read_keeps c x c' x' o :
  duplex_read E c x = (c', x', o) -> sized c -> R x x' /\ sized c'.
Proof.
  intros E1 [Hwf Hl]. pose proof (duplex_read_spec E avail put c x c' x' o Hwf E1) as (Hwf' & _).
  enough (R x x' /\ length (c_buf c') = N) as [? ?] by done. unfold duplex_read in E1.
  case_decide; [|by injection E1 as <- <- _]. destruct (c_done c); [by injection E1 as <- <- _|].
  pose proof (read_keeps (length (c_buf c)) x) as Hr. destruct (e_read E _ x) as [r x1] eqn:Er.
  apply f_read in Er as [_ Hx]. destruct r as [[l|e|]|]; [|by injection E1 as <- <- _..].
  case_decide; injection E1 as <- <- _; [done|]. split; [done|]. cbn. unfold fill.
  rewrite length_app, length_drop. lia.
Qed.

Lemma duplex_write_keeps fuel c x c' x' o :
  duplex_write E fuel c x = Some (c', x', o) -> sized c -> R x x' /\ sized c'.
Proof.
  revert c x. induction fuel as [|fuel IH]; intros c x; [done|]. cbn [duplex_write].
  case_decide; [|by intros [= <- <- _]]. intros E1 [Hwf Hl].
  pose proof (held_length c Hwf) as Hh. pose proof Hwf as [Hp Hd].
  assert (R x (e_write E (held c) x).2) as Hw
    by (apply write_keeps; [by intros Hn; rewrite Hn in Hh; simpl in Hh; lia|lia]).
  destruct (e_write E _ x) as [r x1] eqn:Er. apply f_write in Er as (_ & _ & Hr). cbn in Hw.
  destruct r as [[i|e|]|]; try by injection E1 as <- <- _.
  case_decide; [by injection E1 as <- <- _|]. apply IH in E1 as [H1 H2].
  - split; [by etrans|done].
  - split; [|done]. split; [cbn; lia|]. intros Hdone. specialize (Hd Hdone). lia.
Qed.

Lemma duplex_finish_keeps c x : R x (duplex_finish E c x).1.
Proof.
  unfold duplex_finish. case_decide; [|done]. destruct (c_done c); [|done].
  pose proof (flush_keeps x). by destruct (e_flush E x) as [[[[]|e|]|] x1].
Qed.

Lemma duplex_poll_keeps c x c' x' r :
  duplex_poll E c x = Some (c', x', r) -> sized c -> R x x' /\ sized c'.
Proof.
  unfold duplex_poll. generalize (S (S (e_left E x))). intros fuel. revert c x.
  induction fuel as [|fuel IH]; intros c x; [done|]. cbn [duplex_loop].
  destruct (duplex_read E c x) as [[c1 x1] o1] eqn:Er. intros E1 Hs.
  apply duplex_read_keeps in Er as [Hr Hs1]; [|done].
  destruct o1 as [o1|]; [by injection E1 as <- <- _|].
  destruct (duplex_write E _ c1 x1) as [[[c2 x2] o2]|] eqn:Ew; [|done].
  apply duplex_write_keeps in Ew as [Hw Hs2]; [|done].
  destruct o2 as [o2|]; [injection E1 as <- <- _; split; [by etrans|done]|].
  pose proof (duplex_finish_keeps c2 x2) as Hf. destruct (duplex_finish E c2 x2) as [x3 [o3|]]; cbn in Hf.
  - injection E1 as <- <- _. split; [|done]. by etrans; [|etrans].
  - apply IH in E1 as [H3 Hs3]; [|done]. split; [|done]. etrans; [exact Hr|]. etrans; [exact Hw|]. by etrans.
Qed.
End Keeps.

(** A copy that is not ready waits for its reader, with nothing left to
    write, or for its writer; [I] is what the ends keep. *)
Section Waits.
Context {X : Type} (E : Ends X) (I : X -> Prop).
Hypothesis read_holds : forall n x, I x -> I (e_read E n x).2.
Hypothesis write_holds : forall l x, I x -> I (e_write E l x).2.
Hypothesis flush_holds : forall x, I x -> I (e_flush E x).2.

Definition waits (c : Copy) (x : X) : Prop :=
  (held c = [] /\ exists n x0, I x0 /\ e_read E n x0 = (Pending, x)) \/
  (exists l x0, I x0 /\ e_write E l x0 = (Pending, x)) \/ (exists x0, I x0 /\ e_flush E x0 = (Pending, x)).

Lemma duplex_read_waits c x c' x' o :
  duplex_read E c x = (c', x', o) -> I x -> I x' /\ (o = Some Pending -> waits c' x').
Proof.
  intros R Hi. unfold duplex_read in R. case_decide as Hpc; [|by injection R as <- <- <-].
  destruct (c_done c); [by injection R as <- <- <-|].
  pose proof (read_holds (length (c_buf c)) x Hi) as Hr.
  destruct (e_read E _ x) as [[[l|e|]|] x2] eqn:Er; [case_decide; by injection R as <- <- <-|by injection R as <- <- <-..|].
  injection R as <- <- <-. split; [done|]. intros _. left. split; [by apply held_done|by eauto].
Qed.

Lemma duplex_write_waits fuel c x c' x' o :
  duplex_write E fuel c x = Some (c', x', o) -> I x -> I x' /\ (o = Some Pending -> waits c' x').
Proof.
  revert c x. induction fuel as [|fuel IH]; intros c x; [done|]. cbn [duplex_write].
  case_decide; [|by intros [= <- <- <-]]. intros R Hi. pose proof (write_holds (held c) x Hi) as Hw.
  destruct (e_write E (held c) x) as [[[i|e|]|] x1] eqn:W; [|by injection R as <- <- <-..|].
  - case_decide; [by injection R as <- <- <-|]. by apply (IH _ _ R).
  - injection R as <- <- <-. split; [done|]. intros _. right; left. by eauto.
Qed.

Lemma duplex_finish_waits c x x' o :
  duplex_finish E c x = (x', o) -> I x -> I x' /\ (o = Some Pending -> waits c x').
Proof.
  intros R Hi. unfold duplex_finish in R. case_decide; [|by injection R as <- <-].
  destruct (c_done c); [|by injection R as <- <-]. pose proof (flush_holds x Hi) as Hf.
  destruct (e_flush E x) as [[[[]|e|]|] x1] eqn:F; [by injection R as <- <-..|].
  injection R as <- <-. split; [done|]. intros _. right; right. by eauto.
Qed.

Lemma duplex_poll_waits c x c' x' r :
  duplex_poll E c x = Some (c', x', r) -> I x -> I x' /\ (r = Pending -> waits c' x').
Proof.
  unfold duplex_poll. generalize (S (S (e_left E x))). intros fuel. revert c x.
  induction fuel as [|fuel IH]; intros c x; [done|]. cbn [duplex_loop].
  destruct (duplex_read E c x) as [[c1 x1] o1] eqn:R. intros E1 Hi.
  apply duplex_read_waits in R as [Hi1 Hw1]; [|done].
  destruct o1 as [o1|]; [injection E1 as <- <- <-; split; [done|]; intros ->; auto|].
  destruct (duplex_write E _ c1 x1) as [[[c2 x2] o2]|] eqn:W; [|done].
  apply duplex_write_waits in W as [Hi2 Hw2]; [|done].
  destruct o2 as [o2|]; [injection E1 as <- <- <-; split; [done|]; intros ->; auto|].
  destruct (duplex_finish E c2 x2) as [x3 o3] eqn:F. apply duplex_finish_waits in F as [Hi3 Hw3]; [|done].
  destruct o3 as [o3|]; [injection E1 as <- <- <-; split; [done|]; intros ->; auto|]. by apply (IH _ _ E1).
Qed.
End Waits.

(** The end of file is the end: with a reader that answers an empty read only
    when it has nothing left, as long as [I] holds, a copy that has seen it has
    conveyed everything. *)
Section Ended.
Context {X : Type} (E : Ends X) (avail put : X -> list byte) `{!Faithful E avail put}.
Context (I : X -> Prop).
Hypothesis read_holds : forall n x, I x -> I (e_read E n x).2.
Hypothesis write_holds : forall l x, I x -> I (e_write E l x).2.
Hypothesis flush_holds : forall x, I x -> I (e_flush E x).2.
Hypothesis read_end : forall n x x', 0 < n -> I x -> e_read E n x = (Ready (Ok []), x') -> avail x = [].

(** What a copy keeps of its reader: [I], a slice to read into, and that
    nothing is left once the end has been seen. *)
Definition ended_ok (c : Copy) (x : X) : Prop :=
  I x /\ 0 < length (c_buf c) /\ (c_done c = true -> avail x = []).

Lemma duplex_read_ended c x c' x' o : duplex_read E c x = (c', x', o) -> ended_ok c x -> ended_ok c' x'.
Proof.
  intros R (Hi & Hb & Hd). unfold duplex_read in R. case_decide; [|by injection R as <- <- _].
  destruct (c_done c) eqn:Hdone; [injection R as <- <- _; split_and!; auto|].
  destruct (e_read E _ x) as [r x1] eqn:Er. pose proof (read_holds (length (c_buf c)) x Hi) as Hi1.
  rewrite Er in Hi1. cbn in Hi1. pose proof Er as Hr. apply f_read in Hr as [_ Hr].
  destruct r as [[l|e|]|]; [|injection R as <- <- _; split_and!; [done..|congruence]..].
  destruct Hr as (Hl & Hav & _). case_decide as Hl0; injection R as <- <- _; unfold ended_ok; cbn; (split_and!; try done).
  - intros _. destruct l; [|done]. apply read_end in Er; [|done..]. by rewrite Er in Hav.
  - unfold fill. rewrite length_app, length_drop. lia.
Qed.

Lemma duplex_write_ended fuel c x c' x' o :
  duplex_write E fuel c x = Some (c', x', o) -> ended_ok c x -> ended_ok c' x'.
Proof.
  revert c x. induction fuel as [|fuel IH]; intros c x; [done|]. cbn [duplex_write].
  case_decide; [|by intros [= <- <- _]]. destruct (e_write E (held c) x) as [r x1] eqn:W.
  intros R (Hi & Hb & Hd). pose proof (write_holds (held c) x Hi) as Hi1. rewrite W in Hi1.
  apply f_write in W as (Hav & _ & _). assert (c_done c = true -> avail x1 = []) as Hd1 by (by rewrite Hav).
  destruct r as [[i|e|]|]; try by injection R as <- <- _.
  case_decide; [by injection R as <- <- _|]. by apply (IH _ _ R).
Qed.

Lemma duplex_poll_ended c x c' x' r : duplex_poll E c x = Some (c', x', r) -> ended_ok c x -> ended_ok c' x'.
Proof.
  unfold duplex_poll. generalize (S (S (e_left E x))). intros fuel. revert c x.
  induction fuel as [|fuel IH]; intros c x; [done|]. cbn [duplex_loop].
  destruct (duplex_read E c x) as [[c1 x1] o1] eqn:R.
  intros E1 Hok. apply (duplex_read_ended _ _ _ _ _ R) in Hok as Hok1.
  destruct o1 as [o1|]; [by injection E1 as <- <- _|].
  destruct (duplex_write E _ c1 x1) as [[[c2 x2] o2]|] eqn:W; [|done].
  apply (duplex_write_ended _ _ _ _ _ _ W) in Hok1 as (Hi2 & Hb2 & Hd2).
  destruct o2 as [o2|]; [by injection E1 as <- <- _|].
  destruct (duplex_finish E c2 x2) as [x3 o3] eqn:F.
  assert (I x3) as Hi3.
  { unfold duplex_finish in F. case_decide; [|by injection F as <- _]. destruct (c_done c2); [|by injection F as <- _].
    pose proof (flush_holds x2 Hi2). by destruct (e_flush E x2) as [[[[]|e|]|] x4]; injection F as <- _. }
  apply (duplex_finish_spec E avail put) in F as (_ & Hav & _). rewrite <- Hav in Hd2.
  destruct o3 as [o3|]; [by injection E1 as <- <- _|]. by apply (IH _ _ E1).
Qed.
End Ended.

(** A copy of ends that do not panic does not panic; [I] is what the ends
    keep when the slice to read into has [N] bytes. *)
Section Safe.
Context {X : Type} (E : Ends X) (avail put : X -> list byte) `{!Faithful E avail put}.
Context (I : X -> Prop) (N : nat).
Hypothesis read_safe : forall x, I x -> I (e_read E N x).2 /\ (e_read E N x).1 <> Ready Panic.
Hypothesis write_safe : forall l x, I x -> I (e_write E l x).2 /\ (e_write E l x).1 <> Ready Panic.
Hypothesis flush_safe : forall x, I x -> I (e_flush E x).2 /\ (e_flush E x).1 <> Ready Panic.

Definition safe (c : Copy) (x : X) : Prop := I x /\ length (c_buf c) = N.

Lemma duplex_read_safe c x c' x' o :
  duplex_read E c x = (c', x', o) -> safe c x -> safe c' x' /\ o <> Some (Ready Panic).
Proof.
  intros R [Hi Hb]. unfold duplex_read in R. case_decide; [|by injection R as <- <- <-].
  destruct (c_done c); [by injection R as <- <- <-|]. rewrite Hb in R.
  destruct (read_safe x Hi) as [Hi1 Hp]. destruct (e_read E N x) as [r x1] eqn:Er. cbn in Hi1, Hp.
  apply f_read in Er as [_ Hl].
  destruct r as [[l|e|]|]; [case_decide| | |]; injection R as <- <- <-; [done| |done|done|done].
  split; [|done]. split; [done|]. cbn. unfold fill. rewrite length_app, length_drop. lia.
Qed.

Lemma duplex_write_safe fuel c x c' x' o :
  duplex_write E fuel c x = Some (c', x', o) -> safe c x -> safe c' x' /\ o <> Some (Ready Panic).
Proof.
  revert c x. induction fuel as [|fuel IH]; intros c x; [done|]. cbn [duplex_write].
  case_decide; [|by intros [= <- <- <-]]. intros R [Hi Hb]. destruct (write_safe (held c) x Hi) as [Hi1 Hp].
  destruct (e_write E (held c) x) as [[[i|e|]|] x1]; cbn in Hi1, Hp; [|by injection R as <- <- <-|done|by injection R as <- <- <-].
  case_decide; [by injection R as <- <- <-|]. by apply (IH _ _ R).
Qed.

Lemma duplex_finish_safe c x x' o :
  duplex_finish E c x = (x', o) -> I x -> I x' /\ o <> Some (Ready Panic).
Proof.
  intros R Hi. unfold duplex_finish in R. case_decide; [|by injection R as <- <-].
  destruct (c_done c); [|by injection R as <- <-]. destruct (flush_safe x Hi) as [Hi1 Hp].
  by destruct (e_flush E x) as [[[[]|e|]|] x1]; cbn in Hi1, Hp; injection R as <- <-.
Qed.

Lemma duplex_poll_safe c x c' x' r :
  duplex_poll E c x = Some (c', x', r) -> safe c x -> safe c' x' /\ r <> Ready Panic.
Proof.
  unfold duplex_poll. generalize (S (S (e_left E x))). intros fuel. revert c x.
  induction fuel as [|fuel IH]; intros c x; [done|]. cbn [duplex_loop].
  destruct (duplex_read E c x) as [[c1 x1] o1] eqn:R. intros E1 Hs.
  apply duplex_read_safe in R as [Hs1 Hp1]; [|done].
  destruct o1 as [o1|]; [injection E1 as <- <- <-; split; [done|by intros ->]|].
  destruct (duplex_write E _ c1 x1) as [[[c2 x2] o2]|] eqn:W; [|done].
  apply duplex_write_safe in W as [Hs2 Hp2]; [|done].
  destruct o2 as [o2|]; [injection E1 as <- <- <-; split; [done|by intros ->]|].
  destruct (duplex_finish E c2 x2) as [x3 o3] eqn:F. apply duplex_finish_safe in F as [Hi3 Hp3]; [|apply Hs2].
  assert (safe c2 x3) as Hs3 by (split; [done|apply Hs2]).
  destruct o3 as [o3|]; [injection E1 as <- <- <-; split; [done|by intros ->]|]. by apply (IH _ _ E1).
Qed.
End Safe.

(** ** Properties *)

(** The copy between any two ends is the copy of [Io].  With the scripts
    as ends, a poll ends in the same fuel with the same result, the same
    buffer and the same scripts. *)
Theorem duplex_is_buf_copy fuel c :
  duplex_loop script_ends fuel (copy_of c) (reader c, writer c) =
    (fun x => (copy_of x.1, (reader x.1, writer x.1), x.2)) <$> copy_loop fuel c.
Proof.
  revert c. induction fuel as [|fuel IH]; intros c; [done|]. cbn [duplex_loop copy_loop].
  assert (duplex_read script_ends (copy_of c) (reader c, writer c) =
    (copy_of (read_in c).1, (reader (read_in c).1, writer (read_in c).1), (read_in c).2)) as ->.
  { unfold duplex_read, read_in. cbn. case_decide; [|done]. destruct (read_done c) eqn:Hd; [done|].
    destruct (poll_read (length (buf c)) (reader c)) as [[[l|e|]|] s]; cbn; unfold copy_of; rewrite ?Hd; try done.
    by case_decide. }
  destruct (read_in c) as [c1 [o|]]; [done|]. cbn [fst snd].
  assert (forall f c1, duplex_write script_ends f (copy_of c1) (reader c1, writer c1) =
    (fun x => (copy_of x.1, (reader x.1, writer x.1), x.2)) <$> write_out f c1) as Hw.
  { induction f as [|f IHf]; intros c2; [done|]. cbn [duplex_write write_out].
    change (c_pos (copy_of c2)) with (pos c2). change (c_cap (copy_of c2)) with (cap c2).
    case_decide; [|done]. change (held (copy_of c2)) with (pending c2). cbn [script_ends e_write fst snd].
    destruct (poll_write (pending c2) (writer c2)) as [[[i|e|]|] w]; cbn; unfold copy_of; cbn;
      rewrite ?Nat.add_0_r; try done.
    case_decide; [done|].
    exact (IHf {| reader := reader c2; read_done := read_done c2; writer := w; pos := pos c2 + i;
                  cap := cap c2; amt := wrap 64 (amt c2 + Z.of_nat i); buf := buf c2 |}). }
  change (c_cap (copy_of c1)) with (cap c1). change (c_pos (copy_of c1)) with (pos c1). rewrite Hw. clear Hw.
  destruct (write_out _ c1) as [[c2 [o|]]|]; [done| |done]. cbn [fmap option_fmap option_map fst snd].
  assert (duplex_finish script_ends (copy_of c2) (reader c2, writer c2) =
    ((reader (finish c2).1, writer (finish c2).1), (finish c2).2) /\ copy_of (finish c2).1 = copy_of c2) as [-> Hc].
  { unfold duplex_finish, finish. cbn. case_decide; [|done]. destruct (read_done c2) eqn:Hd; [|done].
    unfold copy_of. destruct (poll_flush (writer c2)) as [[[[]|e|]|] w]; cbn; by rewrite ?Hd. }
  destruct (finish c2) as [c3 [o|]]; cbn in Hc |- *; [by rewrite Hc|]. by rewrite <- Hc, IH.
Qed.
