(* ===== verification/MuxRelay.v ===== *)
(** * A relay over a multiplexed stream (src/src/tunnel/relay.rs over src/src/rmux/stream.rs)

    [relay] when its remote end is a stream of a session: the upload reads the
    client and writes the stream, the download reads the stream and writes the
    client, and both are behind the same cell.  The copies are those of
    [Duplex]; the methods of the stream are those of [Stream].  Between two
    polls the event task of the session puts chunks into the data channel and
    changes the cell. *)
From stdpp Require Import prelude strings.
From Stdlib Require Import ZArith Lia.
From S2P Require Import Prelude Io Event Buf Stream Relay Duplex.

Local Open Scope Z_scope.

(** ** The ends *)

Section Mux.
Context {W : Type} `{WindowReporter W}.

(** The client, the stream with its data channel, the DATA events sent so
    far, what the event channel answers to the writes to come (always room
    when the script is over), and the manager.  [hung_up]: the sender of the
    data channel is gone. *)
Record MuxEnds := {
  client_in : source;
  client_out : sink;
  stream_cell : Cell;
  mux_reader : MuxStreamReader;
  inbox : list (list byte);
  hung_up : bool;
  outbox : list Event;
  room : list (poll (io_result unit) * io_result unit);
  reporter : W;
}.

Definition set_client (x : MuxEnds) (s : source) (w : sink) : MuxEnds :=
  {| client_in := s; client_out := w; stream_cell := stream_cell x; mux_reader := mux_reader x;
     inbox := inbox x; hung_up := hung_up x; outbox := outbox x; room := room x; reporter := reporter x |}.
Definition set_stream (x : MuxEnds) (c : Cell) (r : MuxStreamReader) (q : list (list byte)) (w : W) : MuxEnds :=
  {| client_in := client_in x; client_out := client_out x; stream_cell := c; mux_reader := r;
     inbox := q; hung_up := hung_up x; outbox := outbox x; room := room x; reporter := w |}.
Definition set_cell_of (x : MuxEnds) (c : Cell) : MuxEnds := set_stream x c (mux_reader x) (inbox x) (reporter x).

(** [MuxStreamReader::poll_read] with room for [n] bytes. *)
Definition mux_read (n : nat) (x : MuxEnds) : poll (io_result (list byte)) * MuxEnds :=
  let recv := match inbox x with
              | b :: _ => Ready (Some b)
              | [] => if hung_up x then Ready None else Pending
              end in
  let polled := negb (closed (state (stream_cell x))) && bool_decide (recv_buf (mux_reader x) = []) in
  match Stream.poll_read (mux_reader x) (state (stream_cell x)) (reporter x) (replicate n x00) recv with
  | Ok (r, rd, s, w, buf, _) =>
      (match r with
       | Ready (Ok k) => Ready (Ok (take k buf))
       | Ready (Err e) => Ready (Err e)
       | Ready Panic => Ready Panic
       | Pending => Pending
       end,
       set_stream x {| state := s; io_state := io_state (stream_cell x) |} rd
         (if polled then drop 1 (inbox x) else inbox x) w)
  | Err e => match e with end
  | Panic => (Ready Panic, x)
  end.

(** [MuxStreamWriter::poll_write] by the task of the relay. *)
Definition mux_write (l : list byte) (x : MuxEnds) : poll (io_result nat) * MuxEnds :=
  let '(ready, sent) := match room x with a :: _ => a | [] => (Ready (Ok tt), Ok tt) end in
  let '(r, c, ev) := Stream.poll_write (stream_cell x) l 0%nat ready sent in
  (r, {| client_in := client_in x; client_out := client_out x; stream_cell := c; mux_reader := mux_reader x;
         inbox := inbox x; hung_up := hung_up x; outbox := outbox x ++ option_list ev;
         room := drop 1 (room x); reporter := reporter x |}).

Definition up_ends : Ends MuxEnds := {|
  e_read n x := let '(r, s) := Io.poll_read n (client_in x) in (r, set_client x s (client_out x));
  e_write := mux_write;
  e_flush x := (Stream.poll_flush, x);
  e_left x := weight (client_in x);
|}.

Definition down_ends : Ends MuxEnds := {|
  e_read := mux_read;
  e_write l x := let '(r, w) := Io.poll_write l (client_out x) in (r, set_client x (client_in x) w);
  e_flush x := let '(r, w) := Io.poll_flush (client_out x) in (r, set_client x (client_in x) w);
  e_left x := reads_needed (mux_reader x) (inbox x);
|}.

(** ** The relay *)

Record MuxRelay := {
  up_copy : Copy;
  up_out : option (io_result Z);
  down_copy : Copy;
  down_out : option (io_result Z);
  ends : MuxEnds;
}.

Definition relay_start (x : MuxEnds) : MuxRelay :=
  {| up_copy := copy_new RELAY_BUF; up_out := None; down_copy := copy_new RELAY_BUF; down_out := None; ends := x |}.

(** [client_to_server]: the copy, then [remote_writer.shutdown()]. *)
Definition poll_up (r : MuxRelay) : option MuxRelay :=
  match up_out r with
  | Some _ => Some r
  | None =>
      '(c, x, res) ← duplex_poll up_ends (up_copy r) (ends r);
      Some match res with
           | Pending => {| up_copy := c; up_out := None; down_copy := down_copy r; down_out := down_out r; ends := x |}
           | Ready o => {| up_copy := c; up_out := Some o; down_copy := down_copy r; down_out := down_out r;
                           ends := set_cell_of x (poll_shutdown (stream_cell x)).2 |}
           end
  end.

(** [server_to_client]: the copy; the shutdown of the client's side is not
    seen from here. *)
Definition poll_down (r : MuxRelay) : option MuxRelay :=
  match down_out r with
  | Some _ => Some r
  | None =>
      '(c, x, res) ← duplex_poll down_ends (down_copy r) (ends r);
      Some {| up_copy := up_copy r; up_out := up_out r; down_copy := c;
              down_out := match res with Pending => None | Ready o => Some o end; ends := x |}
  end.

Definition both_over (r : MuxRelay) : bool :=
  bool_decide (is_Some (up_out r)) && bool_decide (is_Some (down_out r)).

(** What the other tasks do before a poll: the chunks put into the data
    channel, and what becomes of the cell. *)
Record Turn := { arrives : list (list byte); hangs_up : bool; meanwhile : Cell -> Cell }.

Definition arrive_at (t : Turn) (x : MuxEnds) : MuxEnds :=
  {| client_in := client_in x; client_out := client_out x;
     stream_cell := meanwhile t (stream_cell x); mux_reader := mux_reader x;
     inbox := inbox x ++ arrives t; hung_up := hung_up x || hangs_up t; outbox := outbox x;
     room := room x; reporter := reporter x |}.
Definition arrive (t : Turn) (r : MuxRelay) : MuxRelay :=
  {| up_copy := up_copy r; up_out := up_out r; down_copy := down_copy r; down_out := down_out r;
     ends := arrive_at t (ends r) |}.

(** A poll of the join.  A tunnel relays its client to the stream, the upload
    first; the task that serves a stream of the peer relays the stream to its
    target, the download first. *)
Definition mux_poll (serving : bool) (r : MuxRelay) : option MuxRelay :=
  if serving then r ← poll_down r; poll_up r else r ← poll_up r; poll_down r.

(** One poll per turn. *)
Fixpoint mux_relay (serving : bool) (turns : list Turn) (r : MuxRelay) : option MuxRelay :=
  match turns with
  | [] => Some r
  | t :: turns => r ← mux_poll serving (arrive t r); mux_relay serving turns r
  end.

(** A panic of a copy is one of the task that relays. *)
Definition panicked (r : MuxRelay) : bool :=
  match up_out r, down_out r with Some Panic, _ | _, Some Panic => true | _, _ => false end.

(** [relay(..).await]: polled, once per turn, until it is over; the [bool] is
    whether it is. *)
Fixpoint relay_await (serving : bool) (turns : list Turn) (r : MuxRelay) : option (partial (MuxRelay * bool)) :=
  match turns with
  | [] => Some (Ok (r, false))
  | t :: turns =>
      r ← mux_poll serving (arrive t r);
      if panicked r then Some Panic
      else if both_over r then Some (Ok (r, true))
      else relay_await serving turns r
  end.

(** [write_all] of the bytes read ahead, one poll of it: what is left of them. *)
Fixpoint poll_write_all (fuel : nat) (l : list byte) (x : MuxEnds)
    : option (poll (io_result unit) * list byte * MuxEnds) :=
  match fuel with
  | O => None
  | S fuel =>
      if decide (l = []) then Some (Ready (Ok tt), l, x)
      else
        match mux_write l x with
        | (Ready (Ok n), x) =>
            if decide (n = 0%nat) then Some (Ready (Err "write zero"%string), l, x)
            else poll_write_all fuel (drop n l) x
        | (Ready (Err e), x) => Some (Ready (Err e), l, x)
        | (Ready Panic, x) => Some (Ready Panic, l, x)
        | (Pending, x) => Some (Pending, l, x)
        end
  end.

(** [write_all(..).await]: the turns it leaves over. *)
Fixpoint write_all_await (turns : list Turn) (l : list byte) (x : MuxEnds)
    : option (poll (io_result unit) * list byte * MuxEnds * list Turn) :=
  match turns with
  | [] => Some (Pending, l, x, [])
  | t :: turns =>
      '(r, l, x) ← poll_write_all (S (length l)) l (arrive_at t x);
      match r with
      | Pending => write_all_await turns l x
      | Ready r => Some (Ready r, l, x, turns)
      end
  end.

(** ** What the ends convey *)

Definition sent_bytes (x : MuxEnds) : list byte := mjoin (body <$> outbox x).
Definition unread (x : MuxEnds) : list byte := recv_buf (mux_reader x) ++ mjoin (inbox x).

#[export] Instance up_faithful : Faithful up_ends (fun x => stream (client_in x)) sent_bytes.
Proof.
  split; cbn.
  - intros n x r x' E. destruct (Io.poll_read n (client_in x)) as [r' s] eqn:R. injection E as <- <-.
    split; [done|]. pose proof (f_read (E := script_ends) n (client_in x, client_out x) r' (s, client_out x)) as Hr.
    cbn in Hr. rewrite R in Hr. by destruct (Hr eq_refl).
  - intros l x r x' E. unfold mux_write in E.
    destruct (match room x with a :: _ => a | [] => _ end) as [ready sent].
    destruct (Stream.poll_write _ l _ _ _) as [[res c] ev] eqn:Ew. injection E as <- <-. cbn.
    split_and!; [done..|]. unfold sent_bytes. cbn. rewrite fmap_app, join_app.
    unfold Stream.poll_write in Ew. destruct (closed _); [simplify_eq/=; by rewrite app_nil_r|].
    case_decide; [simplify_eq/=; by rewrite app_nil_r|].
    destruct ready as [[[]|e|]|]; [|simplify_eq/=; by rewrite app_nil_r..].
    destruct sent as [[]|e|]; simplify_eq/=; [|by rewrite app_nil_r..].
    split; [lia|]. by rewrite take_ge, app_nil_r by lia.
  - intros x r x' E. by injection E as <- <-.
Qed.

#[export] Instance down_faithful : Faithful down_ends unread (fun x => written (client_out x)).
Proof.
  split; cbn.
  - intros n x r x' E. unfold mux_read in E. unfold unread.
    destruct (closed (state (stream_cell x))) eqn:Hc.
    { unfold Stream.poll_read in E. rewrite Hc in E. unmonad. injection E as <- <-. done. }
    cbn [negb andb] in E.
    destruct (decide (recv_buf (mux_reader x) = [])) as [Hr|Hr]; last first.
    { rewrite bool_decide_eq_false_2, poll_read_buffered, length_replicate in E by done.
      case_decide as Hl; [|by injection E as <- <-].
      destruct (inc_recv_buf_window _ _ _) as [s' w']. injection E as <- <-. cbn.
      rewrite take_app_length. split_and!; [done|done|done|]. intros _.
      unfold reads_needed. cbn. rewrite (decide_False (P := recv_buf (mux_reader x) = [])) by done.
      destruct (decide _) as [|[]]; [lia|done]. }
    rewrite bool_decide_eq_true_2 in E by done. destruct (inbox x) as [|b q] eqn:Hq.
    { unfold Stream.poll_read in E. rewrite Hc, decide_False in E by tauto.
      destruct (hung_up x); unmonad; injection E as <- <-; cbn; rewrite ?Hr; split_and!; rewrite ?length_take; (done || lia). }
    destruct (decide (b = [])) as [->|Hb].
    { unfold Stream.poll_read in E. rewrite Hc, decide_False in E by tauto. cbn in E.
      unmonad. injection E as <- <-. cbn. split_and!; rewrite ?length_take; (done || lia). }
    rewrite poll_read_chunk, length_replicate in E by done.
    destruct (inc_recv_buf_window _ _ _) as [s' w']. injection E as <- <-. cbn. rewrite Hr. cbn.
    set (k := min (length b) n).
    assert (take k (take k b ++ drop k (replicate n x00)) = take k b) as ->.
    { rewrite take_app_le, take_take, Nat.min_id by (rewrite length_take; lia). done. }
    split_and!; [done|rewrite length_take; lia|by rewrite app_assoc, take_drop|].
    intros _. unfold reads_needed. cbn. rewrite (decide_True (P := recv_buf _ = [])) by done.
    rewrite drop_0. destruct (decide (drop _ _ = [])); lia.
  - intros l x r x' E. destruct (Io.poll_write l (client_out x)) as [r' w] eqn:R. injection E as <- <-.
    split_and!; [done..|]. pose proof (f_write (E := script_ends) l (client_in x, client_out x) r' (client_in x, w)) as Hr.
    cbn in Hr. rewrite R in Hr. by destruct (Hr eq_refl) as (_ & _ & ?).
  - intros x r x' E. destruct (Io.poll_flush (client_out x)) as [r' w] eqn:R. injection E as <- <-.
    apply poll_flush_written in R as [Hw _]. split; [done|exact Hw].
Qed.
End Mux.

(** ** Lemmas *)

(** A DATA event of the stream, as [poll_write] makes them. *)
Definition data_event (sid : Z) (ev : Event) : Prop :=
  exists l, ev = new_data_event sid l false /\ l <> [] /\ (length l <= Z.to_nat 8192)%nat.

Section MuxLemmas.
Context {W : Type} `{WindowReporter W}.
Implicit Types (x : MuxEnds (W := W)) (r : MuxRelay (W := W)).

Definition is_closed_end x : bool := closed (state (stream_cell x)).
Definition sid_of x : Z := stream_id (state (stream_cell x)).

(** What the upload leaves alone, and what it adds. *)
Definition up_rel x x' : Prop :=
  client_out x' = client_out x /\ unread x' = unread x /\ is_closed_end x' = is_closed_end x /\
  sid_of x' = sid_of x /\
  exists evs, outbox x' = outbox x ++ evs /\ Forall (data_event (sid_of x)) evs.

(** What the download leaves alone. *)
Definition down_rel x x' : Prop :=
  client_in x' = client_in x /\ outbox x' = outbox x /\ sid_of x' = sid_of x /\
  (is_closed_end x = true -> is_closed_end x' = true /\ unread x' = unread x) /\
  (writes (client_out x) = [] -> flushes (client_out x) = [] ->
   writes (client_out x') = [] /\ flushes (client_out x') = []).

#[export] Instance up_rel_preorder : PreOrder up_rel.
Proof.
  split.
  - intros x. split_and!; try done. exists []. by rewrite app_nil_r.
  - intros x y z (H1 & H2 & H3 & H4 & evs & H5 & H6) (K1 & K2 & K3 & K4 & evs' & K5 & K6).
    split_and!; [congruence..|]. exists (evs ++ evs'). rewrite K5, H5, <- app_assoc. split; [done|].
    apply Forall_app. rewrite <- H4 at 2. done.
Qed.

#[export] Instance down_rel_preorder : PreOrder down_rel.
Proof.
  split.
  - intros x. by split_and!.
  - intros x y z (H1 & H2 & H3 & H4 & H5) (K1 & K2 & K3 & K4 & K5).
    split_and!; [congruence..| |].
    + intros Hc. destruct (H4 Hc) as [Hy Eu]. destruct (K4 Hy) as [? Ez]. split; [done|congruence].
    + intros Hw Hf. destruct (H5 Hw Hf). auto.
Qed.

Lemma mux_write_rel l x : l <> [] -> (length l <= Z.to_nat 8192)%nat -> up_rel x (mux_write l x).2.
Proof.
  intros Hl Hn. unfold mux_write. destruct (match room x with a :: _ => a | [] => _ end) as [ready sent].
  destruct (Stream.poll_write _ l _ _ _) as [[res c] ev] eqn:E. unfold Stream.poll_write in E.
  unfold up_rel, is_closed_end, sid_of. cbn.
  destruct (closed (state (stream_cell x))) eqn:Hc.
  { injection E as <- <- <-. split_and!; try done. exists []. done. }
  case_decide; [injection E as <- <- <-; split_and!; try done; by exists []|].
  destruct ready as [[[]|e|]|]; [|injection E as <- <- <-; split_and!; try done; by exists []..].
  destruct sent as [[]|e|]; injection E as <- <- <-; split_and!; try done; [|by exists []..].
  eexists. split; [done|]. cbn. apply Forall_singleton. by exists l.
Qed.

Lemma mux_read_rel n x : down_rel x (mux_read n x).2.
Proof.
  unfold mux_read. destruct (Stream.poll_read _ _ _ _ _) as [[[[[[r rd] s] w] b] effs]|[]|] eqn:E; [|done].
  assert (forall k w0, stream_id (inc_recv_buf_window (state (stream_cell x)) k w0).1 = sid_of x /\
    closed (inc_recv_buf_window (state (stream_cell x)) k w0).1 = is_closed_end x) as Hinc.
  { intros k w0. split; [|apply inc_recv_closed]. unfold inc_recv_buf_window. case_decide; [|done].
    by destruct (report_update_window _ _ _ _ w0) as [[] w']. }
  unfold down_rel, is_closed_end, sid_of, unread. cbn. unfold Stream.poll_read in E.
  destruct (closed (state (stream_cell x))) eqn:Hc; cbn [negb andb].
  { unmonad. injection E as <- <- <- <- <- <-. by rewrite Hc. }
  case_decide as Hr.
  { destruct (fill_read_buf _ _) as [[[k rest] buf']|[]|]; [|done]. unmonad.
    specialize (Hinc k (reporter x)). destruct (inc_recv_buf_window _ k _) as [s' w'].
    injection E as <- <- <- <- <- <-. cbn in *. by destruct Hinc as [-> ->]. }
  destruct (inbox x) as [|b0 q].
  { destruct (hung_up x); unmonad; injection E as <- <- <- <- <- <-; split_and!; try done; by rewrite Hc. }
  case_decide; [unmonad; by injection E as <- <- <- <- <- <-|].
  match type of E with context [inc_recv_buf_window _ ?k _] => specialize (Hinc k (reporter x)) end.
  destruct (inc_recv_buf_window _ _ _) as [s' w']. unmonad.
  injection E as <- <- <- <- <- <-. cbn in *. by destruct Hinc as [-> ->].
Qed.

Lemma up_poll_rel c x c' x' o :
  duplex_poll up_ends c x = Some (c', x', o) -> sized (Z.to_nat 8192) c ->
  up_rel x x' /\ sized (Z.to_nat 8192) c'.
Proof.
  apply (duplex_poll_keeps up_ends (fun x => stream (client_in x)) sent_bytes up_rel).
  - intros n y. cbn. destruct (Io.poll_read _ _) as [r s]. split_and!; try done. exists []. by rewrite app_nil_r.
  - intros l y Hl Hn. by apply mux_write_rel.
  - done.
Qed.

Lemma down_poll_rel c x c' x' o :
  duplex_poll down_ends c x = Some (c', x', o) -> sized (Z.to_nat 8192) c ->
  down_rel x x' /\ sized (Z.to_nat 8192) c'.
Proof.
  apply (duplex_poll_keeps down_ends unread (fun x => written (client_out x)) down_rel).
  - intros n y. apply mux_read_rel.
  - intros l y _ _. cbn. destruct (Io.poll_write l _) as [r w] eqn:E. split_and!; try done.
    intros Hw Hf. unfold Io.poll_write in E. rewrite Hw in E. by injection E as <- <-.
  - intros y. cbn. destruct (Io.poll_flush _) as [r w] eqn:E. split_and!; try done.
    intros Hw Hf. unfold Io.poll_flush in E. rewrite Hf in E. by injection E as <- <-.
Qed.

(** The upload has seen the end of the client only if it is there. *)
Lemma up_poll_ended c x c' x' o :
  duplex_poll up_ends c x = Some (c', x', o) -> healthy (client_in x) -> (0 < length (c_buf c))%nat ->
  (c_done c = true -> stream (client_in x) = []) ->
  healthy (client_in x') /\ (c_done c' = true -> stream (client_in x') = []).
Proof.
  intros E Hh Hb Hd.
  assert (forall l (y : MuxEnds (W := W)), client_in (mux_write l y).2 = client_in y) as Hw.
  { intros l y. unfold mux_write. destruct (match room y with a :: _ => a | [] => _ end) as [ready sent].
    by destruct (Stream.poll_write _ _ _ _ _) as [[? ?] ?]. }
  destruct (duplex_poll_ended up_ends (fun x => stream (client_in x)) sent_bytes
    (fun x => healthy (client_in x))) with (c := c) (x := x) (c' := c') (x' := x') (r := o) as (? & _ & ?); try done.
  - intros n y Hy. cbn. destruct (Io.poll_read n (client_in y)) as [r s] eqn:R. cbn.
    destruct (client_in y) as [|[l|e|] s0]; cbn in R; injection R as <- <-; [done| | |].
    + case_decide; [by apply healthy_cons in Hy as [_ ?]|]. apply healthy_drop; [lia|done].
    + by apply healthy_cons in Hy as [[] _].
    + by apply healthy_cons in Hy as [_ ?].
  - intros l y Hy. cbn. by rewrite Hw.
  - intros n y y' Hn Hy R. cbn in R. destruct (Io.poll_read n (client_in y)) as [r s] eqn:R'.
    injection R as -> _. apply poll_read_healthy in R' as [[? _]|(l & El & _ & _ & _ & Hl & _)]; [done| |done|done].
    injection El as <-. by destruct (Hl eq_refl) as [-> _].
Qed.

(** The other tasks keep the id of the stream and do not open it again. *)
Definition turn_ok (t : Turn) : Prop :=
  forall c, stream_id (state (meanwhile t c)) = stream_id (state c) /\
            (closed (state c) = true -> closed (state (meanwhile t c)) = true).

Abbreviation to_send := (fun x : MuxEnds (W := W) => stream (client_in x)).
Abbreviation delivered := (fun x : MuxEnds (W := W) => written (client_out x)).

(** The relay since [x0], with [arrived] put into the data channel. *)
Record relay_inv x0 (arrived : list byte) r : Prop := {
  ri_up_sized : sized (Z.to_nat 8192) (up_copy r);
  ri_down_sized : sized (Z.to_nat 8192) (down_copy r);
  ri_up : conveyed to_send sent_bytes (up_copy r) (ends r) = sent_bytes x0 ++ to_send x0;
  ri_down : conveyed unread delivered (down_copy r) (ends r) = delivered x0 ++ unread x0 ++ arrived;
  ri_sid : sid_of (ends r) = sid_of x0;
  ri_events : exists evs, outbox (ends r) = outbox x0 ++ evs /\ Forall (data_event (sid_of x0)) evs;
  ri_shut : is_Some (up_out r) -> is_closed_end (ends r) = true;
  ri_healthy : healthy (client_in (ends r));
  ri_ended : c_done (up_copy r) = true -> to_send (ends r) = [];
  ri_whole : forall n, up_out r = Some (Ok n) -> held (up_copy r) = [] /\ c_done (up_copy r) = true;
  ri_open : writes (client_out x0) = [] -> flushes (client_out x0) = [] ->
    writes (client_out (ends r)) = [] /\ flushes (client_out (ends r)) = [];
}.

Lemma sized_new : sized (Z.to_nat 8192) (copy_new RELAY_BUF).
Proof. split; [apply copy_new_wf|]. unfold RELAY_BUF. cbn [c_buf copy_new]. by rewrite length_replicate. Qed.

Lemma relay_start_inv x : healthy (client_in x) -> relay_inv x [] (relay_start x).
Proof.
  intros Hx. constructor; cbn; auto using sized_new; try done.
  - by rewrite app_nil_r.
  - exists []. by rewrite app_nil_r.
Qed.

Lemma arrive_inv x0 arrived t r :
  turn_ok t -> relay_inv x0 arrived r -> relay_inv x0 (arrived ++ mjoin (arrives t)) (arrive t r).
Proof.
  intros Ht []. destruct (Ht (stream_cell (ends r))) as [Hid Hcl]. constructor; try done.
  - unfold conveyed, unread in *. cbn in *. rewrite join_app. rewrite !app_assoc in *. by rewrite ri_down0.
  - unfold sid_of in *. cbn. by rewrite Hid.
  - intros Ho. apply Hcl. by apply ri_shut0.
Qed.

Lemma poll_up_inv x0 arrived r :
  relay_inv x0 arrived r -> exists r', poll_up r = Some r' /\ relay_inv x0 arrived r'.
Proof.
  intros HI. unfold poll_up. destruct (up_out r) as [o|] eqn:Ho; [by exists r|].
  destruct HI as [Hs Hd Hu Hdn Hid (evs & Hev & Hf) _ Hh He _ Hop]. pose proof Hs as [Hwf Hlen].
  destruct (duplex_poll_spec up_ends to_send sent_bytes (up_copy r) (ends r) Hwf)
    as (c & x & res & E & _ & Hc & _ & Hfin).
  destruct (up_poll_rel _ _ _ _ _ E Hs) as [(R1 & R2 & R3 & R4 & evs' & R5 & R6) Hs'].
  destruct (up_poll_ended _ _ _ _ _ E Hh) as [Hh' He']; [rewrite Hlen; lia|done|].
  rewrite E. cbn [mbind option_bind]. eexists. split; [done|].
  assert (relay_inv x0 arrived {| up_copy := c; up_out := None; down_copy := down_copy r;
    down_out := down_out r; ends := x |}) as HI.
  { constructor; cbn; try done.
    - by rewrite Hc.
    - unfold conveyed in *. by rewrite R1, R2.
    - by rewrite R4.
    - exists (evs ++ evs'). rewrite R5, Hev, <- app_assoc. split; [done|]. apply Forall_app.
      split; [done|]. by rewrite <- Hid.
    - by rewrite R1. }
  destruct res as [o|]; [|done]. destruct HI. constructor; try done.
  intros n [= ->]. by apply (Hfin n).
Qed.

Lemma poll_down_inv x0 arrived r :
  relay_inv x0 arrived r -> exists r', poll_down r = Some r' /\ relay_inv x0 arrived r' /\
    up_copy r' = up_copy r /\ up_out r' = up_out r.
Proof.
  intros HI. unfold poll_down. destruct (down_out r) as [o|] eqn:Ho; [by exists r|].
  destruct HI as [Hs Hd Hu Hdn Hid (evs & Hev & Hf) Hsh Hh He Hwh Hop]. pose proof Hd as [Hwf Hlen].
  destruct (duplex_poll_spec down_ends unread delivered (down_copy r) (ends r) Hwf)
    as (c & x & res & E & _ & Hc & _ & Hfin).
  destruct (down_poll_rel _ _ _ _ _ E Hd) as [(R1 & R2 & R3 & R4 & R5) Hd'].
  rewrite E. cbn [mbind option_bind]. eexists. split; [done|]. split; [|done].
  constructor; cbn; try done.
  - unfold conveyed, sent_bytes in *. by rewrite R1, R2.
  - rewrite <- Hdn. exact Hc.
  - by rewrite R3.
  - exists evs. by rewrite R2.
  - intros Hup. by apply R4, Hsh.
  - by rewrite R1.
  - by rewrite R1.
  - intros Hw Hfl. destruct (Hop Hw Hfl). by apply R5.
Qed.

Lemma mux_poll_inv x0 serving arrived r :
  relay_inv x0 arrived r -> exists r', mux_poll serving r = Some r' /\ relay_inv x0 arrived r'.
Proof.
  intros HI. unfold mux_poll. destruct serving.
  - destruct (poll_down_inv _ _ _ HI) as (r1 & -> & HI1 & _). by apply poll_up_inv.
  - destruct (poll_up_inv _ _ _ HI) as (r1 & -> & HI1).
    destruct (poll_down_inv _ _ _ HI1) as (r2 & E & HI2 & _). by exists r2.
Qed.

(** Once the upload is over a poll is one of the download. *)
Lemma mux_poll_over serving x0 arrived r :
  relay_inv x0 arrived r -> is_Some (up_out r) -> mux_poll serving r = poll_down r.
Proof.
  intros HI [o Ho]. unfold mux_poll. destruct serving; [|unfold poll_up; by rewrite Ho].
  destruct (poll_down_inv _ _ _ HI) as (r1 & -> & _ & _ & Hup). cbn [mbind option_bind].
  unfold poll_up. by rewrite Hup, Ho.
Qed.

Lemma mux_relay_inv x0 serving turns arrived r :
  Forall turn_ok turns -> relay_inv x0 arrived r ->
  exists r', mux_relay serving turns r = Some r' /\
    relay_inv x0 (arrived ++ mjoin (mjoin (arrives <$> turns))) r'.
Proof.
  intros Ht. revert arrived r. induction Ht as [|t turns Hok _ IH]; intros arrived r HI; cbn.
  - exists r. by rewrite app_nil_r.
  - apply (arrive_inv _ _ t) in HI as HI1; [|done].
    destruct (mux_poll_inv _ serving _ _ HI1) as (r2 & -> & HI3). cbn [mbind option_bind].
    destruct (IH _ _ HI3) as (r' & -> & HI'). exists r'. split; [done|].
    by rewrite join_app, app_assoc.
Qed.

Lemma mux_read_pending n x x' :
  mux_read n x = (Pending, x') -> is_closed_end x' = false /\ unread x' = [].
Proof.
  unfold mux_read. destruct (Stream.poll_read _ _ _ _ _) as [[[[[[r rd] s] w] b] effs]|[]|] eqn:E; [|done].
  intros Er. unfold Stream.poll_read in E. unfold is_closed_end, unread.
  destruct (closed (state (stream_cell x))) eqn:Hc.
  { unmonad. injection E as <- <- <- <- <- <-. done. }
  case_decide as Hr.
  { destruct (fill_read_buf _ _) as [[[k rest] buf']|[]|]; [|done]. unmonad.
    destruct (inc_recv_buf_window _ k _) as [s' w']. by injection E as <- <- <- <- <- <-. }
  destruct (inbox x) as [|b0 q].
  { destruct (hung_up x); unmonad; injection E as <- <- <- <- <- <-; [done|]. injection Er as <-. cbn.
    rewrite Hr. split; [done|]. by case_match. }
  case_decide; unmonad; [by injection E as <- <- <- <- <- <-|].
  destruct (inc_recv_buf_window _ _ _) as [s' w']. by injection E as <- <- <- <- <- <-.
Qed.

(** A client that takes everything at once. *)
Definition takes_all x : Prop := writes (client_out x) = [] /\ flushes (client_out x) = [].

Lemma down_poll_waits c x c' x' :
  duplex_poll down_ends c x = Some (c', x', Pending) -> takes_all x ->
  held c' = [] /\ is_closed_end x' = false /\ unread x' = [].
Proof.
  intros E Hx. apply (duplex_poll_waits down_ends takes_all) in E as [_ Hw]; [| | | |done].
  - destruct (Hw eq_refl) as [[Hh (n & y & _ & R)]|[(l & y & Hy & R)|(y & Hy & R)]].
    + split; [done|]. by apply mux_read_pending in R.
    + destruct Hy as [Hy _]. cbn in R. unfold Io.poll_write in R. by rewrite Hy in R.
    + destruct Hy as [_ Hy]. cbn in R. unfold Io.poll_flush in R. by rewrite Hy in R.
  - intros n y [? ?]. pose proof (mux_read_rel n y) as (_ & _ & _ & _ & Hk). by apply Hk.
  - intros l y [Hy Hf]. cbn. unfold Io.poll_write. by rewrite Hy.
  - intros y [Hy Hf]. cbn. unfold Io.poll_flush. by rewrite Hf.
Qed.

(** On a closed stream a poll of the download writes from its buffer at most,
    and is the last one when the client takes everything. *)
Lemma down_poll_closed c x c' x' res :
  duplex_poll down_ends c x = Some (c', x', res) -> sized (Z.to_nat 8192) c -> is_closed_end x = true ->
  is_closed_end x' = true /\ delivered x' ++ held c' = delivered x ++ held c /\
  (takes_all x -> res <> Pending).
Proof.
  intros E Hs Hc. pose proof Hs as [Hwf _].
  destruct (duplex_poll_spec down_ends unread delivered c x Hwf) as (c1 & x1 & r1 & E1 & _ & Hcv & _).
  rewrite E1 in E. injection E as -> -> ->.
  destruct (down_poll_rel _ _ _ _ _ E1 Hs) as [(_ & _ & _ & R4 & _) _]. destruct (R4 Hc) as [Hc' Hu].
  split_and!; [done| |].
  - unfold conveyed in Hcv. rewrite Hu, !app_assoc in Hcv. by apply app_inv_tail in Hcv.
  - intros Hx ->. apply down_poll_waits in E1 as (_ & ? & _); [congruence|done].
Qed.

(** Once the upload is over, nothing more is read from the stream. *)
Lemma mux_relay_cut x0 serving turns arrived r r' :
  Forall turn_ok turns -> relay_inv x0 arrived r -> is_Some (up_out r) -> mux_relay serving turns r = Some r' ->
  delivered (ends r') ++ held (down_copy r') = delivered (ends r) ++ held (down_copy r) /\
  (turns <> [] -> takes_all x0 -> both_over r' = true).
Proof.
  intros Ht. revert arrived r. induction Ht as [|t turns Hok Hturns IH]; intros arrived r HI Hup E; cbn in E.
  { by injection E as <-. }
  apply (arrive_inv _ _ t) in HI as HI1; [|done]. rewrite (mux_poll_over _ _ _ _ HI1 Hup) in E.
  assert (up_out (arrive t r) = up_out r) as Hup1 by done. destruct Hup as [o Ho].
  destruct (poll_down_inv _ _ _ HI1) as (r2 & Ed & HI2 & _ & Hup2). rewrite Ed in E. cbn [mbind option_bind] in E.
  assert (is_Some (up_out r2)) as Hup2' by (rewrite Hup2, Hup1, Ho; by eexists).
  assert (delivered (ends r2) ++ held (down_copy r2) = delivered (ends r) ++ held (down_copy r) /\
    (takes_all x0 -> is_Some (down_out r2))) as [Hcut Hover].
  { unfold poll_down in Ed. destruct (down_out (arrive t r)) as [od|] eqn:Hdo.
    { injection Ed as <-. split; [done|]. intros _. rewrite Hdo. by eexists. }
    destruct (duplex_poll down_ends _ _) as [[[c x] res]|] eqn:Ep; [|done]. injection Ed as <-.
    destruct (down_poll_closed _ _ _ _ _ Ep (ri_down_sized _ _ _ HI1)) as (_ & Heq & Hp).
    { apply (ri_shut _ _ _ HI1). rewrite Hup1, Ho. by eexists. }
    split; [exact Heq|]. intros [Hw Hf]. cbn. destruct res; [by eexists|].
    destruct (ri_open _ _ _ HI1 Hw Hf). by destruct Hp. }
  destruct (IH _ _ HI2 Hup2' E) as [Hcut' Hover']. split; [congruence|]. intros _ Hx.
  destruct turns as [|t2 turns]; [|by apply Hover'].
  injection E as <-. unfold both_over. rewrite !bool_decide_eq_true_2; auto.
Qed.
End MuxLemmas.

Section MuxRuns.
Context {W : Type} `{WindowReporter W}.

Lemma mux_relay_snoc serving turns t (r : MuxRelay (W := W)) :
  mux_relay serving (turns ++ [t]) r = r ← mux_relay serving turns r; mux_poll serving (arrive t r).
Proof.
  revert r. induction turns as [|t0 turns IH]; intros r; cbn; [by destruct (mux_poll _ _)|].
  destruct (mux_poll serving (arrive t0 r)); [apply IH|done].
Qed.

(** A download that goes on leaves nothing unread. *)
Lemma poll_down_drains x0 arrived (r r' : MuxRelay (W := W)) :
  relay_inv x0 arrived r -> takes_all x0 -> poll_down r = Some r' -> down_out r' = None ->
  held (down_copy r') = [] /\ unread (ends r') = [].
Proof.
  intros HI [Hw Hf] E Hdo. unfold poll_down in E. destruct (down_out r) as [o|] eqn:Ho.
  { injection E as <-. congruence. }
  destruct (duplex_poll down_ends _ _) as [[[c x] res]|] eqn:Ep; [|done]. injection E as <-. cbn in *.
  destruct res as [o|]; [done|]. destruct (ri_open _ _ _ HI Hw Hf).
  apply down_poll_waits in Ep as (? & _ & ?); done.
Qed.

(** A poll of the upload leaves the download and what it has not read. *)
Lemma poll_up_leaves x0 arrived (r r' : MuxRelay (W := W)) :
  relay_inv x0 arrived r -> poll_up r = Some r' ->
  down_copy r' = down_copy r /\ down_out r' = down_out r /\ unread (ends r') = unread (ends r).
Proof.
  intros HI E. unfold poll_up in E. destruct (up_out r); [by injection E as <-|].
  destruct (duplex_poll up_ends _ _) as [[[c x] res]|] eqn:Ep; [|done].
  destruct (up_poll_rel _ _ _ _ _ Ep (ri_up_sized _ _ _ HI)) as [(_ & R2 & _) _].
  injection E as <-. by destruct res.
Qed.

Lemma mux_poll_drains x0 serving arrived (r r' : MuxRelay (W := W)) :
  relay_inv x0 arrived r -> takes_all x0 -> mux_poll serving r = Some r' -> down_out r' = None ->
  held (down_copy r') = [] /\ unread (ends r') = [].
Proof.
  intros HI Hx E Hdo. unfold mux_poll in E. destruct serving.
  - destruct (poll_down_inv _ _ _ HI) as (r1 & E1 & HI1 & _). rewrite E1 in E. cbn [mbind option_bind] in E.
    destruct (poll_up_leaves _ _ _ _ HI1 E) as (H1 & H2 & H3). rewrite H1, H3.
    apply (poll_down_drains _ _ _ _ HI Hx E1). congruence.
  - destruct (poll_up_inv _ _ _ HI) as (r1 & E1 & HI1). rewrite E1 in E. by eapply poll_down_drains.
Qed.

(** A run from the start keeps the invariant, and what its download has not
    delivered is in its buffer or unread; none of it when it goes on. *)
Lemma mux_relay_runs (x : MuxEnds (W := W)) serving turns :
  Forall turn_ok turns -> healthy (client_in x) ->
  exists r, mux_relay serving turns (relay_start x) = Some r /\
    relay_inv x (mjoin (mjoin (arrives <$> turns))) r /\
    (turns <> [] -> takes_all x -> down_out r = None -> held (down_copy r) = [] /\ unread (ends r) = []).
Proof.
  intros Ht Hx. destruct (mux_relay_inv x serving turns [] (relay_start x) Ht (relay_start_inv x Hx)) as (r & E & HI).
  exists r. split_and!; [done|done|]. intros Hne Hall Hdo.
  destruct turns as [|t turns _] using rev_ind; [done|].
  rewrite mux_relay_snoc in E. apply Forall_app in Ht as [Ht Hlast]. apply Forall_cons in Hlast as [Hlast _].
  destruct (mux_relay_inv x serving turns [] (relay_start x) Ht (relay_start_inv x Hx)) as (r1 & E1 & HI1).
  rewrite E1 in E. cbn [mbind option_bind] in E.
  by apply (mux_poll_drains x serving _ _ _ (arrive_inv _ _ t _ Hlast HI1) Hall E Hdo).
Qed.
End MuxRuns.

(** ** No panic *)

Section MuxSafe.
Context {W : Type} `{WindowReporter W}.
Implicit Types (x : MuxEnds (W := W)) (r : MuxRelay (W := W)).

(** A chunk of at most two buffers of the relay, an answer of the event
    channel that is not a panic, and ends with no others. *)
Definition fits (b : list byte) : Prop := (length b <= 2 * Z.to_nat 8192)%nat.
Definition answers (a : poll (io_result unit) * io_result unit) : Prop :=
  match a with (Ready Panic, _) | (_, Panic) => False | _ => True end.
Record steady x : Prop := {
  st_buf : (length (recv_buf (mux_reader x)) <= Z.to_nat 8192)%nat;
  st_inbox : Forall fits (inbox x);
  st_room : Forall answers (room x);
}.
Definition turn_fits (t : Turn) : Prop := Forall fits (arrives t).

Lemma mux_read_safe x :
  steady x -> steady (mux_read (Z.to_nat 8192) x).2 /\ (mux_read (Z.to_nat 8192) x).1 <> Ready Panic.
Proof.
  intros Hst. pose proof Hst as [Hb Hq Hr]. unfold mux_read.
  destruct (closed (state (stream_cell x))) eqn:Hc.
  { unfold Stream.poll_read. rewrite Hc. unmonad. by split. }
  destruct (decide (recv_buf (mux_reader x) = [])) as [He|He]; last first.
  { rewrite bool_decide_eq_false_2, poll_read_buffered, length_replicate, decide_True by done.
    destruct (inc_recv_buf_window _ _ _) as [s' w']. split; [|done]. split; [simpl; lia|done|done]. }
  destruct (inbox x) as [|b q] eqn:Hi.
  { unfold Stream.poll_read. rewrite Hc, decide_False by tauto. rewrite bool_decide_eq_true_2 by done.
    destruct (hung_up x); unmonad; (split; [|done]); (split; [done|cbn; constructor|done]). }
  apply Forall_cons in Hq as [Hfit Hq]. rewrite bool_decide_eq_true_2 by done.
  destruct (decide (b = [])) as [->|Hne].
  { unfold Stream.poll_read. rewrite Hc, decide_False by tauto. unmonad. split; [|done]. by split. }
  rewrite poll_read_chunk by done. rewrite length_replicate.
  destruct (inc_recv_buf_window _ _ _) as [s' w']. split; [|done]. split; [|done|done].
  cbn. rewrite length_drop. unfold fits in Hfit. lia.
Qed.

Lemma mux_write_safe l x : steady x -> steady (mux_write l x).2 /\ (mux_write l x).1 <> Ready Panic.
Proof.
  intros [Hb Hq Hr]. unfold mux_write.
  assert (answers (match room x with a :: _ => a | [] => (Ready (Ok tt), Ok tt) end) /\ Forall answers (drop 1 (room x)))
    as [Ha Hd] by (destruct Hr; by split).
  destruct (match room x with a :: _ => a | [] => _ end) as [ready sent].
  destruct (Stream.poll_write _ l _ ready sent) as [[res c] ev] eqn:E. split; [by split|].
  unfold Stream.poll_write in E. cbn. unfold answers in Ha.
  destruct (closed _); [by injection E as <- _ _|]. case_decide; [by injection E as <- _ _|].
  destruct ready as [[[]|e|]|]; [|by injection E as <- _ _|done|by injection E as <- _ _].
  by destruct sent as [[]|e|]; injection E as <- _ _.
Qed.

Lemma up_poll_safe c x c' x' o :
  duplex_poll up_ends c x = Some (c', x', o) -> steady x -> sized (Z.to_nat 8192) c ->
  steady x' /\ o <> Ready Panic.
Proof.
  intros E Hx [_ Hs]. eapply (duplex_poll_safe up_ends (fun x => stream (client_in x)) sent_bytes steady) in E as [[? _] ?];
    [done|..|by split].
  - intros y Hy. cbn. destruct (Io.poll_read _ (client_in y)) as [r s] eqn:R. split; [by destruct Hy|].
    cbn. destruct (client_in y) as [|[l|e|] s0]; cbn in R; injection R as <- _; done.
  - intros l y. apply mux_write_safe.
  - intros y Hy. by split.
Qed.

Lemma down_poll_safe c x c' x' o :
  duplex_poll down_ends c x = Some (c', x', o) -> steady x -> sized (Z.to_nat 8192) c ->
  steady x' /\ o <> Ready Panic.
Proof.
  intros E Hx [_ Hs]. eapply (duplex_poll_safe down_ends unread (fun x => written (client_out x)) steady) in E as [[? _] ?];
    [done|..|by split].
  - intros y. apply mux_read_safe.
  - intros l y Hy. cbn. destruct (Io.poll_write l (client_out y)) as [r w] eqn:R. split; [by destruct Hy|].
    by apply poll_write_spec in R as (? & _ & _ & _ & _ & _ & ?).
  - intros y Hy. cbn. destruct (Io.poll_flush (client_out y)) as [r w] eqn:R. split; [by destruct Hy|].
    by apply poll_flush_written in R as [_ ?].
Qed.

(** A relay that has not panicked and will not. *)
Definition relay_safe r : Prop := steady (ends r) /\ panicked r = false.

Lemma panicked_false r : up_out r <> Some Panic -> down_out r <> Some Panic -> panicked r = false.
Proof. unfold panicked. by destruct (up_out r) as [[]|], (down_out r) as [[]|]. Qed.

Lemma panicked_inv r : panicked r = false -> up_out r <> Some Panic /\ down_out r <> Some Panic.
Proof. unfold panicked. by destruct (up_out r) as [[]|], (down_out r) as [[]|]. Qed.

Lemma poll_up_safe x0 arrived r r' : relay_inv x0 arrived r -> poll_up r = Some r' -> relay_safe r -> relay_safe r'.
Proof.
  intros HI E [Hs Hp]. unfold poll_up in E. destruct (up_out r) eqn:Ho; [by injection E as <-|].
  destruct (duplex_poll up_ends _ _) as [[[c x] res]|] eqn:Ep; [|done].
  apply up_poll_safe in Ep as [[? ? ?] Hn]; [|done|apply HI]. apply panicked_inv in Hp as [_ Hd].
  injection E as <-. destruct res as [o|]; (split; [done|]); apply panicked_false; cbn; try done.
  intros [= ->]. done.
Qed.

Lemma poll_down_safe x0 arrived r r' : relay_inv x0 arrived r -> poll_down r = Some r' -> relay_safe r -> relay_safe r'.
Proof.
  intros HI E [Hs Hp]. unfold poll_down in E. destruct (down_out r) eqn:Ho; [by injection E as <-|].
  destruct (duplex_poll down_ends _ _) as [[[c x] res]|] eqn:Ep; [|done].
  apply down_poll_safe in Ep as [? Hn]; [|done|apply HI]. apply panicked_inv in Hp as [Hu _].
  injection E as <-. split; [done|]. apply panicked_false; cbn; [done|].
  destruct res as [o|]; [|done]. intros [= ->]. done.
Qed.

Lemma mux_poll_safe x0 serving arrived r r' :
  relay_inv x0 arrived r -> mux_poll serving r = Some r' -> relay_safe r -> relay_safe r'.
Proof.
  intros HI E Hs. unfold mux_poll in E. destruct serving.
  - destruct (poll_down_inv _ _ _ HI) as (r1 & E1 & HI1 & _). rewrite E1 in E.
    eapply poll_up_safe; [exact HI1|exact E|]. eapply poll_down_safe; [exact HI|exact E1|done].
  - destruct (poll_up_inv _ _ _ HI) as (r1 & E1 & HI1). rewrite E1 in E.
    eapply poll_down_safe; [exact HI1|exact E|]. eapply poll_up_safe; [exact HI|exact E1|done].
Qed.

Lemma arrive_safe t r : turn_fits t -> relay_safe r -> relay_safe (arrive t r).
Proof.
  intros Ht [[Hb Hq Hr] Hp]. split; [|done]. split; [done| |done]. cbn. apply Forall_app. by split.
Qed.

Lemma mux_relay_safe x0 serving turns arrived r r' :
  Forall turn_ok turns -> Forall turn_fits turns -> relay_inv x0 arrived r -> mux_relay serving turns r = Some r' ->
  relay_safe r -> relay_safe r'.
Proof.
  intros Ht. revert arrived r. induction Ht as [|t turns Hok _ IH]; intros arrived r Hf HI E Hs; cbn in E.
  { by injection E as <-. }
  apply Forall_cons in Hf as [Hft Hf]. apply (arrive_inv _ _ t) in HI as HI1; [|done].
  destruct (mux_poll_inv _ serving _ _ HI1) as (r2 & E2 & HI2). rewrite E2 in E. cbn [mbind option_bind] in E.
  eapply IH; [done|exact HI2|done|]. eapply mux_poll_safe; [exact HI1|exact E2|by apply arrive_safe].
Qed.

(** Awaiting the relay is a run of it, over the turns polled. *)
Lemma relay_await_runs x0 serving turns arrived r :
  Forall turn_ok turns -> Forall turn_fits turns -> relay_inv x0 arrived r -> relay_safe r ->
  exists polled r' over, relay_await serving turns r = Some (Ok (r', over)) /\
    polled `prefix_of` turns /\ mux_relay serving polled r = Some r' /\
    (over = true -> both_over r' = true) /\ (over = false -> polled = turns).
Proof.
  intros Ht. revert arrived r. induction Ht as [|t turns Hok _ IH]; intros arrived r Hf HI Hs; cbn [relay_await].
  { by exists [], r, false. }
  apply Forall_cons in Hf as [Hft Hf]. apply (arrive_inv _ _ t) in HI as HI1; [|done].
  destruct (mux_poll_inv _ serving _ _ HI1) as (r2 & E2 & HI2). rewrite E2. cbn [mbind option_bind].
  assert (relay_safe r2) as Hs2 by (eapply mux_poll_safe; [exact HI1|exact E2|by apply arrive_safe]).
  destruct (Hs2) as [_ ->]. destruct (both_over r2) eqn:Hb.
  { exists [t], r2, true. split_and!; try done; [by apply prefix_cons, prefix_nil|]. cbn. by rewrite E2. }
  destruct (IH _ r2 Hf HI2 Hs2) as (polled & r' & over & E & Hp & Er & Ho & Hn).
  exists (t :: polled), r', over. split_and!; try done; [by apply prefix_cons|cbn; by rewrite E2|].
  intros Hov. by rewrite (Hn Hov).
Qed.

(** *** The bytes read ahead *)

(** What the writing of [l] does to the ends. *)
Definition wrote_ahead x x' (l left : list byte) : Prop :=
  client_in x' = client_in x /\ client_out x' = client_out x /\ sid_of x' = sid_of x /\ mux_reader x' = mux_reader x /\
  sent_bytes x' ++ left = sent_bytes x ++ l.

Lemma mux_write_ahead l x res x' :
  mux_write l x = (res, x') -> inbox x' = inbox x /\
  wrote_ahead x x' l (match res with Ready (Ok n) => drop n l | _ => l end) /\
  (forall n, res = Ready (Ok n) -> n = length l).
Proof.
  intros E. pose proof (f_write (E := up_ends) l x res x' E) as (_ & _ & Hp). unfold wrote_ahead.
  assert (sent_bytes x' ++ match res with Ready (Ok n) => drop n l | _ => l end = sent_bytes x ++ l) as ->.
  { destruct res as [[n|e|]|]; [|by rewrite Hp..]. destruct Hp as [_ ->]. by rewrite <- app_assoc, take_drop. }
  unfold mux_write in E. destruct (match room x with a :: _ => a | [] => _ end) as [ready sent].
  destruct (Stream.poll_write _ l _ ready sent) as [[o c] ev] eqn:Ew. injection E as <- <-.
  unfold sid_of. cbn. unfold Stream.poll_write in Ew. destruct (closed _); [by injection Ew as <- <- _|].
  case_decide; [by injection Ew as <- <- _|].
  destruct ready as [[[]|e|]|]; [|by injection Ew as <- <- _..].
  destruct sent as [[]|e|]; injection Ew as <- <- _; [|done..]. split_and!; try done. by intros n [= <-].
Qed.

(** One poll writes all of it, or none. *)
Lemma poll_write_all_ahead l x :
  l <> [] -> steady x ->
  exists res left x', poll_write_all (S (length l)) l x = Some (res, left, x') /\
    inbox x' = inbox x /\ wrote_ahead x x' l left /\ steady x' /\ res <> Ready Panic /\
    (res = Ready (Ok tt) -> left = []) /\ (res = Pending -> left = l).
Proof.
  intros Hl Hs. cbn [poll_write_all]. rewrite decide_False by done.
  destruct (mux_write l x) as [res x'] eqn:E. destruct (mux_write_safe l x Hs) as [Hs' Hp]. rewrite E in Hs', Hp.
  apply mux_write_ahead in E as (Hi & Hw & Hn). cbn in Hs', Hp.
  destruct res as [[n|e|]|]; [|by do 3 eexists; split_and!|done|by do 3 eexists; split_and!].
  rewrite (Hn n eq_refl) in *. rewrite drop_all in *. rewrite decide_False by (by destruct l).
  destruct l as [|b l]; [done|]. cbn [length poll_write_all]. rewrite decide_True by done.
  by do 3 eexists; split_and!.
Qed.
Lemma write_all_await_ahead turns l x :
  l <> [] -> Forall turn_ok turns -> Forall turn_fits turns -> steady x ->
  exists res left x' rest polled, write_all_await turns l x = Some (res, left, x', rest) /\
    turns = polled ++ rest /\ wrote_ahead x x' l left /\ inbox x' = inbox x ++ mjoin (arrives <$> polled) /\
    steady x' /\ res <> Ready Panic /\ (res = Ready (Ok tt) -> left = []) /\ (res = Pending -> left = l /\ rest = []).
Proof.
  intros Hl Ht. revert x. induction Ht as [|t turns Hok Ht IH]; intros x Hf Hs; cbn [write_all_await].
  { exists Pending, l, x, [], []. cbn. rewrite app_nil_r. by split_and!. }
  apply Forall_cons in Hf as [Hft Hf].
  assert (steady (arrive_at t x)) as Hs1 by (destruct Hs; split; [done|apply Forall_app; by split|done]).
  assert (sid_of (arrive_at t x) = sid_of x) as Hid1 by apply Hok.
  destruct (poll_write_all_ahead l _ Hl Hs1) as (res & left & x1 & -> & Hi & Hw & Hs2 & Hp & Hdone & Hwait).
  pose proof Hw as (W1 & W2 & W3 & W4 & W5). cbn [mbind option_bind].
  destruct res as [o|].
  - exists (Ready o), left, x1, turns, [t]. split_and!; try done; [|cbn; by rewrite app_nil_r].
    split_and!; try done. by rewrite W3.
  - rewrite (Hwait eq_refl) in *.
    destruct (IH x1 Hf Hs2) as (res & left' & x' & rest & polled & E & Heq & (V1 & V2 & V3 & V4 & V5) & Hi' & H').
    exists res, left', x', rest, (t :: polled). split; [done|]. split; [cbn; by rewrite Heq|]. split; [|split; [|done]].
    + split_and!; [by rewrite V1|by rewrite V2|by rewrite V3, W3|by rewrite V4|by rewrite V5].
    + rewrite Hi', Hi. cbn. by rewrite <- app_assoc.
Qed.

(** ** What a relay owes its ends *)

(** After [turns], begun with [x]: what has been sent, what the upload holds
    and what the client has still to say are what the client says; what the
    client has received, what the download holds and what is unread are what
    has arrived; the events are DATA of the stream; an upload that ended well
    has sent everything; a download that goes on, to a client that takes
    everything, has delivered everything. *)
Definition carries x (turns : list Turn) r : Prop :=
  let arrived := mjoin (mjoin (arrives <$> turns)) in
  sent_bytes (ends r) ++ held (up_copy r) ++ stream (client_in (ends r)) = sent_bytes x ++ stream (client_in x) /\
  written (client_out (ends r)) ++ held (down_copy r) ++ unread (ends r)
    = written (client_out x) ++ unread x ++ arrived /\
  (exists evs, outbox (ends r) = outbox x ++ evs /\ Forall (data_event (sid_of x)) evs) /\
  (forall n, up_out r = Some (Ok n) -> sent_bytes (ends r) = sent_bytes x ++ stream (client_in x)) /\
  (turns <> [] -> takes_all x -> down_out r = None ->
   written (client_out (ends r)) = written (client_out x) ++ unread x ++ arrived).

Lemma mux_relay_carries x serving turns :
  Forall turn_ok turns -> healthy (client_in x) ->
  exists r, mux_relay serving turns (relay_start x) = Some r /\ carries x turns r /\
    sid_of (ends r) = sid_of x /\
    (Forall turn_fits turns -> steady x -> relay_safe r).
Proof.
  intros Ht Hx. destruct (mux_relay_runs x serving turns Ht Hx) as (r & E & HI & Hdr).
  exists r. split; [done|]. split; [|split; [apply HI|]].
  - destruct HI as [_ _ Hu Hd _ Hev _ _ He Hwh _]. unfold conveyed in Hu, Hd. split_and!; try done.
    + intros n Hn. destruct (Hwh n Hn) as [Hh Hdone]. rewrite Hh, (He Hdone), app_nil_r in Hu. exact Hu.
    + intros Hne Hall Hdo. destruct (Hdr Hne Hall Hdo) as [Hh Hun]. rewrite Hh, Hun, app_nil_r in Hd. exact Hd.
  - intros Hf Hs. by eapply mux_relay_safe; [done|done|by apply relay_start_inv|done|].
Qed.

(** Awaited: it goes on after all the turns, or it is over after some. *)
Lemma relay_await_carries x serving turns :
  Forall turn_ok turns -> Forall turn_fits turns -> healthy (client_in x) -> steady x ->
  exists polled r over, relay_await serving turns (relay_start x) = Some (Ok (r, over)) /\
    polled `prefix_of` turns /\ carries x polled r /\ sid_of (ends r) = sid_of x /\
    (over = true -> both_over r = true) /\ (over = false -> polled = turns).
Proof.
  intros Ht Hf Hx Hs.
  destruct (relay_await_runs x serving turns [] (relay_start x) Ht Hf (relay_start_inv x Hx)) as
    (polled & r & over & E & Hp & Er & Ho & Hn); [by split|].
  exists polled, r, over. split; [done|]. split; [done|].
  assert (Forall turn_ok polled) as Htp by (destruct Hp as [k ->]; by apply Forall_app in Ht as [? _]).
  destruct (mux_relay_carries x serving polled Htp Hx) as (r1 & E1 & Hc & Hid & _).
  rewrite Er in E1. injection E1 as <-. by split_and!.
Qed.

Lemma relay_await_more serving turns more r r' :
  relay_await serving turns r = Some (Ok (r', false)) ->
  relay_await serving (turns ++ more) r = relay_await serving more r'.
Proof.
  revert r. induction turns as [|t turns IH]; intros r E; cbn in E |- *; [by injection E as ->|].
  destruct (mux_poll serving _) as [r1|]; [|done]. cbn [mbind option_bind] in *.
  destruct (panicked r1); [done|]. destruct (both_over r1); [done|]. by apply IH.
Qed.

(** Once the upload is over, the relay is over after one more poll when the
    client takes everything. *)
Lemma relay_await_ends x serving turns t r :
  Forall turn_ok (turns ++ [t]) -> Forall turn_fits (turns ++ [t]) -> healthy (client_in x) -> steady x -> takes_all x ->
  relay_await serving turns (relay_start x) = Some (Ok (r, false)) -> is_Some (up_out r) ->
  exists r', relay_await serving (turns ++ [t]) (relay_start x) = Some (Ok (r', true)) /\
    written (client_out (ends r')) ++ held (down_copy r') = written (client_out (ends r)) ++ held (down_copy r).
Proof.
  intros Ht Hf Hx Hs Hall E Hup. rewrite (relay_await_more _ _ _ _ _ E).
  apply Forall_app in Ht as [Ht Ht1], Hf as [Hf Hf1].
  destruct (relay_await_runs x serving turns [] (relay_start x) Ht Hf (relay_start_inv x Hx)) as
    (polled & r0 & over & E0 & _ & Er & _ & Hn); [by split|].
  rewrite E in E0. injection E0 as <- <-. rewrite (Hn eq_refl) in Er.
  destruct (mux_relay_inv x serving turns [] (relay_start x) Ht (relay_start_inv x Hx)) as (r1 & E1 & HI).
  rewrite Er in E1. injection E1 as <-.
  assert (relay_safe r) as Hsafe by (eapply mux_relay_safe; [exact Ht|done|by apply relay_start_inv|exact Er|by split]).
  destruct (relay_await_runs x serving [t] _ r Ht1 Hf1 HI Hsafe) as (polled1 & r' & over & E' & Hp & Er' & Ho & Hn').
  assert (mux_relay serving [t] r = Some r') as Er1.
  { cbn [relay_await] in E'. cbn [mux_relay]. destruct (mux_poll serving _) as [r2|]; [|done]. cbn [mbind option_bind] in *.
    destruct (panicked r2); [done|]. by destruct (both_over r2); injection E' as <- _. }
  destruct (mux_relay_cut x serving [t] _ r r' Ht1 HI Hup Er1) as [Hcut Hb]. exists r'. split; [|exact Hcut].
  rewrite E'. destruct over; [done|]. specialize (Hb ltac:(done) Hall). cbn [relay_await] in E'.
  destruct (mux_poll serving _) as [r2|]; [|done]. cbn [mbind option_bind] in *.
  destruct (panicked r2); [done|]. destruct (both_over r2) eqn:Hb2; [done|]. injection E' as <-. congruence.
Qed.
End MuxSafe.

(** A client and a stream, for the witnesses. *)
Module MuxDemo.
Definition x (client : source) (q : list (list byte)) : MuxEnds (W := list Z) := {|
  client_in := client;
  client_out := {| writes := []; flushes := []; written := [] |};
  stream_cell := (Stream.new "rmux" 4 7 9 {| proto := "tcp"; addr := "a:1" |} 0 0).2;
  mux_reader := {| rx := 0%nat; recv_buf := [] |};
  inbox := q; hung_up := false; outbox := []; room := [(Pending, Ok tt)]; reporter := [] |}.
Definition turn (q : list (list byte)) : Turn := {| arrives := q; hangs_up := false; meanwhile := fun c => c |}.
Lemma turn_fine q : turn_ok (turn q).
Proof. intros c. by split. Qed.
Lemma short_fits q : bool_decide (Forall (fun b : list byte => (length b <= 100)%nat) q) = true -> Forall fits q.
Proof. intros E%bool_decide_eq_true_1. eapply Forall_impl; [exact E|]. intros b Hb. unfold fits. cbn in Hb. lia. Qed.
End MuxDemo.

(** ** Properties *)

(** C12: a relay over a multiplexed stream is faithful.  Whatever the other
    tasks do to the shared cell between its polls, and however often the
    event channel has no room, every poll returns; what has been sent as DATA
    events, what the upload holds and what the client has still to say are
    together what the client says, in order; what the client has received, what
    the download holds and what is unread are together what has arrived; the
    events are DATA of this stream, none of them empty; an upload that ended
    well has sent everything; and while the download goes on and the client takes
    everything, a poll leaves nothing undelivered.  When no chunk is longer
    than two buffers of the relay and the event channel does not panic, neither
    copy panics; a longer chunk makes the download panic
    ([Stream.oversized_chunk_panics]). *)
Theorem mux_relay_faithful {W} `{WindowReporter W} (x : MuxEnds (W := W)) serving turns :
  Forall turn_ok turns -> healthy (client_in x) -> outbox x = [] ->
  let arrived := mjoin (mjoin (arrives <$> turns)) in
  exists r, mux_relay serving turns (relay_start x) = Some r /\
    sent_bytes (ends r) ++ held (up_copy r) ++ stream (client_in (ends r)) = stream (client_in x) /\
    written (client_out (ends r)) ++ held (down_copy r) ++ unread (ends r)
      = written (client_out x) ++ unread x ++ arrived /\
    Forall (data_event (sid_of x)) (outbox (ends r)) /\
    (forall n, up_out r = Some (Ok n) -> sent_bytes (ends r) = stream (client_in x)) /\
    (turns <> [] -> takes_all x -> down_out r = None ->
     written (client_out (ends r)) = written (client_out x) ++ unread x ++ arrived) /\
    (Forall turn_fits turns -> steady x -> up_out r <> Some Panic /\ down_out r <> Some Panic).
Proof.
  intros Ht Hx Hout arrived. destruct (mux_relay_carries x serving turns Ht Hx) as (r & E & Hc & _ & Hsafe).
  destruct Hc as (Hu & Hd & (evs & Hev & Hf) & Hwh & Hall).
  assert (sent_bytes x = []) as Hs by (unfold sent_bytes; by rewrite Hout). rewrite Hs in Hu, Hwh.
  exists r. rewrite Hev, Hout. split_and!; try done; intros Hfit Hst; by apply panicked_inv, (Hsafe Hfit Hst).
Qed.

Lemma mux_relay_faithful_witness :
  exists r, mux_relay (H := Stream.accepting) false [MuxDemo.turn []; MuxDemo.turn [[x62; x63]]]
      (relay_start (MuxDemo.x [Bytes [x61]; NotReady; NotReady] [[x64]])) = Some r /\
    Forall (data_event 7) (outbox (ends r)) /\ written (client_out (ends r)) = [x64; x62; x63] /\
    down_out r <> Some Panic.
Proof.
  destruct (mux_relay_faithful (H := Stream.accepting) (MuxDemo.x [Bytes [x61]; NotReady; NotReady] [[x64]])
    false [MuxDemo.turn []; MuxDemo.turn [[x62; x63]]]) as (r & E & _ & _ & Hev & _ & Hall & Hsafe).
  - repeat apply Forall_cons_2; [apply MuxDemo.turn_fine..|apply Forall_nil_2].
  - apply (bool_decide_eq_true_1 _). vm_compute. reflexivity.
  - reflexivity.
  - exists r. split; [exact E|]. split; [exact Hev|]. split.
    + apply Hall; [discriminate|split; reflexivity|]. vm_compute in E. injection E as <-. reflexivity.
    + apply Hsafe; [apply Forall_cons_2; [|apply Forall_singleton]|split].
      * apply MuxDemo.short_fits. vm_compute. reflexivity.
      * apply MuxDemo.short_fits. vm_compute. reflexivity.
      * apply Nat.le_0_l.
      * apply MuxDemo.short_fits. vm_compute. reflexivity.
      * apply Forall_singleton. exact I.
Defined.

(** C22: a relay over a multiplexed stream cannot be half closed.  Once its
    upload is over, for whatever reason, nothing more is read from the stream:
    whatever had arrived or arrives later, the client receives at most what
    the download held in its buffer at that moment; and when the client takes
    everything, the relay is over after the next poll. *)
Theorem half_close_cuts {W} `{WindowReporter W} (x : MuxEnds (W := W)) serving turns more r r' :
  Forall turn_ok turns -> Forall turn_ok more -> healthy (client_in x) ->
  mux_relay serving turns (relay_start x) = Some r -> is_Some (up_out r) -> mux_relay serving more r = Some r' ->
  written (client_out (ends r')) `prefix_of` written (client_out (ends r)) ++ held (down_copy r) /\
  (more <> [] -> takes_all x -> both_over r' = true).
Proof.
  intros Ht Hm Hx E Hup E'.
  destruct (mux_relay_inv x serving turns [] (relay_start x) Ht (relay_start_inv x Hx)) as (r1 & E1 & HI).
  rewrite E in E1. injection E1 as <-.
  destruct (mux_relay_cut x serving more _ r r' Hm HI Hup E') as [Hcut Hover]. split; [|done].
  rewrite <- Hcut. by apply prefix_app_r.
Qed.

(** The client asks and half-closes; the answer arrives and is not read. *)
Lemma half_close_cuts_witness :
  exists r r', mux_relay (H := Stream.accepting) false [MuxDemo.turn []; MuxDemo.turn []]
      (relay_start (MuxDemo.x [Bytes [x61]] [])) = Some r /\
    mux_relay (H := Stream.accepting) false [MuxDemo.turn [[x62]]] r = Some r' /\
    written (client_out (ends r')) `prefix_of` [] /\ both_over r' = true.
Proof.
  destruct (mux_relay (H := Stream.accepting) false [MuxDemo.turn []; MuxDemo.turn []]
    (relay_start (MuxDemo.x [Bytes [x61]] []))) as [r|] eqn:E; [|vm_compute in E; discriminate E].
  destruct (mux_relay (H := Stream.accepting) false [MuxDemo.turn [[x62]]] r) as [r'|] eqn:E'.
  2: { vm_compute in E. injection E as <-. vm_compute in E'. discriminate E'. }
  exists r, r'. split; [reflexivity|]. split; [exact E'|].
  destruct (half_close_cuts (H := Stream.accepting) (MuxDemo.x [Bytes [x61]] []) false [MuxDemo.turn []; MuxDemo.turn []]
    [MuxDemo.turn [[x62]]] r r') as [Hpre Hover].
  - repeat apply Forall_cons_2; [apply MuxDemo.turn_fine..|apply Forall_nil_2].
  - repeat apply Forall_cons_2; [apply MuxDemo.turn_fine..|apply Forall_nil_2].
  - apply (bool_decide_eq_true_1 _). vm_compute. reflexivity.
  - exact E.
  - vm_compute in E. injection E as <-. by eexists.
  - exact E'.
  - split; [|apply Hover; [discriminate|split; reflexivity]].
    vm_compute in E. injection E as <-. exact Hpre.
Defined.
