(* ===== verification/Tunnel.v ===== *)
(** * A tunnel from end to end (src/src/tunnel/relay.rs and src/src/rmux/ together)

    What a relay reads from its client at one end of a session, against what
    the relay at the other end writes to its own: the upload of one [MuxRelay],
    the session of [Delivery] between them, the download of the other one.
    Each direction of a tunnel is one of these. *)
From stdpp Require Import prelude gmap list strings.
From Stdlib Require Import ZArith Lia.
From S2P Require Import Prelude Io Event Crypto Buf Stream Session EventLoop SessionTasks Delivery Duplex MuxRelay.

(** ** The parts between the two ends *)

Section Tunnel.
Context {C : Ciphers} {A : BytesAlloc} `{!CipherLaws C} `{!BytesAllocLaws A} `{Bincode ConnectRequest}.
Context {W : Type} `{WindowReporter W}.

(** The event task, the sender and the write context of the near end; the
    transport; the receiver and the event task of the far end. *)
Record Passage := {
  inputs : list (option Event * Env);
  near_world : World;
  near_ctx : CryptoContext;
  near_loop : Loop;
  near_acts : list action;
  send_turns : list SendTurn;
  sender : Sender;
  send_acts : list task_action;
  transport : source;
  far_ctx : CryptoContext;
  recv_turns : list RecvTurn;
  recv_acts : list task_action;
  far_inputs : list (option Event * Env);
  far_start : Loop;
  far_loop : Loop;
  far_acts : list action;
  far_over : bool;
}.

(** They run, over a transport that delivers what is written. *)
Record runs (near far : string * Z * nat * nat) (S : Passage) : Prop := {
  r_ctx : ctx_ok (near_ctx S) /\ sync (near_ctx S) (far_ctx S);
  r_wf : Forall event_wf (replies (inputs S));
  r_near : (let '(channel, tunnel_id, sref, evtx) := near in
            process_event channel tunnel_id sref evtx (inputs S) (near_world S) (near_ctx S))
           = Ok (near_loop S, near_acts S, false);
  r_send : handle_send (send_turns S) sender_new = Ok (sender S, send_acts S, false);
  r_frames : mjoin (t_arrivals <$> send_turns S) = frames (near_acts S);
  r_sent : contents (vbuf (sender S)) = [] /\ queue (sender S) = [];
  r_transport : healthy (transport S) /\ Io.stream (transport S) = wrote (sender S);
  r_recv : handle_recv (recv_turns S) (far_ctx S) (transport S) [] = Some (Ok (recv_acts S, false));
  r_quiet : Forall quiet (recv_turns S) /\ length (recv_turns S) <= length (replies (inputs S));
  r_handed : remotes (far_inputs S) `prefix_of` handed (recv_acts S);
  r_far : (let '(channel, tunnel_id, sref, evtx) := far in
           event_loop channel tunnel_id sref evtx (far_inputs S) (far_start S))
          = Ok (far_loop S, far_acts S, far_over S);
}.

(** The far end holds stream [sid] with data channel [n]. *)
Definition open_at_far (sid : Z) (n : nat) (S : Passage) : Prop :=
  Delivery.held sid n (far_start S) /\ Forall (fun i : option Event * Env => decent sid n i.2) (far_inputs S).

(** It gets no FIN of the stream. *)
Definition no_fin_at_far (sid : Z) (S : Passage) : Prop :=
  Forall (fun i : option Event * Env => forall ev, i.1 = Some ev -> no_fin sid ev) (far_inputs S).

(** Everything that is under way has arrived. *)
Definition nothing_under_way (S : Passage) : Prop :=
  far_over S = false /\ remotes (far_inputs S) = handed (recv_acts S) /\
  length (recv_turns S) = length (replies (inputs S)).

Lemma session_chunks near far sid n S :
  runs near far S -> open_at_far sid n S ->
  chunks n (far_acts S) `prefix_of` bodies sid (replies (inputs S)) /\
  (no_fin_at_far sid S -> nothing_under_way S -> chunks n (far_acts S) = bodies sid (replies (inputs S))).
Proof.
  intros [[Hok Hsync] Hwf En Es Hfr [Hc Hq] [Hh Ht] Er [Hrt Hlen] Hrem Ef] [Hl Hi].
  destruct near as [[[ch tid] sr] ex], far as [[[ch' tid'] sr'] ex'].
  destruct (link_reads _ _ _ _ _ _ _ _ _ _ _ _ _ _ _ Hok Hsync Hwf En Es Hfr Hc Hq Hh Ht)
    as (evs & r' & s' & buf & _ & Hov & Hr). rewrite (Hov eq_refl) in *. clear Hov.
  destruct (handle_recv_reads _ _ _ _ _ _ _ _ Hr Hrt Hlen) as (racts & Er' & Hra).
  rewrite Er' in Er. injection Er as Er. rewrite Er in Hra. split.
  - etrans; [exact (event_loop_prefix sid n _ _ _ _ _ _ _ _ _ Ef Hi Hl)|].
    rewrite <- (bodies_received sid (replies (inputs S))). apply bodies_prefix.
    etrans; [exact Hrem|]. rewrite Hra. apply prefix_take.
  - intros Hnf (Ho & Heq & Hfull).
    assert (Forall (fun i : option Event * Env => decent sid n i.2 /\ forall ev, i.1 = Some ev -> no_fin sid ev)
      (far_inputs S)) as Hall by (by apply Forall_and).
    destruct (event_loop_chunks sid n _ _ _ _ _ _ _ _ _ Ef Hall Hl) as [_ Hch].
    rewrite (Hch Ho), Heq, Hra, Hfull, take_ge by (by rewrite length_fmap). apply bodies_received.
Qed.
End Tunnel.

(** ** Properties *)

(** C1: a tunnel conveys its client.  Between a relay over a stream of one end
    of a session and the relay over the same stream of the other end, whatever
    the buffers, the windows, the room in the channels, the interleaving of the
    tasks, the other streams, a FIN of the stream at any moment and the
    chunking of the transport: what the far relay has written to its own is a
    beginning of what the near relay's client says, nothing lost in the middle,
    repeated or reordered.  It is all of it when no FIN of the stream has
    reached the far end, nothing is under way, the upload ended well, the
    target takes everything and the far download has not ended.  The condition
    on the FIN is needed: it makes the far end drop what is not read yet
    ([Serve.fin_discards_unread]). *)
Theorem tunnel_conveys {C : Ciphers} {A : BytesAlloc} `{!CipherLaws C} `{!BytesAllocLaws A}
    `{Bincode ConnectRequest} {W} `{WindowReporter W} near far (S : Passage) sid n
    (x y : MuxEnds (W := W)) serving serving' turns turns' r r' :
  runs near far S -> open_at_far sid n S ->
  Forall turn_ok turns -> healthy (client_in x) -> outbox x = [] ->
  mux_relay serving turns (relay_start x) = Some r ->
  bodies sid (replies (inputs S)) `prefix_of` body <$> outbox (ends r) ->
  Forall turn_ok turns' -> healthy (client_in y) -> unread y = [] -> written (client_out y) = [] ->
  mux_relay serving' turns' (relay_start y) = Some r' ->
  mjoin (arrives <$> turns') `prefix_of` chunks n (far_acts S) ->
  written (client_out (ends r')) `prefix_of` stream (client_in x) /\
  (no_fin_at_far sid S -> nothing_under_way S -> bodies sid (replies (inputs S)) = body <$> outbox (ends r) ->
   mjoin (arrives <$> turns') = chunks n (far_acts S) -> (exists k, up_out r = Some (Ok k)) ->
   turns' <> [] -> takes_all y -> down_out r' = None ->
   written (client_out (ends r')) = stream (client_in x)).
Proof.
  intros HS Hfar Ht Hx Hout E Hsent Ht' Hy Hun Hw E' Harr.
  destruct (session_chunks _ _ _ _ _ HS Hfar) as [Hpre Hall].
  destruct (mux_relay_runs x serving turns Ht Hx) as (r0 & E0 & HI & _).
  rewrite E in E0. injection E0 as <-.
  destruct (mux_relay_runs y serving' turns' Ht' Hy) as (r0 & E0 & HI' & Hdr).
  rewrite E' in E0. injection E0 as <-.
  destruct HI as [_ _ Hu _ _ _ _ _ He Hwh _]. destruct HI' as [_ _ _ Hd _ _ _ _ _ _ _].
  assert (sent_bytes x = []) as Hs by (unfold sent_bytes; by rewrite Hout).
  unfold conveyed in Hu, Hd. rewrite Hs in Hu. rewrite Hw, Hun in Hd. cbn [app] in Hu, Hd.
  assert (forall a b : list (list byte), a `prefix_of` b -> mjoin a `prefix_of` mjoin b) as Hjoin.
  { intros a b [k ->]. rewrite join_app. by apply prefix_app_r. }
  split.
  - trans (mjoin (mjoin (arrives <$> turns'))); [exists (Duplex.held (down_copy r') ++ unread (ends r')); by rewrite Hd|].
    trans (sent_bytes (ends r)); [|exists (Duplex.held (up_copy r) ++ stream (client_in (ends r))); by rewrite Hu].
    apply Hjoin. by trans (chunks n (far_acts S)); [|trans (bodies sid (replies (inputs S)))].
  - intros Hnf Hnu Hb Ha [k Hk] Hne Hta Hdo. destruct (Hdr Hne Hta Hdo) as [Hh' Hun'].
    rewrite Hh', Hun', !app_nil_r in Hd. rewrite Hd, Ha, (Hall Hnf Hnu), Hb.
    destruct (Hwh k Hk) as [Hh Hdone]. rewrite Hh, (He Hdone), !app_nil_r in Hu. exact Hu.
Qed.

(** A client says one byte and ends; the target takes everything. *)
Module TunnelDemo.
Definition said : Event := new_data_event 7 [x61] false.
Definition near : string * Z * nat * nat := ("rmux"%string, 4%Z, 9, 9).
Definition far : string * Z * nat * nat := (""%string, 0%Z, 9, 9).
Definition ins : list (option Event * Env) := [(Some said, LoopDemo.env 1)].
Definition ins' : list (option Event * Env) := [(Some (received said), LoopDemo.env 2)].
Definition near_run := @process_event Toy.toy Session.Demo.req_bincode "rmux" 4 9 9 ins LoopDemo.start Toy.ctx.
Definition far_run := @event_loop Toy.toy Session.Demo.req_bincode "" 0 9 9 ins' LoopDemo.loop.
Definition acts_of (r : partial (Loop * list action * bool)) : list action := match r with Ok (_, a, _) => a | _ => [] end.
Definition loop_after (r : partial (Loop * list action * bool)) : Loop :=
  match r with Ok (l, _, _) => l | _ => LoopDemo.loop end.
Definition turns_of : list SendTurn :=
  [{| t_closed := false; t_arrivals := frames (acts_of near_run); t_gone := false; t_now := 3; t_write := Ok 99 |}].
Definition sent := handle_send turns_of sender_new.
Definition sender_after : Sender := match sent with Ok (s, _, _) => s | _ => sender_new end.
Definition got := handle_recv (C := Toy.toy) (A := Io.Concrete.exact_alloc) [DeliveryDemo.turn] Toy.ctx
  [Bytes (wrote sender_after)] [].
Definition passage : Passage := {|
  inputs := ins; near_world := LoopDemo.start; near_ctx := Toy.ctx; near_loop := loop_after near_run;
  near_acts := acts_of near_run; send_turns := turns_of; sender := sender_after;
  send_acts := match sent with Ok (_, a, _) => a | _ => [] end; transport := [Bytes (wrote sender_after)];
  far_ctx := Toy.ctx; recv_turns := [DeliveryDemo.turn];
  recv_acts := match got with Some (Ok (a, _)) => a | _ => [] end;
  far_inputs := ins'; far_start := LoopDemo.loop; far_loop := loop_after far_run; far_acts := acts_of far_run;
  far_over := false |}.
Lemma passes : runs (C := Toy.toy) (A := Io.Concrete.exact_alloc) (H := Session.Demo.req_bincode) near far passage.
Proof.
  constructor.
  - split; apply Toy.ctx_sync.
  - apply (bool_decide_eq_true_1 _). vm_compute. reflexivity.
  - vm_compute. reflexivity.
  - vm_compute. reflexivity.
  - vm_compute. reflexivity.
  - split; vm_compute; reflexivity.
  - split; [apply (bool_decide_eq_true_1 _); vm_compute; reflexivity|unfold Io.stream; simpl; apply app_nil_r].
  - vm_compute. reflexivity.
  - split; [apply (bool_decide_eq_true_1 _); vm_compute; reflexivity|vm_compute; lia].
  - exists []. vm_compute. reflexivity.
  - vm_compute. reflexivity.
Qed.
Lemma opened : open_at_far 7 0 passage.
Proof.
  split; [apply DeliveryDemo.holds|]. apply Forall_singleton, DeliveryDemo.calm.
Qed.
Lemma unfinished : no_fin_at_far 7 passage.
Proof. apply Forall_singleton. intros ev Hev. injection Hev as <-. intros Hf. discriminate Hf. Qed.
Definition client : MuxEnds (W := list Z) := MuxDemo.x [Bytes [x61]] [].
Definition target : MuxEnds (W := list Z) := MuxDemo.x [NotReady; NotReady] [].
End TunnelDemo.

Lemma tunnel_conveys_witness :
  exists r r', mux_relay (H := Stream.accepting) false [MuxDemo.turn []; MuxDemo.turn []] (relay_start TunnelDemo.client)
      = Some r /\
    mux_relay (H := Stream.accepting) true [MuxDemo.turn [[x61]]] (relay_start TunnelDemo.target) = Some r' /\
    written (client_out (ends r')) = [x61].
Proof.
  destruct (mux_relay (H := Stream.accepting) false [MuxDemo.turn []; MuxDemo.turn []]
    (relay_start TunnelDemo.client)) as [r|] eqn:E; [|vm_compute in E; discriminate E].
  destruct (mux_relay (H := Stream.accepting) true [MuxDemo.turn [[x61]]] (relay_start TunnelDemo.target))
    as [r'|] eqn:E'; [|vm_compute in E'; discriminate E'].
  exists r, r'. split; [reflexivity|]. split; [reflexivity|].
  assert (body <$> outbox (ends r) = [[x61]] /\ up_out r = Some (Ok 1%Z)) as [Hb Hu]
    by (vm_compute in E; injection E as <-; split; reflexivity).
  assert (bodies 7 (replies TunnelDemo.ins) = [[x61]]) as Hi by (vm_compute; reflexivity).
  assert (chunks 0 (far_acts TunnelDemo.passage) = [[x61]]) as Hc by (vm_compute; reflexivity).
  apply (tunnel_conveys (C := Toy.toy) (A := Io.Concrete.exact_alloc) (H := Session.Demo.req_bincode)
    (H0 := Stream.accepting) TunnelDemo.near TunnelDemo.far TunnelDemo.passage 7 0 TunnelDemo.client TunnelDemo.target
    false true [MuxDemo.turn []; MuxDemo.turn []] [MuxDemo.turn [[x61]]] r r' TunnelDemo.passes TunnelDemo.opened).
  - repeat apply Forall_cons_2; [apply MuxDemo.turn_fine..|apply Forall_nil_2].
  - apply (bool_decide_eq_true_1 _). vm_compute. reflexivity.
  - reflexivity.
  - exact E.
  - rewrite Hb. cbn [inputs TunnelDemo.passage]. rewrite Hi. reflexivity.
  - apply Forall_singleton, MuxDemo.turn_fine.
  - apply (bool_decide_eq_true_1 _). vm_compute. reflexivity.
  - reflexivity.
  - reflexivity.
  - exact E'.
  - rewrite Hc. reflexivity.
  - exact TunnelDemo.unfinished.
  - split; [reflexivity|]. split; vm_compute; reflexivity.
  - rewrite Hb. exact Hi.
  - rewrite Hc. reflexivity.
  - exists 1%Z. exact Hu.
  - discriminate.
  - split; reflexivity.
  - vm_compute in E'. injection E' as <-. reflexivity.
Defined.
