(* ===== verification/Supervisor.v ===== *)
(** * The supervisor of the channels (src/src/channel/routine.rs with the sessions it keeps)

    [routine_channels] as a machine.  Every tick of its timer starts the
    clients that are missing and, when enough seconds have passed, a round of
    [routine_all_sessions], whose events it sends one after the other, waiting
    for room in the event channel of each session, before it waits for the
    next tick.  Around it the clients it spawned connect or fail, sessions are
    accepted, take their events and end, and streams are opened. *)
From stdpp Require Import prelude gmap list strings.
From Stdlib Require Import ZArith Lia.
From S2P Require Import Prelude Io Event Stream Session EventLoop SessionTasks Join Relay.

(** ** State *)

(** The tasks of one session: the session they serve, the events waiting in
    its channel, whether the receiver of the channel still exists, and whether
    [erase_mux_session] is still to come. *)
Record Tasks := {
  of_channel : string;
  of_id : Z;
  of_state : nat;
  waiting : list Event;
  receiving : bool;
  registered : bool;
}.

(** The table of sessions; the tasks, by their event channels; the clients
    spawned and not yet in [process_rmux_session]; the seed of their ids; the
    second of the last round; the events of the round that are still to be
    sent; whether [routine_channels] has panicked. *)
Record Sup := {
  world : World;
  tasks : gmap nat Tasks;
  dialing : list (ChannelConfig * Z);
  session_id_seed : Z;
  ping_time : Z;
  sending : list effect;
  crashed : bool;
}.

(** [routine_channels] before its first tick. *)
Definition sup_new (w : World) : Sup :=
  {| world := w; tasks := ∅; dialing := []; session_id_seed := 0; ping_time := 0;
     sending := []; crashed := false |}.

Definition with_session_world (S : Sup) (w : World) : Sup :=
  {| world := w; tasks := tasks S; dialing := dialing S; session_id_seed := session_id_seed S;
     ping_time := ping_time S; sending := sending S; crashed := crashed S |}.
Definition with_tasks (S : Sup) (t : gmap nat Tasks) : Sup :=
  {| world := world S; tasks := t; dialing := dialing S; session_id_seed := session_id_seed S;
     ping_time := ping_time S; sending := sending S; crashed := crashed S |}.
Definition with_dialing (S : Sup) (l : list (ChannelConfig * Z)) : Sup :=
  {| world := world S; tasks := tasks S; dialing := l; session_id_seed := session_id_seed S;
     ping_time := ping_time S; sending := sending S; crashed := crashed S |}.
Definition with_waiting (t : Tasks) (q : list Event) : Tasks :=
  {| of_channel := of_channel t; of_id := of_id t; of_state := of_state t; waiting := q;
     receiving := receiving t; registered := registered t |}.

(** ** Steps *)

(** The clock of a tick: the local hour, the seconds since the epoch (none
    when the clock is before it), the number drawn for the round, the
    monotonic clock and the numbers drawn for the sessions. *)
Record Clock := {
  hour : Z;
  since_epoch : option Z;
  rand_inc : Z;
  elapsed : Z;
  rand_ages : nat -> Z;
}.

Inductive act :=
  | Tick (t : Clock)
  | Sends
  | Connects (i evtx sref : nat) (born : Z)
  | Fails (i : nat)
  | Accepts (id : Z) (evtx sref : nat) (alive born : Z)
  | Puts (evtx : nat) (ev : Event)
  | Takes (evtx : nat) (at_secs : Z)
  | Closes (evtx : nat)
  | Erases (evtx : nat)
  | Opens (channel addr : string) (at_secs : Z).

(** The part of a tick behind the channels. *)
Definition tick_round (t : Clock) (S : Sup) : Sup :=
  match since_epoch t with
  | None =>
      {| world := world S; tasks := tasks S; dialing := dialing S;
         session_id_seed := session_id_seed S; ping_time := ping_time S; sending := []; crashed := true |}
  | Some now =>
      let '(due, last) := tick_ping now (ping_time S) (rand_inc t) in
      let '(w, acts) := if (due : bool) then routine_all_sessions (elapsed t) (rand_ages t) (world S)
                        else (world S, []) in
      {| world := w; tasks := tasks S; dialing := dialing S; session_id_seed := session_id_seed S;
         ping_time := last; sending := acts; crashed := false |}
  end.

(** The clients of a tick. *)
Definition tick_clients (cfgs : option (list ChannelConfig)) (t : Clock) (S : Sup) : Sup :=
  let '(l, seed) := match cfgs with
                    | Some ccfgs => tick_channels (manager (world S)) (hour t) ccfgs (session_id_seed S)
                    | None => ([], session_id_seed S)
                    end in
  {| world := world S; tasks := tasks S; dialing := dialing S ++ l; session_id_seed := seed;
     ping_time := ping_time S; sending := sending S; crashed := crashed S |}.

(** [sender.send(ev).await] of whoever sends an event to a session; an error
    is dropped. *)
Definition send_to (evtx : nat) (ev : Event) (m : gmap nat Tasks) : option (gmap nat Tasks) :=
  match m !! evtx with
  | Some t =>
      match send_await (receiving t) (waiting t) ev with
      | Some (Some q) => Some (<[evtx := with_waiting t q]> m)
      | Some None => Some m
      | None => None
      end
  | None => Some m
  end.

(** A session is stored and its tasks start; its channel and its state are
    new. *)
Definition starts_on (channel : string) (id : Z) (evtx sref : nat) (alive born : Z) (S : Sup) : option Sup :=
  if decide ((evtx ∉ dom (tasks S)) /\ (sref ∉ dom (sstates (world S)))) then
    Some (with_tasks (with_session_world S (start_session channel id evtx sref alive born (world S)))
            (<[evtx := {| of_channel := channel; of_id := id; of_state := sref; waiting := [];
                          receiving := true; registered := true |}]> (tasks S)))
  else None.

(** The times the event task notes when it handles an event: of a PING it sends,
    and of a PONG it receives. *)
Definition notes (sref : nat) (ev : Event) (at_secs : Z) (w : World) : World :=
  if decide (FLAG_PING = flags (header ev)) then
    handle_ping_event sref (remote ev) {| now := at_secs; send_ok := true; others := fun w => w |} w
  else if remote ev && bool_decide (flags (header ev) = FLAG_PONG) then
    set_sstate w sref (set_pong (sstate w sref) (wrap 32 at_secs))
  else w.

Section Steps.
Context `{Bincode ConnectRequest}.
Context (cfgs : option (list ChannelConfig)).

(** [None]: the step is not possible now; a panic of [routine_channels] is the
    end of the program. *)
Definition sup_step (a : act) (S : Sup) : option Sup :=
  if crashed S then None else
  match a with
  | Tick t =>
      if decide (sending S = []) then Some (tick_round t (tick_clients cfgs t S))
      else None
  | Sends =>
      match sending S with
      | SendEvent evtx ev :: acts =>
          m ← send_to evtx ev (tasks S);
          Some {| world := world S; tasks := m; dialing := dialing S;
                  session_id_seed := session_id_seed S; ping_time := ping_time S; sending := acts;
                  crashed := crashed S |}
      | _ => None
      end
  | Connects i evtx sref born =>
      '(c, id) ← dialing S !! i;
      starts_on (ch_name c) id evtx sref (wrap 64 (max_alive_mins c * 60)) born
        (with_dialing S (delete i (dialing S)))
  | Fails i =>
      _ ← dialing S !! i; Some (with_dialing S (delete i (dialing S)))
  | Accepts id evtx sref alive born => starts_on "" id evtx sref alive born S
  | Puts evtx ev => with_tasks S <$> send_to evtx ev (tasks S)
  | Takes evtx at_secs =>
      t ← tasks S !! evtx;
      match waiting t with
      | ev :: q =>
          Some (with_tasks (with_session_world S (notes (of_state t) ev at_secs (world S)))
                  (<[evtx := with_waiting t q]> (tasks S)))
      | [] => None
      end
  | Closes evtx =>
      t ← tasks S !! evtx;
      Some (with_tasks S (<[evtx := {| of_channel := of_channel t; of_id := of_id t; of_state := of_state t;
                                       waiting := []; receiving := false; registered := registered t |}]>
                          (tasks S)))
  | Erases evtx =>
      t ← tasks S !! evtx;
      if registered t && negb (receiving t) then
        Some (with_tasks (with_session_world S (end_session (of_channel t) (of_id t) (world S)))
                (<[evtx := {| of_channel := of_channel t; of_id := of_id t; of_state := of_state t;
                              waiting := []; receiving := false; registered := false |}]> (tasks S)))
      else None
  | Opens channel addr at_secs =>
      match create_stream channel "tcp" addr at_secs (world S) with
      | Ok (_, w, _) => Some (with_session_world S w)
      | _ => None
      end
  end.

Fixpoint sup_run (acts : list act) (S : Sup) : option Sup :=
  match acts with
  | [] => Some S
  | a :: acts => S ← sup_step a S; sup_run acts S
  end.
End Steps.

(** ** Sizes of the channels *)

Abbreviation size w ch := (get_channel_session_size ch (manager w)).

Lemma size_default ch m :
  get_channel_session_size ch m = length (filter is_Some (from_option sessions [] (channels m !! ch))).
Proof. unfold get_channel_session_size. by destruct (channels m !! ch). Qed.

Lemma size_insert ch k cs m rs :
  get_channel_session_size k {| channels := <[ch := cs]> (channels m); retired := rs |} =
  if decide (k = ch) then length (filter is_Some (sessions cs)) else get_channel_session_size k m.
Proof.
  rewrite !size_default. cbn [channels]. case_decide as E.
  - subst k. by rewrite lookup_insert_eq.
  - by rewrite lookup_insert_ne.
Qed.

Lemma live_insert (l : list (option MuxSession)) i s s' :
  l !! i = Some (Some s) -> length (filter is_Some (<[i := Some s']> l)) = length (filter is_Some l).
Proof.
  revert i. induction l as [|o l IH]; intros [|i] E; [done..| |].
  - injection E as ->. change (<[0 := Some s']> (Some s :: l)) with (Some s' :: l). by rewrite !live_cons.
  - change (<[S i := Some s']> (o :: l)) with (o :: <[i := Some s']> l). rewrite !live_cons.
    destruct o; cbn [length]; by rewrite (IH i E).
Qed.

Lemma size_store ch k s m :
  get_channel_session_size k (store_mux_session ch s m) =
  if decide (k = ch) then S (get_channel_session_size k m) else get_channel_session_size k m.
Proof.
  destruct (store_lookup ch s m) as (H1 & H2 & _). rewrite !size_default. case_decide as E.
  - subst k. rewrite H1. destruct (channels m !! ch) as [cs|]; simpl; [apply store_slot_live|done].
  - by rewrite H2.
Qed.

Lemma erase_slot_live l sid l' :
  erase_slot l sid = Some l' -> length (filter is_Some l) = S (length (filter is_Some l')).
Proof.
  revert l'. induction l as [|[ss|] l IH]; intros l' E; cbn [erase_slot] in E; [done| |].
  - case_decide; simplify_eq; [by rewrite !live_cons|].
    apply fmap_Some in E as (l1 & E & ->). rewrite !live_cons. cbn [length]. by rewrite (IH _ E).
  - apply fmap_Some in E as (l1 & E & ->). rewrite !live_cons. by apply IH.
Qed.

Lemma size_erase ch k sid m :
  get_channel_session_size k (erase_mux_session ch sid m) <= get_channel_session_size k m.
Proof.
  unfold erase_mux_session. destruct (channels m !! ch) as [cs|] eqn:Hc; simpl; [|reflexivity].
  destruct (erase_slot (sessions cs) sid) as [l|] eqn:E; simpl; [|reflexivity].
  rewrite size_insert. cbn [sessions]. case_decide; [subst k|reflexivity].
  rewrite (size_of _ _ _ Hc), (erase_slot_live _ _ _ E). lia.
Qed.

Lemma pick_session_slot n l cur idx s cur' :
  pick_session n l cur = (Some (idx, s), cur') -> l !! idx = Some (Some s).
Proof.
  revert cur. induction n as [|n IH]; intros cur E; [done|]. cbn [pick_session] in E.
  repeat case_match; [|by eapply IH..]. by injection E as <- -> _.
Qed.

(** Opening a stream changes no session. *)
Lemma size_create `{Bincode ConnectRequest} ch proto addr at_secs w r w' effs k :
  create_stream ch proto addr at_secs w = Ok (r, w', effs) ->
  get_channel_session_size k (manager w') = get_channel_session_size k (manager w).
Proof.
  unfold create_stream. destruct (channels (manager w) !! ch) as [cs|] eqn:Hc.
  - destruct (pick_session _ _ _) as [[[idx s]|] cur] eqn:Hp.
    + destruct (new_syn_event _ _) as [cev|[]|]; [|done]. unmonad.
      destruct (Stream.new _ _ _ _ _ _ _) as [ps st]. intros E. injection E as _ <- _.
      cbn [manager]. rewrite size_insert. case_decide; [subst k|done].
      cbn [sessions]. rewrite (size_of _ _ _ Hc). eapply live_insert, pick_session_slot, Hp.
    + unmonad. intros E. injection E as _ <- _. unfold set_manager. cbn [manager]. rewrite size_insert. case_decide; [subst k|done].
      cbn [sessions]. by rewrite (size_of _ _ _ Hc).
  - unmonad. intros E. by injection E as _ <- _.
Qed.

(** A round only takes sessions away. *)
Lemma routine_slots_live now rand ch l st :
  length (filter is_Some (acc_slots (routine_slots now rand ch l st))) <= length (filter is_Some l).
Proof.
  revert st. induction l as [|[s|] l IH]; intros st; cbn [routine_slots]; [done| |].
  - destruct (st !! s_state s) as [x|].
    + destruct (routine_session _ _ _ _ _) as [taken acts]. cbn [acc_slots].
      rewrite !live_cons. specialize (IH (if taken then <[s_state s := set_retired x]> st else st)).
      destruct taken; simpl; lia.
    + cbn [acc_slots]. rewrite !live_cons. simpl. specialize (IH st). lia.
  - cbn [acc_slots]. rewrite !live_cons. apply IH.
Qed.

Lemma size_routine now rand w k :
  size (routine_all_sessions now rand w).1 k <= size w k.
Proof.
  unfold routine_all_sessions. destruct (routine_map _ _ _ _ _) as [[[ch ac] newly] st] eqn:R.
  apply routine_map_spec in R as (H1 & H2 & _); [|apply NoDup_fst_map_to_list].
  cbn [fst manager]. destruct (channels (manager w) !! k) as [cs|] eqn:Hk.
  - destruct (H2 k cs) as (st0 & Hm & _); [by apply elem_of_map_to_list|].
    rewrite (size_of _ _ _ Hk), !size_default. cbn [channels]. rewrite Hm. apply routine_slots_live.
  - rewrite !size_default. cbn [channels]. rewrite H1, Hk; [done|].
    intros Hin. apply list_elem_of_fmap in Hin as ([k' cs'] & -> & Hin).
    apply elem_of_map_to_list in Hin. simpl in Hk. congruence.
Qed.

(** ** Sessions and calls of a channel *)

(** The live sessions of a channel, and the clients on their way to one. *)
Definition live (S : Sup) (ch : string) : nat := get_channel_session_size ch (manager (world S)).
Definition named (ch : string) (x : ChannelConfig * Z) : Prop := ch_name x.1 = ch.
#[export] Instance named_dec ch x : Decision (named ch x).
Proof. unfold named. apply _. Defined.
Definition calls (S : Sup) (ch : string) : nat := length (filter (named ch) (dialing S)).

(** The clients a tick starts for a channel. *)
Definition started (cfgs : option (list ChannelConfig)) (t : Clock) (S : Sup) (ch : string) : nat :=
  match cfgs with
  | Some l => length (filter (named ch) (tick_channels (manager (world S)) (hour t) l (session_id_seed S)).1)
  | None => 0
  end.

Lemma calls_delete ch l i x :
  l !! i = Some x ->
  length (filter (named ch) l) = length (filter (named ch) (delete i l)) + if decide (named ch x) then 1 else 0.
Proof.
  revert i. induction l as [|y l IH]; intros [|i] E; [done..| |].
  - injection E as ->. change (delete 0 (x :: l)) with l. rewrite filter_cons. repeat case_decide; simpl; try done; lia.
  - change (delete (S i) (y :: l)) with (y :: delete i l). rewrite !filter_cons.
    specialize (IH i E). destruct (decide (named ch y)); cbn [length]; rewrite IH; lia.
Qed.

Lemma start_clients_configs c n seed x : x ∈ (start_clients c n seed).1 -> x.1 = c.
Proof.
  revert seed. induction n as [|n IH]; intros seed; cbn [start_clients]; [by intros ?%elem_of_nil|].
  specialize (IH (wrap 32 (seed + 1))). destruct (start_clients c n _) as [l s].
  intros [->|Hx]%elem_of_cons; [done|by apply IH].
Qed.

Lemma tick_configs m h l seed x : x ∈ (tick_channels m h l seed).1 -> x.1 ∈ l.
Proof.
  revert seed. induction l as [|c l IH]; intros seed; cbn [tick_channels]; [by intros ?%elem_of_nil|].
  destruct (negb _); [intros Hx; right; by eapply IH|]. rewrite start_missing.
  pose proof (start_clients_configs c (Z.to_nat (conns_per_host c) - get_channel_session_size (ch_name c) m) seed x) as Hc.
  destruct (start_clients _ _ _) as [l1 s1]. specialize (IH s1). destruct (tick_channels m h l s1) as [l2 s2].
  cbn [fst] in *. intros [Hx|Hx]%elem_of_app; [rewrite (Hc Hx); left|right; by apply IH].
Qed.

Lemma filter_ext_in {A} (P Q : A -> Prop) `{!forall x, Decision (P x)} `{!forall x, Decision (Q x)} (l : list A) :
  (forall x, x ∈ l -> P x <-> Q x) -> filter P l = filter Q l.
Proof.
  induction l as [|x l IH]; intros HPQ; [done|].
  rewrite !filter_cons, IH by (intros y Hy; apply HPQ; by right).
  apply decide_ext, HPQ. left.
Qed.

Lemma NoDup_fmap_inj {A B} (f : A -> B) (l : list A) x y : NoDup (f <$> l) -> x ∈ l -> y ∈ l -> f x = f y -> x = y.
Proof.
  induction l as [|z l IH]; intros Hnd Hx Hy E; [by apply elem_of_nil in Hx|].
  apply NoDup_cons in Hnd as [Hz Hnd].
  apply elem_of_cons in Hx as [->|Hx], Hy as [->|Hy]; try done; [..|by apply IH];
    exfalso; apply Hz, list_elem_of_fmap; eauto.
Qed.

(** With names of their own, a tick starts what is missing of a channel inside
    its hours. *)
Lemma started_missing l t S c :
  NoDup (ch_name <$> l) -> c ∈ l ->
  started (Some l) t S (ch_name c) =
  if is_valid_hour c (hour t) then Z.to_nat (conns_per_host c) - live S (ch_name c) else 0.
Proof.
  intros Hnd Hc. unfold started, live.
  rewrite (filter_ext_in _ (fun x => x.1 = c)).
  - rewrite tick_counts by (by eapply NoDup_fmap_1).
    destruct (is_valid_hour c (hour t)); [by rewrite decide_True|by rewrite decide_False by naive_solver].
  - intros x Hx%tick_configs. unfold named. split; [|by intros ->].
    intros E. by eapply NoDup_fmap_inj.
Qed.

Section Counts.
Context `{Bincode ConnectRequest}.
Context (cfgs : option (list ChannelConfig)).

(** What a step does to them. *)
Lemma step_counts a S S' ch :
  sup_step cfgs a S = Some S' ->
  match a with
  | Tick t => live S' ch <= live S ch /\ calls S' ch = calls S ch + started cfgs t S ch
  | Connects i _ _ _ => exists x, dialing S !! i = Some x /\
      let n := if decide (named ch x) then 1 else 0 in
      live S' ch = live S ch + n /\ calls S ch = calls S' ch + n
  | Fails i => live S' ch = live S ch /\ calls S' ch <= calls S ch
  | Accepts _ _ _ _ _ => (ch <> ""%string -> live S' ch = live S ch) /\ calls S' ch = calls S ch
  | Erases _ => live S' ch <= live S ch /\ calls S' ch = calls S ch
  | _ => live S' ch = live S ch /\ calls S' ch = calls S ch
  end.
Proof.
  unfold sup_step. destruct (crashed S); [done|]. destruct a; intros E.
  - case_decide; [|done]. injection E as <-. unfold tick_round, tick_clients, started, live, calls.
    destruct cfgs as [l|]; [destruct (tick_channels _ _ _ _) as [l' s']|];
      (destruct (since_epoch t) as [z|];
       [cbn [ping_time]; destruct (tick_ping _ _ _) as [[|] p]; cbn [world];
        [pose proof (size_routine (elapsed t) (rand_ages t) (world S) ch);
         destruct (routine_all_sessions _ _ _) as [w ac]|]|]); cbn in *;
      rewrite ?filter_app, ?length_app, ?app_nil_r; simpl; lia.
  - destruct (sending S) as [|[] acts]; try done. simpl in E.
    destruct (send_to _ _ _) as [m|]; [|done]. by injection E as <-.
  - destruct (dialing S !! i) as [[c id]|] eqn:Hi; [|done]. exists (c, id). split; [done|].
    simpl in E. unfold starts_on in E. case_decide; [|done]. injection E as <-.
    unfold live, calls. cbn. rewrite size_store. rewrite (calls_delete ch _ _ _ Hi).
    unfold named. simpl. split; [|done]. repeat case_decide; subst; try done; lia.
  - destruct (dialing S !! i) as [x|] eqn:Hi; [|done]. injection E as <-. split; [done|].
    unfold calls. cbn. rewrite (calls_delete ch _ _ _ Hi). lia.
  - unfold starts_on in E. case_decide; [|done]. injection E as <-. split; [|done].
    intros Hch. unfold live. cbn. rewrite size_store. by rewrite decide_False.
  - destruct (send_to _ _ _) as [m|]; [|done]. by injection E as <-.
  - destruct (tasks S !! evtx) as [t|]; [|done]. simpl in E. destruct (waiting t) as [|ev q]; [done|].
    injection E as <-. unfold live, calls. cbn. split; [|done]. unfold notes, handle_ping_event.
    by repeat case_match.
  - destruct (tasks S !! evtx) as [t|]; [|done]. by injection E as <-.
  - destruct (tasks S !! evtx) as [t|]; [|done]. simpl in E. destruct (_ && _); [|done].
    injection E as <-. split; [|done]. unfold live. cbn. apply size_erase.
  - destruct (create_stream _ _ _ _ _) as [[[r w] effs]|[]|] eqn:Hc; [|done]. injection E as <-.
    split; [|done]. unfold live. cbn. by eapply size_create.
Qed.

(** ** Runs *)

Definition is_tick (a : act) : Prop := match a with Tick _ => True | _ => False end.
(** Steps that settle a client under way. *)
Definition settles (a : act) : Prop := match a with Connects _ _ _ _ | Fails _ => True | _ => False end.
Definition is_connect (a : act) : Prop := match a with Connects _ _ _ _ => True | _ => False end.
#[export] Instance is_tick_dec a : Decision (is_tick a).
Proof. destruct a; apply _. Defined.

(** Every tick finds the clients of the tick before settled. *)
Fixpoint prompt (acts : list act) (S : Sup) : Prop :=
  match acts with
  | [] => True
  | a :: acts => (is_tick a -> dialing S = []) /\
      match sup_step cfgs a S with Some S' => prompt acts S' | None => True end
  end.

Lemma sup_run_cons a acts S S' :
  sup_run cfgs (a :: acts) S = Some S' -> exists S1, sup_step cfgs a S = Some S1 /\ sup_run cfgs acts S1 = Some S'.
Proof. cbn [sup_run]. destruct (sup_step _ a S) as [S1|]; [|done]. by exists S1. Qed.

Lemma sup_run_app acts acts' S S1 :
  sup_run cfgs acts S = Some S1 -> sup_run cfgs (acts ++ acts') S = sup_run cfgs acts' S1.
Proof.
  revert S. induction acts as [|a acts IH]; intros S E; [by injection E as ->|].
  apply sup_run_cons in E as (S2 & Ea & E). cbn [app sup_run]. rewrite Ea. by apply IH.
Qed.

Lemma step_running a S S' : sup_step cfgs a S = Some S' -> crashed S = false.
Proof. unfold sup_step. by destruct (crashed S). Qed.

(** Only a tick before the epoch crashes. *)
Lemma step_crash a S S' : sup_step cfgs a S = Some S' -> ~ is_tick a -> crashed S' = false.
Proof.
  intros E Ha. pose proof (step_running _ _ _ E) as Hc. unfold sup_step in E. rewrite Hc in E.
  destruct a; cbn in Ha; [done|..].
  - destruct (sending S) as [|[] acts]; try done. destruct (send_to _ _ _); [|done]. by injection E as <-.
  - destruct (dialing S !! i) as [[c id]|]; [|done]. simpl in E. unfold starts_on in E.
    case_decide; [|done]. by injection E as <-.
  - destruct (dialing S !! i); [|done]. by injection E as <-.
  - unfold starts_on in E. case_decide; [|done]. by injection E as <-.
  - destruct (send_to _ _ _); [|done]. by injection E as <-.
  - destruct (tasks S !! evtx) as [t|]; [|done]. simpl in E. destruct (waiting t); [done|]. by injection E as <-.
  - destruct (tasks S !! evtx); [|done]. by injection E as <-.
  - destruct (tasks S !! evtx) as [t|]; [|done]. simpl in E. destruct (_ && _); [|done]. by injection E as <-.
  - destruct (create_stream _ _ _ _ _) as [[[r w] effs]|[]|]; [|done]. by injection E as <-.
Qed.

(** Clients that are answered all become sessions. *)
Lemma connect_all S :
  crashed S = false -> exists acts S', Forall is_connect acts /\
    sup_run cfgs acts S = Some S' /\ dialing S' = [] /\
    forall ch, live S' ch = live S ch + calls S ch.
Proof.
  remember (dialing S) as l eqn:Hl. revert S Hl. induction l as [|x l IH]; intros S Hl Hcr.
  - exists [], S. unfold calls. rewrite <- Hl. split_and!; [constructor|done|done|].
    intros ch. rewrite filter_nil. simpl. lia.
  - set (a := Connects 0 (fresh (dom (tasks S))) (fresh (dom (sstates (world S)))) 0).
    assert (exists S1, sup_step cfgs a S = Some S1 /\ dialing S1 = l) as (S1 & E & Hd).
    { unfold a, sup_step. rewrite Hcr, <- Hl. destruct x as [c id]. simpl. unfold starts_on.
      rewrite decide_True; [|split; apply is_fresh]. by eexists. }
    destruct (IH S1) as (acts & S' & Hf & Hr & Hd' & Hc'); [done|apply (step_crash a S S1 E); intros []|].
    exists (a :: acts), S'. split; [by constructor|]. cbn [sup_run]. rewrite E. split; [done|]. split; [done|].
    intros ch. apply (step_counts _ _ _ ch) in E as (y & _ & H1 & H2). rewrite Hc'. lia.
Qed.
End Counts.

(** ** A session that takes no events *)

(** The round waits for room in the channel of a session. *)
Definition stalled (evtx : nat) (S : Sup) : Prop :=
  (exists ev acts, sending S = SendEvent evtx ev :: acts) /\
  exists t, tasks S !! evtx = Some t /\ receiving t = true /\ Join.full (waiting t).
(** The session takes nothing from its channel and does not drop it. *)
Definition takes_nothing (evtx : nat) (a : act) : Prop :=
  match a with Takes e _ | Closes e => e <> evtx | _ => True end.

(** What the supervisor keeps from one tick to the next. *)
Definition standing (S S' : Sup) : Prop :=
  sending S' = sending S /\ ping_time S' = ping_time S /\ session_id_seed S' = session_id_seed S /\
  forall ch, ch <> ""%string -> live S' ch + calls S' ch <= live S ch + calls S ch.

Lemma send_to_full evtx e ev (m m' : gmap nat Tasks) t :
  m !! evtx = Some t -> receiving t = true -> Join.full (waiting t) -> send_to e ev m = Some m' ->
  m' !! evtx = Some t /\ e <> evtx.
Proof.
  unfold send_to, send_await, Join.full. intros Ht Hr Hf E. destruct (decide (e = evtx)) as [->|Hne].
  - rewrite Ht, Hr, decide_False in E by lia. done.
  - split; [|done]. repeat case_match; simplify_eq; by rewrite ?lookup_insert_ne.
Qed.

Lemma starts_on_spec ch id e sref alive born S S' :
  starts_on ch id e sref alive born S = Some S' ->
  exists m, S' = with_tasks (with_session_world S (start_session ch id e sref alive born (world S))) m /\
    forall k t, tasks S !! k = Some t -> m !! k = Some t.
Proof.
  unfold starts_on. case_decide as Hd; [|done]. intros E. injection E as <-. eexists. split; [reflexivity|].
  intros k t Ht. rewrite lookup_insert_ne; [done|]. intros ->. apply (proj1 Hd), (elem_of_dom_2 _ _ t), Ht.
Qed.

Section Stall.
Context `{Bincode ConnectRequest}.
Context (cfgs : option (list ChannelConfig)).

Lemma stalled_step evtx a S S' :
  stalled evtx S -> takes_nothing evtx a -> sup_step cfgs a S = Some S' ->
  stalled evtx S' /\ ~ is_tick a /\ standing S S'.
Proof.
  intros [(ev & l & Hs) (t & Ht & Hr & Hf)] Ha E.
  assert (~ is_tick a -> forall ch, ch <> ""%string -> live S' ch + calls S' ch <= live S ch + calls S ch) as Hpool.
  { intros Hnt ch Hch. apply (step_counts _ _ _ _ ch) in E. destruct a; try lia; [destruct Hnt; exact I| |].
    - destruct E as (x & _ & H1 & H2). lia.
    - destruct E as [H1 H2]. rewrite H1 by done. lia. }
  assert (forall w m d, (m : gmap nat Tasks) !! evtx = Some t -> ~ is_tick a ->
    S' = with_dialing (with_tasks (with_session_world S w) m) d -> stalled evtx S' /\ ~ is_tick a /\ standing S S') as Hkeep.
  { intros w m d Hm Hnt ->. split_and!; [|done|by split_and!; [..|apply Hpool]].
    split; [by exists ev, l|]. by exists t. }
  unfold sup_step in E. destruct (crashed S); [done|]. destruct a.
  - case_decide; [|done]. congruence.
  - rewrite Hs in E. simpl in E. destruct (send_to _ _ _) as [m|] eqn:Hm; [|done].
    by destruct (send_to_full _ _ _ _ _ _ Ht Hr Hf Hm).
  - destruct (dialing S !! i) as [[c id]|]; [|done]. simpl in E.
    apply starts_on_spec in E as (m & -> & Hm). eapply (Hkeep _ m); [by apply Hm|intros []|reflexivity].
  - destruct (dialing S !! i); [|done]. injection E as <-. eapply (Hkeep (world S) (tasks S)); [done|intros []|by destruct S].
  - apply starts_on_spec in E as (m & -> & Hm).
    eapply (Hkeep _ m (dialing S)); [by apply Hm|intros []|reflexivity].
  - destruct (send_to _ _ _) as [m|] eqn:Hm; [|done]. injection E as <-.
    destruct (send_to_full _ _ _ _ _ _ Ht Hr Hf Hm) as [Hm' _].
    eapply (Hkeep (world S) m (dialing S)); [done|intros []|reflexivity].
  - destruct (tasks S !! evtx0) as [t0|]; [|done]. simpl in E. destruct (waiting t0) as [|e q]; [done|].
    injection E as <-. eapply (Hkeep _ (<[evtx0 := _]> (tasks S)) (dialing S)); [|intros []|reflexivity].
    by rewrite lookup_insert_ne.
  - destruct (tasks S !! evtx0) as [t0|]; [|done]. injection E as <-.
    eapply (Hkeep (world S) (<[evtx0 := _]> (tasks S)) (dialing S)); [|intros []|reflexivity]. by rewrite lookup_insert_ne.
  - destruct (tasks S !! evtx0) as [t0|] eqn:Ht0; [|done]. simpl in E.
    destruct (registered t0 && _) eqn:Hreg; [|done]. injection E as <-.
    eapply (Hkeep _ (<[evtx0 := _]> (tasks S)) (dialing S)); [|intros []|reflexivity]. rewrite lookup_insert_ne; [done|].
    intros ->. rewrite Ht in Ht0. injection Ht0 as <-. by rewrite Hr, andb_false_r in Hreg.
  - destruct (create_stream _ _ _ _ _) as [[[r w] effs]|[]|]; [|done]. injection E as <-.
    eapply (Hkeep w (tasks S) (dialing S)); [done|intros []|reflexivity].
Qed.
End Stall.

(** ** The rounds go on *)

Definition is_send (e : effect) : Prop := match e with SendEvent _ _ => True | _ => False end.

Lemma routine_session_sends ch now rand s st : Forall is_send (routine_session ch now rand s st).2.
Proof. unfold routine_session. repeat case_decide; repeat case_match; simpl; repeat constructor. Qed.

Lemma routine_slots_sends now rand ch l st : Forall is_send (acc_actions (routine_slots now rand ch l st)).
Proof.
  revert st. induction l as [|[s|] l IH]; intros st; cbn [routine_slots]; [constructor| |apply IH].
  destruct (st !! s_state s) as [x|]; [|apply IH].
  pose proof (routine_session_sends ch now (rand (s_event_tx s)) s x).
  destruct (routine_session _ _ _ _ _) as [taken acts]. cbn [acc_actions]. by apply Forall_app.
Qed.

Lemma routine_map_sends now rand l m st : Forall is_send (routine_map now rand l m st).1.1.2.
Proof.
  revert m st. induction l as [|[ch cs] l IH]; intros m st; cbn [routine_map]; [constructor|].
  specialize (IH (<[ch := {| sessions := acc_slots (routine_slots now rand ch (sessions cs) st); cursor := cursor cs |}]> m)
    (acc_states (routine_slots now rand ch (sessions cs) st))).
  destruct (routine_map _ _ _ _ _) as [[[m1 acts] ret] st1]. cbn [fst snd] in *.
  apply Forall_app. split; [apply routine_slots_sends|done].
Qed.

(** All a round has left to do is to send events. *)
Lemma routine_sends now rand w : Forall is_send (routine_all_sessions now rand w).2.
Proof.
  unfold routine_all_sessions. pose proof (routine_map_sends now rand (map_to_list (channels (manager w)))
    (channels (manager w)) (sstates w)) as H.
  destruct (routine_map _ _ _ _ _) as [[[m acts] ret] st]. cbn [fst snd] in *.
  apply Forall_app. split; [done|]. by apply Forall_fmap, Forall_true.
Qed.

Section GoesOn.
Context `{Bincode ConnectRequest}.
Context (cfgs : option (list ChannelConfig)).

Definition too_early (a : act) : Prop := match a with Tick t => since_epoch t = None | _ => False end.

Lemma step_sends a S S' :
  Forall is_send (sending S) -> sup_step cfgs a S = Some S' ->
  Forall is_send (sending S') /\ (crashed S' = true -> too_early a).
Proof.
  intros Hs E. destruct (decide (is_tick a)) as [Ht|Ht].
  - destruct a; try done. unfold sup_step in E. destruct (crashed S); [done|]. case_decide; [|done].
    injection E as <-. unfold tick_round, too_early. destruct (since_epoch t) as [now|]; [|by split].
    destruct (tick_ping _ _ _) as [[|] last]; [|by split].
    pose proof (routine_sends (elapsed t) (rand_ages t) (world (tick_clients cfgs t S))).
    by destruct (routine_all_sessions _ _ _).
  - pose proof (step_crash _ _ _ _ E Ht) as Hc. split; [|congruence].
    unfold sup_step in E. destruct (crashed S); [done|]. destruct a; simpl in E.
    + done.
    + destruct (sending S) as [|[] acts]; try done. destruct (send_to _ _ _); [|done]. injection E as <-.
      by apply Forall_cons in Hs as [_ Hs].
    + destruct (dialing S !! i) as [[c id]|]; [|done]. by apply starts_on_spec in E as (m & -> & _).
    + destruct (dialing S !! i); [|done]. by injection E as <-.
    + by apply starts_on_spec in E as (m & -> & _).
    + destruct (send_to _ _ _); [|done]. by injection E as <-.
    + destruct (tasks S !! evtx) as [t|]; [|done]. simpl in E. destruct (waiting t); [done|]. by injection E as <-.
    + destruct (tasks S !! evtx); [|done]. by injection E as <-.
    + destruct (tasks S !! evtx) as [t|]; [|done]. simpl in E. destruct (_ && _); [|done]. by injection E as <-.
    + destruct (create_stream _ _ _ _ _) as [[[r w] effs]|[]|]; [|done]. by injection E as <-.
Qed.

Lemma run_sends acts S S' :
  Forall is_send (sending S) -> crashed S = false -> sup_run cfgs acts S = Some S' ->
  Forall is_send (sending S') /\ (crashed S' = true -> Exists too_early acts).
Proof.
  revert S. induction acts as [|a acts IH]; intros S Hs Hc E; [injection E as <-; split; [done|congruence]|].
  apply sup_run_cons in E as (S1 & Ea & E). destruct (step_sends _ _ _ Hs Ea) as [Hs1 Hc1].
  destruct (crashed S1) eqn:Hcr; [|destruct (IH S1 Hs1 Hcr E) as [? Hx]; split; [done|intros ?; right; by apply Hx]].
  destruct acts as [|b acts]; [injection E as <-; split; [done|intros _; left; by apply Hc1]|].
  apply sup_run_cons in E as (S2 & Eb & _). apply step_running in Eb. congruence.
Qed.

(** A send that cannot be made waits for room. *)
Lemma send_to_waits evtx ev (m : gmap nat Tasks) :
  send_to evtx ev m = None -> exists t, m !! evtx = Some t /\ receiving t = true /\ Join.full (waiting t).
Proof.
  unfold send_to, send_await, Join.full. destruct (m !! evtx) as [t|]; [|done].
  destruct (receiving t) eqn:Hr; [|done]. case_decide; [done|]. intros _. exists t. split_and!; [done|done|lia].
Qed.

Lemma goes_on S :
  Forall is_send (sending S) -> crashed S = false ->
  (sending S = [] /\ forall t, is_Some (sup_step cfgs (Tick t) S)) \/
  is_Some (sup_step cfgs Sends S) \/ exists evtx, stalled evtx S.
Proof.
  intros Hs Hcr. unfold sup_step. rewrite Hcr.
  destruct (sending S) as [|e l] eqn:Hl; [left; split; [done|intros t; by eexists]|right].
  apply Forall_cons in Hs as [He _]. destruct e; try done. simpl.
  match goal with |- context [send_to ?tx ?ev _] => destruct (send_to tx ev (tasks S)) as [m|] eqn:Hm end.
  - left. by eexists.
  - right. eexists. split; [by do 2 eexists|]. by eapply send_to_waits.
Qed.

Lemma sends_one S S' : sup_step cfgs Sends S = Some S' -> length (sending S) = Datatypes.S (length (sending S')).
Proof.
  unfold sup_step. destruct (crashed S); [done|]. destruct (sending S) as [|[] acts]; try done. simpl.
  destruct (send_to _ _ _); [|done]. intros E. by injection E as <-.
Qed.
End GoesOn.

(** ** Properties *)

(** Steps that lose a session or a client. *)
Definition loses (a : act) : Prop := match a with Fails _ | Erases _ => True | _ => False end.

(** The configured number of sessions. *)
Abbreviation wanted c := (Z.to_nat (conns_per_host c)).

Section Pool.
Context `{Bincode ConnectRequest}.
Context (l : list ChannelConfig) (c : ChannelConfig).
Context (names : NoDup (ch_name <$> l)) (configured : c ∈ l) (named_client : ch_name c <> ""%string).

Lemma started_wanted t S : started (Some l) t S (ch_name c) <= wanted c - live S (ch_name c).
Proof. rewrite started_missing by done. destruct (is_valid_hour _ _); lia. Qed.

Lemma prompt_bounded acts S S' :
  prompt (Some l) acts S -> sup_run (Some l) acts S = Some S' ->
  live S (ch_name c) + calls S (ch_name c) <= wanted c ->
  live S' (ch_name c) + calls S' (ch_name c) <= wanted c.
Proof.
  revert S. induction acts as [|a acts IH]; intros S Hp E Hb; [by injection E as <-|].
  apply sup_run_cons in E as (S1 & Ea & E). cbn [prompt] in Hp. rewrite Ea in Hp. destruct Hp as [Hd Hp].
  apply (IH S1 Hp E). pose proof (step_counts _ _ _ _ (ch_name c) Ea) as Hc.
  destruct a; try lia.
  - assert (calls S (ch_name c) = 0) as H0 by (unfold calls; by rewrite (Hd I)).
    pose proof (started_wanted t S). lia.
  - destruct Hc as (x & _ & H1 & H2). lia.
  - destruct Hc as [H1 H2]. rewrite H1 by done. lia.
Qed.

Lemma pile acts S S' :
  Forall (fun a => ~ settles a /\ match a with Tick t => is_valid_hour c (hour t) = true | _ => True end) acts ->
  live S (ch_name c) = 0 -> sup_run (Some l) acts S = Some S' ->
  live S' (ch_name c) = 0 /\
  calls S' (ch_name c) = calls S (ch_name c) + length (filter is_tick acts) * wanted c.
Proof.
  revert S. induction acts as [|a acts IH]; intros S Ha H0 E.
  { injection E as <-. rewrite filter_nil. simpl. lia. }
  apply sup_run_cons in E as (S1 & Ea & E). apply Forall_cons in Ha as [[Hs Hh] Ha].
  pose proof (step_counts _ _ _ _ (ch_name c) Ea) as Hc.
  assert (live S1 (ch_name c) = 0 /\
    calls S1 (ch_name c) = calls S (ch_name c) + if decide (is_tick a) then wanted c else 0) as [H1 H2].
  { destruct a; cbn [is_tick] in *; try (rewrite decide_False by done; lia); try by destruct Hs.
    - rewrite started_missing, Hh in Hc by done. rewrite decide_True by done. lia.
    - destruct Hc as [Hl Hc]. rewrite Hl by done. rewrite decide_False by (by intros []). lia. }
  destruct (IH S1 Ha H1 E) as [H3 H4]. split; [done|]. rewrite H4, H2, filter_cons.
  destruct (decide (is_tick a)); cbn [length]; lia.
Qed.

Lemma settled_pool acts S S' :
  Forall (fun a => ~ is_tick a /\ ~ loses a) acts -> sup_run (Some l) acts S = Some S' ->
  live S' (ch_name c) + calls S' (ch_name c) = live S (ch_name c) + calls S (ch_name c).
Proof.
  revert S. induction acts as [|a acts IH]; intros S Ha E; [by injection E as <-|].
  apply sup_run_cons in E as (S1 & Ea & E). apply Forall_cons in Ha as [[Ht Hl] Ha].
  rewrite (IH S1 Ha E). pose proof (step_counts _ _ _ _ (ch_name c) Ea) as Hc.
  destruct a; try lia; [by destruct Ht| |by destruct Hl| |by destruct Hl].
  - destruct Hc as (x & _ & H1 & H2). lia.
  - destruct Hc as [H1 H2]. rewrite H1 by done. lia.
Qed.
End Pool.

(** C13: a channel with a non-empty name of its own never has more sessions than
    it is configured for, as long
    as every tick finds the clients of the tick before settled: over any run,
    whatever connects, fails, ends, is accepted or opened in whatever order,
    its live sessions and the clients on their way stay within
    [conns_per_host]. *)
Theorem pool_bounded `{Bincode ConnectRequest} l c acts S S' :
  NoDup (ch_name <$> l) -> c ∈ l -> ch_name c <> ""%string ->
  prompt (Some l) acts S -> sup_run (Some l) acts S = Some S' ->
  live S (ch_name c) + calls S (ch_name c) <= wanted c ->
  live S' (ch_name c) + calls S' (ch_name c) <= wanted c.
Proof. intros. by eapply prompt_bounded. Qed.

(** C31: it is not bounded when clients take longer than a tick, for a channel
    with a name of its own that is inside its hours at every tick and has no
    session.  The
    connection has a limit of five seconds, the handshake has none: with a
    server that accepts and does not answer, every tick starts the whole
    number again, [n] ticks leave [n] times [conns_per_host] clients, and when
    the server answers after all, all of them become sessions. *)
Theorem calls_pile_up `{Bincode ConnectRequest} l c acts S S' :
  NoDup (ch_name <$> l) -> c ∈ l -> ch_name c <> ""%string ->
  Forall (fun a => ~ settles a /\ match a with Tick t => is_valid_hour c (hour t) = true | _ => True end) acts ->
  live S (ch_name c) = 0 -> sup_run (Some l) acts S = Some S' ->
  let n := length (filter is_tick acts) in
  calls S' (ch_name c) = calls S (ch_name c) + n * wanted c /\
  (crashed S' = false -> exists answers S'', Forall is_connect answers /\
     sup_run (Some l) answers S' = Some S'' /\ live S'' (ch_name c) = calls S (ch_name c) + n * wanted c).
Proof.
  intros Hn Hc Hne Ha H0 E n. destruct (pile l c Hn Hc Hne acts S S' Ha H0 E) as [H1 H2].
  split; [done|]. intros Hcr. destruct (connect_all (Some l) S' Hcr) as (answers & S'' & Hf & Hr & _ & Hl).
  exists answers, S''. split; [done|]. split; [done|]. rewrite Hl, H1, H2. done.
Qed.

(** C14: a tick fills every channel up.  After a tick that finds no client
    under way, and whatever steps follow of which none is a tick or loses a
    session or a client, once its clients are through every channel inside its
    hours has as many sessions more as it was short of, and one outside its
    hours none; and the clients can get through.  The channels have different
    and non-empty names. *)
Theorem pool_refilled `{Bincode ConnectRequest} l c t S S1 :
  NoDup (ch_name <$> l) -> c ∈ l -> ch_name c <> ""%string ->
  dialing S = [] -> sup_step (Some l) (Tick t) S = Some S1 ->
  let short := if is_valid_hour c (hour t) then wanted c - live S (ch_name c) else 0 in
  live S1 (ch_name c) <= live S (ch_name c) /\
  (forall acts S2, Forall (fun a => ~ is_tick a /\ ~ loses a) acts -> sup_run (Some l) acts S1 = Some S2 ->
     dialing S2 = [] -> live S2 (ch_name c) = live S1 (ch_name c) + short) /\
  (crashed S1 = false -> exists answers S2, Forall is_connect answers /\
     sup_run (Some l) answers S1 = Some S2 /\ dialing S2 = [] /\
     live S2 (ch_name c) = live S1 (ch_name c) + short).
Proof.
  intros Hn Hc Hne Hd E short. apply (step_counts _ _ _ _ (ch_name c)) in E as [H1 H2].
  rewrite started_missing in H2 by done. fold short in H2.
  assert (calls S (ch_name c) = 0) as H0 by (unfold calls; by rewrite Hd). split_and!; [done| |].
  - intros acts S2 Ha E Hd2. pose proof (settled_pool l c Hne acts S1 S2 Ha E) as H3.
    assert (calls S2 (ch_name c) = 0) by (unfold calls; by rewrite Hd2). lia.
  - intros Hcr. destruct (connect_all (Some l) S1 Hcr) as (answers & S2 & Hf & Hr & Hd2 & Hl).
    exists answers, S2. split_and!; [done..|]. rewrite Hl. lia.
Qed.

(** C21: one session that takes no events stops the supervision of all.  While
    the round waits for room in its channel, whatever else happens, there is
    no tick: no client is started, no session is found dead, none is sent a
    ping, and no channel gets a session it was not already on the way to. *)
Theorem stalled_session_stops_routine `{Bincode ConnectRequest} cfgs evtx acts S S' :
  stalled evtx S -> Forall (takes_nothing evtx) acts -> sup_run cfgs acts S = Some S' ->
  stalled evtx S' /\ Forall (fun a => ~ is_tick a) acts /\ standing S S'.
Proof.
  revert S. induction acts as [|a acts IH]; intros S Hs Ha E.
  { injection E as <-. split_and!; [done|constructor|by split_and!]. }
  apply sup_run_cons in E as (S1 & Ea & E). apply Forall_cons in Ha as [Ha Hr].
  destruct (stalled_step _ _ _ _ _ Hs Ha Ea) as (Hs1 & Hnt & (A1 & A2 & A3 & A4)).
  destruct (IH S1 Hs1 Hr E) as (Hs' & Hf & (B1 & B2 & B3 & B4)).
  split_and!; [done|by constructor|].
  split_and!; [congruence..|]. intros ch Hch. specialize (A4 ch Hch). specialize (B4 ch Hch). lia.
Qed.

(** The routine never ends and waits for nothing but its sessions.  After
    any run from its start it can tick, or send the next event of its round,
    or the session that event is for has a full channel; and it can only fail
    in a tick whose clock is before the epoch. *)
Theorem routine_goes_on `{Bincode ConnectRequest} cfgs acts w S :
  sup_run cfgs acts (sup_new w) = Some S ->
  (crashed S = true -> Exists too_early acts) /\
  (crashed S = false ->
     (sending S = [] /\ forall t, is_Some (sup_step cfgs (Tick t) S)) \/
     (exists S', sup_step cfgs Sends S = Some S' /\ length (sending S) = Datatypes.S (length (sending S'))) \/
     exists evtx, stalled evtx S).
Proof.
  intros E. destruct (run_sends cfgs acts (sup_new w) S) as [Hs Hc]; [constructor|done|done|].
  split; [done|]. intros Hcr. destruct (goes_on cfgs S Hs Hcr) as [?|[[S' HS']|?]]; [by left| |by right; right].
  right; left. exists S'. split; [done|]. by eapply sends_one.
Qed.

Module SupDemo.
Definition clock (now : Z) : Clock :=
  {| hour := 9; since_epoch := Some now; rand_inc := 0; elapsed := now; rand_ages := fun _ => 0%Z |}.
Definition nowhere : World := {| manager := manager_new; sstates := ∅; cells := ∅ |}.
Definition start : Sup := sup_new nowhere.
Definition step := sup_step (H := Demo.req_bincode) (Some [RelayDemo.config]).
Definition run := sup_run (H := Demo.req_bincode) (Some [RelayDemo.config]).
(** Two clients connect, the third fails; the next tick starts one more. *)
Definition morning : list act :=
  [Tick (clock 1000); Connects 0 5 5 0; Fails 0; Connects 0 6 6 0; Tick (clock 1005)].
(** A session whose channel is full and to which the round is sending. *)
Definition ping : Event := new_ping_event 0 false.
Definition blocked : Sup :=
  {| world := start_session "rmux" 0 5 5 0 0 nowhere;
     tasks := {[5 := {| of_channel := "rmux"; of_id := 0; of_state := 5; waiting := replicate 16 ping;
                        receiving := true; registered := true |}]};
     dialing := [(RelayDemo.config, 1%Z)]; session_id_seed := 2; ping_time := 1000;
     sending := [SendEvent 5 ping]; crashed := false |}.
Lemma names : NoDup (ch_name <$> [RelayDemo.config]).
Proof. apply NoDup_singleton. Qed.
Lemma has : RelayDemo.config ∈ [RelayDemo.config].
Proof. left. Qed.
End SupDemo.

Lemma pool_bounded_witness :
  exists S', SupDemo.run SupDemo.morning SupDemo.start = Some S' /\
    live S' "rmux" + calls S' "rmux" <= 3 /\ live S' "rmux" = 2 /\ calls S' "rmux" = 1.
Proof.
  destruct (SupDemo.run SupDemo.morning SupDemo.start) as [S'|] eqn:E; [|vm_compute in E; discriminate E].
  exists S'. split; [reflexivity|]. split.
  - apply (pool_bounded (H := Demo.req_bincode) [RelayDemo.config] RelayDemo.config SupDemo.morning SupDemo.start S'
      SupDemo.names SupDemo.has); [discriminate| |exact E|vm_compute; lia].
    vm_compute. repeat split; intros [].
  - vm_compute in E. injection E as <-. split; reflexivity.
Defined.

Lemma calls_pile_up_witness :
  exists S' answers S'', SupDemo.run [Tick (SupDemo.clock 1000); Tick (SupDemo.clock 1005)] SupDemo.start = Some S' /\
    calls S' "rmux" = 6 /\ SupDemo.run answers S' = Some S'' /\ live S'' "rmux" = 6.
Proof.
  destruct (SupDemo.run [Tick (SupDemo.clock 1000); Tick (SupDemo.clock 1005)] SupDemo.start) as [S'|] eqn:E;
    [|vm_compute in E; discriminate E].
  destruct (calls_pile_up (H := Demo.req_bincode) [RelayDemo.config] RelayDemo.config
    [Tick (SupDemo.clock 1000); Tick (SupDemo.clock 1005)] SupDemo.start S' SupDemo.names SupDemo.has) as [H1 H2].
  - discriminate.
  - repeat apply Forall_cons_2; try apply Forall_nil_2; (split; [intros []|reflexivity]).
  - reflexivity.
  - exact E.
  - destruct H2 as (answers & S'' & _ & H3 & H4); [vm_compute in E; injection E as <-; reflexivity|].
    exists S', answers, S''. split; [reflexivity|]. split; [exact H1|]. split; [exact H3|exact H4].
Defined.

Lemma pool_refilled_witness :
  exists S1 answers S2, SupDemo.step (Tick (SupDemo.clock 1000)) SupDemo.start = Some S1 /\
    SupDemo.run answers S1 = Some S2 /\ live S2 "rmux" = 3.
Proof.
  destruct (SupDemo.step (Tick (SupDemo.clock 1000)) SupDemo.start) as [S1|] eqn:E; [|vm_compute in E; discriminate E].
  destruct (pool_refilled (H := Demo.req_bincode) [RelayDemo.config] RelayDemo.config (SupDemo.clock 1000)
    SupDemo.start S1 SupDemo.names SupDemo.has) as (_ & _ & H3); [discriminate|reflexivity|exact E|].
  destruct H3 as (answers & S2 & _ & H4 & _ & H5); [vm_compute in E; injection E as <-; reflexivity|].
  exists S1, answers, S2. split; [reflexivity|]. split; [exact H4|].
  etransitivity; [exact H5|]. vm_compute in E. injection E as <-. reflexivity.
Defined.

Lemma stalled_session_stops_routine_witness :
  exists S', SupDemo.run [Connects 0 6 6 0; Takes 6 1001] SupDemo.blocked = None /\
    SupDemo.run [Connects 0 6 6 0; Puts 6 SupDemo.ping; Takes 6 1001] SupDemo.blocked = Some S' /\
    stalled 5 S' /\ ping_time S' = 1000%Z.
Proof.
  destruct (SupDemo.run [Connects 0 6 6 0; Puts 6 SupDemo.ping; Takes 6 1001] SupDemo.blocked) as [S'|] eqn:E;
    [|vm_compute in E; discriminate E].
  exists S'. split; [vm_compute; reflexivity|]. split; [reflexivity|].
  destruct (stalled_session_stops_routine (H := Demo.req_bincode) (Some [RelayDemo.config]) 5
    [Connects 0 6 6 0; Puts 6 SupDemo.ping; Takes 6 1001] SupDemo.blocked S') as (H1 & _ & _ & H4 & _).
  - split; [by do 2 eexists|]. eexists. split; [reflexivity|]. split; [reflexivity|]. vm_compute. lia.
  - repeat apply Forall_cons_2; try apply Forall_nil_2; cbn; lia || exact I.
  - exact E.
  - split; [exact H1|exact H4].
Defined.

Lemma routine_goes_on_witness :
  exists S, SupDemo.run SupDemo.morning SupDemo.start = Some S /\ crashed S = false /\
    ((sending S = [] /\ forall t, is_Some (SupDemo.step (Tick t) S)) \/
     (exists S', SupDemo.step Sends S = Some S' /\ length (sending S) = Datatypes.S (length (sending S'))) \/
     exists evtx, stalled evtx S).
Proof.
  destruct (SupDemo.run SupDemo.morning SupDemo.start) as [S|] eqn:E; [|vm_compute in E; discriminate E].
  exists S. split; [reflexivity|].
  assert (crashed S = false) as Hc by (vm_compute in E; injection E as <-; reflexivity).
  split; [exact Hc|].
  apply (routine_goes_on (H := Demo.req_bincode) (Some [RelayDemo.config]) SupDemo.morning SupDemo.nowhere S E), Hc.
Defined.
