(* ===== verification/Heartbeat.v ===== *)
(** * A session under the routine (src/src/rmux/session.rs and channel/routine.rs)

    What [routine_all_sessions] does with each session of the table, and what
    a sequence of ticks of [routine_channels] does with one session over time:
    a peer that falls silent is found dead within a bound, one that answers is
    kept, and one that never answered at all is kept too. *)
From stdpp Require Import prelude gmap list strings.
From Stdlib Require Import ZArith Lia.
From S2P Require Import Prelude Io Event Stream Session EventLoop Relay.

Local Open Scope Z_scope.

(** ** One session in a round *)

(** The events a list of effects sends to one channel. *)
Definition sent_to (evtx : nat) (acts : list effect) : list Event :=
  omap (fun a => match a with SendEvent e ev => if decide (e = evtx) then Some ev else None | _ => None end) acts.

Lemma sent_to_app evtx a b : sent_to evtx (a ++ b) = sent_to evtx a ++ sent_to evtx b.
Proof. apply omap_app. Qed.

(** No other session than [s] uses its state or its channel. *)
Definition differs (s s' : MuxSession) : Prop := s_state s' <> s_state s /\ s_event_tx s' <> s_event_tx s.
Definition alone (w : World) (ch : string) (i : nat) (s : MuxSession) : Prop :=
  (forall ch' cs i' s', channels (manager w) !! ch' = Some cs -> sessions cs !! i' = Some (Some s') ->
     (ch', i') <> (ch, i) -> differs s s') /\
  (forall s', s' ∈ retired (manager w) -> s_event_tx s' <> s_event_tx s).

Lemma routine_sends_others ch now rand s st evtx :
  s_event_tx s <> evtx -> sent_to evtx (routine_session ch now rand s st).2 = [].
Proof.
  intros Hne. unfold routine_session, sent_to.
  repeat case_decide; repeat case_match; simpl; by repeat case_decide.
Qed.

Section Round.
Context (now : Z) (rand : nat -> Z) (s : MuxSession) (st : MuxSessionState).

Definition verdict (ch : string) : bool * list effect := routine_session ch now (rand (s_event_tx s)) s st.
Definition state_after (ch : string) : MuxSessionState := if (verdict ch).1 then set_retired st else st.

(** Sessions that differ leave its state alone and send it nothing. *)
Lemma slots_others ch l states :
  (forall i s', l !! i = Some (Some s') -> differs s s') ->
  let r := routine_slots now rand ch l states in
  acc_states r !! s_state s = states !! s_state s /\ sent_to (s_event_tx s) (acc_actions r) = [].
Proof.
  revert states. induction l as [|o l IH]; intros states Hl; cbn [routine_slots]; [done|].
  assert (forall states, let r := routine_slots now rand ch l states in
    acc_states r !! s_state s = states !! s_state s /\ sent_to (s_event_tx s) (acc_actions r) = []) as IH'.
  { intros states'. apply IH. intros i s' Hi. by apply (Hl (S i)). }
  destruct o as [s'|]; [|apply IH']. destruct (states !! s_state s') as [st'|]; [|apply IH'].
  destruct (Hl O s' eq_refl) as [Hs He].
  pose proof (routine_sends_others ch now (rand (s_event_tx s')) s' st' _ He) as Hsent.
  destruct (routine_session _ _ _ _ _) as [taken acts]. cbn [acc_states acc_actions].
  destruct (IH' (if taken then <[s_state s' := set_retired st']> states else states)) as [H1 H2].
  rewrite sent_to_app, H1, H2. simpl in Hsent. rewrite Hsent. split; [|done].
  destruct taken; [by rewrite lookup_insert_ne|done].
Qed.

(** In the list where it is, the session gets its verdict. *)
Lemma slots_verdict ch l i states :
  l !! i = Some (Some s) -> states !! s_state s = Some st ->
  (forall i' s', l !! i' = Some (Some s') -> i' <> i -> differs s s') ->
  let r := routine_slots now rand ch l states in
  acc_slots r !! i = Some (if (verdict ch).1 then None else Some s) /\
  acc_states r !! s_state s = Some (state_after ch) /\
  sent_to (s_event_tx s) (acc_actions r) = sent_to (s_event_tx s) (verdict ch).2 /\
  ((verdict ch).1 = true -> s ∈ acc_retired r).
Proof.
  revert i states. induction l as [|o l IH]; intros [|i] states Hi Hst Hd; [done..| |].
  - injection Hi as ->. cbn [routine_slots]. rewrite Hst. unfold state_after, verdict.
    destruct (routine_session _ _ _ _ _) as [taken acts]. cbn [acc_slots acc_states acc_actions acc_retired fst snd].
    assert (forall states, let r := routine_slots now rand ch l states in
      acc_states r !! s_state s = states !! s_state s /\ sent_to (s_event_tx s) (acc_actions r) = []) as Hr.
    { intros states'. apply slots_others. intros i s' Hs'. by apply (Hd (S i) s' Hs'). }
    destruct (Hr (if taken then <[s_state s := set_retired st]> states else states)) as [H1 H2].
    rewrite sent_to_app, H1, H2, app_nil_r. split_and!; [by destruct taken| |done|].
    + destruct taken; [by rewrite lookup_insert_eq|done].
    + intros ->. by left.
  - assert (forall i' s', l !! i' = Some (Some s') -> i' <> i -> differs s s') as Hd'.
    { intros i' s' Hs' Hne. apply (Hd (S i') s' Hs'). lia. }
    cbn [routine_slots]. destruct o as [s'|]; [|by apply (IH i)].
    destruct (states !! s_state s') as [st'|]; [|by apply (IH i)].
    destruct (Hd O s' eq_refl ltac:(done)) as [Hs He].
    pose proof (routine_sends_others ch now (rand (s_event_tx s')) s' st' _ He) as Hsent.
    destruct (routine_session _ _ _ _ _) as [taken acts]. cbn [acc_slots acc_states acc_actions acc_retired].
    edestruct (IH i (if taken then <[s_state s' := set_retired st']> states else states) Hi) as (H1 & H2 & H3 & H4);
      [|done|].
    { destruct taken; [by rewrite lookup_insert_ne|done]. }
    rewrite sent_to_app, H3. simpl in Hsent. rewrite Hsent. split_and!; [done..|].
    intros Hv. apply elem_of_app; right. by apply H4.
Qed.

Lemma map_others l m states m' acts ret states' :
  (forall ch cs i s', (ch, cs) ∈ l -> sessions cs !! i = Some (Some s') -> differs s s') ->
  routine_map now rand l m states = (m', acts, ret, states') ->
  states' !! s_state s = states !! s_state s /\ sent_to (s_event_tx s) acts = [].
Proof.
  revert m states acts ret states'. induction l as [|[ch cs] l IH]; intros m states acts ret states' Hl E; cbn [routine_map] in E.
  { by simplify_eq. }
  destruct (routine_map _ _ _ _ _) as [[[m1 acts1] ret1] st1] eqn:R. simplify_eq.
  destruct (slots_others ch (sessions cs) states) as [H1 H2].
  { intros i s' Hi. eapply Hl, Hi. left. }
  apply IH in R as [H3 H4]; [|intros; eapply Hl; [by right|done]].
  rewrite sent_to_app, H2, H4, H3. done.
Qed.

Lemma map_verdict l m states m' acts ret states' ch cs i :
  NoDup l.*1 -> (ch, cs) ∈ l -> sessions cs !! i = Some (Some s) -> states !! s_state s = Some st ->
  (forall ch' cs' i' s', (ch', cs') ∈ l -> sessions cs' !! i' = Some (Some s') -> (ch', i') <> (ch, i) ->
     differs s s') ->
  routine_map now rand l m states = (m', acts, ret, states') ->
  (exists cs', m' !! ch = Some cs' /\
     sessions cs' !! i = Some (if (verdict ch).1 then None else Some s)) /\
  states' !! s_state s = Some (state_after ch) /\
  sent_to (s_event_tx s) acts = sent_to (s_event_tx s) (verdict ch).2 /\
  ((verdict ch).1 = true -> s ∈ ret).
Proof.
  intros Hnd Hin Hi Hst Hd. revert m states acts ret states' Hst.
  induction l as [|[ch0 cs0] l IH]; intros m states acts ret states' Hst E; [by apply elem_of_nil in Hin|].
  apply NoDup_cons in Hnd as [Hch0 Hnd]. cbn [routine_map] in E.
  destruct (routine_map _ _ _ _ _) as [[[m1 acts1] ret1] st1] eqn:R. simplify_eq.
  apply elem_of_cons in Hin as [[= -> ->]|Hin].
  - destruct (slots_verdict ch0 (sessions cs0) i states Hi Hst) as (H1 & H2 & H3 & H4).
    { intros i' s' Hs' Hne. eapply (Hd ch0 cs0 i' s'); [by left|done|]. congruence. }
    pose proof (routine_map_spec _ _ _ _ _ _ _ _ _ Hnd R) as (Hm & _).
    apply map_others in R as [H5 H6].
    2: { intros ch cs i' s' Hc Hs'. eapply (Hd ch cs i' s'); [by right|done|].
         intros [= -> ->]. apply Hch0, list_elem_of_fmap. by exists (ch0, cs). }
    rewrite sent_to_app, H3, H5, H2, H6, app_nil_r. split_and!; [|done..|].
    + eexists. rewrite Hm, lookup_insert_eq by done. by split.
    + intros Hv. apply elem_of_app; left. by apply H4.
  - destruct (slots_others ch0 (sessions cs0) states) as [H1 H2].
    { intros i' s' Hs'. eapply (Hd ch0 cs0 i' s'); [by left|done|].
      intros [= -> ->]. apply Hch0, list_elem_of_fmap. by exists (ch, cs). }
    apply IH in R as (H3 & H4 & H5 & H6); [|done|done| |by rewrite H1].
    2: { intros ch' cs' i' s' Hc. apply Hd. by right. }
    rewrite sent_to_app, H2, H5. split_and!; [done..|]. intros Hv. apply elem_of_app; right. by apply H6.
Qed.
End Round.

(** ** One session over the ticks *)

(** A tick as one session sees it: the second of the tick, the number drawn
    for the round, the monotonic clock, the number drawn for the age of the
    session; when its event task notes the ping of the round, and when the
    peer's answer to it is noted, if one is before the next tick. *)
Record Beat := {
  tick_at : Z;
  draw : Z;
  elapsed_at : Z;
  age_draw : Z;
  noted_at : Z;
  answered_at : option Z;
}.

(** What the ping and its answer leave in the state. *)
Definition note_ping (evs : list Event) (t : Z) (st : MuxSessionState) : MuxSessionState :=
  if existsb (fun ev => bool_decide (FLAG_PING = flags (header ev))) evs then set_ping st (wrap 32 t) else st.
Definition note_pong (t : option Z) (st : MuxSessionState) : MuxSessionState :=
  match t with Some t => set_pong st (wrap 32 t) | None => st end.

(** The ticks from the last round at [ping_time]; the result is the second at
    which the session is taken out of its slot. *)
Fixpoint heartbeat (ch : string) (s : MuxSession) (beats : list Beat) (ping_time : Z) (st : MuxSessionState)
    : option Z :=
  match beats with
  | [] => None
  | b :: beats =>
      let '(due, last) := tick_ping (tick_at b) ping_time (draw b) in
      if (due : bool) then
        let '(taken, acts) := routine_session ch (elapsed_at b) (age_draw b) s st in
        if (taken : bool) then Some (tick_at b)
        else heartbeat ch s beats last (note_pong (answered_at b) (note_ping (sent_to (s_event_tx s) acts) (noted_at b) st))
      else heartbeat ch s beats last st
  end.

(** The timer: a tick at least every five seconds. *)
Fixpoint paced (last : Z) (beats : list Beat) : Prop :=
  match beats with
  | [] => True
  | b :: beats => last <= tick_at b <= last + 5 /\ paced (tick_at b) beats
  end.
Fixpoint last_tick (last : Z) (beats : list Beat) : Z :=
  match beats with [] => last | b :: beats => last_tick (tick_at b) beats end.

(** What the clocks and the random numbers are. *)
Definition beat_ok (b : Beat) : Prop :=
  0 < tick_at b /\ tick_at b <= noted_at b < 2 ^ 32 /\ -10 <= draw b < 10.
Definition silent (b : Beat) : Prop := answered_at b = None.
(** The answer comes within a minute of the ping; its second may be the same. *)
Definition answered (b : Beat) : Prop :=
  exists t, answered_at b = Some t /\ noted_at b - 60 <= t < 2 ^ 32 /\ 0 < t.

Lemma tick_due now last d :
  0 <= last <= now -> now < 2 ^ 32 -> -10 <= d < 10 ->
  tick_ping now last d = if decide (30 + d < now - last) then (true, now) else (false, last).
Proof. intros Hl Hn Hd. unfold tick_ping. by rewrite !wrap_small by lia. Qed.

(** A round either takes a session of a client or sends it a PING. *)
Lemma routine_pings ch now rand s st acts :
  ch <> ""%string -> routine_session ch now rand s st = (false, acts) ->
  -60 <= ping_pong_gap st /\ existsb (fun ev => bool_decide (FLAG_PING = flags (header ev)))
    (sent_to (s_event_tx s) acts) = true.
Proof.
  intros Hch. unfold routine_session. case_decide; [done|]. rewrite decide_True by done.
  intros E. assert (acts = [SendEvent (s_event_tx s) (new_ping_event 0 false)] ++
    [SendEvent (s_event_tx s) (new_routine_event 0)]) as ->.
  { destruct (_ && _); by simplify_eq. }
  unfold sent_to. simpl. rewrite !decide_True by done. split; [lia|]. done.
Qed.

Section Silent.
Context (ch : string) (s : MuxSession) (t2 : Z).
Context (client : ch <> ""%string).

(** The last PING went out more than a minute after the last answer: the next
    round takes the session. *)
Lemma detected beats p tau st :
  Forall beat_ok beats -> paced tau beats -> 0 <= p <= tau -> tau <= p + 39 ->
  0 < t2 -> last_pong_recv_time st = t2 -> t2 + 60 < last_ping_send_time st ->
  p + 44 <= last_tick tau beats ->
  exists d, heartbeat ch s beats p st = Some d /\ d <= p + 44.
Proof.
  revert tau. induction beats as [|b beats IH]; intros tau Hok Hp Hr Ht Ht2 Hpong Hping Hend; cbn [last_tick] in Hend; [lia|].
  apply Forall_cons in Hok as [Hb Hok]. destruct Hp as [Hpace Hp]. destruct Hb as (Hb0 & Hb1 & Hb2).
  cbn [heartbeat]. rewrite tick_due by lia. case_decide as Hdue.
  - unfold routine_session. rewrite decide_True.
    2: { unfold ping_pong_gap. rewrite Hpong, !bool_decide_eq_true_2 by lia. simpl. lia. }
    exists (tick_at b). split; [done|lia].
  - apply (IH (tick_at b)); try done; lia.
Qed.

Lemma found_dead beats p tau st :
  Forall beat_ok beats -> Forall silent beats -> paced tau beats ->
  0 <= p <= tau -> p <= t2 + 60 -> tau <= Z.max t2 (p + 39) ->
  0 < t2 -> last_pong_recv_time st = t2 -> t2 + 148 <= last_tick tau beats ->
  exists d, heartbeat ch s beats p st = Some d /\ d <= t2 + 148.
Proof.
  revert p tau st. induction beats as [|b beats IH]; intros p tau st Hok Hs Hp Hr Hp60 Ht Ht2 Hpong Hend;
    cbn [last_tick] in Hend; [lia|].
  apply Forall_cons in Hok as [(Hb0 & Hb1 & Hb2) Hok]. apply Forall_cons in Hs as [Hsb Hs].
  destruct Hp as [Hpace Hp]. cbn [heartbeat]. rewrite tick_due by lia. case_decide as Hdue.
  - destruct (routine_session _ _ _ _ _) as [[|] acts] eqn:E; [exists (tick_at b); split; [done|lia]|].
    apply routine_pings in E as [_ E]; [|done]. unfold note_ping. rewrite E, Hsb. cbn [note_pong].
    rewrite wrap_small by lia. destruct (decide (tick_at b <= t2 + 60)).
    + apply (IH (tick_at b) (tick_at b)); try done; lia.
    + destruct (detected beats (tick_at b) (tick_at b) (set_ping st (noted_at b))) as (d & Hd & Hle);
        try done; simpl; try lia. exists d. split; [done|lia].
  - apply (IH p (tick_at b)); try done; lia.
Qed.

(** A session that is kept by every round. *)
Lemma kept (P : MuxSessionState -> Prop) (Q : Beat -> Prop) beats p st :
  max_alive_secs s = 0 -> (forall st, P st -> -60 <= ping_pong_gap st) ->
  (forall st b, P st -> Q b -> P (note_pong (answered_at b) (set_ping st (wrap 32 (noted_at b))))) ->
  Forall Q beats -> P st -> heartbeat ch s beats p st = None.
Proof.
  intros Hage HP Hb HQ. revert p st. induction HQ as [|b beats Hq HQ IH]; intros p st Hst; cbn [heartbeat]; [done|].
  destruct (tick_ping _ _ _) as [[|] last]; [|by apply IH].
  destruct (routine_session _ _ _ _ _) as [taken acts] eqn:E.
  destruct taken.
  - exfalso. unfold routine_session in E. rewrite decide_False in E by (specialize (HP st Hst); lia).
    rewrite Hage in E. simpl in E. by case_match.
  - apply routine_pings in E as [_ E]; [|done]. unfold note_ping. rewrite E. apply IH. by apply Hb.
Qed.
End Silent.

(** ** Properties *)

(** C20: a round treats every session of the table by itself.  Whatever else is
    in the table, a session with a state and a channel of its own is taken out
    of its slot, marked retired and put with the retired sessions exactly when
    its verdict says so, and otherwise stays where it is with its state
    untouched; and it is sent exactly the events of its verdict, in order. *)
Theorem round_treats_each now rand w w' acts ch cs i s st :
  routine_all_sessions now rand w = (w', acts) ->
  channels (manager w) !! ch = Some cs -> sessions cs !! i = Some (Some s) ->
  sstates w !! s_state s = Some st -> alone w ch i s ->
  let v := verdict now rand s st ch in
  (exists cs', channels (manager w') !! ch = Some cs' /\
     sessions cs' !! i = Some (if v.1 then None else Some s)) /\
  sstates w' !! s_state s = Some (if v.1 then set_retired st else st) /\
  (v.1 = true -> s ∈ retired (manager w')) /\
  sent_to (s_event_tx s) acts = sent_to (s_event_tx s) v.2.
Proof.
  intros E Hch Hi Hst [Hd Hret] v. unfold routine_all_sessions in E.
  destruct (routine_map _ _ _ _ _) as [[[m ac] newly] states] eqn:R. injection E as <- <-. cbn [manager channels retired sstates].
  apply (map_verdict now rand s st _ _ _ _ _ _ _ ch cs i) in R as (H1 & H2 & H3 & H4);
    [|apply NoDup_fst_map_to_list|by apply elem_of_map_to_list|done|done|].
  2: { intros ch' cs' i' s' Hc. apply Hd. by apply elem_of_map_to_list. }
  split_and!; [done|done|intros Hv; apply elem_of_app; right; by apply H4|].
  rewrite sent_to_app, H3. fold v. replace (sent_to _ (_ <$> _)) with (@nil Event); [apply app_nil_r|].
  symmetry. clear H3. induction (retired (manager w)) as [|s' rs IH]; [done|]. unfold sent_to. cbn.
  rewrite decide_False by (apply Hret; left). apply IH. intros s1 Hs1. apply Hret. by right.
Qed.

(** C15: a peer that falls silent is found dead, as long as the routine is not
    held up.  A session of a client whose peer has answered at least once, for
    the last time at [t2], is taken out of its slot no later than 148 seconds
    after, whatever numbers are drawn, when the timer ticks at least every five
    seconds ([paced]) and the session notes each ping before the next round
    ([beat_ok]).  A session that takes no events holds the routine up
    ([stalled_session_stops_routine] of [Supervisor]), and a peer that has never
    answered is not found ([heartbeat_keeps]). *)
Theorem silent_peer_found_dead ch s beats last st :
  ch <> ""%string -> Forall beat_ok beats -> Forall silent beats ->
  let t2 := last_pong_recv_time st in
  0 < t2 -> paced t2 beats -> 0 <= last <= t2 -> t2 + 148 <= last_tick t2 beats ->
  exists d, heartbeat ch s beats last st = Some d /\ d <= t2 + 148.
Proof. intros Hch Hok Hs t2 Ht2 Hp Hl He. eapply (found_dead ch s t2 Hch); try done; lia. Qed.

(** The heartbeat alone takes no session whose peer answers every ping
    within a minute, and none whose peer has never answered at all: without
    an age limit the routine keeps such a session in its slot. *)
Theorem heartbeat_keeps ch s beats last st :
  ch <> ""%string -> max_alive_secs s = 0 ->
  (Forall beat_ok beats -> Forall answered beats -> -60 <= ping_pong_gap st -> heartbeat ch s beats last st = None) /\
  (Forall silent beats -> last_pong_recv_time st = 0 -> heartbeat ch s beats last st = None).
Proof.
  intros Hch Hage. split.
  - intros Hok Ha Hg. eapply (kept ch s Hch (fun st => -60 <= ping_pong_gap st) (fun b => beat_ok b /\ answered b));
      [done|done| |by apply Forall_and|done].
    clear. intros st b _ [(H0 & H1 & _) (t & -> & Ht & Ht0)]. simpl. unfold ping_pong_gap. simpl.
    rewrite !wrap_small by lia. case_match; lia.
  - intros Hs H0. eapply (kept ch s Hch (fun st => last_pong_recv_time st = 0) silent); try done.
    + clear. intros st H0. unfold ping_pong_gap. rewrite H0, andb_comm. simpl. lia.
    + clear. intros st b H0 ->. done.
Qed.

Module BeatDemo.
Definition session : MuxSession :=
  {| s_id := 4; s_event_tx := 9; pendding_streams := []; stream_id_seed := 1; s_state := 9; max_alive_secs := 0 |}.
Definition state (ping pong : Z) : MuxSessionState :=
  {| last_ping_send_time := ping; last_pong_recv_time := pong; s_born_time := 0; s_retired := false;
     io_active_unix_secs := 0; s_closed := false |}.
Definition world : World :=
  {| manager := {| channels := {["rmux"%string := {| sessions := [None; Some session]; cursor := 0 |}]};
                   retired := [] |};
     sstates := {[9%nat := state 1000 900]}; cells := ∅ |}.
Definition beat (answer : option Z) (t : Z) : Beat :=
  {| tick_at := t; draw := 0; elapsed_at := t; age_draw := 0; noted_at := t; answered_at := answer |}.
Definition silence : list Beat := (fun i => beat None (1000 + 5 * Z.of_nat i)) <$> seq 1 30.
End BeatDemo.

Lemma round_treats_each_witness :
  exists w' acts, routine_all_sessions 3000 (fun _ => 0) BeatDemo.world = (w', acts) /\
    BeatDemo.session ∈ retired (manager w') /\ sent_to 9 acts = [new_shutdown_event 0 false].
Proof.
  destruct (routine_all_sessions 3000 (fun _ => 0) BeatDemo.world) as [w' acts] eqn:E.
  exists w', acts. split; [reflexivity|].
  destruct (round_treats_each 3000 (fun _ => 0) BeatDemo.world w' acts "rmux"
    {| sessions := [None; Some BeatDemo.session]; cursor := 0 |} 1 BeatDemo.session (BeatDemo.state 1000 900) E)
    as (_ & _ & H3 & H4); [reflexivity..| |].
  - split; [|intros s' Hs'; vm_compute in Hs'; inversion Hs'].
    intros ch' cs i' s' Hc Hs Hne. exfalso. unfold BeatDemo.world in Hc. cbn [manager channels] in Hc.
    apply lookup_singleton_Some in Hc as [<- <-]. apply Hne. f_equal.
    destruct i' as [|[|i']]; [discriminate Hs|reflexivity|discriminate Hs].
  - split; [apply H3; vm_compute; reflexivity|]. etransitivity; [exact H4|vm_compute; reflexivity].
Defined.

Lemma silent_peer_found_dead_witness :
  exists d, heartbeat "rmux" BeatDemo.session BeatDemo.silence 990 (BeatDemo.state 990 1000) = Some d /\ d <= 1148.
Proof.
  apply (silent_peer_found_dead "rmux" BeatDemo.session BeatDemo.silence 990 (BeatDemo.state 990 1000)).
  - discriminate.
  - apply Forall_fmap, Forall_forall. intros i Hi%elem_of_seq. unfold beat_ok. simpl. lia.
  - by apply Forall_fmap, Forall_forall.
  - simpl. lia.
  - vm_compute. repeat split; discriminate.
  - simpl. lia.
  - vm_compute. discriminate.
Defined.

Lemma heartbeat_keeps_witness :
  heartbeat "rmux" BeatDemo.session BeatDemo.silence 990 (BeatDemo.state 990 0) = None /\
  heartbeat "rmux" BeatDemo.session [BeatDemo.beat (Some 1052) 1050; BeatDemo.beat (Some 1101) 1100] 990
    (BeatDemo.state 990 1000) = None.
Proof.
  split.
  - apply (proj2 (heartbeat_keeps "rmux" BeatDemo.session BeatDemo.silence 990 (BeatDemo.state 990 0)
      ltac:(discriminate) eq_refl)); [by apply Forall_fmap, Forall_forall|reflexivity].
  - apply (proj1 (heartbeat_keeps "rmux" BeatDemo.session _ 990 (BeatDemo.state 990 1000)
      ltac:(discriminate) eq_refl)); [..|vm_compute; discriminate];
      repeat apply Forall_cons_2; try apply Forall_nil_2; unfold beat_ok, answered; simpl; try lia;
      eexists; (split; [reflexivity|lia]).
Defined.
