(* ===== verification/Serve.v ===== *)
(** * Serving a stream of the peer (src/src/rmux/session.rs, [handle_rmux_stream])

    The task a session spawns for every stream its peer opens: it connects to
    the target of the stream's request, relays between the two, and closes
    both.  The relay is the one of [MuxRelay]: the stream's reader and writer
    share the stream's cell.  The connection to the target is a pair of
    scripts. *)
From stdpp Require Import prelude gmap strings.
From Stdlib Require Import ZArith Lia.
From S2P Require Import Prelude Io Event Crypto Buf Stream Session EventLoop Relay Duplex MuxRelay.

Local Open Scope Z_scope.

Section Handler.
Context {W : Type} `{WindowReporter W}.

(** What is left when the task has returned: its result, the shared cell of
    the stream and the effects of closing it, the relay, and whether it closed
    the connection to the target. *)
Record Served := {
  result : io_result unit;
  served_cell : Cell;
  served_effs : list effect;
  relayed : option (MuxRelay (W := W));
  remote_closed : bool;
}.

Inductive Handler := Relaying (r : MuxRelay (W := W)) | Returned (s : Served).

Definition closing (m : MuxStream) (c : Cell) (r : io_result unit) (d : option MuxRelay) (remote : bool) : Served :=
  let '(c, effs) := Stream.close m c in
  {| result := r; served_cell := c; served_effs := effs; relayed := d; remote_closed := remote |}.

(** The two ends of the relay: the target [ro], [wo], and the stream, whose
    data channel is filled by the turns. *)
Definition served_ends (rd : MuxStreamReader) (c : Cell) (ro : source) (wo : sink)
    (room : list (poll (io_result unit) * io_result unit)) (w : W) : MuxEnds :=
  {| client_in := ro; client_out := wo; stream_cell := c; mux_reader := rd; inbox := []; hung_up := false;
     outbox := []; room := room; reporter := w |}.

(** [during] is what the other tasks make of the cell while this one connects,
    [turns] what they do before each poll of the relay. *)
Definition handle_rmux_stream (connect : string -> io_result unit) (during : Cell -> Cell) (turns : list Turn)
    (m : MuxStream) (c : Cell) (ro : source) (wo : sink)
    (room : list (poll (io_result unit) * io_result unit)) (w : W) : option (partial Handler) :=
  match get_direct_stream connect (addr (target m)) with
  | Ok _ =>
      match split m (during c) with
      | Ok (rd, c) =>
          match relay_await true turns (relay_start (served_ends rd c ro wo room w)) with
          | Some (Ok (r, true)) => Some (Ok (Returned (closing m (stream_cell (ends r)) (Ok tt) (Some r) true)))
          | Some (Ok (r, false)) => Some (Ok (Relaying r))
          | Some (Err e) => match e with end
          | Some Panic => Some Panic
          | None => None
          end
      | Err e => match e with end
      | Panic => Some Panic
      end
  | Err e => Some (Ok (Returned (closing m (during c) (Err e) None false)))
  | Panic => Some Panic
  end.
End Handler.

(** Every read of the stream is an error, whatever its receiver holds or has
    buffered, and gives the receiver up. *)
Definition reads_fail {W} `{WindowReporter W} (c : Cell) : Prop :=
  forall (r : MuxStreamReader) (w : W) buf recv,
    poll_read r (state c) w buf recv
      = Ok (Ready (Err "closed"%string), r, state c, w, buf, [CloseRx (rx r)]).

(** ** Lemmas *)

Lemma closed_reads_fail {W} `{WindowReporter W} c : closed (state c) = true -> reads_fail c.
Proof. intros Hc r w buf recv. unfold poll_read. by rewrite Hc. Qed.

(** The stream is closed and its FIN queued behind everything else. *)
Definition stream_over {W} (m : MuxStream) (sid : Z) (s : Served (W := W)) : Prop :=
  closed (state (served_cell s)) = true /\
  last (served_effs s) = Some (TrySendEvent (event_tx m) (new_fin_event sid false)).

Lemma closing_over {W} m c r d remote : stream_over (W := W) m (Stream.id c) (closing m c r d remote).
Proof.
  unfold stream_over, closing, Stream.close. destruct (waker _); simpl; (split; [done|]); apply last_snoc.
Qed.

Lemma closing_fields {W} m c r d remote :
  let s := closing (W := W) m c r d remote in result s = r /\ relayed s = d /\ remote_closed s = remote.
Proof. unfold closing. by destruct (Stream.close m c). Qed.

(** What the other tasks never do to a stream of this end: change its id, or
    take its receiver. *)
Definition respects (during : Cell -> Cell) : Prop :=
  forall c, Stream.id (during c) = Stream.id c /\
            (is_Some (io_data_rx (io_state c)) -> is_Some (io_data_rx (io_state (during c)))).

Lemma split_id m c r c' : split m c = Ok (r, c') -> Stream.id c' = Stream.id c.
Proof. unfold split. case_match; [|done]. unmonad. intros [= _ <-]. done. Qed.

Lemma split_fresh m c r c' : split m c = Ok (r, c') -> recv_buf r = [].
Proof. unfold split. case_match; [|done]. unmonad. by intros [= <- _]. Qed.

(** The stream a SYN opens, as the handler gets it. *)
Lemma syn_spawns {C : Ciphers} `{Bincode ConnectRequest} channel tunnel_id sref evtx ev e l creq :
  remote ev = true -> flags (header ev) = FLAG_SYN -> deserialize (body ev) = Some creq ->
  exists m c w' ss,
    handle_event channel tunnel_id sref evtx ev e l
      = Ok ({| world := w'; streams := ss; wctx := wctx l |}, [Spawn m], Continue) /\
    cells w' !! cell m = Some c /\ target m = creq /\ Stream.id c = Event.stream_id (header ev) /\
    is_Some (io_data_rx (io_state c)).
Proof.
  intros Hrem Hf Hd. unfold handle_event. decide_eqs. rewrite Hrem. cbn [negb].
  unfold handle_syn. rewrite Hd. simpl.
  eexists _, _, _, _. split; [reflexivity|]. simpl. rewrite lookup_insert_eq.
  split_and!; [done..|by eexists].
Qed.

(** ** Properties *)

(** What the handler is after [turns]: the relay goes on after all of them,
    or it was over after some and the stream and the target are closed. *)
Definition served {W} `{WindowReporter W} (m : MuxStream) (sid : Z) (x : MuxEnds (W := W)) (turns : list Turn)
    (r : MuxRelay) (h : option (partial (Handler (W := W)))) : Prop :=
  (h = Some (Ok (Relaying r)) /\ carries x turns r) \/
  exists polled s, polled `prefix_of` turns /\ carries x polled r /\ both_over r = true /\
    h = Some (Ok (Returned s)) /\ result s = Ok tt /\ relayed s = Some r /\ remote_closed s = true /\
    stream_over m sid s.

(** The handler once the target has been reached. *)
Lemma handler_relays {W} `{WindowReporter W} connect during turns m c rd c1 ro wo room (w : W) :
  connect (addr (target m)) = Ok tt -> split m (during c) = Ok (rd, c1) ->
  Forall turn_ok turns -> Forall turn_fits turns -> healthy ro -> Forall answers room ->
  let x := served_ends rd c1 ro wo room w in
  let run turns := handle_rmux_stream connect during turns m c ro wo room w in
  exists r, served m (Stream.id c1) x turns r (run turns) /\
    (run turns = Some (Ok (Relaying r)) -> is_Some (up_out r) -> takes_all x ->
     forall t, turn_ok t -> turn_fits t ->
     exists r', served m (Stream.id c1) x (turns ++ [t]) r' (run (turns ++ [t])) /\
       relay_await true (turns ++ [t]) (relay_start x) = Some (Ok (r', true))).
Proof.
  intros Hc Hsp Ht Hf Hro Hroom x run.
  assert (steady x) as Hst.
  { split; [|constructor|done]. unfold split in Hsp. destruct (io_data_rx _); [|done].
    injection Hsp as <- _. apply Nat.le_0_l. }
  assert (forall ts, run ts = match relay_await true ts (relay_start x) with
    | Some (Ok (r, true)) => Some (Ok (Returned (closing m (stream_cell (ends r)) (Ok tt) (Some r) true)))
    | Some (Ok (r, false)) => Some (Ok (Relaying r)) | Some (Err e) => match e with end
    | Some Panic => Some Panic | None => None end) as Hrun.
  { intros ts. unfold run, handle_rmux_stream, get_direct_stream. rewrite Hc, Hsp. fold x.
    by destruct (relay_await true ts _) as [[[r []]|[]|]|]. }
  assert (forall ts, Forall turn_ok ts -> Forall turn_fits ts -> exists r over,
    relay_await true ts (relay_start x) = Some (Ok (r, over)) /\ served m (Stream.id c1) x ts r (run ts)) as Hserved.
  { intros ts Hts Hfs. destruct (relay_await_carries x true ts Hts Hfs Hro Hst) as (polled & r & over & E & Hp & Hcar & Hid & Ho & Hn).
    exists r, over. split; [done|]. rewrite Hrun, E. destruct over.
    - right. eexists polled, _. destruct (closing_fields m (stream_cell (ends r)) (Ok tt) (Some r) true) as (E1 & E2 & E3).
      split_and!; [done|done|by apply Ho|done|done|done|done|].
      change (Stream.id c1) with (sid_of x). rewrite <- Hid. apply closing_over.
    - left. by rewrite <- (Hn eq_refl) at 1. }
  destruct (Hserved turns Ht Hf) as (r & over & E & Hs). exists r. split; [done|].
  intros Hrel Hup Hall t Ht1 Hf1.
  assert (over = false) as -> by (rewrite Hrun, E in Hrel; by destruct over).
  destruct (Hserved (turns ++ [t])) as (r' & over' & E' & Hs'); [by apply Forall_app; split; [|apply Forall_singleton]..|].
  exists r'. split; [done|].
  destruct (relay_await_ends x true turns t r) as (r2 & E2 & _); [by apply Forall_app; split; [|apply Forall_singleton]..|done|done|done|done|done|].
  rewrite E2 in E'. by injection E' as <- <-.
Qed.

(** C16: a stream the peer opens is served.  For the SYN of a connect request
    the session spawns a handler on a new stream; it dials the address of the
    request.  If that fails nothing is relayed, and the stream ends closed with
    its FIN queued last.  Otherwise it relays, over the cell the two directions
    share: as long as the target is read without error, no chunk is longer than
    two buffers and the event channel does not panic, it does not panic either;
    at any time, what it has sent on the stream, what it holds and what the target has
    still to say are together what the target says, and what the target has
    received, what it holds and what is unread are together what has arrived on
    the stream, so that each side gets a beginning of what the other says
    ([carries]); and whenever both directions are over, however they ended, it has
    closed the stream and the target, and the FIN is queued behind everything
    else.  Once the direction from the target is over it is at an end after
    one more poll, if the target takes everything; what is unread then is
    lost ([half_close_cuts] of [MuxRelay]). *)
Theorem peer_stream_served {C : Ciphers} `{BincodeLaws ConnectRequest} {W} `{WindowReporter W}
    channel tunnel_id sref evtx sid creq ev e l connect during turns ro wo room (w : W) :
  new_syn_event sid creq = Ok ev -> respects during ->
  Forall turn_ok turns -> Forall turn_fits turns -> healthy ro -> Forall answers room ->
  exists m c w' ss, let run turns := handle_rmux_stream connect during turns m c ro wo room w in
    handle_event channel tunnel_id sref evtx (received ev) e l
      = Ok ({| world := w'; streams := ss; wctx := wctx l |}, [Spawn m], Continue) /\
    cells w' !! cell m = Some c /\
    (forall err, connect (addr creq) = Err err ->
       exists s, run turns = Some (Ok (Returned s)) /\ result s = Err err /\ relayed s = None /\ stream_over m sid s) /\
    (connect (addr creq) = Ok tt ->
       exists rd c1 r, let x := served_ends rd c1 ro wo room w in
         unread x = [] /\ sid_of x = sid /\ served m sid x turns r (run turns) /\
         (run turns = Some (Ok (Relaying r)) -> is_Some (up_out r) -> takes_all x ->
          forall t, turn_ok t -> turn_fits t ->
          exists polled s, polled `prefix_of` turns ++ [t] /\ run (turns ++ [t]) = Some (Ok (Returned s)) /\
            stream_over m sid s)).
Proof.
  intros Hev Hd Ht Hf Hro Hroom. unfold new_syn_event in Hev. destruct (serialize creq) as [d|] eqn:Hs; [|done].
  injection Hev as <-. apply deserialize_serialize in Hs.
  set (ev := received (with_flag (new_data_event sid d false) FLAG_SYN)).
  pose proof (syn_spawns channel tunnel_id sref evtx ev e l creq) as (m & c & w' & ss & E & Hc & Htg & Hid & Hrx).
  { done. } { unfold ev. rewrite with_flag_data by done. simpl. by apply flags_get. } { done. }
  exists m, c, w', ss. split; [exact E|]. split; [exact Hc|]. split.
  - intros err Hce. unfold handle_rmux_stream, get_direct_stream. rewrite Htg, Hce. eexists. split; [done|].
    destruct (closing_fields (W := W) m (during c) (Err err) None false) as (-> & -> & _).
    split_and!; [done|done|]. replace sid with (Stream.id (during c)); [apply closing_over|].
    destruct (Hd c) as [-> _]. exact Hid.
  - intros Hco. destruct (Hd c) as [Hid1 Hrx1]. specialize (Hrx1 Hrx).
    destruct (split m (during c)) as [[rd c1]|[]|] eqn:Esp.
    2: { unfold split in Esp. destruct Hrx1 as [x Hx]. by rewrite Hx in Esp. }
    rewrite <- Htg in Hco. pose proof (split_id _ _ _ _ Esp) as Hid2.
    assert (Stream.id c1 = sid) as Hsid by (rewrite Hid2, Hid1; exact Hid).
    destruct (handler_relays connect during turns m c rd c1 ro wo room w Hco Esp Ht Hf Hro Hroom) as (r & Hserved & Hmore).
    rewrite Hsid in *. exists rd, c1, r. unfold unread, served_ends at 1; cbn [mux_reader inbox]. split_and!; [|exact Hsid|exact Hserved|].
    + by rewrite (split_fresh _ _ _ _ Esp).
    + intros Hrel Hup Hall t Ht1 Hf1. destruct (Hmore Hrel Hup Hall t Ht1 Hf1) as (r' & [[Er _]|(polled & s & Hp & _ & _ & Er & _ & _ & _ & Hover)] & Ea).
      * exfalso. unfold handle_rmux_stream, get_direct_stream in Er. rewrite Hco, Esp, Ea in Er. done.
      * by exists polled, s.
Qed.

(** A stream and a target that talk to each other; the target ends. *)
Module ServeDemo.
Definition connect (a : string) : io_result unit :=
  if decide (a = "b:2"%string) then Ok tt else Err "refused"%string.
Definition ev : Event :=
  match @new_syn_event _ Session.Demo.req_bincode 12 {| proto := "tcp"; addr := "b:2" |} with
  | Ok ev => ev | _ => new_empty_event false end.
Definition calm (c : Cell) : Cell := c.
Lemma calm_respects : respects calm.
Proof. intros c. by split. Qed.
Definition turns : list Turn := [MuxDemo.turn [[x61; x62]]; MuxDemo.turn []].
Definition answer : source := [Bytes [x63]].
Definition out : sink := {| writes := []; flushes := []; written := [] |}.
Lemma served_turns_fit : Forall turn_fits turns.
Proof. apply Forall_cons_2; [|apply Forall_singleton]; apply MuxDemo.short_fits; vm_compute; reflexivity. Qed.
End ServeDemo.

(** The handler relays both ways and is over at the second poll. *)
Lemma peer_stream_served_witness :
  exists m c w' ss s r,
    @handle_event Toy.toy Session.Demo.req_bincode "" 0 9 9 (received ServeDemo.ev) (LoopDemo.env 1) LoopDemo.loop
      = Ok ({| world := w'; streams := ss; wctx := Toy.ctx |}, [Spawn m], Continue) /\
    handle_rmux_stream (H := Stream.accepting) ServeDemo.connect ServeDemo.calm ServeDemo.turns m c ServeDemo.answer
      ServeDemo.out [] [] = Some (Ok (Returned s)) /\
    relayed s = Some r /\ written (client_out (ends r)) = [x61; x62] /\ sent_bytes (ends r) = [x63] /\
    stream_over m 12 s.
Proof.
  destruct (peer_stream_served (C := Toy.toy) (H := Session.Demo.req_bincode) (H0 := Session.Demo.req_bincode_laws)
    (H1 := Stream.accepting) "" 0 9 9 12 {| proto := "tcp"; addr := "b:2" |} ServeDemo.ev (LoopDemo.env 1) LoopDemo.loop
    ServeDemo.connect ServeDemo.calm ServeDemo.turns ServeDemo.answer ServeDemo.out [] [])
    as (m & c & w' & ss & E & Hc & _ & H).
  - reflexivity.
  - apply ServeDemo.calm_respects.
  - repeat apply Forall_cons_2; [apply MuxDemo.turn_fine..|apply Forall_nil_2].
  - apply ServeDemo.served_turns_fit.
  - apply (bool_decide_eq_true_1 _). vm_compute. reflexivity.
  - apply Forall_nil_2.
  - destruct H as (rd & c1 & r & _ & _ & Hs & _); [reflexivity|].
    vm_compute in E. injection E as <- <- <-. vm_compute in Hc. injection Hc as <-.
    destruct Hs as [[Er _]|(polled & s & _ & _ & _ & Er & _ & Hrel & _ & Hover)].
    + exfalso. vm_compute in Er. discriminate Er.
    + eexists _, _, _, _, s, r. split; [vm_compute; reflexivity|]. split; [exact Er|]. split; [exact Hrel|].
      assert (relayed s = Some r) as Hrel' by exact Hrel. vm_compute in Er. injection Er as <-. injection Hrel' as <-.
      split; [reflexivity|]. split; [reflexivity|exact Hover].
Defined.

(** The FIN of the peer overtakes its data.  Once a session has handled
    the FIN of an open stream, every read of the stream fails, whatever the
    data channel still holds and whatever was read into the buffer: the bytes
    of DATA events handled before the FIN but not yet read are lost. *)
Theorem fin_discards_unread {C : Ciphers} `{Bincode ConnectRequest} {W} `{WindowReporter W}
    channel tunnel_id sref evtx sid e l m :
  loop_inv l -> streams l !! sid = Some m ->
  exists l' acts nx c, handle_event channel tunnel_id sref evtx (received (new_fin_event sid false)) e l
      = Ok (l', acts, nx) /\
    cells (world l') !! cell m = Some c /\ reads_fail (W := W) c.
Proof.
  intros [Hs _] Hm. destruct (Hs _ _ Hm) as (c0 & Hc0 & _).
  destruct (close_stream_keeps (world l) m) as (_ & _ & _ & Hcl).
  destruct (Hcl c0 Hc0) as (c & Hc & Hclosed). unfold handle_event.
  assert (flags (header (received (new_fin_event sid false))) = FLAG_FIN) as Hf by done.
  decide_eqs. change (remote (received (new_fin_event sid false))) with true.
  change (Event.stream_id (header (received (new_fin_event sid false)))) with sid.
  unfold handle_fin_event. rewrite Hm. destruct (close_stream (world l) m) as [w1 acts]. cbn [negb fst] in *.
  destruct (_ && _); eexists _, _, _, c; (split; [done|]; split; [done|by apply closed_reads_fail]).
Qed.

Lemma fin_discards_unread_witness :
  exists l' acts nx c,
    @handle_event Toy.toy Session.Demo.req_bincode "rmux" 4 9 9 (received (new_fin_event 7 false))
      (LoopDemo.env 1) LoopDemo.loop = Ok (l', acts, nx) /\
    poll_read (H := fun _ _ _ _ w => (true, w)) {| rx := 0%nat; recv_buf := [x61] |} (state c) tt [x00]
      (Ready (Some [x62]))
      = Ok (Ready (Err "closed"%string), {| rx := 0%nat; recv_buf := [x61] |}, state c, tt, [x00], [CloseRx 0%nat]).
Proof.
  destruct (fin_discards_unread (C := Toy.toy) (H := Session.Demo.req_bincode) (W := unit)
              (H0 := fun _ _ _ _ w => (true, w)) "rmux" 4 9 9 7 (LoopDemo.env 1) LoopDemo.loop LoopDemo.one.1)
    as (l' & acts & nx & c & E & _ & Hread).
  - apply LoopDemo.loop_ok.
  - reflexivity.
  - exists l', acts, nx, c. split; [exact E|apply Hread].
Defined.

(** Half-closing is not possible either: shutting the writer of a stream down
    makes its reader fail. *)
Lemma shutdown_fails_reader {W} `{WindowReporter W} c : reads_fail (W := W) (poll_shutdown c).2.
Proof. by apply closed_reads_fail. Qed.
