(* ===== verification/Forward.v ===== *)
(** * Forwarding a client's connection (src/src/tunnel/relay.rs, [relay_connection], [relay_stream])

    The whole of a relay: the remote stream is opened by the rules ([Relay]),
    the bytes read ahead are written to it, the two directions are copied, then
    the remote stream and the client's connection are closed.  A direct remote
    is a TCP connection, a pair of scripts copied as in [Relay]; a multiplexed one
    is relayed as in [MuxRelay], over the cell its reader and writer share.
    What the other tasks make of the shared world while the relay runs is an
    argument. *)
From stdpp Require Import prelude gmap strings.
From Stdlib Require Import ZArith Lia.
From S2P Require Import Prelude Io Event Buf Stream Session EventLoop Relay Duplex MuxRelay.

Section Forward.
Context `{Bincode ConnectRequest} {W : Type} `{WindowReporter W}.

(** What has been carried: by the two copies over scripts; of the bytes read
    ahead, with some left to write; by the relay of a multiplexed stream. *)
Inductive Carried :=
  | Copies (up down : Direction)
  | Ahead (rest : list byte) (x : MuxEnds (W := W))
  | Muxed (r : MuxRelay (W := W)).

(** An ended relay, and which connections were shut down. *)
Record Forwarded := { carried : Carried; remote_shut : bool; inbound_shut : bool }.

(** [relay_connection] while it runs, and when it has returned. *)
Inductive Forwarding :=
  | Running (c : Carried)
  | Ended (res : io_result Forwarded) (w : World) (acts : list action).

(** [remote.close()]: of a TCP connection [shutdown(Both)], the [bool]; of a
    multiplexed stream its [close]. *)
Definition close_remote (s : ChannelStream) (w : World) : World * list action * bool :=
  match s with
  | DirectChannelStream _ => (w, [], true)
  | MuxChannelStream m => let '(w, acts) := close_stream w m in (w, acts, false)
  end.

Context (connect : string -> io_result unit).
(** A TCP connection, with the polls of the copies over it and the fuel of
    the writing ahead; what the other tasks do to a multiplexed stream before
    each poll, the room in its event channel and the manager; the other tasks. *)
Context (connection : string -> source * sink) (fuel n : nat).
Context (turns : list Turn) (vacant : list (poll (io_result unit) * io_result unit)) (told : W).
Context (during : World -> World).

Definition forward_ends (rd : MuxStreamReader) (c : Cell) (ri : source) (wi : sink) : MuxEnds :=
  {| client_in := ri; client_out := wi; stream_cell := c; mux_reader := rd; inbox := []; hung_up := false;
     outbox := []; room := vacant; reporter := told |}.

(** [write_all] and [relay] on a multiplexed stream; the [bool] is whether
    they are over.  The cell is what they leave. *)
Definition relay_mux (buf : list byte) (m : MuxStream) (c : Cell) (ri : source) (wi : sink)
    : option (partial (io_result (Carried * bool) * Cell)) :=
  match split m c with
  | Ok (rd, c) =>
      let x := forward_ends rd c ri wi in
      match (if decide (buf = []) then Some (Ready (Ok tt), [], x, turns) else write_all_await turns buf x) with
      | Some (Ready (Ok _), _, x, turns) =>
          match relay_await false turns (relay_start x) with
          | Some (Ok (r, over)) => Some (Ok (Ok (Muxed r, over), stream_cell (ends r)))
          | Some (Err e) => match e with end
          | Some Panic => Some Panic
          | None => None
          end
      | Some (Ready (Err e), _, x, _) => Some (Ok (Err e, stream_cell x))
      | Some (Ready Panic, _, _, _) => Some Panic
      | Some (Pending, rest, x, _) => Some (Ok (Ok (Ahead rest x, false), stream_cell x))
      | None => None
      end
  | Err e => match e with end
  | Panic => Some Panic
  end.

(** [write_all] and [relay] on the remote stream, and the world they leave.  A
    stream that [create_stream] has just made has its cell
    ([open_remote_fresh]). *)
Definition relay_remote (s : ChannelStream) (buf : list byte) (ri : source) (wi : sink) (w : World)
    : option (partial (io_result (Carried * bool) * World)) :=
  match s with
  | DirectChannelStream a =>
      let '(ro, wo) := connection a in
      match relay_stream fuel n buf ri wi ro wo with
      | Some (Ok (up, down, over)) => Some (Ok (Ok (Copies up down, over), during w))
      | Some (Err e) => Some (Ok (Err e, during w))
      | Some Panic => Some Panic
      | None => None
      end
  | MuxChannelStream m =>
      match cells w !! cell m with
      | Some c =>
          match relay_mux buf m c ri wi with
          | Some (Ok (r, c)) => Some (Ok (r, set_cell (during w) (cell m) c))
          | Some (Err e) => match e with end
          | Some Panic => Some Panic
          | None => None
          end
      | None => None
      end
  end.

(** [relay_stream].  An error leaves the remote stream as it is. *)
Definition relay_stream_whole (pac : list PACConfig) (target : string) (relay_buf : list byte)
    (local_reader : source) (local_writer : sink) (now : Z) (w : World) : option (partial Forwarding) :=
  match open_remote connect pac target now w with
  | Ok (Ok remote, w, effs) =>
      match relay_remote remote relay_buf local_reader local_writer w with
      | Some (Ok (Ok (c, true), w)) =>
          let '(w, acts, shut) := close_remote remote w in
          Some (Ok (Ended (Ok {| carried := c; remote_shut := shut; inbound_shut := false |}) w (map Do effs ++ acts)))
      | Some (Ok (Ok (c, false), _)) => Some (Ok (Running c))
      | Some (Ok (Err e, w)) => Some (Ok (Ended (Err e) w (map Do effs)))
      | Some (Ok (Panic, _)) => Some Panic
      | Some (Err e) => match e with end
      | Some Panic => Some Panic
      | None => None
      end
  | Ok (Err e, w, effs) => Some (Ok (Ended (Err e) w (map Do effs)))
  | Ok (Panic, _, _) => Some Panic
  | Err x => match x with end
  | Panic => Some Panic
  end.

(** [relay_connection]: an error skips the shutdown of the client's
    connection. *)
Definition relay_connection (pac : list PACConfig) (target : string) (relay_buf : list byte)
    (ri : source) (wi : sink) (now : Z) (w : World) : option (partial Forwarding) :=
  match relay_stream_whole pac target relay_buf ri wi now w with
  | Some (Ok (Ended (Ok f) w acts)) =>
      Some (Ok (Ended (Ok {| carried := carried f; remote_shut := remote_shut f; inbound_shut := true |}) w acts))
  | r => r
  end.
End Forward.

(** ** Lemmas *)

(** What is left of the remote stream. *)
Definition remote_over (s : ChannelStream) (w : World) (acts : list action) (shut : bool) : Prop :=
  match s with
  | DirectChannelStream _ => shut = true
  | MuxChannelStream m => exists c, cells w !! cell m = Some c /\ closed (state c) = true /\
      last acts = Some (Do (TrySendEvent (event_tx m) (new_fin_event (Stream.id c) false)))
  end.

Lemma close_remote_over s w effs :
  match s with MuxChannelStream m => is_Some (cells w !! cell m) | _ => True end ->
  let '(w', acts, shut) := close_remote s w in remote_over s w' (map Do effs ++ acts) shut.
Proof.
  destruct s as [a|m]; [done|]. intros [c Hc]. unfold close_remote, close_stream. rewrite Hc.
  pose proof (close_id m c) as Hid. unfold Stream.close in *. cbn in *.
  destruct (waker (io_state c)); cbn in *; eexists; (split; [apply lookup_insert_eq|]); (split; [done|]);
    rewrite map_app, app_assoc; apply last_snoc.
Qed.

(** A multiplexed stream the rules yield is new: its cell has its receiver. *)
Lemma open_remote_fresh `{Bincode ConnectRequest} connect pac target now w m w1 effs :
  open_remote connect pac target now w = Ok (Ok (MuxChannelStream m), w1, effs) ->
  exists c, cells w1 !! cell m = Some c /\ is_Some (io_data_rx (io_state c)).
Proof.
  unfold open_remote. destruct (select_channel _ _ _ _) as [channel|[]|]; [|done]. unmonad.
  case_decide; [done|]. unfold get_channel_stream. case_decide.
  { unfold get_direct_stream. by destruct (connect target). }
  unfold get_rmux_stream, create_stream. destruct (channels (manager w) !! channel) as [cs|]; [|done].
  destruct (pick_session _ _ _) as [[[idx s]|] cur]; [|done].
  destruct (new_syn_event _ _) as [ev|[]|]; [|done]. unmonad. intros [= <- <- _]. simpl.
  rewrite lookup_insert_eq. eexists. split; [done|]. by eexists.
Qed.

Lemma write_all_await_more {W} `{WindowReporter W} turns more l (x : MuxEnds (W := W)) o left x' rest :
  write_all_await turns l x = Some (Ready o, left, x', rest) ->
  write_all_await (turns ++ more) l x = Some (Ready o, left, x', rest ++ more).
Proof.
  revert l x. induction turns as [|t turns IH]; intros l x E; cbn [write_all_await app] in E |- *; [done|].
  destruct (poll_write_all _ l _) as [[[[o1|] l1] x1]|]; cbn [mbind option_bind] in *; [by simplify_eq|by apply IH|done].
Qed.

Section ForwardMux.
Context {W : Type} `{WindowReporter W}.
Context (vacant : list (poll (io_result unit) * io_result unit)) (told : W) (m : MuxStream) (c : Cell).
Context (buf : list byte) (ri : source) (wi : sink).
Hypothesis fresh_stream : is_Some (io_data_rx (io_state c)).
Hypothesis client_healthy : healthy ri.
Hypothesis channel_answers : Forall answers vacant.

(** What [turns] have made of the bytes read ahead, the client and the
    stream: each side has a beginning of what it is due. *)
Definition forwards (turns : list Turn) (p : Carried (W := W)) : Prop :=
  match p with
  | Copies _ _ => False
  | Ahead rest x => sent_bytes x ++ rest = buf /\ client_in x = ri /\ client_out x = wi
  | Muxed r => exists polled, polled `prefix_of` turns /\
      sent_bytes (ends r) ++ held (up_copy r) ++ stream (client_in (ends r)) = buf ++ stream ri /\
      written (client_out (ends r)) ++ held (down_copy r) ++ unread (ends r)
        = written wi ++ mjoin (mjoin (arrives <$> polled)) /\
      (forall k, up_out r = Some (Ok k) -> sent_bytes (ends r) = buf ++ stream ri)
  end.

(** The ends of the relay, once the bytes read ahead are written. *)
Lemma ahead_written turns :
  Forall turn_ok turns -> Forall turn_fits turns ->
  exists rd c1, split m c = Ok (rd, c1) /\ let x := forward_ends vacant told rd c1 ri wi in
  exists res rest x1 later polled,
    (if decide (buf = []) then Some (Ready (Ok tt), [], x, turns) else write_all_await turns buf x)
      = Some (res, rest, x1, later) /\ turns = polled ++ later /\ steady x1 /\ res <> Ready Panic /\
    sent_bytes x1 ++ rest = buf /\ client_in x1 = ri /\ client_out x1 = wi /\
    unread x1 = mjoin (mjoin (arrives <$> polled)) /\ (res = Ready (Ok tt) -> rest = []).
Proof.
  intros Ht Hf. destruct fresh_stream as [rx Hrx]. unfold split. rewrite Hrx. unmonad. eexists _, _. split; [done|].
  cbn zeta. set (x := forward_ends _ _ _ _ _ _).
  assert (steady x) as Hst by (split; [apply Nat.le_0_l|constructor|done]).
  case_decide as Hb.
  { exists (Ready (Ok tt)), [], x, turns, []. by rewrite Hb. }
  destruct (write_all_await_ahead turns buf x Hb Ht Hf Hst)
    as (res & rest & x1 & later & polled & E & Heq & (V1 & V2 & _ & V4 & V5) & Hi & Hs & Hp & Hd & _).
  exists res, rest, x1, later, polled. split_and!; try done.
  unfold unread. rewrite V4, Hi. done.
Qed.

Lemma relay_mux_forwards turns :
  Forall turn_ok turns -> Forall turn_fits turns ->
  exists res c', relay_mux turns vacant told buf m c ri wi = Some (Ok (res, c')) /\
    match res with
    | Ok (p, over) => forwards turns p /\ (over = true -> exists r, p = Muxed r /\ both_over r = true)
    | Err _ => buf <> []
    | Panic => False
    end.
Proof.
  intros Ht Hf. destruct (ahead_written turns Ht Hf) as (rd & c1 & Esp & res & rest & x1 & later & polled & E & Heq & Hst & Hp & Hs & Hin & Hout & Hun & Hd).
  unfold relay_mux. rewrite Esp, E. rewrite Heq in Ht, Hf. apply Forall_app in Ht as [_ Ht], Hf as [_ Hf].
  destruct res as [[[]|e|]|]; [| |done|eexists _, _; split; [done|]; by split].
  - rewrite (Hd eq_refl), app_nil_r in Hs. rewrite <- Hin in client_healthy.
    destruct (relay_await_carries x1 false later Ht Hf client_healthy Hst) as (polled2 & r & over & Er & Hpre & (Hu & Hdn & _ & Hwh & _) & _ & Ho & _).
    rewrite Er. eexists _, _. split; [done|]. split; [|intros Hov; by exists r; auto].
    exists (polled ++ polled2). rewrite Hs, Hin in Hu. rewrite Hout, Hun, <- join_app, <- join_app, <- fmap_app in Hdn.
    split_and!; [rewrite Heq; by apply prefix_app|done|done|]. intros k Hk. rewrite (Hwh k Hk). by rewrite Hs, Hin.
  - eexists _, _. split; [done|]. intros ->. by rewrite decide_True in E.
Qed.

(** Once the upload is over the relay is at an end after one more poll. *)
Lemma relay_mux_ends turns t r c' :
  Forall turn_ok (turns ++ [t]) -> Forall turn_fits (turns ++ [t]) -> writes wi = [] -> flushes wi = [] ->
  relay_mux turns vacant told buf m c ri wi = Some (Ok (Ok (Muxed r, false), c')) -> is_Some (up_out r) ->
  exists r' c'', relay_mux (turns ++ [t]) vacant told buf m c ri wi = Some (Ok (Ok (Muxed r', true), c'')).
Proof.
  intros Ht Hf Hw Hfl E Hup. pose proof Ht as Ht0. pose proof Hf as Hf0. apply Forall_app in Ht0 as [Ht0 _], Hf0 as [Hf0 _].
  destruct (ahead_written turns Ht0 Hf0) as (rd & c1 & Esp & res & rest & x1 & later & polled & Ea & Heq & Hst & _ & _ & Hin & Hout & _).
  unfold relay_mux in E |- *. rewrite Esp in E |- *. rewrite Ea in E.
  destruct res as [[[]|e|]|]; [|done..].
  assert ((if decide (buf = []) then Some (Ready (Ok tt), [], forward_ends vacant told rd c1 ri wi, turns ++ [t])
    else write_all_await (turns ++ [t]) buf (forward_ends vacant told rd c1 ri wi)) = Some (Ready (Ok tt), rest, x1, later ++ [t])) as ->.
  { revert Ea. case_decide; intros Ea; [by injection Ea as <- <- <-|by apply write_all_await_more]. }
  destruct (relay_await false later (relay_start x1)) as [[[r1 over]|[]|]|] eqn:Er; [|done..]. injection E as -> -> _.
  rewrite Heq, <- app_assoc in Ht, Hf. apply Forall_app in Ht as [_ Ht], Hf as [_ Hf]. rewrite <- Hin in client_healthy.
  destruct (relay_await_ends x1 false later t r Ht Hf client_healthy Hst) as (r' & E' & _); [by rewrite <- Hout in Hw, Hfl; split|done|done|].
  rewrite E'. by eexists _, _.
Qed.
End ForwardMux.

(** ** Forwarded clients, for the witness *)

Module ForwardDemo.
Definition connection (a : string) : source * sink := (RelayDemo.server, RelayDemo.out).
Definition calm (w : World) : World := w.
Definition turns : list Turn := [MuxDemo.turn [[x64]]; MuxDemo.turn []; MuxDemo.turn []; MuxDemo.turn []].
Lemma turns_fine : Forall turn_ok turns.
Proof. repeat (apply Forall_cons_2; [apply MuxDemo.turn_fine|]). apply Forall_nil_2. Qed.
Lemma turns_fit : Forall turn_fits turns.
Proof. repeat (apply Forall_cons_2; [apply MuxDemo.short_fits; vm_compute; reflexivity|]). apply Forall_nil_2. Qed.
Definition out : sink := {| writes := []; flushes := []; written := [] |}.
End ForwardDemo.

(** ** Properties *)

(** C17: a client's connection is forwarded.  When the rules yield a direct
    connection and both sides go on without errors, [relay_connection] returns
    without error: the target has received the bytes read ahead and then
    everything the client sent, the client everything the target sent, and
    both connections are shut down.  When they yield a multiplexed stream, and
    no chunk is longer than two buffers, it does not panic, and at any time
    what has been sent on the stream is a beginning of the bytes read ahead
    followed by what the client says, and what the client has received a
    beginning of what has arrived on the stream; an upload that ended well has
    sent everything.  Whenever both directions are over the client's connection
    is shut down and the stream is closed, its FIN the last thing done; once
    the upload is over this is so after one more poll, if the client takes
    everything, and what is unread then is lost ([half_close_cuts] of
    [MuxRelay]).  An error while the bytes read ahead are written returns, with the
    stream not closed. *)
Theorem connection_forwarded `{Bincode ConnectRequest} {W} `{WindowReporter W} connect connection fuel n room (told : W)
    during pac target buf ri wi now w s w1 effs :
  open_remote connect pac target now w = Ok (Ok s, w1, effs) -> healthy ri ->
  let run turns := relay_connection connect connection fuel n turns room told during pac target buf ri wi now w in
  match s with
  | DirectChannelStream a =>
      healthy (connection a).1 -> open_sink wi -> open_sink (connection a).2 ->
      (length buf + full (writes (connection a).2) < fuel)%nat ->
      (not_ready ri + full (writes (connection a).2) + full (flushes (connection a).2) <= n)%nat ->
      (not_ready (connection a).1 + full (writes wi) + full (flushes wi) <= n)%nat ->
      forall turns, exists up down,
        run turns = Some (Ok (Ended (Ok {| carried := Copies up down; remote_shut := true; inbound_shut := true |})
                                    (during w1) (map Do effs))) /\
        written (writer (copy up)) = written (connection a).2 ++ buf ++ stream ri /\
        written (writer (copy down)) = written wi ++ stream (connection a).1
  | MuxChannelStream m =>
      Forall answers room -> forall turns, Forall turn_ok turns -> Forall turn_fits turns ->
      (exists res, run turns = Some (Ok res) /\
        match res with
        | Running p => forwards buf ri wi turns p
        | Ended (Ok f) w' acts => forwards buf ri wi turns (carried f) /\
            (exists r, carried f = Muxed r /\ both_over r = true) /\
            inbound_shut f = true /\ remote_over s w' acts (remote_shut f)
        | Ended (Err e) w' acts => buf <> [] /\ acts = map Do effs
        | Ended Panic _ _ => False
        end) /\
      (forall r t, run turns = Some (Ok (Running (Muxed r))) -> is_Some (up_out r) ->
        turn_ok t -> turn_fits t -> writes wi = [] -> flushes wi = [] ->
        exists f w' acts, run (turns ++ [t]) = Some (Ok (Ended (Ok f) w' acts)) /\
          inbound_shut f = true /\ remote_over s w' acts (remote_shut f))
  end.
Proof.
  intros Eo Hri run. destruct s as [a|m].
  - intros Hro Hwi Hwo Hfuel Hn1 Hn2 turns. unfold run, relay_connection, relay_stream_whole. rewrite Eo. cbn [relay_remote].
    destruct (connection a) as [ro wo]; cbn [fst snd] in *.
    destruct (relay_stream_delivers fuel n buf ri wi ro wo) as (up & down & -> & Hu & Hd & _ & _); [done..|].
    exists up, down. cbn. by rewrite app_nil_r.
  - intros Hroom turns Ht Hf. destruct (open_remote_fresh _ _ _ _ _ _ _ _ Eo) as (c & Hc & Hrx).
    assert (forall ts p over c', relay_mux ts room told buf m c ri wi = Some (Ok (Ok (p, over), c')) ->
      if over then exists f w' acts, run ts = Some (Ok (Ended (Ok f) w' acts)) /\ carried f = p /\
        inbound_shut f = true /\ remote_over (MuxChannelStream m) w' acts (remote_shut f)
      else run ts = Some (Ok (Running p))) as Hrun.
    { intros ts p over c' Er. unfold run, relay_connection, relay_stream_whole. rewrite Eo. cbn [relay_remote].
      rewrite Hc, Er. destruct over; [|done].
      pose proof (close_remote_over (MuxChannelStream m) (set_cell (during w1) (cell m) c') effs) as Hover.
      destruct (close_remote _ _) as [[w2 acts] shut]. eexists _, _, _. split_and!; [done..|].
      apply Hover. cbn. rewrite lookup_insert_eq. by eexists. }
    split.
    + destruct (relay_mux_forwards room told m c buf ri wi Hrx Hri Hroom turns Ht Hf) as (res & c' & Er & Hres).
      destruct res as [[p over]|e|]; [|exists (Ended (Err e) (set_cell (during w1) (cell m) c') (map Do effs)); split; [|done]|done].
      * destruct Hres as [Hp Hov]. specialize (Hrun _ _ _ _ Er). destruct over; [|by eexists].
        destruct Hrun as (f & w' & acts & Ef & <- & Hin & Hover). eexists. split; [exact Ef|]. split_and!; auto.
      * unfold run, relay_connection, relay_stream_whole. rewrite Eo. cbn [relay_remote]. by rewrite Hc, Er.
    + intros r t Hr Hup Ht1 Hf1 Hw Hfl.
      destruct (relay_mux_forwards room told m c buf ri wi Hrx Hri Hroom turns Ht Hf) as (res & c' & Er & Hres).
      destruct res as [[p over]|e|]; [| |done].
      2: { unfold run, relay_connection, relay_stream_whole in Hr. rewrite Eo in Hr. cbn [relay_remote] in Hr.
           by rewrite Hc, Er in Hr. }
      pose proof (Hrun _ _ _ _ Er) as Hr'. destruct over; [destruct Hr' as (f & w' & acts & Ef & _); congruence|].
      rewrite Hr in Hr'. injection Hr' as <-.
      destruct (relay_mux_ends room told m c buf ri wi Hrx Hri Hroom turns t r c') as (r' & c'' & E'); try done;
        [apply Forall_app; by split; [|apply Forall_singleton]..|].
      destruct (Hrun _ _ _ _ E') as (f & w' & acts & Ef & _ & ? & ?). by exists f, w', acts.
Qed.

(** A client forwarded over a multiplexed stream, to the end. *)
Lemma connection_forwarded_witness :
  exists m w1 effs r f w' acts,
    @open_remote Session.Demo.req_bincode RelayDemo.connect RelayDemo.rules "a:1" 0 (Session.Demo.world 0)
      = Ok (Ok (MuxChannelStream m), w1, effs) /\
    relay_connection (H := Session.Demo.req_bincode) (H0 := Stream.accepting) RelayDemo.connect ForwardDemo.connection 5 4
      ForwardDemo.turns [(Pending, Ok tt)] [] ForwardDemo.calm RelayDemo.rules "a:1" [x47; x48] RelayDemo.client
      ForwardDemo.out 0 (Session.Demo.world 0) = Some (Ok (Ended (Ok f) w' acts)) /\
    carried f = Muxed r /\ sent_bytes (ends r) = [x47; x48; x61; x62; x63] /\
    written (client_out (ends r)) = [x64] /\ remote_over (MuxChannelStream m) w' acts (remote_shut f).
Proof.
  destruct (@open_remote Session.Demo.req_bincode RelayDemo.connect RelayDemo.rules "a:1" 0 (Session.Demo.world 0))
    as [[[[[a|m]|e|] w1] effs]|[]|] eqn:E; try (vm_compute in E; discriminate E).
  destruct (connection_forwarded (H := Session.Demo.req_bincode) (H0 := Stream.accepting) RelayDemo.connect
    ForwardDemo.connection 5 4 [(Pending, Ok tt)] [] ForwardDemo.calm RelayDemo.rules "a:1" [x47; x48] RelayDemo.client
    ForwardDemo.out 0 (Session.Demo.world 0) (MuxChannelStream m) w1 effs E) with (turns := ForwardDemo.turns)
    as [(res & Er & Hres) _].
  - apply (bool_decide_eq_true_1 _). vm_compute. reflexivity.
  - apply Forall_singleton. exact I.
  - apply ForwardDemo.turns_fine.
  - apply ForwardDemo.turns_fit.
  - destruct res as [p|[f|e|] w' acts]; [exfalso; vm_compute in Er; discriminate Er| |exfalso; vm_compute in Er; discriminate Er|destruct Hres].
    destruct Hres as (_ & (r & Hr & _) & _ & Hover). exists m, w1, effs, r, f, w', acts.
    split; [reflexivity|]. split; [exact Er|]. split; [exact Hr|].
    assert (carried f = Muxed r) as Hr' by exact Hr. vm_compute in Er. injection Er as <- _ _. injection Hr' as <-.
    split; [reflexivity|]. split; [reflexivity|exact Hover].
Defined.
