(* ===== verification/Net.v ===== *)
(** * Sockets and URLs (src/src/utils/net.rs, net2.rs)

    What the program does with sockets besides reading and writing them: the
    original destination of a redirected connection, the CONNECT tunnel
    through an HTTP proxy, and the two adapters between the polling traits of
    [tokio] and of [futures].  URLs, as the crate [url] parses them. *)
From stdpp Require Import prelude strings.
From Stdlib Require Import ZArith Lia.
From S2P Require Import Prelude Io Text Http Conn.

Local Open Scope Z_scope.

(** [Option::unwrap] *)
Definition unwrap {E T} (o : option T) : result E T :=
  match o with Some x => Ok x | None => Panic end.

(** ** URLs *)

(** [Url]: its parts the program asks for.  [port] is the port it names, which
    is none when it is the default of the scheme. *)
Record Url := {
  scheme : string;
  host : option string;
  port : option Z;
  port_or_known_default : option Z;
}.
Class UrlParse := url_parse : string -> option Url.

(** ** The original destination of a redirected connection *)

(** [getsockopt] answers an IPv4 address and a port, or fails. *)
Definition get_origin_dst (getsockopt : io_result (string * Z)) : option (string * Z) :=
  match getsockopt with Ok addr => Some addr | _ => None end.

(** ** A tunnel through an HTTP proxy *)

(** [httparse::Response::parse]: the code of a complete response. *)
Class ResponseParse := res_parse : list byte -> option Z.

Definition is_ok_response `{ResponseParse} (buf : list byte) : bool :=
  match res_parse buf with Some code => bool_decide (code < 300) | None => false end.

Definition connect_str (remote : string) : list byte :=
  bytes_of "CONNECT " ++ bytes_of remote ++ bytes_of " HTTP/1.1" ++ CRLF ++
  bytes_of "Host: " ++ bytes_of remote ++ CRLF ++
  bytes_of "Connection: keep-alive" ++ CRLF ++
  bytes_of "Proxy-Connection: keep-alive" ++ CRLF ++ CRLF.

Section Proxy.
Context `{ResponseParse} {A : BytesAlloc} {T : TwoWay}.

(** [socket_addrs] is what the URL of the proxy resolves to, [connect] the TCP
    connect under its timeout; [None] is a read that does not return. *)
Definition http_proxy_connect (fuel : nat) (socket_addrs : io_result (list string))
    (connect : string -> io_result Conn) (remote : string) : option (io_result Conn) :=
  match socket_addrs with
  | Err _ => Some (Err "connection aborted"%string)
  | Panic => Some Panic
  | Ok raddr =>
      match (a ← index 0 raddr; connect a) with
      | Err e => Some (Err e)
      | Panic => Some Panic
      | Ok socket =>
          match write_all (connect_str remote) socket with
          | (Err e, _) => Some (Err e)
          | (Panic, _) => Some Panic
          | (Ok _, socket) =>
              match read_until_separator fuel (input socket) (CRLF ++ CRLF) with
              | None => None
              | Some (Err e, _) => Some (Err e)
              | Some (Panic, _) => Some Panic
              | Some (Ok (head, _), s) =>
                  Some (if is_ok_response head
                        then Ok {| input := s; output := output socket; answers := answers socket |}
                        else Err "connection aborted"%string)
              end
          end
      end
  end.

Context `{!BytesAllocLaws A} `{!TwoWayLaws T}.

(** A proxy that accepts: the tunnel is what follows the response, less the
    bytes that were read together with it. *)
Lemma http_proxy_connect_accepts a addrs connect remote socket q :
  connect a = Ok socket -> healthy (input socket) -> answers socket = [] ->
  occurs_at (CRLF ++ CRLF) (stream (input socket)) q ->
  exists head early s,
    head ++ early ++ stream s = stream (input socket) /\
    http_proxy_connect (S (weight (input socket))) (Ok (a :: addrs)) connect remote =
      Some (if is_ok_response head
            then Ok {| input := s; output := output socket ++ connect_str remote; answers := [] |}
            else Err "connection aborted"%string).
Proof.
  intros Hc Hh Hans Hq.
  destruct (read_until_loop_total (input socket) [] (CRLF ++ CRLF) q Hh ltac:(done) Hq) as [[[h r] s'] Hout].
  pose proof Hout as Hok. eapply read_until_loop_ok in Hok as [Hst _]; [|done].
  exists h, r, s'. split; [exact Hst|]. unfold http_proxy_connect, read_until_separator.
  assert ((x ← index 0 (a :: addrs); connect x) = Ok socket) as -> by exact Hc.
  rewrite write_ok by done. cbn [input answers output]. by rewrite Hout.
Qed.
End Proxy.

(** ** The adapters *)

(** The polling operations of [tokio] and of [futures] on a connection. *)
Record TokioIO (S : Type) := {
  tokio_read : nat -> S -> poll (io_result (list byte)) * S;
  tokio_write : list byte -> S -> poll (io_result nat) * S;
  tokio_flush : S -> poll (io_result unit) * S;
  tokio_shutdown : S -> poll (io_result unit) * S;
}.
Record FuturesIO (S : Type) := {
  futures_read : nat -> S -> poll (io_result (list byte)) * S;
  futures_write : list byte -> S -> poll (io_result nat) * S;
  futures_flush : S -> poll (io_result unit) * S;
  futures_close : S -> poll (io_result unit) * S;
}.
Arguments tokio_read {S}. Arguments tokio_write {S}. Arguments tokio_flush {S}.
Arguments tokio_shutdown {S}. Arguments futures_read {S}. Arguments futures_write {S}.
Arguments futures_flush {S}. Arguments futures_close {S}.

Definition AsyncTcpStream {S} (s : TokioIO S) : FuturesIO S :=
  {| futures_read := tokio_read s; futures_write := tokio_write s; futures_flush := tokio_flush s;
     futures_close := tokio_shutdown s |}.
Definition AsyncTokioIO {S} (s : FuturesIO S) : TokioIO S :=
  {| tokio_read := futures_read s; tokio_write := futures_write s; tokio_flush := futures_flush s;
     tokio_shutdown := futures_close s |}.

(** Back and forth, a connection is itself. *)
Lemma adapters_inverse {S} (s : TokioIO S) : AsyncTokioIO (AsyncTcpStream s) = s.
Proof. by destruct s. Qed.
