(* ===== verification/Local.v ===== *)
(** * The local tunnel server (src/src/tunnel/local.rs)

    [handle_inbound]: what it takes a new connection for by the three bytes
    it peeks, and the handler it runs, up to the relay ([relay_connection],
    [relay_stream] of the file Relay).  The proxies themselves are in the
    files Socks5, Tls and Http. *)
From stdpp Require Import prelude strings.
From Stdlib Require Import ZArith Lia.
From S2P Require Import Prelude Io Text Tls Http Conn Socks5.

Local Open Scope Z_scope.

(** [str::to_uppercase]: the Unicode tables are a parameter; on ASCII it is
    the upper case of ASCII. *)
Class Uppercase := to_uppercase : string -> string.
Class UppercaseLaws (U : Uppercase) :=
  to_uppercase_ascii : forall l, Forall ascii l -> to_uppercase (str l) = str (upper <$> l).

(** What a connection is taken for. *)
Inductive protocol :=
  | PSocks5
  | PSocks4
  | PSni
  | PHttp
  | PHttps
  | PTransparent (target : string)
  | PUnknown.

Definition HTTP_METHODS : list string :=
  ["GET"; "PUT"; "POS"; "DEL"; "OPT"; "TRA"; "PAT"; "HEA"; "CON"; "UPG"]%string.

(** The buffer [[0u8; 3]] after a [peek] that found [l]. *)
Definition peek_buf (l : list byte) : list byte := take 3 (l ++ replicate 3 x00).

(** The tests of [handle_inbound] in their order; [origin] is what
    [get_origin_dst] answers: an address and its port. *)
Definition classify `{Uppercase} (peek_buf : list byte) (origin : option (string * Z))
    : io_result protocol :=
  b0 ← index 0 peek_buf;
  if decide (b0 = x05) then Ok PSocks5
  else if decide (b0 = x04) then Ok PSocks4
  else if valid_tls_version peek_buf then Ok PSni
  else
    let http :=
      match from_utf8 peek_buf with
      | Some prefix_str =>
          let prefix_str := to_uppercase prefix_str in
          if decide (prefix_str ∈ HTTP_METHODS)
          then Some (if decide (prefix_str = "CON"%string) then PHttps else PHttp)
          else None
      | None => None
      end in
    match http, origin with
    | Some p, _ => Ok p
    | None, Some (ip, port) => Ok (PTransparent (ip +:+ ":" +:+ show port))
    | None, None => Ok PUnknown
    end.

(** How a handler ends: in a relay of the client to a target, behind bytes
    read ahead ([relay_connection]) or through the HTTP reader
    ([relay_stream]), or without one. *)
Inductive Inbound :=
  | Relay (target : string) (relay_buf : list byte) (client : Conn)
  | RelayHttp (target : string) (hreader : HttpReader) (client : Conn)
  | Dropped (client : Conn).

Definition with_input (c : Conn) (s : source) : Conn :=
  {| input := s; output := output c; answers := answers c |}.

Section Inbound.
Context `{Uppercase} `{HttpParse} {A : BytesAlloc} {T : TwoWay}.

Definition SEPARATOR : list byte := CRLF ++ CRLF.

(** [handle_tls] *)
Definition inbound_tls (c : Conn) : option (io_result Inbound) :=
  let '(r, s) := peek_sni (input c) in
  match r with
  | None => None
  | Some (Ok r) =>
      let '(target, buf) := handle_tls_target r in
      Some (Ok (Relay target buf (with_input c s)))
  | Some (Err e) => Some (Err e)
  | Some Panic => Some Panic
  end.

(** [handle_http] *)
Definition inbound_http (fuel : nat) (c : Conn) : option (io_result Inbound) :=
  match read_until_separator fuel (input c) SEPARATOR with
  | None => None
  | Some (Ok (head, body), s) =>
      Some (match handle_http head body with
            | Ok (target, hreader) => Ok (RelayHttp target hreader (with_input c s))
            | Err e => Err e
            | Panic => Panic
            end)
  | Some (Err e, _) => Some (Err e)
  | Some (Panic, _) => Some Panic
  end.

(** [handle_https]: the bytes behind the header are dropped. *)
Definition inbound_https (fuel : nat) (c : Conn) : option (io_result Inbound) :=
  match read_until_separator fuel (input c) SEPARATOR with
  | None => None
  | Some (Ok (head, _), s) =>
      Some ('(target, conn_res) ← handle_https head;
            match write_all conn_res (with_input c s) with
            | (Ok _, c) => Ok (Relay target [] c)
            | (Err e, _) => Err e
            | (Panic, _) => Panic
            end)
  | Some (Err e, _) => Some (Err e)
  | Some (Panic, _) => Some Panic
  end.

(** [handle_inbound] of a connection whose [peek] answers [peeked]. *)
Definition handle_inbound (fuel : nat) (peeked : io_result (list byte))
    (origin : option (string * Z)) (c : Conn) : option (io_result Inbound) :=
  match (l ← peeked; classify (peek_buf l) origin) with
  | Err e => Some (Err e)
  | Panic => Some Panic
  | Ok PSocks5 =>
      Some (match handle_socks5 c with
            | (Ok target, c) => Ok (Relay target [] c)
            | (Err e, _) => Err e
            | (Panic, _) => Panic
            end)
  | Ok PSocks4 => Some (Err (make_error "socks4 unimplemented"))
  | Ok PSni => inbound_tls c
  | Ok PHttps => inbound_https fuel c
  | Ok PHttp => inbound_http fuel c
  | Ok (PTransparent target) => Some (Ok (Relay target [] c))
  | Ok PUnknown => Some (Ok (Dropped c))
  end.
End Inbound.

(** ** Lemmas *)

(** What a [peek] of an open connection answers: the first one to three
    bytes that are to come. *)
Definition peek_of (l : list byte) (s : source) : Prop :=
  exists k, (1 <= k <= 3)%nat /\ l = take k (stream s) /\ l <> [].

Lemma peek_buf_cons b l : exists l', peek_buf (b :: l) = b :: l'.
Proof. by eexists. Qed.

Lemma peek_head l s b rest : peek_of l s -> stream s = b :: rest -> exists l', l = b :: l'.
Proof. intros (k & Hk & -> & _) ->. destruct k; [lia|]. by eexists. Qed.

Lemma classify_socks5 `{Uppercase} l origin : classify (peek_buf (x05 :: l)) origin = Ok PSocks5.
Proof. destruct (peek_buf_cons x05 l) as [l' ->]. done. Qed.

Lemma classify_tls `{Uppercase} v m origin :
  3 <= u8v v -> classify (peek_buf [x16; v; m]) origin = Ok PSni.
Proof.
  intros Hv. unfold classify, peek_buf. simpl. unmonad. unfold valid_tls_version.
  by rewrite decide_False by lia.
Qed.


(** A single byte that was peeked alone is recognised for SOCKS only. *)
Lemma no_method_ends_in_zero b : str [b; x00; x00] ∉ HTTP_METHODS.
Proof.
  intros Hin. assert (bytes_of <$> HTTP_METHODS = bytes_of <$> HTTP_METHODS) as _ by done.
  apply (list_elem_of_fmap_2 bytes_of) in Hin.
  unfold bytes_of, str in Hin. rewrite String.list_byte_of_string_of_list_byte in Hin.
  cbn in Hin. rewrite !elem_of_cons in Hin. repeat destruct Hin as [[=]|Hin]. by apply elem_of_nil in Hin.
Qed.

Lemma valid_tls_version_lone b : valid_tls_version [b; x00; x00] = false.
Proof. unfold valid_tls_version. by repeat case_decide. Qed.

Lemma classify_lone `{U : Uppercase} `{!UppercaseLaws U} b origin :
  ascii b -> b <> x05 -> b <> x04 ->
  classify (peek_buf [b]) origin =
    Ok (match origin with
        | Some (ip, port) => PTransparent (ip +:+ ":" +:+ show port)
        | None => PUnknown
        end).
Proof.
  intros Hb H5 H4. change (peek_buf [b]) with [b; x00; x00]. unfold classify.
  rewrite valid_tls_version_lone. unfold index. simpl. unmonad. rewrite !decide_False by done.
  assert (Forall ascii [b; x00; x00]) as Ha by (repeat constructor; [done|by compute..]).
  rewrite from_utf8_ascii by done. rewrite to_uppercase_ascii by done. simpl.
  change (upper x00) with x00. rewrite decide_False by apply no_method_ends_in_zero.
  by destruct origin as [[ip port]|].
Qed.

(** A CONNECT request is recognised by its first three bytes. *)
Lemma classify_connect `{U : Uppercase} `{!UppercaseLaws U} origin :
  classify (peek_buf (bytes_of "CON")) origin = Ok PHttps.
Proof.
  change (peek_buf (bytes_of "CON")) with [x43; x4f; x4e]. unfold classify, index. simpl. unmonad.
  change (valid_tls_version [x43; x4f; x4e]) with false.
  assert (Forall ascii [x43; x4f; x4e]) as Ha by (repeat constructor; by compute).
  by rewrite to_uppercase_ascii.
Qed.

(** One or two bytes of it are not recognised. *)
Lemma short_connect_dropped `{U : Uppercase} `{!UppercaseLaws U} `{HttpParse} {A : BytesAlloc} {T : TwoWay} c k fuel :
  take 3 (stream (input c)) = bytes_of "CON" -> (1 <= k < 3)%nat ->
  handle_inbound fuel (Ok (take k (stream (input c)))) None c = Some (Ok (Dropped c)).
Proof.
  intros H3 Hk. replace (take k (stream (input c))) with (take k (bytes_of "CON"))
    by (rewrite <- H3, take_take; f_equal; lia).
  unfold handle_inbound. unmonad. enough (classify (peek_buf (take k (bytes_of "CON"))) None = Ok PUnknown) as -> by done.
  assert (k = 1 \/ k = 2)%nat as [-> | ->] by lia; [by apply (classify_lone x43)|].
  change (peek_buf (take 2 (bytes_of "CON"))) with [x43; x4f; x00]. unfold classify, index. simpl. unmonad.
  change (valid_tls_version [x43; x4f; x00]) with false.
  assert (Forall ascii [x43; x4f; x00]) as Ha by (repeat constructor; by compute).
  rewrite to_uppercase_ascii by done. rewrite decide_False; [done|]. apply (bool_decide_eq_false_1 _). vm_compute. reflexivity.
Qed.

(** The target of a request: its last Host field. *)
Definition host_of (req : HttpRequest) : string :=
  from_option (fun h => from_utf8_lossy (value h)) ""%string
    (last (filter (is_header "host") (headers req))).

Lemma handle_https_ok `{HttpParse} head n req :
  req_parse head = Complete n req ->
  handle_https head = Ok (host_of req, bytes_of "HTTP/1.0 200 Connection established" ++ CRLF ++ CRLF).
Proof. intros E. unfold handle_https, parse_request. rewrite E. cbn [negb]. by rewrite scan_host. Qed.

(** ** Properties *)

(** C26: a SOCKS5 client gets through.  For a client that offers "no
    authentication" and asks to connect to an IPv4, IPv6 or domain address,
    in any chunking and however much of it the peek sees, the connection is
    recognised, answered with the method and a success, and relayed to
    exactly the host and port asked for, from the first byte behind the
    request on. *)
Theorem inbound_socks5 `{Uppercase} `{HttpParse} {A : BytesAlloc} {T : TwoWay}
    fuel peeked origin methods a p rest c :
  METH_NO_AUTH ∈ methods -> (length methods < 256)%nat -> address_ok a -> 0 <= p < 65536 ->
  healthy (input c) -> answers c = [] ->
  stream (input c) = put_greeting methods ++ put_connect a p ++ rest ->
  peek_of peeked (input c) ->
  exists c', handle_inbound fuel (Ok peeked) origin c = Some (Ok (Relay (target_of a p) [] c')) /\
    stream (input c') = rest /\ output c' = output c ++ [x05; x00] ++ RESP.
Proof.
  intros Hm Hl Ha Hp Hh Hans E Hpk. unfold handle_inbound.
  assert (exists l, peeked = x05 :: l) as [l ->]
    by (eapply peek_head; [done|]; rewrite E; unfold put_greeting; by rewrite <- app_assoc).
  unmonad. rewrite classify_socks5.
  destruct (handle_socks5_ok methods a p rest c) as (c' & -> & Hs & Ho); [done..|]. by exists c'.
Qed.

(** C27: a TLS client is relayed to the name it asks for.  On a ClientHello
    record with any session id, cipher suites, compression methods and other
    extensions, in any chunking of the stream, once three bytes can be peeked
    the connection is relayed to port 443 of the server name; the remote is
    sent the record unchanged, what follows is left to the relay, and the
    client is sent nothing. *)
Theorem inbound_sni `{Uppercase} `{HttpParse} {A : BytesAlloc} {T : TwoWay}
    fuel origin h minor rest c :
  hello_ok h -> healthy (input c) -> stream (input c) = put_record minor h ++ rest ->
  exists c', handle_inbound fuel (Ok (take 3 (stream (input c)))) origin c
      = Some (Ok (Relay (str (host h) +:+ ":443") (put_record minor h) c')) /\
    stream (input c') = rest /\ output c' = output c.
Proof.
  intros Hok Hh E. unfold handle_inbound.
  assert (take 3 (stream (input c)) = [x16; x03; minor]) as ->
    by (rewrite E; unfold put_record; by rewrite <- app_assoc).
  unmonad. rewrite classify_tls by done. unfold inbound_tls.
  destruct (peek_sni_ok h minor rest (input c)) as (s' & -> & Hs & _); [done..|].
  eexists. split; [done|]. by split.
Qed.

(** C28: a CONNECT request is answered and relayed, once its first three bytes
    can be peeked.  When three bytes have arrived as the listener peeks, the
    header is in the stream, in any chunking of what is read then, and the
    parser recognises it, the client is answered 200 once and relayed to its
    Host field (not to the target of its request line), from behind the header
    on, less the bytes that were read along with the header, which are lost.
    When only one or two bytes have arrived as the listener peeks, and there is
    no original destination to relay to, the client is dropped without an
    answer and without having been read. *)
Theorem inbound_connect `{U : Uppercase} `{!UppercaseLaws U} `{HttpParse} {A : BytesAlloc} {T : TwoWay}
    `{!BytesAllocLaws A} `{!TwoWayLaws T} origin q c :
  healthy (input c) -> answers c = [] -> occurs_at SEPARATOR (stream (input c)) q ->
  take 3 (stream (input c)) = bytes_of "CON" ->
  (exists head lost rest, head ++ lost ++ rest = stream (input c) /\
    (exists p, length head = (p + 4)%nat /\ occurs_at SEPARATOR (head ++ lost) p /\
       forall q, (q < p)%nat -> ~ occurs_at SEPARATOR (head ++ lost) q) /\
    forall n req, req_parse head = Complete n req -> exists c',
      handle_inbound (S (weight (input c))) (Ok (take 3 (stream (input c)))) origin c
        = Some (Ok (Relay (host_of req) [] c')) /\
      stream (input c') = rest /\
      output c' = output c ++ bytes_of "HTTP/1.0 200 Connection established" ++ CRLF ++ CRLF) /\
  (forall k fuel, (1 <= k < 3)%nat ->
     handle_inbound fuel (Ok (take k (stream (input c)))) None c = Some (Ok (Dropped c))).
Proof.
  intros Hh Hans Hsep H3. split; [|by intros k fuel Hk; apply short_connect_dropped].
  destruct (read_until_loop_total (input c) [] SEPARATOR q Hh ltac:(done) Hsep) as [[[head lost] s'] E].
  assert (read_until_separator (S (weight (input c))) (input c) SEPARATOR = Some (Ok (head, lost), s')) as E'
    by exact E.
  apply read_until_loop_ok in E as [Hall Hfirst]; [|done].
  exists head, lost, (stream s'). split; [exact Hall|]. split; [exact Hfirst|].
  intros n req Hreq. unfold handle_inbound. rewrite H3. unmonad. rewrite classify_connect.
  unfold inbound_https. rewrite E', (handle_https_ok head n req Hreq). unmonad.
  rewrite write_ok by done. eexists. split; [done|]. by split.
Qed.

(** The length of the peek is not looked at.  When only the first byte of
    a connection has arrived, every protocol but SOCKS is missed: with no
    original destination to relay to, a TLS or HTTP client is dropped without
    an answer and without having been read. *)
Theorem lone_byte_dropped `{U : Uppercase} `{!UppercaseLaws U} `{HttpParse} {A : BytesAlloc}
    {T : TwoWay} fuel b c :
  ascii b -> b <> x05 -> b <> x04 ->
  handle_inbound fuel (Ok [b]) None c = Some (Ok (Dropped c)).
Proof. intros Hb H5 H4. unfold handle_inbound. unmonad. by rewrite classify_lone. Qed.

(** Clients for the witnesses. *)
Module LocalDemo.
#[export] Instance ascii_upper : Uppercase := fun s => str (upper <$> bytes_of s).
#[export] Instance ascii_upper_laws : UppercaseLaws ascii_upper.
Proof.
  intros l _. unfold to_uppercase, ascii_upper, bytes_of, str.
  by rewrite String.list_byte_of_string_of_list_byte.
Qed.
#[export] Instance no_parse : HttpParse := fun _ => ParseError.
Definition hello : Hello :=
  {| head := replicate 37 x00; session_id := [x01; x02]; ciphers := [x13; x01];
     compression := [x00]; before := [{| ext_type := 10; ext_data := [x00] |}];
     host := bytes_of "example.org"; after := [xff; x01; x00; x01; x00] |}.
Definition conn_of (s : source) : Conn := {| input := s; output := []; answers := [] |}.
Definition socks_client : Conn :=
  conn_of [Bytes [x05; x02; x01];
           Bytes [x00; x05; x01; x00; x03; x03; x61; x2e; x62; x01; xbb; x48]].
Definition tls_client : Conn :=
  conn_of [Bytes (take 7 (put_record x01 hello)); NotReady;
           Bytes (drop 7 (put_record x01 hello) ++ [x17])].
(** A parser that takes everything for one request. *)
Definition connect_request : HttpRequest :=
  {| method := Some "CONNECT"%string; path := Some "h:1"%string; version := Some 1;
     headers := [{| name := "Host"; value := bytes_of "h:1" |}] |}.
Definition connect_parse : HttpParse := fun _ => Complete 11 connect_request.
Definition connect_client : Conn :=
  conn_of [Bytes (bytes_of "CONNE"); NotReady; Bytes (bytes_of "CT" ++ CRLF); Bytes (CRLF ++ [x21]); Bytes [x22]].
Definition inbound := handle_inbound (A := Concrete.exact_alloc) (T := Concrete.naive_two_way) 0.
End LocalDemo.

Lemma inbound_socks5_witness :
  exists c', LocalDemo.inbound (Ok [x05; x02]) None LocalDemo.socks_client
      = Some (Ok (Relay (target_of (Domain [x61; x2e; x62]) 443) [] c')) /\
    stream (input c') = [x48] /\ output c' = [] ++ [x05; x00] ++ RESP.
Proof.
  apply (inbound_socks5 (A := Concrete.exact_alloc) (T := Concrete.naive_two_way)
           0 [x05; x02] None [x01; x00] (Domain [x61; x2e; x62]) 443 [x48]).
  - apply (bool_decide_eq_true_1 _). vm_compute. reflexivity.
  - simpl; lia.
  - split; [simpl; lia|]. vm_compute. discriminate.
  - lia.
  - apply (bool_decide_eq_true_1 _). vm_compute. reflexivity.
  - reflexivity.
  - vm_compute. reflexivity.
  - exists 2%nat. split; [lia|]. split; [reflexivity|discriminate].
Defined.

Lemma inbound_sni_witness :
  exists c', LocalDemo.inbound (Ok (take 3 (stream (input LocalDemo.tls_client)))) None
      LocalDemo.tls_client
      = Some (Ok (Relay (str (host LocalDemo.hello) +:+ ":443") (put_record x01 LocalDemo.hello) c')) /\
    stream (input c') = [x17] /\ output c' = [].
Proof.
  apply (inbound_sni (A := Concrete.exact_alloc) (T := Concrete.naive_two_way)
           0 None LocalDemo.hello x01 [x17]).
  - apply (bool_decide_eq_true_1 _). vm_compute. reflexivity.
  - apply (bool_decide_eq_true_1 _). vm_compute. reflexivity.
  - vm_compute. reflexivity.
Defined.

Lemma lone_byte_dropped_witness :
  LocalDemo.inbound (Ok [x16]) None LocalDemo.tls_client = Some (Ok (Dropped LocalDemo.tls_client)).
Proof.
  apply (lone_byte_dropped (UppercaseLaws0 := LocalDemo.ascii_upper_laws)
           (H := LocalDemo.no_parse) (A := Concrete.exact_alloc) (T := Concrete.naive_two_way)
           0 x16 LocalDemo.tls_client); [reflexivity|discriminate|discriminate].
Defined.

Lemma inbound_connect_witness :
  exists c', handle_inbound (H := LocalDemo.ascii_upper) (H0 := LocalDemo.connect_parse) (A := Concrete.exact_alloc) (T := Concrete.naive_two_way)
      (S (weight (input LocalDemo.connect_client))) (Ok (take 3 (stream (input LocalDemo.connect_client)))) None
      LocalDemo.connect_client = Some (Ok (Relay "h:1" [] c')) /\
    output c' = bytes_of "HTTP/1.0 200 Connection established" ++ CRLF ++ CRLF.
Proof.
  destruct (inbound_connect (UppercaseLaws0 := LocalDemo.ascii_upper_laws) (H := LocalDemo.connect_parse)
              (A := Concrete.exact_alloc) (T := Concrete.naive_two_way)
              None 7 LocalDemo.connect_client) as [(head & lost & rest & Hall & _ & H) _].
  - apply (bool_decide_eq_true_1 _). vm_compute. reflexivity.
  - reflexivity.
  - vm_compute. reflexivity.
  - vm_compute. reflexivity.
  - destruct (H 11%nat LocalDemo.connect_request) as (c' & E & _ & Ho).
    + reflexivity.
    + exists c'. split; [exact E|exact Ho].
Defined.
