(* ===== verification/Server.v ===== *)
(** * Listening and dialling (src/src/tunnel/local.rs, src/src/channel/rmux.rs)

    The two ends of the set-up: [start_tunnel_server], which turns a
    configured address into a listener and runs a handler for every
    connection, and [init_rmux_client], which turns the URL of a channel into
    a connection to the peer and a transport for [init_client]. *)
From stdpp Require Import prelude strings.
From Stdlib Require Import ZArith Lia.
From S2P Require Import Handshake Prelude Io Text Http Relay Conn Net.

Local Open Scope Z_scope.

(** [str::rfind] of a character. *)
Definition rfind_char (c : Ascii.ascii) (s : string) : option nat :=
  match find_char c (str (reverse (bytes_of s))) with
  | Some n => Some (String.length s - 1 - n)%nat
  | None => None
  end.

Definition colon : Ascii.ascii := Ascii.ascii_of_byte x3a.

(** A step that may fail with an error. *)
Definition attempt (r : option string) : io_result unit :=
  match r with Some e => Err e | None => Ok tt end.

(** ** The listener *)

Record TunnelConfig := {
  listen : string;
  tunnel_cipher : option CipherConfig;
  pac : list PACConfig;
}.

(** The URL of a listener: its scheme is [local] unless it names one, its port
    is that of the environment (by default 3000) unless it names one. *)
Definition listen_url (cfg_listen : string) (env_port : option string) : string :=
  let listen_str := if contains "://" cfg_listen then cfg_listen else "local://" +:+ cfg_listen in
  if decide (rfind_char colon listen_str = find_char colon listen_str)
  then listen_str +:+ ":" +:+ default "3000"%string env_port
  else listen_str.

Fixpoint init_all `{RegexNew} (l : list PACConfig) : partial (list PACConfig) :=
  match l with
  | [] => Ok []
  | p :: l => p ← Relay.init p; l ← init_all l; Ok (p :: l)
  end.

(** The tasks a listener spawns, with the id of their tunnel. *)
Inductive handler := HandleInbound | HandleRmux | HandleWebsocket.
#[export] Instance handler_eq_dec : EqDecision handler.
Proof. solve_decision. Defined.

Definition handler_of (scheme : string) : option handler :=
  if decide (scheme = "local"%string) then Some HandleInbound
  else if decide (scheme = "rmux"%string) then Some HandleRmux
  else if decide (scheme = "ws"%string) then Some HandleWebsocket
  else None.

(** The accept loop: [conns] is what [accept] answers, [None] an error, which
    ends it.  A connection that no handler wants is dropped, but counted. *)
Fixpoint accept_loop {S} (h : option handler) (seed : Z) (conns : list (option S))
    : list (Z * handler * S) :=
  match conns with
  | Some c :: conns =>
      (match h with Some h => [(seed, h, c)] | None => [] end)
      ++ accept_loop h (wrap 32 (seed + 1)) conns
  | _ => []
  end.

(** What [start_tunnel_server] does: the address it binds, the rules it hands
    to every handler, the tasks it spawns. *)
Record Served (S : Type) := {
  bound : string;
  served_pac : list PACConfig;
  tasks : list (Z * handler * S);
}.
Arguments bound {S}. Arguments served_pac {S}. Arguments tasks {S}.

Section Listener.
Context `{RegexNew} `{UrlParse}.

Definition start_tunnel_server {S} (cfg : TunnelConfig) (env_port : option string)
    (bind : string -> option string) (conns : list (option S)) : io_result (Served S) :=
  let listen_str := listen_url (listen cfg) env_port in
  match init_all (pac cfg) with
  | Panic => Panic
  | Err e => match e with end
  | Ok rules =>
      match url_parse listen_str with
      | None => Err (make_error "invalid listen url")
      | Some u =>
          h ← unwrap (host u);
          p ← unwrap (port u);
          let addr := h +:+ ":" +:+ show p in
          _ ← attempt (bind addr);
          Ok {| bound := addr; served_pac := rules;
                tasks := accept_loop (handler_of (scheme u)) 0 conns |}
      end
  end.
End Listener.

(** ** The client *)

(** What [init_client] is run over. *)
Inductive transport :=
  | Plain
  | WebSocket (url : string)
  | SecureWebSocket (domain url : string).

Definition client_url (url : string) : string :=
  if contains "://" url then url else "rmux://" +:+ url.

(** The address to connect to, and the name for TLS. *)
Definition client_addr (cfg : ChannelConfig) (u : Url) : io_result string :=
  match sni_proxy cfg with
  | Some v => Ok (if char_in colon v then v else v +:+ ":443")
  | None =>
      h ← unwrap (host u); p ← unwrap (port_or_known_default u); Ok (h +:+ ":" +:+ show p)
  end.
Definition client_domain (cfg : ChannelConfig) (u : Url) : io_result string :=
  match sni cfg with Some d => Ok d | None => unwrap (host u) end.

Section Client.
Context `{UrlParse}.

(** The environment: the TCP connect under its timeout, the TLS handshake for
    a domain, the WebSocket handshake for a URL; the answer is an error, if
    there is one. *)
Context (connect : string -> option string) (tls : string -> option string)
        (client_async : string -> option string).

(** [init_rmux_client] up to [init_client]: the address it connected to and the
    transport. *)
Definition init_rmux_client (cfg : ChannelConfig) : io_result (string * transport) :=
  let url := client_url (Relay.url cfg) in
  match url_parse url with
  | None => Err (make_io_error "invalid connect url")
  | Some conn_url =>
      addr ← client_addr cfg conn_url;
      domain ← client_domain cfg conn_url;
      _ ← attempt (connect addr);
      if decide (scheme conn_url = "rmux"%string) then Ok (addr, Plain)
      else if decide (scheme conn_url = "ws"%string) then
        _ ← attempt (make_io_error <$> client_async url); Ok (addr, WebSocket url)
      else if decide (scheme conn_url = "wss"%string) then
        _ ← attempt (tls domain);
        _ ← attempt (make_io_error <$> client_async url);
        Ok (addr, SecureWebSocket domain url)
      else Err (make_io_error "unknown url schema")
  end.

(** The end of it: [rc] is what [init_client] returned, [shutdown] what the
    shutdown of the WebSocket answers. *)
Definition finish_client (t : transport) (rc shutdown : io_result unit) : io_result unit :=
  match t with
  | Plain => rc
  | WebSocket _ | SecureWebSocket _ _ =>
      match shutdown with Ok _ => rc | r => r end
  end.
End Client.

(** ** Lemmas *)

Lemma init_all_ready `{RegexNew} l l' :
  init_all l = Ok l' ->
  ready_rules l' /\
  Forall2 (fun p p' => pac_host p' = pac_host p /\ pac_channel p' = pac_channel p /\
    re p' = match re p with Some r => Some r | None => regex_new (pac_host p) end) l l'.
Proof.
  unfold ready_rules. revert l'. induction l as [|p l IH]; intros l' E; simpl in E; unmonad.
  { simplify_eq. by split. }
  destruct (Relay.init p) as [p'|[]|] eqn:Ep; [|done]. destruct (init_all l) as [l1|[]|]; simplify_eq.
  destruct (IH l1 eq_refl) as [IH1 IH2]. unfold Relay.init in Ep.
  destruct (re p) as [r|] eqn:Er; simplify_eq.
  - split; (constructor; [|done]); [by eexists|by rewrite Er].
  - destruct (regex_new (pac_host p)) as [r|] eqn:Hr; simplify_eq.
    split; (constructor; [|done]); [by eexists|by rewrite Er].
Qed.

(** A rule whose pattern is not a regular expression. *)
Definition bad_rule `{RegexNew} (p : PACConfig) : Prop := re p = None /\ regex_new (pac_host p) = None.

Lemma init_panics `{RegexNew} p : Relay.init p = Panic <-> bad_rule p.
Proof. unfold Relay.init, bad_rule. repeat case_match; naive_solver. Qed.

Lemma init_all_panics `{RegexNew} l : init_all l = Panic <-> Exists bad_rule l.
Proof.
  induction l as [|p l IH]; cbn [init_all]; unmonad; [by rewrite Exists_nil|].
  rewrite Exists_cons, <- IH, <- init_panics. destruct (Relay.init p) as [p'|[]|]; [|tauto].
  destruct (init_all l) as [l'|[]|]; split; (done || by intros [?|?] || by right).
Qed.

(** The address and the domain of a client: missing, or there. *)
Lemma client_addr_cases cfg u :
  let missing := sni_proxy cfg = None /\ (host u = None \/ port_or_known_default u = None) in
  (missing /\ client_addr cfg u = Panic) \/ (exists a, client_addr cfg u = Ok a /\ ~ missing).
Proof.
  unfold client_addr, unwrap.
  destruct (sni_proxy cfg), (host u), (port_or_known_default u); simpl; unmonad; naive_solver.
Qed.

Lemma client_domain_cases cfg u :
  let missing := sni cfg = None /\ host u = None in
  (missing /\ client_domain cfg u = Panic) \/ (exists d, client_domain cfg u = Ok d /\ ~ missing).
Proof. unfold client_domain, unwrap. destruct (sni cfg), (host u); naive_solver. Qed.

(** The connections before the first error of [accept]. *)
Fixpoint accepted {S} (conns : list (option S)) : list S :=
  match conns with Some c :: conns => c :: accepted conns | _ => [] end.

Lemma accept_loop_spec {S} h seed (conns : list (option S)) :
  is_u 32 seed ->
  accept_loop (Some h) seed conns =
    zip_with (fun i c => (i, h, c)) (ids_from seed (length (accepted conns))) (accepted conns).
Proof.
  revert seed. induction conns as [|[c|] conns IH]; intros seed Hs; [done| |done].
  cbn [accept_loop accepted length]. rewrite ids_from_S by done. cbn [zip_with app]. f_equal.
  apply IH, wrap_range. lia.
Qed.

Lemma accept_none {S} seed (conns : list (option S)) : accept_loop None seed conns = [].
Proof. revert seed. by induction conns as [|[c|] conns IH]; intros seed; simpl. Qed.

(** ** Properties *)

(** C30: what a listener serves, and what stops it.  It starts exactly when
    every rule is a regular expression, the address parses with a host and a
    port of its own, and binding that host and port succeeds; it then hands
    rules that are ready to be matched to one task of the scheme's handler for
    every connection before the first error of [accept], under consecutive
    tunnel ids.  It errs exactly when the rules are good and the address does
    not parse or its own host and port cannot be bound, with that error; it
    panics exactly on a bad rule or, the rules good, on an address without
    host or port, the default port of a scheme counting as none. *)
Theorem tunnel_server_serves `{RegexNew} `{UrlParse} {S} cfg env_port bind (conns : list (option S)) :
  let url := url_parse (listen_url (listen cfg) env_port) in
  match start_tunnel_server cfg env_port bind conns with
  | Ok s =>
      ~ Exists bad_rule (pac cfg) /\ ready_rules (served_pac s) /\
      (exists u h p, url = Some u /\ host u = Some h /\ port u = Some p /\
         bound s = h +:+ ":" +:+ show p /\ bind (bound s) = None /\
         tasks s = match handler_of (scheme u) with
                   | Some hd => zip_with (fun i c => (i, hd, c))
                                  (ids_from 0 (length (accepted conns))) (accepted conns)
                   | None => []
                   end)
  | Err e =>
      ~ Exists bad_rule (pac cfg) /\
      (url = None /\ e = make_error "invalid listen url" \/
       exists u h p, url = Some u /\ host u = Some h /\ port u = Some p /\ bind (h +:+ ":" +:+ show p) = Some e)
  | Panic =>
      Exists bad_rule (pac cfg) \/
      ~ Exists bad_rule (pac cfg) /\ exists u, url = Some u /\ (host u = None \/ port u = None)
  end.
Proof.
  intros url. unfold start_tunnel_server. fold url.
  destruct (init_all (pac cfg)) as [rules|[]|] eqn:Hi; [|left; by apply init_all_panics].
  assert (~ Exists bad_rule (pac cfg)) as Hbad by (rewrite <- init_all_panics; congruence).
  apply init_all_ready in Hi as [Hready _].
  destruct url as [u|]; [|auto]. unfold unwrap.
  destruct (host u) as [h|] eqn:Hh; unmonad; [|right; eauto].
  destruct (port u) as [p|] eqn:Hp; [|right; eauto].
  destruct (bind _) as [e|] eqn:Hb; cbn [attempt]; [split; [done|]; right; by exists u, h, p|].
  split; [done|]. split; [done|]. exists u, h, p. cbn [bound tasks].
  split_and!; try done. destruct (handler_of (scheme u)); [|apply accept_none].
  apply accept_loop_spec. unfold is_u. lia.
Qed.

(** Where a channel's client connects.  It reaches the SNI proxy if one is
    configured (on port 443 unless it names another) and the host and port of
    the URL otherwise, speaks the transport of the URL's scheme, and shows in
    TLS the configured name or the host; it panics exactly when the part of
    the URL it needs for that is missing. *)
Theorem client_dials `{UrlParse} connect tls client_async cfg :
  let url := client_url (Relay.url cfg) in
  (init_rmux_client connect tls client_async cfg = Panic <->
     exists u, url_parse url = Some u /\
       ((sni_proxy cfg = None /\ (host u = None \/ port_or_known_default u = None)) \/
        (sni cfg = None /\ host u = None))) /\
  (forall addr t, init_rmux_client connect tls client_async cfg = Ok (addr, t) ->
     exists u, url_parse url = Some u /\ client_addr cfg u = Ok addr /\ connect addr = None /\
       match t with
       | Plain => scheme u = "rmux"%string
       | WebSocket w => scheme u = "ws"%string /\ w = url /\ client_async url = None
       | SecureWebSocket d w => scheme u = "wss"%string /\ w = url /\
           client_domain cfg u = Ok d /\ tls d = None /\ client_async url = None
       end).
Proof.
  intros url. unfold init_rmux_client. fold url. destruct (url_parse url) as [u|].
  2: { split; [split; [done|]; by intros (u & ? & _)|done]. }
  destruct (client_addr_cases cfg u) as [(Ha & ->)|(a & Ea & Ha)]; [|rewrite Ea]; unmonad.
  { split; [|done]. split; [|done]. intros _. exists u. auto. }
  destruct (client_domain_cases cfg u) as [(Hd & ->)|(d & Ed & Hd)]; [|rewrite Ed].
  { split; [|done]. split; [|done]. intros _. exists u. auto. }
  split.
  - split; [|intros (u0 & [= <-] & [H1|H1]); [by destruct Ha|by destruct Hd]].
    destruct (connect a), (tls d), (client_async url); simpl; repeat case_decide; done.
  - intros addr t E. exists u. split; [done|]. destruct (connect a) eqn:Hc; [done|].
    cbn [attempt] in E. case_decide; [simplify_eq; by split_and!|]. case_decide.
    { destruct (client_async url); simpl in E; simplify_eq; by split_and!. }
    case_decide; [|done]. destruct (tls d) eqn:Ht; [done|]. cbn [attempt] in E.
    destruct (client_async url); simpl in E; simplify_eq; by split_and!.
Qed.

(** Configurations for the witnesses. *)
Module ServerDemo.
#[export] Instance regex : RegexNew := fun p => if decide (p = "("%string) then None else Some (fun _ => true).
(** A parser that knows four URLs. *)
#[export] Instance urls : UrlParse := fun s =>
  if decide (s = "local://127.0.0.1:48100"%string)
  then Some {| scheme := "local"; host := Some "127.0.0.1"%string; port := Some 48100;
               port_or_known_default := Some 48100 |}
  else if decide (s = "ws://0.0.0.0:80"%string)
  then Some {| scheme := "ws"; host := Some "0.0.0.0"%string; port := None;
               port_or_known_default := Some 80 |}
  else None.
Definition rule : PACConfig := {| pac_host := ".*"; pac_channel := "rmux"; re := None |}.
Definition local : TunnelConfig := {| listen := "127.0.0.1:48100"; tunnel_cipher := None; pac := [rule] |}.
Definition ws : TunnelConfig := {| listen := "ws://0.0.0.0:80"; tunnel_cipher := None; pac := [] |}.
End ServerDemo.

(** The concrete runs: two connections before an error of [accept]; a listener
    on the default port of its scheme. *)
Example local_server_runs :
  fmap tasks (@start_tunnel_server ServerDemo.regex ServerDemo.urls nat ServerDemo.local None (fun _ => None)
    [Some 7%nat; Some 8%nat; None; Some 9%nat])
  = Ok [(0, HandleInbound, 7%nat); (1, HandleInbound, 8%nat)].
Proof. vm_compute. reflexivity. Qed.
Example default_port_panics :
  @start_tunnel_server ServerDemo.regex ServerDemo.urls nat ServerDemo.ws None (fun _ => None) [] = Panic.
Proof. vm_compute. reflexivity. Qed.
