(* ===== verification/Program.v ===== *)
(** * The program (src/src/bin/main.rs, src/src/lib.rs, src/src/config/mod.rs)

    [main] reads the configuration and runs [start_rsnova], which starts the
    logger, spawns a tunnel server for every configured tunnel and becomes the
    routine of the channels.  The command line parser, the file system, the
    TOML parser and the logger are parameters. *)
From stdpp Require Import prelude gmap list strings.
From Stdlib Require Import ZArith Lia.
From S2P Require Import Prelude Io Event Text Handshake Session Relay Supervisor Net Server.

(** ** Configuration *)

Record LogConfig := { logtostderr : bool; level : string; logdir : string }.

Record Config := {
  log : LogConfig;
  tunnel : list TunnelConfig;
  channel : option (list ChannelConfig);
}.

(** What the builder of flexi_logger is told: the level; the directory of the
    log files, with the size at which they rotate and the number kept; whether
    messages from [Info] are duplicated to the standard error. *)
Record Logger := { with_str : string; to_file : option (string * Z * Z); to_stderr : bool }.

Definition logger_of (cfg : LogConfig) : Logger :=
  {| with_str := level cfg;
     to_file := if decide (logdir cfg = ""%string) then None else Some (logdir cfg, 1024 * 1024, 10)%Z;
     to_stderr := logtostderr cfg |}.

(** ** [start_rsnova] and [main] *)

(** The running program: what became of the task of every tunnel server, and
    the routine with the channels it was given. *)
Record Program (C : Type) := {
  servers : list (option (Served C));
  routine : Sup;
  routed : option (list ChannelConfig);
}.
Arguments servers {C}. Arguments routine {C}. Arguments routed {C}.

(** A spawned task: its error is logged, its panic ends it alone. *)
Definition spawned {A} (r : io_result A) : option A := match r with Ok a => Some a | _ => None end.

(** What clap makes of the command line: the process ends there (help, version,
    arguments it does not know), or the value of [config] is the one given, if
    there is one. *)
Inductive arguments := Exits | Given (file : option string).

(** [default_value] of the argument. *)
Definition confile_name (file : option string) : string := default "./client.toml"%string file.

(** What [main] comes to: the process has ended in the command line parser, or the program runs. *)
Inductive outcome (C : Type) := Exited | Runs (p : Program C).
Arguments Exited {C}. Arguments Runs {C}.

Section Program.
Context `{RegexNew} `{UrlParse} {C : Type}.
(** [Logger::start]; the environment variable PORT; [bind] and what [accept]
    answers, by the address of the tunnel; the tables before the start. *)
Context (logger_start : Logger -> io_result unit) (env_port : option string).
Context (bind : string -> option string) (conns : TunnelConfig -> list (option C)) (w : World).
(** [get_matches] of clap. *)
Context (get_matches : list string -> arguments).
(** [File::open] followed by [read_to_string], each with its error; the parser. *)
Context (file_open : string -> io_result unit) (read_to_string : string -> io_result string).
Context (from_toml : string -> option Config).

Definition start_rsnova (cfg : Config) : io_result (Program C) :=
  match logger_start (logger_of (log cfg)) with
  | Ok _ =>
      Ok {| servers := (fun c => spawned (start_tunnel_server c env_port bind (conns c))) <$> tunnel cfg;
            routine := sup_new w; routed := channel cfg |}
  | _ => Panic
  end.

Definition main (args : list string) : io_result (outcome C) :=
  match get_matches args with
  | Exits => Ok Exited
  | Given file =>
      let name := confile_name file in
      match file_open name with
      | Ok _ =>
          match read_to_string name with
          | Ok confstr =>
              match from_toml confstr with
              | Some cfg => p ← start_rsnova cfg; Ok (Runs p)
              | None => Panic
              end
          | _ => Panic
          end
      | _ => Panic
      end
  end.
End Program.

(** ** Properties *)

(** What [main] comes to.  When clap does not end the process, it starts
    exactly when the configuration can be read and parsed and the logger
    starts, and panics otherwise; it never returns an error.  Then every tunnel
    has a task of its own, and the channels are in the hands of the routine,
    which, whatever happens afterwards, goes on, is sending to a session, or
    waits for one that takes no events. *)
Theorem program_starts `{RegexNew} `{UrlParse} `{Bincode ConnectRequest} {C}
    logger_start env_port bind (conns : TunnelConfig -> list (option C)) w get_matches file_open read_to_string
    from_toml args :
  match main logger_start env_port bind conns w get_matches file_open read_to_string from_toml args, get_matches args with
  | Ok Exited, m => m = Exits
  | Ok (Runs p), Given file => exists s cfg, read_to_string (confile_name file) = Ok s /\ from_toml s = Some cfg /\
      logger_start (logger_of (log cfg)) = Ok tt /\ length (servers p) = length (tunnel cfg) /\
      routed p = channel cfg /\
      (forall i c sv, tunnel cfg !! i = Some c -> start_tunnel_server c env_port bind (conns c) = Ok sv ->
         servers p !! i = Some (Some sv)) /\
      (forall acts S, sup_run (routed p) acts (routine p) = Some S -> crashed S = false ->
         (sending S = [] /\ forall t, is_Some (sup_step (routed p) (Tick t) S)) \/
         is_Some (sup_step (routed p) Sends S) \/ exists evtx, stalled evtx S)
  | Panic, Given file => (forall u, file_open (confile_name file) <> Ok u) \/
      (forall s, read_to_string (confile_name file) = Ok s ->
         match from_toml s with Some cfg => forall u, logger_start (logger_of (log cfg)) <> Ok u | None => True end)
  | _, _ => False
  end.
Proof.
  unfold main. destruct (get_matches args) as [|file]; [done|].
  destruct (file_open _) as [[]| |]; [|by left..].
  destruct (read_to_string _) as [s| |] eqn:Hs; [|by right..].
  destruct (from_toml s) as [cfg|] eqn:Hc; [|right; intros s' E; simplify_eq; by rewrite Hc].
  unfold start_rsnova. destruct (logger_start _) as [[]| |] eqn:Hl;
    [|right; intros s' E; simplify_eq; by rewrite Hc, Hl..].
  cbn. exists s, cfg. split_and!; [done..|cbn [servers]; by rewrite length_fmap|done| |].
  - intros i c sv Hi Hsv. cbn [servers]. by rewrite list_lookup_fmap, Hi; simpl; rewrite Hsv.
  - intros acts S E Hcr. destruct (run_sends (channel cfg) acts (sup_new w) S) as [Hsd _]; [constructor|done|done|].
    by apply goes_on.
Qed.

(** A listener on a default port panics in its task; the other tunnel and the
    routine run. *)
Example one_tunnel_of_two :
  match @main ServerDemo.regex ServerDemo.urls nat (fun _ => Ok tt) None (fun _ => None) (fun _ => []) SupDemo.nowhere
       (fun _ => Given None) (fun _ => Ok tt) (fun _ => Ok "toml"%string)
       (fun _ => Some {| log := {| logtostderr := true; level := "info"; logdir := "" |};
                         tunnel := [ServerDemo.ws; ServerDemo.local]; channel := None |}) [] with
  | Ok (Runs p) => option_map bound <$> servers p
  | _ => []
  end = [None; Some "127.0.0.1:48100"%string].
Proof. vm_compute. reflexivity. Qed.
